(** * Notepad Tools: the local data store, the query pipeline and the
    import merge of [app.js], embedded in Rocq.

    The JavaScript of [app.js] keeps one global [state] whose [notes] and
    [tools] arrays hold references to mutable record objects, mirrors them
    into two IndexedDB object stores, and reads its query parameters from
    DOM inputs.  The embedding keeps that shape:

    - records are objects with optional fields (a field that is absent
      reads as [undefined]); the fields are those of notes and tools, with
      the types the program gives them: text, booleans, sequences of tags,
      timestamps;
    - objects and arrays live in a heap and are named by locations, so that
      in-place mutation ([note.updatedAt = ...], [Object.assign],
      [Array.prototype.sort], [push]) and aliasing are visible;
    - every function of [app.js] is a computation in a state-and-exception
      monad: a thrown exception (a rejected promise) keeps the mutations
      made before it, as in JavaScript;
    - the browser (string case mapping, collation, the system clock,
      [crypto.randomUUID], and whether an IndexedDB request succeeds) is a
      parameter, the class [Browser].

    [async] functions are run to completion at each call: the program is
    driven by one event at a time. *)

From Stdlib Require Import ZArith String List Lia Ascii Sorted.
From stdpp Require Import base option list gmap strings pretty relations.

Local Open Scope Z_scope.

(** ** The data model *)

(** A record object.  Notes carry [title], [content], [pinned] and
    [archived]; tools carry [name], [url], [description] and [favorite];
    both carry [id], [tags], [createdAt] and [updatedAt].  A parsed import
    file may omit any of them, so every field is optional: [None] is the
    absent property.  A timestamp is the instant (milliseconds since the
    epoch) that the ISO-8601 text stored by the program denotes. *)
Record obj : Type := Obj {
  id : option string;
  title : option string;
  content : option string;
  name : option string;
  url : option string;
  description : option string;
  tags : option (list string);
  pinned : option bool;
  archived : option bool;
  favorite : option bool;
  createdAt : option Z;
  updatedAt : option Z
}.

(** The object literal [{}]. *)
Definition empty_obj : obj :=
  Obj None None None None None None None None None None None None.

#[global] Instance obj_inhabited : Inhabited obj := populate empty_obj.

#[global] Instance obj_eq_dec : EqDecision obj.
Proof. solve_decision. Defined.

(** [o.updatedAt = t] *)
Definition set_updatedAt (t : Z) (o : obj) : obj :=
  Obj (id o) (title o) (content o) (name o) (url o) (description o) (tags o)
      (pinned o) (archived o) (favorite o) (createdAt o) (Some t).

(** [o.tags = l] *)
Definition set_tags (l : list string) (o : obj) : obj :=
  Obj (id o) (title o) (content o) (name o) (url o) (description o) (Some l)
      (pinned o) (archived o) (favorite o) (createdAt o) (updatedAt o).

(** [o.favorite = b] *)
Definition set_favorite (b : bool) (o : obj) : obj :=
  Obj (id o) (title o) (content o) (name o) (url o) (description o) (tags o)
      (pinned o) (archived o) (Some b) (createdAt o) (updatedAt o).

(** One property of [Object.assign(target, source)]: the source's value
    when the source has the property, the target's otherwise. *)
Definition over {A} (source target : option A) : option A :=
  match source with
  | Some v => Some v
  | None => target
  end.

(** [Object.assign(target, source)]: every own property of [source] is
    written to [target]. *)
Definition Object_assign (target source : obj) : obj :=
  Obj (over (id source) (id target))
      (over (title source) (title target))
      (over (content source) (content target))
      (over (name source) (name target))
      (over (url source) (url target))
      (over (description source) (description target))
      (over (tags source) (tags target))
      (over (pinned source) (pinned target))
      (over (archived source) (archived target))
      (over (favorite source) (favorite target))
      (over (createdAt source) (createdAt target))
      (over (updatedAt source) (updatedAt target)).


Inductive field : Type :=
  | F_id | F_title | F_content | F_name | F_url | F_description | F_tags
  | F_pinned | F_archived | F_favorite | F_createdAt | F_updatedAt.


(** Truthiness of a boolean property that may be absent. *)
Definition truthy (b : option bool) : bool :=
  match b with
  | Some true => true
  | _ => false
  end.

(** [!o.favorite] *)
Definition js_not (b : option bool) : bool := negb (truthy b).

(** The two object stores of the database. *)
Inductive storeName : Type := NotesStore | ToolsStore.

(** The global [state], the heap it points into, the DOM inputs the query
    functions read, the two object stores, and how many readings of the
    clock, UUIDs and store requests have been consumed so far. *)
Record State : Type := mkState {
  objs : gmap nat obj;             (* the record objects *)
  arrs : gmap nat (list nat);      (* the arrays of object references *)
  notes : nat;                     (* state.notes *)
  tools : nat;                     (* state.tools *)
  currentNote : option nat;        (* state.currentNote *)
  activeTagFilter : option string; (* state.activeTagFilter *)
  isDirty : bool;                  (* state.isDirty *)
  notes_search : string;           (* #notes-search .value *)
  notes_sort : string;             (* #notes-sort .value *)
  tools_search : string;           (* #tools-search .value *)
  tools_sort : string;             (* #tools-sort .value *)
  db_notes : gmap string obj;      (* object store 'notes', keyed by id *)
  db_tools : gmap string obj;      (* object store 'tools', keyed by id *)
  ticks : nat;                     (* clock readings taken *)
  requests : nat;                  (* store requests issued *)
  uuids : nat                      (* UUIDs drawn *)
}.

Definition set_objs (v : gmap nat obj) (s : State) : State :=
  mkState v (arrs s) (notes s) (tools s) (currentNote s) (activeTagFilter s)
    (isDirty s) (notes_search s) (notes_sort s) (tools_search s) (tools_sort s)
    (db_notes s) (db_tools s) (ticks s) (requests s) (uuids s).

Definition set_arrs (v : gmap nat (list nat)) (s : State) : State :=
  mkState (objs s) v (notes s) (tools s) (currentNote s) (activeTagFilter s)
    (isDirty s) (notes_search s) (notes_sort s) (tools_search s) (tools_sort s)
    (db_notes s) (db_tools s) (ticks s) (requests s) (uuids s).

Definition set_notes (v : nat) (s : State) : State :=
  mkState (objs s) (arrs s) v (tools s) (currentNote s) (activeTagFilter s)
    (isDirty s) (notes_search s) (notes_sort s) (tools_search s) (tools_sort s)
    (db_notes s) (db_tools s) (ticks s) (requests s) (uuids s).

Definition set_tools (v : nat) (s : State) : State :=
  mkState (objs s) (arrs s) (notes s) v (currentNote s) (activeTagFilter s)
    (isDirty s) (notes_search s) (notes_sort s) (tools_search s) (tools_sort s)
    (db_notes s) (db_tools s) (ticks s) (requests s) (uuids s).

Definition set_currentNote (v : option nat) (s : State) : State :=
  mkState (objs s) (arrs s) (notes s) (tools s) v (activeTagFilter s)
    (isDirty s) (notes_search s) (notes_sort s) (tools_search s) (tools_sort s)
    (db_notes s) (db_tools s) (ticks s) (requests s) (uuids s).

Definition set_isDirty (v : bool) (s : State) : State :=
  mkState (objs s) (arrs s) (notes s) (tools s) (currentNote s)
    (activeTagFilter s) v (notes_search s) (notes_sort s) (tools_search s)
    (tools_sort s) (db_notes s) (db_tools s) (ticks s) (requests s) (uuids s).

Definition set_db_notes (v : gmap string obj) (s : State) : State :=
  mkState (objs s) (arrs s) (notes s) (tools s) (currentNote s)
    (activeTagFilter s) (isDirty s) (notes_search s) (notes_sort s)
    (tools_search s) (tools_sort s) v (db_tools s) (ticks s) (requests s)
    (uuids s).

Definition set_db_tools (v : gmap string obj) (s : State) : State :=
  mkState (objs s) (arrs s) (notes s) (tools s) (currentNote s)
    (activeTagFilter s) (isDirty s) (notes_search s) (notes_sort s)
    (tools_search s) (tools_sort s) (db_notes s) v (ticks s) (requests s)
    (uuids s).

Definition set_ticks (v : nat) (s : State) : State :=
  mkState (objs s) (arrs s) (notes s) (tools s) (currentNote s)
    (activeTagFilter s) (isDirty s) (notes_search s) (notes_sort s)
    (tools_search s) (tools_sort s) (db_notes s) (db_tools s) v (requests s)
    (uuids s).

Definition set_requests (v : nat) (s : State) : State :=
  mkState (objs s) (arrs s) (notes s) (tools s) (currentNote s)
    (activeTagFilter s) (isDirty s) (notes_search s) (notes_sort s)
    (tools_search s) (tools_sort s) (db_notes s) (db_tools s) (ticks s) v
    (uuids s).

Definition set_uuids (v : nat) (s : State) : State :=
  mkState (objs s) (arrs s) (notes s) (tools s) (currentNote s)
    (activeTagFilter s) (isDirty s) (notes_search s) (notes_sort s)
    (tools_search s) (tools_sort s) (db_notes s) (db_tools s) (ticks s)
    (requests s) v.

(** The query inputs: the tag filter and the two search boxes. *)
Definition set_query (tag : option string) (notes_q tools_q : string)
    (s : State) : State :=
  mkState (objs s) (arrs s) (notes s) (tools s) (currentNote s) tag
    (isDirty s) notes_q (notes_sort s) tools_q (tools_sort s)
    (db_notes s) (db_tools s) (ticks s) (requests s) (uuids s).

(** The object store named [sn], and the mirror array that goes with it. *)
Definition db (sn : storeName) (s : State) : gmap string obj :=
  match sn with
  | NotesStore => db_notes s
  | ToolsStore => db_tools s
  end.

Definition set_db (sn : storeName) (v : gmap string obj) (s : State) : State :=
  match sn with
  | NotesStore => set_db_notes v s
  | ToolsStore => set_db_tools v s
  end.

Definition mirror (sn : storeName) (s : State) : nat :=
  match sn with
  | NotesStore => notes s
  | ToolsStore => tools s
  end.

(** Dereferencing.  A reference held by a running program always points at
    a live cell; the defaults only make the accessors total. *)
Definition get_obj (s : State) (r : nat) : obj := default empty_obj (objs s !! r).
Definition get_arr (s : State) (a : nat) : list nat := default [] (arrs s !! a).

(** The records of a mirror, in array order, by value. *)
Definition records (sn : storeName) (s : State) : list obj :=
  get_obj s <$> get_arr s (mirror sn s).

(** The text properties that the query pipeline reads from a note, and
    from a tool, are present. *)
Definition note_text (o : obj) : Prop :=
  is_Some (title o) /\ is_Some (content o) /\ is_Some (tags o).

Definition tool_text (o : obj) : Prop :=
  is_Some (name o) /\ is_Some (description o) /\ is_Some (url o) /\
  is_Some (tags o).

(** ** The browser *)

Class Browser : Type := {
  (** [String.prototype.toLowerCase] *)
  toLowerCase : string -> string;
  (** it never turns a non-empty string into the empty one *)
  toLowerCase_empty : forall q, toLowerCase q = "" -> q = "";
  (** [String.prototype.localeCompare]: negative, zero or positive *)
  localeCompare : string -> string -> Z;
  (** the [n]-th reading of the system clock, [new Date()] *)
  clock : nat -> Z;
  (** the [n]-th result of [crypto.randomUUID()] *)
  randomUUID : nat -> string;
  (** whether the [n]-th IndexedDB request ends in [onerror] (or its
      transaction cannot be opened) *)
  request_fails : nat -> bool
}.

(** ** Computations *)

Inductive error : Type :=
  | TypeError      (* a property of undefined was read *)
  | DataError      (* IndexedDB: the record has no valid key *)
  | StorageError.  (* IndexedDB: the request failed *)

Inductive result (A : Type) : Type :=
  | Ok (a : A)
  | Throw (e : error).
Arguments Ok {A} a.
Arguments Throw {A} e.

#[global] Instance error_eq_dec : EqDecision error.
Proof. solve_decision. Defined.

(** A computation of [app.js]: from a state to a value or an exception,
    and the state it leaves. *)
Definition M (A : Type) : Type := State -> result A * State.

Definition ret {A} (a : A) : M A := fun s => (Ok a, s).
Definition throw {A} (e : error) : M A := fun s => (Throw e, s).
Definition bind {A B} (m : M A) (k : A -> M B) : M B :=
  fun s => match m s with
           | (Ok a, s') => k a s'
           | (Throw e, s') => (Throw e, s')
           end.

Notation "'let*' x ':=' m 'in' k" := (bind m (fun x => k))
  (at level 10, x pattern, m at level 100, k at level 200).
Notation "m ';;' k" := (bind m (fun _ => k))
  (at level 100, k at level 200, right associativity).

(** [try { m } catch (e) { h }] *)
Definition try_catch {A} (m : M A) (h : error -> M A) : M A :=
  fun s => match m s with
           | (Ok a, s') => (Ok a, s')
           | (Throw e, s') => h e s'
           end.

Definition get : M State := fun s => (Ok s, s).
Definition modify (f : State -> State) : M unit := fun s => (Ok tt, f s).

(** Lifting a value that may be an exception. *)
Definition lift {A} (r : result A) : M A := fun s => (r, s).

(** Reading and writing heap cells. *)
Definition read_obj (r : nat) : M obj := fun s => (Ok (get_obj s r), s).
Definition read_arr (a : nat) : M (list nat) := fun s => (Ok (get_arr s a), s).

Definition update_obj (r : nat) (f : obj -> obj) : M unit :=
  modify (fun s => set_objs (<[r := f (get_obj s r)]> (objs s)) s).

Definition write_arr (a : nat) (l : list nat) : M unit :=
  modify (fun s => set_arrs (<[a := l]> (arrs s)) s).

(** A new object, a new array. *)
Definition new_obj (o : obj) : M nat :=
  fun s => let r := fresh (dom (objs s)) in
           (Ok r, set_objs (<[r := o]> (objs s)) s).

Definition new_arr (l : list nat) : M nat :=
  fun s => let a := fresh (dom (arrs s)) in
           (Ok a, set_arrs (<[a := l]> (arrs s)) s).

Section Program.
Context {browser : Browser}.

(** [new Date().toISOString()] *)
Definition now : M Z :=
  fun s => (Ok (clock (ticks s)), set_ticks (S (ticks s)) s).

(** [crypto.randomUUID()] *)
Definition crypto_randomUUID : M string :=
  fun s => (Ok (randomUUID (uuids s)), set_uuids (S (uuids s)) s).

(** One IndexedDB request: it is issued, and the browser decides whether
    it fails. *)
Definition request : M unit :=
  fun s => let s' := set_requests (S (requests s)) s in
           if request_fails (requests s) then (Throw StorageError, s')
           else (Ok tt, s').

(** ** IndexedDB CRUD operations (app.js, lines 82-116) *)

(** [putInStore(storeName, item)]: the store keeps a copy of the record
    under its [id] (the key path), replacing any record with that key.
    [store.put] throws a [DataError] when the record has no key. *)
Definition putInStore (sn : storeName) (item : nat) : M unit :=
  request ;;
  let* o := read_obj item in
  match id o with
  | None => throw DataError
  | Some k => modify (fun s => set_db sn (<[k := o]> (db sn s)) s)
  end.

(** [deleteFromStore(storeName, id)] *)
Definition deleteFromStore (sn : storeName) (k : string) : M unit :=
  request ;;
  modify (fun s => set_db sn (delete k (db sn s)) s).

(** ** Arrays and strings of the JavaScript library *)

(** [s.includes(q)]: [q] occurs in [s]. *)
Fixpoint includes (s q : string) : bool :=
  if String.prefix q s then true
  else match s with
       | EmptyString => false
       | String _ s' => includes s' q
       end.

(** [Array.prototype.filter] over a callback that may throw: the callback
    runs on every element in order, and the first exception ends the
    call. *)
Fixpoint filterM {A} (p : A -> result bool) (l : list A) : result (list A) :=
  match l with
  | [] => Ok []
  | x :: l' =>
      match p x with
      | Throw e => Throw e
      | Ok b =>
          match filterM p l' with
          | Throw e => Throw e
          | Ok r => Ok (if b then x :: r else r)
          end
      end
  end.

(** [Array.prototype.sort(cmp)].  The sort of ECMAScript is stable; the
    model is the stable insertion sort, which calls [cmp x y] with [x] the
    element that came first, and keeps [x] first unless the comparator
    returns a positive number.  An exception of the comparator ends the
    call.  Which pairs are compared, and which of the two is the first
    argument, is left to the engine by ECMAScript, and engines differ from
    this model in it (V8 passes the later element first); so where the
    comparator throws on some pairs only, or is not an order, an engine
    may throw or order where the model does not.  No theorem below
    states the order that the sort produces: they speak of the array that
    the sort leaves, and use of the sort that its result is a permutation
    of the array, that an exception of the comparator is propagated, and
    that it succeeds when the comparator succeeds on every pair of
    elements in both orders. *)
Fixpoint insertM {A} (cmp : A -> A -> result Z) (x : A) (l : list A)
  : result (list A) :=
  match l with
  | [] => Ok [x]
  | y :: l' =>
      match cmp x y with
      | Throw e => Throw e
      | Ok c =>
          if c <=? 0 then Ok (x :: y :: l')
          else match insertM cmp x l' with
               | Throw e => Throw e
               | Ok r => Ok (y :: r)
               end
      end
  end.

Fixpoint sortM {A} (cmp : A -> A -> result Z) (l : list A) : result (list A) :=
  match l with
  | [] => Ok []
  | x :: l' =>
      match sortM cmp l' with
      | Throw e => Throw e
      | Ok r => insertM cmp x r
      end
  end.

(** [[...a]]: a new array with the elements of [a]. *)
Definition Array_spread (a : nat) : M nat :=
  let* l := read_arr a in new_arr l.

(** [a.filter(x => p(x))]: a new array; the callback reads the object that
    the element refers to. *)
Definition Array_filter (a : nat) (p : obj -> result bool) : M nat :=
  let* s := get in
  let* l := lift (filterM (fun r => p (get_obj s r)) (get_arr s a)) in
  new_arr l.

(** [a.sort((x, y) => cmp(x, y))]: sorts the array [a] in place. *)
Definition Array_sort (a : nat) (cmp : obj -> obj -> result Z) : M unit :=
  let* s := get in
  let* l := lift (sortM (fun x y => cmp (get_obj s x) (get_obj s y))
                        (get_arr s a)) in
  write_arr a l.

(** [[...a, ...b]] *)
Definition Array_concat (a b : nat) : M nat :=
  let* la := read_arr a in
  let* lb := read_arr b in
  new_arr (la ++ lb).

(** [a.push(r)] *)
Definition Array_push (a : nat) (r : nat) : M unit :=
  let* l := read_arr a in write_arr a (l ++ [r]).

(** [a[i] = r], for an index inside the array *)
Definition Array_set (a : nat) (i : nat) (r : nat) : M unit :=
  let* l := read_arr a in write_arr a (<[i := r]> l).

(** [a.find(x => x.id === k)] and [a.findIndex(x => x.id === k)]: the first
    element whose [id] is [k], with its index. *)
Definition find_by_id (s : State) (a : nat) (k : option string)
  : option (nat * nat) :=
  list_find (fun r => id (get_obj s r) = k) (get_arr s a).

(** ** The query pipeline of the notes (app.js, lines 171-215) *)

(** [note.tags.includes(tag)] *)
Definition tags_include (tag : string) (o : obj) : result bool :=
  match tags o with
  | None => Throw TypeError
  | Some l => Ok (bool_decide (tag ∈ l))
  end.

(** [field.toLowerCase().includes(q)] *)
Definition lower_includes (q : string) (field : option string) : result bool :=
  match field with
  | None => Throw TypeError
  | Some v => Ok (includes (toLowerCase v) q)
  end.

(** [o.tags.some(tag => tag.toLowerCase().includes(q))] *)
Definition some_tag_includes (q : string) (o : obj) : result bool :=
  match tags o with
  | None => Throw TypeError
  | Some l => Ok (existsb (fun tag => includes (toLowerCase tag) q) l)
  end.

(** [x || y]: [y] is evaluated only when [x] is false. *)
Definition or_else (x y : result bool) : result bool :=
  match x with
  | Throw e => Throw e
  | Ok true => Ok true
  | Ok false => y
  end.

(** The search callback of [filterAndSortNotes]. *)
Definition note_matches (q : string) (note : obj) : result bool :=
  or_else (lower_includes q (title note))
    (or_else (lower_includes q (content note))
       (some_tag_includes q note)).

(** [new Date(x) - new Date(y)].  [new Date(undefined)] is an invalid date
    and the difference is then [NaN], which [sort] reads as [+0]. *)
Definition date_diff (x y : option Z) : Z :=
  match x, y with
  | Some a, Some b => a - b
  | _, _ => 0
  end.

(** [x.localeCompare(y)]: it throws when [x] is undefined, and compares
    with the text ["undefined"] when [y] is. *)
Definition locale_compare (x y : option string) : result Z :=
  match x with
  | None => Throw TypeError
  | Some a => Ok (localeCompare a (default "undefined" y))
  end.

(** The comparator of [filterAndSortNotes] ([switch (sortBy)]). *)
Definition compare_notes (sortBy : string) (a b : obj) : result Z :=
  if decide (sortBy = "updated-desc") then
    Ok (date_diff (updatedAt b) (updatedAt a))
  else if decide (sortBy = "updated-asc") then
    Ok (date_diff (updatedAt a) (updatedAt b))
  else if decide (sortBy = "created-desc") then
    Ok (date_diff (createdAt b) (createdAt a))
  else if decide (sortBy = "created-asc") then
    Ok (date_diff (createdAt a) (createdAt b))
  else if decide (sortBy = "title-asc") then
    locale_compare (title a) (title b)
  else if decide (sortBy = "title-desc") then
    locale_compare (title b) (title a)
  else Ok 0.

(** Whether a string is truthy: it is unless it is empty. *)
Definition nonempty (q : string) : bool := negb (String.eqb q "").

(** The tag filter: [if (state.activeTagFilter) filtered = filtered.filter(...)].
    [null] and the empty string are falsy. *)
Definition apply_tag_filter (filtered : nat) : M nat :=
  let* s := get in
  match activeTagFilter s with
  | Some tag =>
      if nonempty tag then Array_filter filtered (tags_include tag)
      else ret filtered
  | None => ret filtered
  end.

(** The search filter:
    [if (searchQuery) filtered = filtered.filter(matches)]. *)
Definition apply_search (matches : string -> obj -> result bool)
    (searchQuery : string) (filtered : nat) : M nat :=
  if nonempty searchQuery
  then Array_filter filtered (matches searchQuery)
  else ret filtered.

(** Lines 172-208 of [filterAndSortNotes]: the copy of the mirror, the tag
    filter, the search filter and the sort.  The value is the array
    [filtered]. *)
Definition filterAndSortNotes_sorted : M nat :=
  let* s := get in
  let* filtered := Array_spread (notes s) in
  let* filtered := apply_tag_filter filtered in
  let searchQuery := toLowerCase (notes_search s) in
  let* filtered := apply_search note_matches searchQuery filtered in
  let sortBy := notes_sort s in
  Array_sort filtered (compare_notes sortBy) ;;
  ret filtered.

(** [filterAndSortNotes()]: the pinned notes of [filtered], then the
    others (lines 210-214). *)
Definition filterAndSortNotes : M nat :=
  let* filtered := filterAndSortNotes_sorted in
  let* pinned_ := Array_filter filtered (fun n => Ok (truthy (pinned n))) in
  let* unpinned := Array_filter filtered (fun n => Ok (js_not (pinned n))) in
  Array_concat pinned_ unpinned.

(** ** The query pipeline of the tools (app.js, lines 434-479) *)

(** The search callback of [filterAndSortTools]. *)
Definition tool_matches (q : string) (tool : obj) : result bool :=
  or_else (lower_includes q (name tool))
    (or_else (lower_includes q (description tool))
       (or_else (lower_includes q (url tool))
          (some_tag_includes q tool))).

(** The comparator of [filterAndSortTools]. *)
Definition compare_tools (sortBy : string) (a b : obj) : result Z :=
  if decide (sortBy = "updated-desc") then
    Ok (date_diff (updatedAt b) (updatedAt a))
  else if decide (sortBy = "updated-asc") then
    Ok (date_diff (updatedAt a) (updatedAt b))
  else if decide (sortBy = "created-desc") then
    Ok (date_diff (createdAt b) (createdAt a))
  else if decide (sortBy = "created-asc") then
    Ok (date_diff (createdAt a) (createdAt b))
  else if decide (sortBy = "name-asc") then
    locale_compare (name a) (name b)
  else if decide (sortBy = "name-desc") then
    locale_compare (name b) (name a)
  else Ok 0.

(** Lines 435-472 of [filterAndSortTools]. *)
Definition filterAndSortTools_sorted : M nat :=
  let* s := get in
  let* filtered := Array_spread (tools s) in
  let* filtered := apply_tag_filter filtered in
  let searchQuery := toLowerCase (tools_search s) in
  let* filtered := apply_search tool_matches searchQuery filtered in
  let sortBy := tools_sort s in
  Array_sort filtered (compare_tools sortBy) ;;
  ret filtered.

(** [filterAndSortTools()]: the favorites of [filtered], then the others
    (lines 474-478). *)
Definition filterAndSortTools : M nat :=
  let* filtered := filterAndSortTools_sorted in
  let* favorites := Array_filter filtered (fun t => Ok (truthy (favorite t))) in
  let* regular := Array_filter filtered (fun t => Ok (js_not (favorite t))) in
  Array_concat favorites regular.

(** ** Rendering (app.js, lines 217-266 and 481-547)

    The DOM that the two render functions build is not modelled; what is
    kept is that they run the query pipeline and then read, for every
    record shown, the properties whose absence makes them throw. *)

Fixpoint for_each {A} (f : A -> M unit) (l : list A) : M unit :=
  match l with
  | [] => ret tt
  | x :: l' => f x ;; for_each f l'
  end.

(** The template of a note reads [note.content.substring(0, 60)] and
    [note.tags.length]. *)
Definition render_note (note : obj) : result unit :=
  match content note, tags note with
  | Some _, Some _ => Ok tt
  | _, _ => Throw TypeError
  end.

(** The template of a tool reads [tool.tags.length]. *)
Definition render_tool (tool : obj) : result unit :=
  match tags tool with
  | Some _ => Ok tt
  | None => Throw TypeError
  end.

Definition renderNotesList : M unit :=
  let* filteredNotes := filterAndSortNotes in
  let* l := read_arr filteredNotes in
  for_each (fun r => let* note := read_obj r in lift (render_note note)) l.

Definition renderToolsGrid : M unit :=
  let* filteredTools := filterAndSortTools in
  let* l := read_arr filteredTools in
  for_each (fun r => let* tool := read_obj r in lift (render_tool tool)) l.

(** ** Notes functions (app.js, lines 122-169) *)

Definition createNote : M nat :=
  let* uuid := crypto_randomUUID in
  let* created := now in
  let* updated := now in
  new_obj {| id := Some uuid;
             title := Some "Untitled Note";
             content := Some "";
             name := None; url := None; description := None;
             tags := Some [];
             pinned := Some false;
             archived := Some false;
             favorite := None;
             createdAt := Some created;
             updatedAt := Some updated |}.

Definition saveNote (note : nat) : M unit :=
  let* t := now in
  update_obj note (set_updatedAt t) ;;
  putInStore NotesStore note ;;
  let* s := get in
  match find_by_id s (notes s) (id (get_obj s note)) with
  | Some (index, _) => Array_set (notes s) index note
  | None => Array_push (notes s) note
  end ;;
  renderNotesList ;;
  (* updateSaveStatus('Saved') *)
  modify (set_isDirty false).

(** [deleteNote(id)]; [confirmed] is the answer to the [confirm] dialog. *)
Definition deleteNote (confirmed : bool) (k : string) : M unit :=
  if negb confirmed then ret tt
  else
    deleteFromStore NotesStore k ;;
    let* s := get in
    let* kept := Array_filter (notes s)
                   (fun n => Ok (negb (bool_decide (id n = Some k)))) in
    modify (set_notes kept) ;;
    let* s := get in
    match currentNote s with
    | Some c =>
        if bool_decide (id (get_obj s c) = Some k)
        then modify (set_currentNote None) (* showEditorPlaceholder() *)
        else ret tt
    | None => ret tt
    end ;;
    renderNotesList.

(** ** Tools functions (app.js, lines 386-432) *)

Definition createTool : M nat :=
  let* uuid := crypto_randomUUID in
  let* created := now in
  let* updated := now in
  new_obj {| id := Some uuid;
             title := None; content := None;
             name := Some "";
             url := Some "";
             description := Some "";
             tags := Some [];
             pinned := None; archived := None;
             favorite := Some false;
             createdAt := Some created;
             updatedAt := Some updated |}.

Definition saveTool (tool : nat) : M unit :=
  let* t := now in
  update_obj tool (set_updatedAt t) ;;
  putInStore ToolsStore tool ;;
  let* s := get in
  match find_by_id s (tools s) (id (get_obj s tool)) with
  | Some (index, _) => Array_set (tools s) index tool
  | None => Array_push (tools s) tool
  end ;;
  renderToolsGrid.

Definition deleteTool (confirmed : bool) (k : string) : M unit :=
  if negb confirmed then ret tt
  else
    deleteFromStore ToolsStore k ;;
    let* s := get in
    let* kept := Array_filter (tools s)
                   (fun t => Ok (negb (bool_decide (id t = Some k)))) in
    modify (set_tools kept) ;;
    renderToolsGrid.

Definition toggleFavorite (k : string) : M unit :=
  let* s := get in
  match find_by_id s (tools s) (Some k) with
  | None => ret tt
  | Some (_, tool) =>
      update_obj tool (fun o => set_favorite (js_not (favorite o)) o) ;;
      saveTool tool
  end.

(** The click handler of the new-note button (lines 928-933), up to the
    selection of the note in the editor: the new note is pushed to the
    mirror before it is saved, and a rejection of [saveNote] is not
    handled. *)
Definition newNoteClicked : M unit :=
  let* note := createNote in
  let* s := get in
  Array_push (notes s) note ;;
  try_catch (saveNote note) (fun _ => ret tt).

(** ** Import and export (app.js, lines 638-715) *)

(** The document of an export file, as [JSON.parse] reads it.  The two
    top-level arrays may be missing. *)
Record snapshot : Type := Snapshot {
  snap_notes : option (list obj);
  snap_tools : option (list obj);
  exportedAt : option Z
}.

(** [exportData()]: the value is the document written to the file.  The
    clock is read for [exportedAt] and for the file name. *)
Definition exportData : M snapshot :=
  let* s := get in
  let* t := now in
  let data := {| snap_notes := Some (records NotesStore s);
                 snap_tools := Some (records ToolsStore s);
                 exportedAt := Some t |} in
  let* _ := now in
  ret data.

(** What [handleImportFile] tells the user. *)
Inductive alert : Type :=
  | InvalidImportFile                  (* 'Invalid import file format' *)
  | ImportSuccessful (n m : nat)       (* 'Imported n notes and m tools.' *)
  | ImportFailed.                      (* 'Failed to import data. ...' *)

(** [JSON.parse] makes a new object for every record of the document. *)
Fixpoint parse_records (l : list obj) : M (list nat) :=
  match l with
  | [] => ret []
  | o :: l' =>
      let* r := new_obj o in
      let* rs := parse_records l' in
      ret (r :: rs)
  end.

Definition parse_array (field : option (list obj)) : M (option (list nat)) :=
  match field with
  | None => ret None
  | Some l => let* rs := parse_records l in ret (Some rs)
  end.

(** The body of the two merge loops (lines 676-687 and 690-701), for the
    store [sn] and its mirror. *)
Definition import_record (sn : storeName) (candidate : nat) : M unit :=
  let* s := get in
  match find_by_id s (mirror sn s) (id (get_obj s candidate)) with
  | Some (_, existing) =>
      (* Update existing *)
      update_obj existing (fun e => Object_assign e (get_obj s candidate)) ;;
      putInStore sn existing
  | None =>
      (* Add new *)
      putInStore sn candidate ;;
      Array_push (mirror sn s) candidate
  end.

(** The body of the [try] block of [handleImportFile] (lines 666-707):
    the file is parsed and validated, the two collections are merged, both
    lists are rendered, and the success alert is shown. *)
Definition import_body (doc : snapshot) : M (option alert) :=
  let* data_notes := parse_array (snap_notes doc) in
  let* data_tools := parse_array (snap_tools doc) in
  match data_notes, data_tools with
  | Some ns, Some ts =>
      for_each (import_record NotesStore) ns ;;
      for_each (import_record ToolsStore) ts ;;
      renderNotesList ;;
      renderToolsGrid ;;
      ret (Some (ImportSuccessful (length ns) (length ts)))
  | _, _ => ret (Some InvalidImportFile)
  end.

(** [handleImportFile(event)]; [file] is the parsed content of the chosen
    file, if one was chosen.  The value is the alert shown; any exception
    of the body is caught and answered by the failure alert. *)
Definition handleImportFile (file : option snapshot) : M (option alert) :=
  match file with
  | None => ret None
  | Some doc =>
      try_catch (import_body doc) (fun _ => ret (Some ImportFailed))
  end.

End Program.

(** * Vocabulary of the statements *)

Section Vocabulary.
Context {browser : Browser}.

(** [s] differs from [s0] at most in arrays that [s0] does not have: the
    objects, the mirrors' pointers, the stores, the inputs and the counters
    are those of [s0], and every array of [s0] is unchanged. *)
Definition frame (s0 s : State) : Prop :=
  s = set_arrs (arrs s) s0 /\
  forall a, is_Some (arrs s0 !! a) -> arrs s !! a = arrs s0 !! a.

(** The two mirror pointers refer to arrays. *)
Definition live_mirrors (s : State) : Prop :=
  is_Some (arrs s !! notes s) /\ is_Some (arrs s !! tools s).

(** Sequencing of values that may be exceptions. *)
Definition and_then {A B} (r : result A) (k : A -> result B) : result B :=
  match r with
  | Ok a => k a
  | Throw e => Throw e
  end.

(** [q] is a substring of [s]. *)
Definition substring_of (q s : string) : Prop :=
  exists pre post, s = pre +:+ q +:+ post.

(** The list that the tag filter leaves. *)
Definition tag_filtered (s : State) (l : list nat) : result (list nat) :=
  match activeTagFilter s with
  | Some tag =>
      if nonempty tag
      then filterM (fun r => tags_include tag (get_obj s r)) l
      else Ok l
  | None => Ok l
  end.

(** The list that the search filter leaves. *)
Definition searched (s : State) (matches : string -> obj -> result bool)
    (searchQuery : string) (l : list nat) : result (list nat) :=
  if nonempty searchQuery
  then filterM (fun r => matches searchQuery (get_obj s r)) l
  else Ok l.

(** The content of [filtered] after the sort. *)
Definition sorted_list (s : State) (a : nat)
    (matches : string -> obj -> result bool) (search : string)
    (cmp : obj -> obj -> result Z) : result (list nat) :=
  and_then (tag_filtered s (get_arr s a)) (fun l1 =>
  and_then (searched s matches (toLowerCase search) l1) (fun l2 =>
  sortM (fun x y => cmp (get_obj s x) (get_obj s y)) l2)).

(** Priority records first, each group in the order of [l]. *)
Definition partitioned (s : State) (prio : obj -> option bool) (l : list nat)
  : list nat :=
  List.filter (fun r => truthy (prio (get_obj s r))) l ++
  List.filter (fun r => js_not (prio (get_obj s r))) l.

(** A record passes the tag filter: there is no tag filter, or its tag
    sequence includes the tag. *)
Definition tag_pass (s : State) (o : obj) : Prop :=
  match activeTagFilter s with
  | Some tag => if nonempty tag then tags_include tag o = Ok true else True
  | None => True
  end.

(** A record passes the search filter: there is no search text, or the
    search callback returns [true] on it. *)
Definition search_pass (matches : string -> obj -> result bool)
    (searchQuery : string) (o : obj) : Prop :=
  if nonempty searchQuery then matches searchQuery o = Ok true else True.

(** The lower-cased text [q] occurs in the lower-cased property, or in one
    of the lower-cased tags. *)
Definition field_contains (q : string) (field : option string) : Prop :=
  exists v, field = Some v /\ substring_of q (toLowerCase v).

Definition some_tag_contains (q : string) (o : obj) : Prop :=
  exists l tag, tags o = Some l /\ tag ∈ l /\ substring_of q (toLowerCase tag).

Definition note_hit (q : string) (o : obj) : Prop :=
  field_contains q (title o) \/ field_contains q (content o) \/
  some_tag_contains q o.

Definition tool_hit (q : string) (o : obj) : Prop :=
  field_contains q (name o) \/ field_contains q (description o) \/
  field_contains q (url o) \/ some_tag_contains q o.

(** The shape that [filterAndSortNotes] and [filterAndSortTools] share:
    they are this computation at the notes' and at the tools' mirror,
    search box, callbacks and priority flag. *)
Definition pipeline_sorted (a : nat) (matches : string -> obj -> result bool)
    (search : string) (cmp : obj -> obj -> result Z) : M nat :=
  let* filtered := Array_spread a in
  let* filtered := apply_tag_filter filtered in
  let* filtered := apply_search matches (toLowerCase search) filtered in
  Array_sort filtered cmp ;;
  ret filtered.

Definition pipeline (a : nat) (matches : string -> obj -> result bool)
    (search : string) (cmp : obj -> obj -> result Z)
    (prio : obj -> option bool) : M nat :=
  let* filtered := pipeline_sorted a matches search cmp in
  let* first := Array_filter filtered (fun o => Ok (truthy (prio o))) in
  let* others := Array_filter filtered (fun o => Ok (js_not (prio o))) in
  Array_concat first others.

(** [m], run from [s], leaves the frame of [s0] and returns a new array
    whose content is [r], or throws as [r] does. *)
Definition yields (s0 : State) (m : M nat) (s : State)
    (r : result (list nat)) : Prop :=
  exists s', frame s0 s' /\
    match r with
    | Ok l => exists a, m s = (Ok a, s') /\ arrs s0 !! a = None /\
                        arrs s' !! a = Some l
    | Throw e => m s = (Throw e, s')
    end.

(** [res] is [l] with the priority elements moved to the front, each of
    the two groups keeping the order it has in [l]. *)
Definition stable_partition (prio : nat -> bool) (l res : list nat) : Prop :=
  (forall i j x y, (i < j)%nat -> res !! i = Some x -> res !! j = Some y ->
     prio y = true -> prio x = true) /\
  List.filter prio res = List.filter prio l /\
  List.filter (fun r => negb (prio r)) res
    = List.filter (fun r => negb (prio r)) l /\
  res ≡ₚ l /\
  (forall i x y, res !! i = Some x -> res !! S i = Some y ->
     ~ (prio x = false /\ prio y = true)).

(** Two outcomes agree: the same exception, or arrays with the same
    content. *)
Definition same_outcome (s1 : State) (r1 : result nat) (s2 : State)
    (r2 : result nat) : Prop :=
  match r1, r2 with
  | Ok a1, Ok a2 => get_arr s1 a1 = get_arr s2 a2
  | Throw e1, Throw e2 => e1 = e2
  | _, _ => False
  end.

(** The store other than [sn]. *)
Definition other (sn : storeName) : storeName :=
  match sn with
  | NotesStore => ToolsStore
  | ToolsStore => NotesStore
  end.

(** The system clock never goes back. *)
Definition monotone_clock : Prop :=
  forall i j, (i <= j)%nat -> clock i <= clock j.

(** The record has both timestamps, and [updatedAt >= createdAt]. *)
Definition ordered (o : obj) : Prop :=
  exists c u, createdAt o = Some c /\ updatedAt o = Some u /\ c <= u.

(** It was moreover created no later than the instant [T]. *)
Definition timely (T : Z) (o : obj) : Prop :=
  exists c u, createdAt o = Some c /\ updatedAt o = Some u /\ c <= u /\ c <= T.

(** Every object is timely for the next reading of the clock, the mirror
    pointers refer to arrays, and the mirrors hold references to
    objects. *)
Definition inv (s : State) : Prop :=
  (forall r o, objs s !! r = Some o -> timely (clock (ticks s)) o) /\
  live_mirrors s /\
  (forall sn r, r ∈ get_arr s (mirror sn s) -> is_Some (objs s !! r)).

(** From a state that satisfies [inv], [m] ends in a state that satisfies
    it and has all the objects it had. *)
Definition safe_at (s : State) {A} (m : M A) : Prop :=
  forall r s', m s = (r, s') -> inv s' /\ dom (objs s) ⊆ dom (objs s').

(** [note.updatedAt = new Date().toISOString()] *)
Definition touch (r : nat) : M unit :=
  let* t := now in update_obj r (set_updatedAt t).

(** The records of an import file are timely for the instant [T]. *)
Definition timely_file (T : Z) (file : option snapshot) : Prop :=
  match file with
  | None => True
  | Some doc =>
      Forall (timely T) (default [] (snap_notes doc)) /\
      Forall (timely T) (default [] (snap_tools doc))
  end.

(** One operation of the program: creating a record, the new-note button,
    an edit of properties other than the timestamps (the editor and the
    pin and archive buttons assign to the current note, the tool dialog to
    the tool it edits), a save of an existing object, a delete, a favorite
    toggle, or the import of a file whose records are timely. *)
Inductive step : State -> State -> Prop :=
  | step_createNote s r s' : createNote s = (r, s') -> step s s'
  | step_edit s item f r s' :
      is_Some (objs s !! item) ->
      (forall o, createdAt (f o) = createdAt o /\ updatedAt (f o) = updatedAt o) ->
      update_obj item f s = (r, s') -> step s s'
  | step_createTool s r s' : createTool s = (r, s') -> step s s'
  | step_newNoteClicked s r s' : newNoteClicked s = (r, s') -> step s s'
  | step_saveNote s note r s' :
      is_Some (objs s !! note) -> saveNote note s = (r, s') -> step s s'
  | step_saveTool s tool r s' :
      is_Some (objs s !! tool) -> saveTool tool s = (r, s') -> step s s'
  | step_deleteNote s c k r s' : deleteNote c k s = (r, s') -> step s s'
  | step_deleteTool s c k r s' : deleteTool c k s = (r, s') -> step s s'
  | step_toggleFavorite s k r s' : toggleFavorite k s = (r, s') -> step s s'
  | step_import s file r s' :
      timely_file (clock (ticks s)) file ->
      handleImportFile file s = (r, s') -> step s s'.

(** [st'] shows the same records as [st]: every reference reads the same
    object, the arrays of [st] are unchanged, and the mirrors are the same
    arrays. *)
Definition same_view (st st' : State) : Prop :=
  (forall x, get_obj st' x = get_obj st x) /\
  (forall a, is_Some (arrs st !! a) -> arrs st' !! a = arrs st !! a) /\
  notes st' = notes st /\ tools st' = tools st.

(** In a state: the candidate reads as some record of the mirror does. *)
Definition matches_mirror (sn : storeName) (st : State) (c : nat) : Prop :=
  exists m, m ∈ get_arr st (mirror sn st) /\ get_obj st c = get_obj st m.

(** The records of the mirror have pairwise distinct ids. *)
Definition unique_ids (sn : storeName) (st : State) : Prop :=
  NoDup (id <$> records sn st).

(** [JSON.parse] adds objects and changes nothing else. *)
Definition extends (st st' : State) : Prop :=
  (forall x, is_Some (objs st !! x) ->
     is_Some (objs st' !! x) /\ get_obj st' x = get_obj st x) /\
  arrs st' = arrs st /\ notes st' = notes st /\ tools st' = tools st.

(** [m] issues no store request. *)
Definition quiet {A} (m : M A) : Prop :=
  forall s r s', m s = (r, s') -> requests s' = requests s.

(** [m] issues requests one after the other and stops at the first one
    that fails, with an exception. *)
Definition halts_on_failure {A} (m : M A) : Prop :=
  forall s r s', m s = (r, s') ->
    (requests s <= requests s')%nat /\
    forall n, (requests s <= n < requests s')%nat -> request_fails n = true ->
      requests s' = S n /\ exists e, r = Throw e.

(** [st'] has the objects of [st], unchanged, and new ones; nothing else
    differs. *)
Definition grows (st st' : State) : Prop :=
  st' = set_objs (objs st') st /\
  forall x, is_Some (objs st !! x) -> objs st' !! x = objs st !! x.



End Vocabulary.

(** * Sample browsers, records and states *)

(** ASCII lower-casing. *)
Definition ascii_lower (c : Ascii.ascii) : Ascii.ascii :=
  let n := Ascii.nat_of_ascii c in
  if ((65 <=? n) && (n <=? 90))%nat then Ascii.ascii_of_nat (n + 32) else c.

Fixpoint lower (s : string) : string :=
  match s with
  | EmptyString => EmptyString
  | String c s' => String (ascii_lower c) (lower s')
  end.

Lemma lower_empty q : lower q = "" -> q = "".
Proof. destruct q; [reflexivity | discriminate]. Qed.

(** Comparison of strings by character code. *)
Definition code_compare (a b : string) : Z :=
  match String.compare a b with
  | Lt => -1
  | Eq => 0
  | Gt => 1
  end.

(** A browser whose clock advances by one second per reading, whose UUIDs
    are numbered, and whose store requests fail as [fails] says. *)
Definition test_browser (fails : nat -> bool) : Browser :=
  {| toLowerCase := lower;
     toLowerCase_empty := lower_empty;
     localeCompare := code_compare;
     clock := fun n => 1000 * Z.of_nat n;
     randomUUID := fun n => "uuid-" +:+ pretty n;
     request_fails := fails |}.

(** The state of a page that has just loaded an empty database: two empty
    mirrors, no filter, sorting by last update. *)
Definition initial_state : State :=
  {| objs := ∅;
     arrs := {[ 0%nat := []; 1%nat := [] ]};
     notes := 0; tools := 1;
     currentNote := None;
     activeTagFilter := None;
     isDirty := false;
     notes_search := ""; notes_sort := "updated-desc";
     tools_search := ""; tools_sort := "updated-desc";
     db_notes := ∅; db_tools := ∅;
     ticks := 0; requests := 0; uuids := 0 |}.

(** Two notes and two tools. *)
Definition note_a : obj :=
  {| id := Some "a"; title := Some "Alpha"; content := Some "first note";
     name := None; url := None; description := None;
     tags := Some ["work"]; pinned := Some false; archived := Some false;
     favorite := None; createdAt := Some 1000; updatedAt := Some 2000 |}.

Definition note_b : obj :=
  {| id := Some "b"; title := Some "Beta"; content := Some "second note";
     name := None; url := None; description := None;
     tags := Some ["home"; "work"]; pinned := Some true; archived := Some false;
     favorite := None; createdAt := Some 1500; updatedAt := Some 3000 |}.

Definition tool_alpha : obj :=
  {| id := Some "t1"; title := None; content := None;
     name := Some "Alpha"; url := Some "http://a.com"; description := Some "";
     tags := Some []; pinned := None; archived := None;
     favorite := Some false; createdAt := Some 1000; updatedAt := Some 1000 |}.

Definition tool_beta : obj :=
  {| id := Some "t2"; title := None; content := None;
     name := Some "Beta"; url := Some "http://b.com"; description := Some "";
     tags := Some ["web"]; pinned := None; archived := None;
     favorite := Some true; createdAt := Some 1200; updatedAt := Some 1300 |}.

(** Two notes and two tools, loaded and persisted; five clock readings and
    four store requests have been made. *)
Definition demo_state : State :=
  {| objs := {[ 0%nat := note_a; 1%nat := note_b;
                2%nat := tool_alpha; 3%nat := tool_beta ]};
     arrs := {[ 0%nat := [0%nat; 1%nat]; 1%nat := [2%nat; 3%nat] ]};
     notes := 0; tools := 1;
     currentNote := Some 0%nat;
     activeTagFilter := None;
     isDirty := false;
     notes_search := ""; notes_sort := "updated-desc";
     tools_search := ""; tools_sort := "name-asc";
     db_notes := {[ "a" := note_a; "b" := note_b ]};
     db_tools := {[ "t1" := tool_alpha; "t2" := tool_beta ]};
     ticks := 5; requests := 4; uuids := 4 |}.

(** A browser whose store works, and one whose store is unavailable. *)
Definition working : Browser := test_browser (fun _ => false).
Definition broken : Browser := test_browser (fun _ => true).

(** A browser whose first store request fails, and no other. *)
Definition first_write_fails : Browser := test_browser (fun n => Nat.eqb n 0).

(** An import file with two notes and one tool. *)
Definition three_records : snapshot :=
  {| snap_notes := Some [note_a; note_b];
     snap_tools := Some [tool_alpha];
     exportedAt := None |}.

(** A note of an import file, created after it was last updated. *)
Definition backdated : obj :=
  {| id := Some "z"; title := Some "Old"; content := Some "";
     name := None; url := None; description := None;
     tags := Some []; pinned := Some false; archived := Some false;
     favorite := None; createdAt := Some 10; updatedAt := Some 5 |}.

(** The empty string as tag filter, which a click on the chip of an empty
    tag sets. *)
Definition empty_tag_filter_state : State := set_query (Some "") "" "" demo_state.





(** The page with the tag filter ["work"], and with a search text in each
    search box. *)
Definition work_filter_state : State := set_query (Some "work") "" "" demo_state.

Definition alpha_search_state : State := set_query None "ALPHA" "alpha" demo_state.

(** The end-to-end scenario: a note is created and saved, tagged ["work"]
    and saved again, and looked up with that tag filter; then it is
    deleted and looked up again.  The value is the two query results. *)
Definition scenario {browser : Browser} : M (list nat * list nat) :=
  newNoteClicked ;;
  update_obj 0%nat (set_tags ["work"]) ;;
  saveNote 0%nat ;;
  modify (set_query (Some "work") "" "") ;;
  let* found := filterAndSortNotes in
  let* before := read_arr found in
  deleteNote true "uuid-0" ;;
  let* found := filterAndSortNotes in
  let* after := read_arr found in
  ret (before, after).

(** * The page *)

(** The rest of [app.js]: the settings, the note editor, the tool dialog,
    the tag filter and the event listeners; and with them what the data
    model above leaves out, the reading of a whole store.

    A listener calls the [async] functions of the data model without
    waiting for them: [saveNote(note); selectNote(note.id)] runs
    [selectNote] before the rest of [saveNote].  So here an [async]
    function is split at its [await]: its synchronous part runs in the
    listener, and the rest is queued on the page and runs when the
    listener has returned.  Run one after the other, the two parts are the
    function of the data model above.

    [initApp] registers the listeners at its end, and it runs once or
    twice: [init] runs it when the user is authenticated, and when the
    authentication module has found a session it has run it before.  A
    listener that is an arrow function is then registered twice and runs
    twice for each event; one that is registered by the name of a
    function runs once.  The page records the number of runs, and an event
    runs all its listeners before the rests of the [async] functions.

    A control of a form does not keep every text that is assigned to its
    [value]: an input drops line breaks, a text area normalises them.  The
    markup is not part of the program, so what a control keeps is a
    parameter, the class [Controls], of which only this is used: a text
    without line breaks and without white space at its ends is kept as it
    is.

    What is taken for granted: the elements that the program looks up in
    the document exist; [initApp] has run to its end at least once; the
    item of [localStorage], when there is one, is one that [saveSettings]
    wrote; a text is a sequence of character codes below 256; and an
    event is handled when the store requests of the one before it have
    completed. *)

(** ** Tag input text (app.js, lines 295, 354-358, 556, 579-583) *)

(** The characters that [String.prototype.trim] removes, among the
    character codes below 256: tab, line feed, vertical tab, form feed,
    carriage return, space and the no-break space. *)
Definition is_space (c : ascii) : bool :=
  let n := nat_of_ascii c in
  ((9 <=? n) && (n <=? 13) || (n =? 32) || (n =? 160))%nat.

Fixpoint trimStart (s : string) : string :=
  match s with
  | EmptyString => EmptyString
  | String c s' => if is_space c then trimStart s' else s
  end.

Fixpoint trimEnd (s : string) : string :=
  match s with
  | EmptyString => EmptyString
  | String c s' =>
      match trimEnd s' with
      | EmptyString => if is_space c then EmptyString else String c EmptyString
      | r => String c r
      end
  end.

(** [s.trim()] *)
Definition trim (s : string) : string := trimEnd (trimStart s).

(** [s.split(sep)] for a separator of one character: the pieces between
    the separators; there is always at least one piece. *)
Fixpoint split (sep : ascii) (s : string) : list string :=
  match s with
  | EmptyString => [EmptyString]
  | String c s' =>
      if Ascii.eqb c sep then EmptyString :: split sep s'
      else match split sep s' with
           | [] => [String c EmptyString]
           | piece :: pieces => String c piece :: pieces
           end
  end.

(** [l.join(sep)] *)
Fixpoint join (sep : string) (l : list string) : string :=
  match l with
  | [] => EmptyString
  | [x] => x
  | x :: l' => x +:+ sep +:+ join sep l'
  end.

(** [tagsInput.split(',').map(t => t.trim()).filter(t => t.length > 0)] *)
Definition parse_tags (tagsInput : string) : list string :=
  List.filter nonempty (trim <$> split "," tagsInput).

(** [tags.join(', ')] *)
Definition show_tags (l : list string) : string := join ", " l.

(** A tag as [parse_tags] produces them: not empty, no white space at
    either end, no comma. *)
Definition first_char (s : string) : option ascii :=
  match s with
  | EmptyString => None
  | String c _ => Some c
  end.

Fixpoint last_char (s : string) : option ascii :=
  match s with
  | EmptyString => None
  | String c EmptyString => Some c
  | String _ s' => last_char s'
  end.

Fixpoint has_char (c : ascii) (s : string) : bool :=
  match s with
  | EmptyString => false
  | String c' s' => Ascii.eqb c' c || has_char c s'
  end.

Definition clean_tag (t : string) : Prop :=
  t <> "" /\
  (forall c, first_char t = Some c -> is_space c = false) /\
  (forall c, last_char t = Some c -> is_space c = false) /\
  has_char "," t = false.

(** ** Form controls (app.js, lines 290-296, 350-354, 552-556, 567-583) *)

(** The inputs and text areas whose [value] the program assigns and
    reads back. *)
Inductive control : Type :=
  | NoteTitle          (* #note-title *)
  | NoteTags           (* #note-tags *)
  | NoteContent        (* #note-content *)
  | ToolName           (* #tool-name *)
  | ToolUrl            (* #tool-url *)
  | ToolDescription    (* #tool-description *)
  | ToolTags.          (* #tool-tags *)

(** A text without line feed and carriage return; and one that moreover
    has no white space at either end. *)
Definition no_breaks (s : string) : Prop :=
  has_char "010" s = false /\ has_char "013" s = false.

Definition plain (s : string) : Prop := no_breaks s /\ trim s = s.

(** [held c s] is the value that the control [c] has after the assignment
    [value = s].  A control does not keep every text: an input drops the
    line breaks, and one for an address also the white space at the ends;
    a text area turns every line break into a line feed.  The markup of
    the page is not part of the program, so the controls are left open:
    all that is used is that each of them keeps a plain text. *)
Class Controls : Type := {
  held : control -> string -> string;
  held_plain : forall c s, plain s -> held c s = s
}.

(** ** Reading a store (app.js, lines 82-92, 136-139, 399-402) *)

(** The records of an object store in the order of [getAll]: ascending by
    key, the keys compared character code by character code. *)
Fixpoint insert_by_key (kv : string * obj) (l : list (string * obj))
  : list (string * obj) :=
  match l with
  | [] => [kv]
  | kv' :: l' =>
      if String.leb (fst kv) (fst kv') then kv :: l
      else kv' :: insert_by_key kv l'
  end.

Definition in_key_order (m : gmap string obj) : list (string * obj) :=
  foldr insert_by_key [] (map_to_list m).

(** [store.getAll()] *)
Definition getAll (m : gmap string obj) : list obj := snd <$> in_key_order m.

Section Load.

Context {browser : Browser}.

(** [getAllFromStore(storeName)]: the result of the request is a new array
    of new objects, copies of the stored records. *)
Definition getAllFromStore (sn : storeName) : M nat :=
  request ;;
  let* s := get in
  let* rs := parse_records (getAll (db sn s)) in
  new_arr rs.

Definition loadNotes : M unit :=
  let* loaded := getAllFromStore NotesStore in
  modify (set_notes loaded) ;;
  renderNotesList.

Definition loadTools : M unit :=
  let* loaded := getAllFromStore ToolsStore in
  modify (set_tools loaded) ;;
  renderToolsGrid.

End Load.

(** Every record of the store is filed under its own id. *)
Definition keyed (m : gmap string obj) : Prop :=
  forall k o, m !! k = Some o -> id o = Some k.

Definition key_le (x y : string * obj) : Prop := String.leb (fst x) (fst y) = true.

(** ** The page (app.js, lines 8-21 and the inputs its functions read back) *)

(** Assignments to the properties that the editor, the tool dialog and the
    pin and archive buttons write. *)
Definition set_title (v : string) (o : obj) : obj :=
  Obj (id o) (Some v) (content o) (name o) (url o) (description o) (tags o)
      (pinned o) (archived o) (favorite o) (createdAt o) (updatedAt o).

Definition set_content (v : string) (o : obj) : obj :=
  Obj (id o) (title o) (Some v) (name o) (url o) (description o) (tags o)
      (pinned o) (archived o) (favorite o) (createdAt o) (updatedAt o).

Definition set_name (v : string) (o : obj) : obj :=
  Obj (id o) (title o) (content o) (Some v) (url o) (description o) (tags o)
      (pinned o) (archived o) (favorite o) (createdAt o) (updatedAt o).

Definition set_url (v : string) (o : obj) : obj :=
  Obj (id o) (title o) (content o) (name o) (Some v) (description o) (tags o)
      (pinned o) (archived o) (favorite o) (createdAt o) (updatedAt o).

Definition set_description (v : string) (o : obj) : obj :=
  Obj (id o) (title o) (content o) (name o) (url o) (Some v) (tags o)
      (pinned o) (archived o) (favorite o) (createdAt o) (updatedAt o).

Definition set_pinned (b : bool) (o : obj) : obj :=
  Obj (id o) (title o) (content o) (name o) (url o) (description o) (tags o)
      (Some b) (archived o) (favorite o) (createdAt o) (updatedAt o).

Definition set_archived (b : bool) (o : obj) : obj :=
  Obj (id o) (title o) (content o) (name o) (url o) (description o) (tags o)
      (pinned o) (Some b) (favorite o) (createdAt o) (updatedAt o).

(** Assignments to the tag filter and to the search and sort inputs. *)
Definition set_activeTagFilter (v : option string) (s : State) : State :=
  mkState (objs s) (arrs s) (notes s) (tools s) (currentNote s) v
    (isDirty s) (notes_search s) (notes_sort s) (tools_search s) (tools_sort s)
    (db_notes s) (db_tools s) (ticks s) (requests s) (uuids s).

Definition set_notes_search (v : string) (s : State) : State :=
  mkState (objs s) (arrs s) (notes s) (tools s) (currentNote s)
    (activeTagFilter s) (isDirty s) v (notes_sort s) (tools_search s)
    (tools_sort s) (db_notes s) (db_tools s) (ticks s) (requests s) (uuids s).

Definition set_notes_sort (v : string) (s : State) : State :=
  mkState (objs s) (arrs s) (notes s) (tools s) (currentNote s)
    (activeTagFilter s) (isDirty s) (notes_search s) v (tools_search s)
    (tools_sort s) (db_notes s) (db_tools s) (ticks s) (requests s) (uuids s).

Definition set_tools_search (v : string) (s : State) : State :=
  mkState (objs s) (arrs s) (notes s) (tools s) (currentNote s)
    (activeTagFilter s) (isDirty s) (notes_search s) (notes_sort s) v
    (tools_sort s) (db_notes s) (db_tools s) (ticks s) (requests s) (uuids s).

Definition set_tools_sort (v : string) (s : State) : State :=
  mkState (objs s) (arrs s) (notes s) (tools s) (currentNote s)
    (activeTagFilter s) (isDirty s) (notes_search s) (notes_sort s)
    (tools_search s) v (db_notes s) (db_tools s) (ticks s) (requests s) (uuids s).

(** [state.settings].  The autosave interval is the number 3000 at the
    start and afterwards the text of the option chosen in the settings
    dialog. *)
Inductive interval : Type :=
  | Millis (n : Z)
  | Chosen (v : string).

#[global] Instance interval_eq_dec : EqDecision interval.
Proof. solve_decision. Defined.

Record config : Type := Config {
  theme : string;
  autosaveInterval : interval
}.

(** The values of the controls of the note editor and of the tool
    dialog. *)
Record editor : Type := Editor {
  note_title : string;       (* #note-title .value *)
  note_tags : string;        (* #note-tags .value *)
  note_content : string      (* #note-content .value *)
}.

Record tool_form : Type := ToolForm {
  tool_name : string;        (* #tool-name .value *)
  tool_url : string;         (* #tool-url .value *)
  tool_description : string; (* #tool-description .value *)
  tool_tags : string         (* #tool-tags .value *)
}.

(** The page: the [state] and stores of the data model, the rest of
    [state], the timers that are running, the settings item of
    [localStorage], and of the document what the program reads back or
    shows as a mode: the two forms, the theme class of the body, and the
    chip of the tag filter.  [pending] holds the continuations of the
    [async] functions whose store request has completed and whose caller
    did not wait.  [reruns] counts the runs of [initApp] after the first:
    [init] runs it when the user is authenticated, and the authentication
    module has run it before when it has found a session (part_000, lines
    152-153; app.js, lines 1027-1034); each run registers the listeners. *)
Record Page : Type := mkPage {
  app : State;
  pending : list (M unit);
  editingTool : option nat;          (* state.editingTool *)
  activeTab : string;                (* state.activeTab *)
  settings : config;                 (* state.settings *)
  autosaveTimer : option nat;        (* state.autosaveTimer *)
  timers : gmap nat interval;        (* setInterval handles that are live *)
  localStorage : option config;      (* item 'notepad_settings', parsed *)
  dark_theme : bool;                 (* body has the class 'dark-theme' *)
  note_form : editor;
  tool_modal : tool_form;
  chip_text : string;                (* #active-tag-name .textContent *)
  chip_hidden : bool;                (* #active-tag-filter has 'hidden' *)
  reruns : nat
}.

Definition set_app (v : State) (p : Page) : Page :=
  mkPage v (pending p) (editingTool p) (activeTab p) (settings p)
    (autosaveTimer p) (timers p) (localStorage p) (dark_theme p) (note_form p)
    (tool_modal p) (chip_text p) (chip_hidden p) (reruns p).

Definition set_pending (v : list (M unit)) (p : Page) : Page :=
  mkPage (app p) v (editingTool p) (activeTab p) (settings p)
    (autosaveTimer p) (timers p) (localStorage p) (dark_theme p) (note_form p)
    (tool_modal p) (chip_text p) (chip_hidden p) (reruns p).

Definition set_editingTool (v : option nat) (p : Page) : Page :=
  mkPage (app p) (pending p) v (activeTab p) (settings p)
    (autosaveTimer p) (timers p) (localStorage p) (dark_theme p) (note_form p)
    (tool_modal p) (chip_text p) (chip_hidden p) (reruns p).

Definition set_activeTab (v : string) (p : Page) : Page :=
  mkPage (app p) (pending p) (editingTool p) v (settings p)
    (autosaveTimer p) (timers p) (localStorage p) (dark_theme p) (note_form p)
    (tool_modal p) (chip_text p) (chip_hidden p) (reruns p).

Definition set_settings (v : config) (p : Page) : Page :=
  mkPage (app p) (pending p) (editingTool p) (activeTab p) v
    (autosaveTimer p) (timers p) (localStorage p) (dark_theme p) (note_form p)
    (tool_modal p) (chip_text p) (chip_hidden p) (reruns p).

(** The live timers and the handle kept in [state.autosaveTimer]. *)
Definition set_timer (h : option nat) (v : gmap nat interval) (p : Page) : Page :=
  mkPage (app p) (pending p) (editingTool p) (activeTab p) (settings p)
    h v (localStorage p) (dark_theme p) (note_form p)
    (tool_modal p) (chip_text p) (chip_hidden p) (reruns p).

Definition set_localStorage (v : option config) (p : Page) : Page :=
  mkPage (app p) (pending p) (editingTool p) (activeTab p) (settings p)
    (autosaveTimer p) (timers p) v (dark_theme p) (note_form p)
    (tool_modal p) (chip_text p) (chip_hidden p) (reruns p).

Definition set_dark_theme (v : bool) (p : Page) : Page :=
  mkPage (app p) (pending p) (editingTool p) (activeTab p) (settings p)
    (autosaveTimer p) (timers p) (localStorage p) v (note_form p)
    (tool_modal p) (chip_text p) (chip_hidden p) (reruns p).

Definition set_note_form (v : editor) (p : Page) : Page :=
  mkPage (app p) (pending p) (editingTool p) (activeTab p) (settings p)
    (autosaveTimer p) (timers p) (localStorage p) (dark_theme p) v
    (tool_modal p) (chip_text p) (chip_hidden p) (reruns p).

Definition set_tool_modal (v : tool_form) (p : Page) : Page :=
  mkPage (app p) (pending p) (editingTool p) (activeTab p) (settings p)
    (autosaveTimer p) (timers p) (localStorage p) (dark_theme p) (note_form p)
    v (chip_text p) (chip_hidden p) (reruns p).

Definition set_chip (text : string) (hidden : bool) (p : Page) : Page :=
  mkPage (app p) (pending p) (editingTool p) (activeTab p) (settings p)
    (autosaveTimer p) (timers p) (localStorage p) (dark_theme p) (note_form p)
    (tool_modal p) text hidden (reruns p).

(** Writing one input of a form. *)
Definition set_note_title (v : string) (p : Page) : Page :=
  set_note_form (Editor v (note_tags (note_form p)) (note_content (note_form p))) p.

Definition set_note_tags (v : string) (p : Page) : Page :=
  set_note_form (Editor (note_title (note_form p)) v (note_content (note_form p))) p.

Definition set_note_content (v : string) (p : Page) : Page :=
  set_note_form (Editor (note_title (note_form p)) (note_tags (note_form p)) v) p.

Definition set_tool_name (v : string) (p : Page) : Page :=
  set_tool_modal (ToolForm v (tool_url (tool_modal p))
                    (tool_description (tool_modal p)) (tool_tags (tool_modal p))) p.

Definition set_tool_url (v : string) (p : Page) : Page :=
  set_tool_modal (ToolForm (tool_name (tool_modal p)) v
                    (tool_description (tool_modal p)) (tool_tags (tool_modal p))) p.

Definition set_tool_description (v : string) (p : Page) : Page :=
  set_tool_modal (ToolForm (tool_name (tool_modal p)) (tool_url (tool_modal p))
                    v (tool_tags (tool_modal p))) p.

Definition set_tool_tags (v : string) (p : Page) : Page :=
  set_tool_modal (ToolForm (tool_name (tool_modal p)) (tool_url (tool_modal p))
                    (tool_description (tool_modal p)) v) p.

(** A computation of the page. *)
Definition PageM (A : Type) : Type := Page -> result A * Page.

Definition retP {A} (a : A) : PageM A := fun p => (Ok a, p).

Definition throwP {A} (e : error) : PageM A := fun p => (Throw e, p).

Definition bindP {A B} (m : PageM A) (k : A -> PageM B) : PageM B :=
  fun p => match m p with
           | (Ok a, p') => k a p'
           | (Throw e, p') => (Throw e, p')
           end.

Notation "'let+' x ':=' m 'in' k" := (bindP m (fun x => k))
  (at level 10, x pattern, m at level 100, k at level 200).

Notation "m '>>' k" := (bindP m (fun _ => k))
  (at level 100, k at level 200, right associativity).

Definition getP : PageM Page := fun p => (Ok p, p).

Definition modifyP (f : Page -> Page) : PageM unit := fun p => (Ok tt, f p).

(** A computation of the data model, run on the page. *)
Definition liftM {A} (m : M A) : PageM A :=
  fun p => match m (app p) with
           | (r, s') => (r, set_app s' p)
           end.

(** An [async] function is its synchronous part, which runs up to the
    first [await] of a store request and, when that request succeeds, has
    the rest of the body as its value.  The exception of a request that
    fails ends the function. *)
Definition async : Type := M (M unit).

(** [await f(...)]: the caller waits for the rest as well. *)
Definition await (f : async) : M unit := let* rest := f in rest.

(** [f(...)] without [await]: the synchronous part runs now; the rest runs
    after the code that made the call; a rejection is not handled. *)
Definition spawn (f : async) : PageM unit :=
  fun p => match f (app p) with
           | (Ok rest, s') => (Ok tt, set_pending (pending p ++ [rest]) (set_app s' p))
           | (Throw _, s') => (Ok tt, set_app s' p)
           end.

(** The text that an input shows for a property: the text ["undefined"]
    when the property is absent. *)
Definition shown (v : option string) : string := default "undefined" v.

Section PageProgram.

Context {browser : Browser} {controls : Controls}.

(** ** The [async] functions, split at their [await] *)

Definition saveNote_rest (note : nat) : M unit :=
  let* s := get in
  match find_by_id s (notes s) (id (get_obj s note)) with
  | Some (index, _) => Array_set (notes s) index note
  | None => Array_push (notes s) note
  end ;;
  renderNotesList ;;
  (* updateSaveStatus('Saved') *)
  modify (set_isDirty false).

Definition saveNote_async (note : nat) : async :=
  let* t := now in
  update_obj note (set_updatedAt t) ;;
  putInStore NotesStore note ;;
  ret (saveNote_rest note).

Definition saveTool_rest (tool : nat) : M unit :=
  let* s := get in
  match find_by_id s (tools s) (id (get_obj s tool)) with
  | Some (index, _) => Array_set (tools s) index tool
  | None => Array_push (tools s) tool
  end ;;
  renderToolsGrid.

Definition saveTool_async (tool : nat) : async :=
  let* t := now in
  update_obj tool (set_updatedAt t) ;;
  putInStore ToolsStore tool ;;
  ret (saveTool_rest tool).

(** [store.delete(undefined)] throws a [DataError]. *)
Definition delete_key (sn : storeName) (k : option string) : M unit :=
  match k with
  | Some k => deleteFromStore sn k
  | None => request ;; throw DataError
  end.

Definition deleteNote_rest (k : option string) : M unit :=
  let* s := get in
  let* kept := Array_filter (notes s)
                 (fun n => Ok (negb (bool_decide (id n = k)))) in
  modify (set_notes kept) ;;
  let* s := get in
  match currentNote s with
  | Some c =>
      if bool_decide (id (get_obj s c) = k)
      then modify (set_currentNote None) (* showEditorPlaceholder() *)
      else ret tt
  | None => ret tt
  end ;;
  renderNotesList.

Definition deleteNote_async (confirmed : bool) (k : option string) : async :=
  if negb confirmed then ret (ret tt)
  else delete_key NotesStore k ;; ret (deleteNote_rest k).

Definition deleteTool_rest (k : option string) : M unit :=
  let* s := get in
  let* kept := Array_filter (tools s)
                 (fun t => Ok (negb (bool_decide (id t = k)))) in
  modify (set_tools kept) ;;
  renderToolsGrid.

Definition deleteTool_async (confirmed : bool) (k : option string) : async :=
  if negb confirmed then ret (ret tt)
  else delete_key ToolsStore k ;; ret (deleteTool_rest k).

Definition toggleFavorite_async (k : option string) : async :=
  let* s := get in
  match find_by_id s (tools s) k with
  | None => ret (ret tt)
  | Some (_, tool) =>
      update_obj tool (fun o => set_favorite (js_not (favorite o)) o) ;;
      saveTool_async tool
  end.

(** [handleImportFile(event)] waits for the text of the file before it
    does anything else. *)
Definition handleImportFile_async (file : option snapshot) : async :=
  ret (handleImportFile file ;; ret tt).

(** ** Settings (app.js, lines 52-76 and 364-380) *)

Definition applyTheme (theme : string) : PageM unit :=
  modifyP (set_dark_theme (bool_decide (theme = "dark"))).

Definition loadSettings : PageM unit :=
  let+ p := getP in
  match localStorage p with
  | Some savedSettings =>
      modifyP (set_settings savedSettings) >>
      applyTheme (theme savedSettings)
      (* the select of the settings dialog shows the interval *)
  | None => retP tt
  end.

Definition saveSettings : PageM unit :=
  modifyP (fun p => set_localStorage (Some (settings p)) p).

(** [setInterval] returns a handle that is not zero and not the handle of
    a live timer. *)
Definition setInterval (period : interval) : PageM nat :=
  fun p => let h := fresh ({[0%nat]} ∪ dom (timers p)) in
           (Ok h, set_timer (autosaveTimer p) (<[h := period]> (timers p)) p).

Definition clearInterval (h : nat) : PageM unit :=
  modifyP (fun p => set_timer (autosaveTimer p) (delete h (timers p)) p).

(** [setupAutosave()].  The timer that it starts runs the autosave
    callback, [autosave] below, every [parseInt(interval)] milliseconds. *)
Definition setupAutosave : PageM unit :=
  let+ p := getP in
  let interval := autosaveInterval (settings p) in
  match autosaveTimer p with
  | Some (S _ as h) =>
      clearInterval h >>
      modifyP (fun p => set_timer None (timers p) p)
  | _ => retP tt
  end >>
  if bool_decide (interval <> Chosen "off") then
    let+ h := setInterval interval in
    modifyP (fun p => set_timer (Some h) (timers p) p)
  else retP tt.

(** ** The note editor (app.js, lines 268-362) *)

(** [renderNoteTags()] reads [state.currentNote.tags.length]. *)
Definition renderNoteTags : PageM unit :=
  let+ p := getP in
  match currentNote (app p) with
  | None => throwP TypeError
  | Some c =>
      match tags (get_obj (app p) c) with
      | None => throwP TypeError
      | Some _ => retP tt
      end
  end.

Definition renderNoteEditor : PageM unit :=
  let+ p := getP in
  match currentNote (app p) with
  | None => retP tt (* showEditorPlaceholder() *)
  | Some c =>
      let note := get_obj (app p) c in
      modifyP (set_note_title (held NoteTitle (shown (title note)))) >>
      match tags note with
      | None => throwP TypeError
      | Some l =>
          modifyP (set_note_tags (held NoteTags (show_tags l))) >>
          modifyP (set_note_content (held NoteContent (shown (content note)))) >>
          renderNoteTags >>
          (* updateNoteMetadata(); updatePinArchiveButtons() *)
          liftM renderNotesList
      end
  end.

Definition saveCurrentNote : PageM unit :=
  let+ p := getP in
  match currentNote (app p) with
  | None => retP tt
  | Some c =>
      let form := note_form p in
      liftM (update_obj c (set_title (if nonempty (note_title form)
                                      then note_title form
                                      else "Untitled Note"))) >>
      liftM (update_obj c (set_content (note_content form))) >>
      liftM (update_obj c (set_tags (parse_tags (note_tags form)))) >>
      spawn (saveNote_async c) >>
      renderNoteTags
  end.

Definition selectNote (noteId : option string) : PageM unit :=
  let+ p := getP in
  match find_by_id (app p) (notes (app p)) noteId with
  | None => retP tt
  | Some (_, note) =>
      match currentNote (app p) with
      | Some _ => if isDirty (app p) then saveCurrentNote else retP tt
      | None => retP tt
      end >>
      liftM (modify (set_currentNote (Some note))) >>
      liftM (modify (set_isDirty false)) >>
      renderNoteEditor
  end.

(** The callback of the autosave timer and of Ctrl/Cmd+S. *)
Definition autosave : PageM unit :=
  let+ p := getP in
  match currentNote (app p) with
  | Some _ =>
      if isDirty (app p)
      then (* updateSaveStatus('Saving...') *) saveCurrentNote
      else retP tt
  | None => retP tt
  end.

(** ** The tool dialog (app.js, lines 549-594) *)

Definition showToolModal (tool : option nat) : PageM unit :=
  let+ t := match tool with
            | Some t => retP t
            | None => liftM createTool
            end in
  modifyP (set_editingTool (Some t)) >>
  let+ p := getP in
  let o := get_obj (app p) t in
  modifyP (set_tool_name (held ToolName (shown (name o)))) >>
  modifyP (set_tool_url (held ToolUrl (shown (url o)))) >>
  modifyP (set_tool_description (held ToolDescription (shown (description o)))) >>
  match tags o with
  | None => throwP TypeError
  | Some l => modifyP (set_tool_tags (held ToolTags (show_tags l)))
  end.

Definition hideToolModal : PageM unit :=
  modifyP (set_editingTool None).

(** [saveToolFromModal()]; the value is the alert shown, if any. *)
Definition saveToolFromModal : PageM (option string) :=
  let+ p := getP in
  let name := trim (tool_name (tool_modal p)) in
  let url := trim (tool_url (tool_modal p)) in
  if negb (nonempty name) || negb (nonempty url) then
    retP (Some "Name and URL are required")
  else
    match editingTool p with
    | None => throwP TypeError
    | Some t =>
        liftM (update_obj t (set_name name)) >>
        liftM (update_obj t (set_url url)) >>
        liftM (update_obj t (set_description
                               (trim (tool_description (tool_modal p))))) >>
        liftM (update_obj t (set_tags (parse_tags (tool_tags (tool_modal p))))) >>
        spawn (saveTool_async t) >>
        hideToolModal >>
        retP None
    end.

Definition editTool (toolId : option string) : PageM unit :=
  let+ p := getP in
  match find_by_id (app p) (tools (app p)) toolId with
  | Some (_, tool) => showToolModal (Some tool)
  | None => retP tt
  end.

(** ** The tag filter and the tabs (app.js, lines 600-632 and 721-736) *)

Definition renderTagFilter : PageM unit :=
  let+ p := getP in
  match activeTagFilter (app p) with
  | Some tag =>
      if nonempty tag then modifyP (set_chip tag false)
      else modifyP (set_chip (chip_text p) true)
  | None => modifyP (set_chip (chip_text p) true)
  end.

Definition render_active_tab : PageM unit :=
  let+ p := getP in
  if bool_decide (activeTab p = "notes") then liftM renderNotesList
  else liftM renderToolsGrid.

Definition setTagFilter (tag : string) : PageM unit :=
  liftM (modify (set_activeTagFilter (Some tag))) >>
  renderTagFilter >>
  render_active_tab.

Definition clearTagFilter : PageM unit :=
  liftM (modify (set_activeTagFilter None)) >>
  renderTagFilter >>
  render_active_tab.

Definition switchTab (tabName : string) : PageM unit :=
  modifyP (set_activeTab tabName).

(** ** The event listeners (app.js, lines 250-265, 520-546 and 888-1001) *)

(** What can happen on the page: the user acts on a control, with the
    text typed, the option chosen or the answer given to [confirm]; or a
    timer fires.  The button that deletes the current note asks once for
    each of its listeners: [confirmed i] is the answer given to listener
    [i]. *)
Inductive event : Type :=
  | ThemeToggleClicked
  | AutosaveIntervalChanged (v : string)
  | ExportClicked
  | ImportClicked
  | ImportFileChosen (file : option snapshot)
  | ClearTagFilterClicked
  | TabClicked (tab : string)
  | NewNoteClicked
  | NotesSearchInput (q : string)
  | NotesSortChanged (v : string)
  | NoteTitleInput (v : string)
  | NoteContentInput (v : string)
  | NoteTagsInput (v : string)
  | PinClicked
  | ArchiveClicked
  | DeleteNoteClicked (confirmed : nat -> bool)
  | SaveKeyPressed
  | NewToolClicked
  | ToolsSearchInput (q : string)
  | ToolsSortChanged (v : string)
  | ToolFormTyped (form : tool_form)
  | SaveToolClicked
  | CancelToolClicked
  | NoteItemClicked (noteId : string)
  | TagClicked (tag : string)
  | FavoriteClicked (toolId : string)
  | EditToolClicked (toolId : string)
  | DeleteToolClicked (toolId : string) (confirmed : bool)
  | TimerFired (h : nat).

(** The number of listeners that run for an event.  A listener that
    [initApp] registers as an arrow function is registered once more by
    each run of [initApp]; one that it registers by the name of a function
    is registered once, however often [initApp] runs.  The listeners of
    the items of the two lists are registered when the list is rendered,
    on new elements.  A timer has the one callback it was started with,
    and typing in the tool dialog has no listener. *)
Definition listeners (e : event) (p : Page) : nat :=
  match e with
  | ThemeToggleClicked | AutosaveIntervalChanged _ | TabClicked _
  | NewNoteClicked | NoteTitleInput _ | NoteContentInput _ | NoteTagsInput _
  | PinClicked | ArchiveClicked | DeleteNoteClicked _ | SaveKeyPressed
  | NewToolClicked => S (reruns p)
  | ExportClicked | ImportClicked | ImportFileChosen _ | ClearTagFilterClicked
  | NotesSearchInput _ | NotesSortChanged _ | ToolsSearchInput _
  | ToolsSortChanged _ | SaveToolClicked | CancelToolClicked => 1
  | NoteItemClicked _ | TagClicked _ | FavoriteClicked _ | EditToolClicked _
  | DeleteToolClicked _ _ => 1
  | ToolFormTyped _ | TimerFired _ => 1
  end.

(** Listener [i] of each event.  For an input event the control already
    holds the new text. *)
Definition handle (e : event) (i : nat) : PageM unit :=
  match e with
  | ThemeToggleClicked =>
      let+ p := getP in
      let theme' := if bool_decide (theme (settings p) = "light")
                    then "dark" else "light" in
      modifyP (set_settings (Config theme' (autosaveInterval (settings p)))) >>
      applyTheme theme' >>
      saveSettings
  | AutosaveIntervalChanged v =>
      modifyP (fun p => set_settings (Config (theme (settings p)) (Chosen v)) p) >>
      saveSettings >>
      setupAutosave
  | ExportClicked => liftM exportData >> retP tt
  | ImportClicked => retP tt (* importData(): the file dialog opens *)
  | ImportFileChosen file => spawn (handleImportFile_async file)
  | ClearTagFilterClicked => clearTagFilter
  | TabClicked tab => switchTab tab
  | NewNoteClicked =>
      let+ note := liftM createNote in
      let+ p := getP in
      liftM (Array_push (notes (app p)) note) >>
      spawn (saveNote_async note) >>
      let+ p := getP in
      selectNote (id (get_obj (app p) note))
  | NotesSearchInput q =>
      liftM (modify (set_notes_search q)) >> liftM renderNotesList
  | NotesSortChanged v =>
      liftM (modify (set_notes_sort v)) >> liftM renderNotesList
  | NoteTitleInput v =>
      modifyP (set_note_title v) >>
      liftM (modify (set_isDirty true)) (* updateSaveStatus('Unsaved changes') *)
  | NoteContentInput v =>
      modifyP (set_note_content v) >>
      liftM (modify (set_isDirty true))
  | NoteTagsInput v =>
      modifyP (set_note_tags v) >>
      liftM (modify (set_isDirty true))
  | PinClicked =>
      let+ p := getP in
      match currentNote (app p) with
      | Some c =>
          liftM (update_obj c (fun o => set_pinned (js_not (pinned o)) o)) >>
          spawn (saveNote_async c)
          (* updatePinArchiveButtons() *)
      | None => retP tt
      end
  | ArchiveClicked =>
      let+ p := getP in
      match currentNote (app p) with
      | Some c =>
          liftM (update_obj c (fun o => set_archived (js_not (archived o)) o)) >>
          spawn (saveNote_async c)
      | None => retP tt
      end
  | DeleteNoteClicked confirmed =>
      let+ p := getP in
      match currentNote (app p) with
      | Some c => spawn (deleteNote_async (confirmed i) (id (get_obj (app p) c)))
      | None => retP tt
      end
  | SaveKeyPressed => autosave
  | NewToolClicked => showToolModal None
  | ToolsSearchInput q =>
      liftM (modify (set_tools_search q)) >> liftM renderToolsGrid
  | ToolsSortChanged v =>
      liftM (modify (set_tools_sort v)) >> liftM renderToolsGrid
  | ToolFormTyped form => modifyP (set_tool_modal form)
  | SaveToolClicked => saveToolFromModal >> retP tt
  | CancelToolClicked => hideToolModal
  | NoteItemClicked noteId => selectNote (Some noteId)
  | TagClicked tag => setTagFilter tag
  | FavoriteClicked toolId => spawn (toggleFavorite_async (Some toolId))
  | EditToolClicked toolId => editTool (Some toolId)
  | DeleteToolClicked toolId confirmed =>
      spawn (deleteTool_async confirmed (Some toolId))
  | TimerFired h =>
      let+ p := getP in
      match timers p !! h with
      | Some _ => autosave
      | None => retP tt
      end
  end.

(** The continuations that are pending run one after the other; an
    exception ends the continuation that throws it and no other. *)
Definition settle (p : Page) : Page :=
  set_pending [] (set_app (foldl (fun s rest => snd (rest s)) (app p) (pending p)) p).

(** The listeners of an event run one after the other, in the order of
    their registration; an exception ends the listener that throws it and
    no other. *)
Definition listen (e : event) (p : Page) : Page :=
  foldl (fun q i => snd (handle e i q)) p (seq 0 (listeners e p)).

(** One event: its listeners run, and then the pending continuations run.
    The value is the page after the event. *)
Definition dispatch (e : event) (p : Page) : Page := settle (listen e p).

(** A sequence of events. *)
Definition after (l : list event) (p : Page) : Page := foldl (fun p e => dispatch e p) p l.

(** ** The start (app.js, lines 875-883) *)

(** The start of [initApp], the database being open: the settings and the
    two lists are loaded, and the autosave timer is set up.  An exception
    ends it, as it ends [initApp]. *)
Definition start_up : PageM unit :=
  loadSettings >>
  liftM loadNotes >>
  liftM loadTools >>
  setupAutosave.

End PageProgram.

(** ** Vocabulary of the page properties *)

(** The content of the mirror array [a] once the record [r] has been put
    in its place: at the index of the first record with its id, or at the
    end. *)
Definition upsert (s : State) (a r : nat) : list nat :=
  match find_by_id s a (id (get_obj s r)) with
  | Some (index, _) => <[index := r]> (get_arr s a)
  | None => get_arr s a ++ [r]
  end.

(** The text properties that rendering a record of the store reads. *)
Definition text (sn : storeName) : obj -> Prop :=
  match sn with
  | NotesStore => note_text
  | ToolsStore => tool_text
  end.

(** The functions of the two repositories, by store. *)
Definition save {browser : Browser} (sn : storeName) : nat -> M unit :=
  match sn with
  | NotesStore => saveNote
  | ToolsStore => saveTool
  end.

Definition delete_record {browser : Browser} (sn : storeName)
  : bool -> string -> M unit :=
  match sn with
  | NotesStore => deleteNote
  | ToolsStore => deleteTool
  end.

Definition render {browser : Browser} (sn : storeName) : M unit :=
  match sn with
  | NotesStore => renderNotesList
  | ToolsStore => renderToolsGrid
  end.

Definition load {browser : Browser} (sn : storeName) : M unit :=
  match sn with
  | NotesStore => loadNotes
  | ToolsStore => loadTools
  end.

Definition set_mirror (sn : storeName) (a : nat) (s : State) : State :=
  match sn with
  | NotesStore => set_notes a s
  | ToolsStore => set_tools a s
  end.

(** [state.currentNote] after [deleteNote(k)] has gone through: reset
    when the current note has the id [k]. *)
Definition current_after_delete (s : State) (k : option string) : option nat :=
  match currentNote s with
  | Some c => if bool_decide (id (get_obj s c) = k) then None else Some c
  | None => None
  end.

(** Both stores are keyed. *)
Definition keyed_stores (s : State) : Prop :=
  keyed (db_notes s) /\ keyed (db_tools s).

(** Every run of [m] relates its first state to its last by [R]. *)
Definition steps (R : State -> State -> Prop) {A} (m : M A) : Prop :=
  forall s r s', m s = (r, s') -> R s s'.

(** The same for an [async] function and the rest it returns. *)
Definition steps_async (R : State -> State -> Prop) (f : async) : Prop :=
  forall s r s', f s = (r, s') ->
    R s s' /\ match r with Ok rest => steps R rest | Throw _ => True end.

(** The note that the editor commits: the title typed, or the default
    title when it is empty; the content typed; the tags parsed from the
    tags input. *)
Definition edited (form : editor) (o : obj) : obj :=
  set_tags (parse_tags (note_tags form))
    (set_content (note_content form)
       (set_title (if nonempty (note_title form) then note_title form
                   else "Untitled Note") o)).

(** The note after [n] listeners in a row have each assigned [f] to it
    and begun to save it, the first of them at the clock reading [t]. *)
Fixpoint stamped `{!Browser} (f : obj -> obj) (t n : nat) (o : obj) : obj :=
  match n with
  | O => o
  | S n' => set_updatedAt (clock (t + n')) (f (stamped f t n' o))
  end.

(** The state that these [n] listeners leave when they have returned, for
    the note [c] with the id [k]: [n] clock readings and [n] store
    requests have been made; the store holds the note unless the requests
    have failed. *)
Definition begun `{!Browser} (f : obj -> obj) (c : nat) (k : string)
    (failed : bool) (n : nat) (s : State) : State :=
  let o := stamped f (ticks s) n (get_obj s c) in
  let s1 := set_requests (requests s + n)
              (set_objs (<[c := o]> (objs s)) (set_ticks (ticks s + n) s)) in
  if failed then s1 else set_db_notes (<[k := o]> (db_notes s)) s1.

(** The page that they leave: the rest of each save is pending. *)
Definition begun_page `{!Browser} (f : obj -> obj) (c : nat) (k : string)
    (failed : bool) (n : nat) (p : Page) : Page :=
  set_pending (pending p ++ if failed then [] else replicate n (saveNote_rest c))
    (set_app (begun f c k failed n (app p)) p).

(** The listener [m] assigns [f] to the note [c] and begins to save it. *)
Definition saving `{!Browser} (f : obj -> obj) (c : nat) (m : PageM unit)
    (q : Page) : Prop :=
  snd (m q) =
  snd (spawn (saveNote_async c)
         (set_app (set_objs (<[c := f (get_obj (app q) c)]> (objs (app q)))
                     (app q)) q)).

(** The events that run the autosave callback: Ctrl/Cmd+S, and a live
    timer that fires. *)
Definition saves (p : Page) (e : event) : Prop :=
  e = SaveKeyPressed \/ exists h, e = TimerFired h /\ is_Some (timers p !! h).

(** A relation between states that respects the assignments that showing
    a list makes: new arrays, readings of the clock, the dirty flag, the
    current note, and the inputs of the query other than the tag filter. *)
Record view_blind (R : State -> State -> Prop) : Prop := {
  blind_refl : forall s, R s s;
  blind_trans : forall s1 s2 s3, R s1 s2 -> R s2 s3 -> R s1 s3;
  blind_new_arrs : forall v s,
    (forall a, is_Some (arrs s !! a) -> v !! a = arrs s !! a) ->
    R s (set_arrs v s);
  blind_ticks : forall v s, R s (set_ticks v s);
  blind_currentNote : forall v s, R s (set_currentNote v s);
  blind_isDirty : forall v s, R s (set_isDirty v s);
  blind_notes_search : forall v s, R s (set_notes_search v s);
  blind_notes_sort : forall v s, R s (set_notes_sort v s);
  blind_tools_search : forall v s, R s (set_tools_search v s);
  blind_tools_sort : forall v s, R s (set_tools_sort v s)
}.

(** One that moreover respects the assignments to objects, to the mirror
    pointers and to the counters of requests and UUIDs. *)
Record heap_blind (R : State -> State -> Prop) : Prop := {
  blind_view : view_blind R;
  blind_arrs : forall v s, R s (set_arrs v s);
  blind_objs : forall v s, R s (set_objs v s);
  blind_notes : forall v s, R s (set_notes v s);
  blind_tools : forall v s, R s (set_tools v s);
  blind_requests : forall v s, R s (set_requests v s);
  blind_uuids : forall v s, R s (set_uuids v s)
}.

(** Keyed stores stay keyed. *)
Definition keeps_keyed (s s' : State) : Prop := keyed_stores s -> keyed_stores s'.

(** The tag filter is not assigned. *)
Definition same_filter (s s' : State) : Prop := activeTagFilter s' = activeTagFilter s.

(** Every run of the page computation [m] relates its first page to its
    last by [Q]. *)
Definition stepsP (Q : Page -> Page -> Prop) {A} (m : PageM A) : Prop :=
  forall p r p', m p = (r, p') -> Q p p'.

(** A relation between pages that respects the runs of computations of
    the data model that are [R]-steps, and the assignments to the forms,
    to the tool being edited and to the active tab. *)
Record page_view_blind (R : State -> State -> Prop) (Q : Page -> Page -> Prop)
  : Prop := {
  pv_refl : forall p, Q p p;
  pv_trans : forall p1 p2 p3, Q p1 p2 -> Q p2 p3 -> Q p1 p3;
  pv_run : forall s' p, R (app p) s' -> Q p (set_app s' p);
  pv_note_form : forall v p, Q p (set_note_form v p);
  pv_tool_modal : forall v p, Q p (set_tool_modal v p);
  pv_editingTool : forall v p, Q p (set_editingTool v p);
  pv_activeTab : forall v p, Q p (set_activeTab v p)
}.

(** One that moreover respects the start of an [async] function whose
    rest is an [R]-step. *)
Record page_blind (R : State -> State -> Prop) (Q : Page -> Page -> Prop)
  : Prop := {
  pb_view : page_view_blind R Q;
  pb_spawn : forall rest s' p,
    R (app p) s' -> steps R rest ->
    Q p (set_pending (pending p ++ [rest]) (set_app s' p))
}.

(** It respects the assignments to the settings, the timers, the stored
    settings and the theme; to the chip of the tag filter; to the tag
    filter. *)
Record settings_blind (Q : Page -> Page -> Prop) : Prop := {
  sb_settings : forall v p, Q p (set_settings v p);
  sb_timer : forall h v p, Q p (set_timer h v p);
  sb_localStorage : forall v p, Q p (set_localStorage v p);
  sb_dark_theme : forall v p, Q p (set_dark_theme v p)
}.

Definition chip_blind (Q : Page -> Page -> Prop) : Prop :=
  forall text hidden p, Q p (set_chip text hidden p).

Definition filter_blind (R : State -> State -> Prop) : Prop :=
  forall v s, R s (set_activeTagFilter v s).

(** The events whose listeners assign the settings or the timers, and
    those whose listeners assign the tag filter. *)
Definition settings_event (e : event) : bool :=
  match e with
  | ThemeToggleClicked | AutosaveIntervalChanged _ => true
  | _ => false
  end.

Definition filter_event (e : event) : bool :=
  match e with
  | ClearTagFilterClicked | TagClicked _ => true
  | _ => false
  end.

(** The events whose listeners only show: they change what is displayed
    or typed, never a record. *)
Definition passive (e : event) : bool :=
  match e with
  | ThemeToggleClicked | AutosaveIntervalChanged _ | ExportClicked
  | ImportClicked | ClearTagFilterClicked | TabClicked _
  | NotesSearchInput _ | NotesSortChanged _ | NoteTitleInput _
  | NoteContentInput _ | NoteTagsInput _ | ToolsSearchInput _
  | ToolsSortChanged _ | ToolFormTyped _ | CancelToolClicked | TagClicked _
  | EditToolClicked _ => true
  | _ => false
  end.

(** [K] is kept: it holds after whenever it holds before. *)
Definition keeps (K : State -> Prop) (s s' : State) : Prop := K s -> K s'.

(** The page satisfies [K], and so will it after any of the pending
    continuations. *)
Definition sound (K : State -> Prop) (p : Page) : Prop :=
  K (app p) /\ Forall (steps (keeps K)) (pending p).

(** The stores are these. *)
Definition stores_are (dn dt : gmap string obj) (s : State) : Prop :=
  db_notes s = dn /\ db_tools s = dt.

(** ** What the listeners that only show leave alone *)

(** No object, no store, no mirror pointer and no existing array has
    changed, and no request and no UUID was used. *)
Definition data_kept (s s' : State) : Prop :=
  objs s' = objs s /\ db_notes s' = db_notes s /\ db_tools s' = db_tools s /\
  requests s' = requests s /\ uuids s' = uuids s /\
  notes s' = notes s /\ tools s' = tools s /\
  forall a, is_Some (arrs s !! a) -> arrs s' !! a = arrs s !! a.

Definition page_data_kept (p p' : Page) : Prop :=
  data_kept (app p) (app p') /\ pending p' = pending p.

(** ** The settings, the timers and the chip *)

(** The autosave timer is the one live timer, with the interval of the
    settings; there is none when the interval is ['off']. *)
Definition timer_ok (p : Page) : Prop :=
  if decide (autosaveInterval (settings p) = Chosen "off")
  then autosaveTimer p = None /\ timers p = ∅
  else exists h, h <> 0%nat /\ autosaveTimer p = Some h /\
                 timers p = {[ h := autosaveInterval (settings p) ]}.

(** The body has the dark class exactly when the theme is ['dark']. *)
Definition theme_ok (p : Page) : Prop :=
  dark_theme p = bool_decide (theme (settings p) = "dark").

(** The settings that are stored, if any, are the current ones. *)
Definition stored_ok (p : Page) : Prop :=
  forall c, localStorage p = Some c -> c = settings p.

Definition settings_ok (p : Page) : Prop := timer_ok p /\ theme_ok p /\ stored_ok p.

(** The settings, the timers, the stored settings and the theme are the
    same. *)
Definition same_settings (p p' : Page) : Prop :=
  settings p' = settings p /\ autosaveTimer p' = autosaveTimer p /\
  timers p' = timers p /\ localStorage p' = localStorage p /\
  dark_theme p' = dark_theme p.

(** The theme that the theme button sets: dark from light, and light from
    any other. *)
Definition toggled (t : string) : string :=
  if bool_decide (t = "light") then "dark" else "light".

(** What the chip shows, and the tag filter in force. *)
Definition chip_shows (p : Page) : option string :=
  if chip_hidden p then None else Some (chip_text p).

Definition filter_on (s : State) : option string :=
  match activeTagFilter s with
  | Some tag => if nonempty tag then Some tag else None
  | None => None
  end.

Definition chip_ok (p : Page) : Prop := chip_shows p = filter_on (app p).

Definition any_step (s s' : State) : Prop := True.

(** There is at most one live timer, the one of [state.autosaveTimer]. *)
Definition one_timer (p : Page) : Prop :=
  (autosaveTimer p = None /\ timers p = ∅) \/
  exists h x, h <> 0%nat /\ autosaveTimer p = Some h /\ timers p = {[ h := x ]}.

(** The chip is right, and no pending continuation assigns the tag
    filter. *)
Definition chip_sound (p : Page) : Prop :=
  chip_ok p /\ Forall (steps same_filter) (pending p).

Definition keeps_chip (p p' : Page) : Prop := chip_sound p -> chip_sound p'.

(** The assignment that the pin button and the archive button make. *)
Definition flipped (e : event) (o : obj) : obj :=
  match e with
  | PinClicked => set_pinned (js_not (pinned o)) o
  | ArchiveClicked => set_archived (js_not (archived o)) o
  | _ => o
  end.

(** The flag that the button assigns. *)
Definition flag (e : event) (o : obj) : option bool :=
  match e with
  | PinClicked => pinned o
  | ArchiveClicked => archived o
  | _ => None
  end.

(** The texts that [renderNoteEditor] writes to the editor for a note,
    and what the editor then holds: each control what it keeps of the
    text written to it. *)
Definition texts_of (o : obj) : editor :=
  Editor (shown (title o)) (show_tags (default [] (tags o))) (shown (content o)).

Definition editor_of `{!Controls} (o : obj) : editor :=
  Editor (held NoteTitle (note_title (texts_of o)))
         (held NoteTags (note_tags (texts_of o)))
         (held NoteContent (note_content (texts_of o))).

(** A note whose texts are plain. *)
Definition plain_note (o : obj) : Prop :=
  plain (note_title (texts_of o)) /\ plain (note_tags (texts_of o)) /\
  plain (note_content (texts_of o)).

(** The note that [createNote()] makes at the state [s]. *)
Definition fresh_note {browser : Browser} (s : State) : obj :=
  {| id := Some (randomUUID (uuids s));
     title := Some "Untitled Note";
     content := Some "";
     name := None; url := None; description := None;
     tags := Some [];
     pinned := Some false;
     archived := Some false;
     favorite := None;
     createdAt := Some (clock (ticks s));
     updatedAt := Some (clock (S (ticks s))) |}.

(** The note that listener [j] of the new-note button makes, counting
    from 0, on a page whose state was [s] before the click: each listener
    before it has read the clock three times and drawn one identifier. *)
Definition nth_note `{!Browser} (s : State) (j : nat) : obj :=
  let s' := set_ticks (ticks s + 3 * j) (set_uuids (uuids s + j) s) in
  set_updatedAt (clock (S (S (ticks s')))) (fresh_note s').

(** The state [s'] has, beside what [s] has, the new notes [rs]: note
    [j] of them is [nth_note s j], a new object, stored under its
    identifier; the notes are at the end of the list, in order; the
    objects of [s], the other records of the store and the store of the
    tools are as they were; and for each note the clock was read three
    times, one store request was made and one identifier was drawn. *)
Definition created `{!Browser} (s s' : State) (rs : list nat) : Prop :=
  (forall x, is_Some (objs s !! x) -> objs s' !! x = objs s !! x) /\
  (forall j r, rs !! j = Some r ->
     objs s !! r = None /\ objs s' !! r = Some (nth_note s j) /\
     db_notes s' !! randomUUID (uuids s + j) = Some (nth_note s j)) /\
  (forall u, (forall j, (j < length rs)%nat -> u <> randomUUID (uuids s + j)) ->
     db_notes s' !! u = db_notes s !! u) /\
  db_tools s' = db_tools s /\ notes s' = notes s /\
  get_arr s' (notes s) = get_arr s (notes s) ++ rs /\
  ticks s' = (ticks s + 3 * length rs)%nat /\
  requests s' = (requests s + length rs)%nat /\
  uuids s' = (uuids s + length rs)%nat.

(** Every character of the text is white space. *)
Fixpoint all_space (s : string) : bool :=
  match s with
  | EmptyString => true
  | String c s' => is_space c && all_space s'
  end.

(** The tool that the dialog commits: the name, the address and the
    description trimmed, and the tags parsed from the tags input. *)
Definition filled (form : tool_form) (o : obj) : obj :=
  set_tags (parse_tags (tool_tags form))
    (set_description (trim (tool_description form))
       (set_url (trim (tool_url form))
          (set_name (trim (tool_name form)) o))).

(** What the tool dialog holds of a tool: each control what it keeps of
    the text that [showToolModal] writes to it. *)
Definition dialog_of `{!Controls} (o : obj) : tool_form :=
  ToolForm (held ToolName (shown (name o))) (held ToolUrl (shown (url o)))
    (held ToolDescription (shown (description o)))
    (held ToolTags (show_tags (default [] (tags o)))).

(** A text property that is present and plain: no line break in it, and
    no white space at either end. *)
Definition plain_text (v : option string) : Prop :=
  exists x, v = Some x /\ plain x.

(** * Sample pages *)

(** Controls as a browser has them: an input drops the line feeds and the
    carriage returns of a text; a text area turns a carriage return, with
    the line feed that follows it if there is one, into a line feed.  The
    content of a note and the description of a tool are text areas
    here. *)
Fixpoint strip_breaks (s : string) : string :=
  match s with
  | EmptyString => EmptyString
  | String c s' =>
      if Ascii.eqb c "010" || Ascii.eqb c "013" then strip_breaks s'
      else String c (strip_breaks s')
  end.

Fixpoint line_feeds (s : string) : string :=
  match s with
  | EmptyString => EmptyString
  | String c s' =>
      if Ascii.eqb c "013" then
        match s' with
        | String "010" _ => line_feeds s'
        | _ => String "010" (line_feeds s')
        end
      else String c (line_feeds s')
  end.

Definition browser_held (c : control) (s : string) : string :=
  match c with
  | NoteContent | ToolDescription => line_feeds s
  | _ => strip_breaks s
  end.

Lemma browser_held_plain c s : plain s -> browser_held c s = s.
Proof.
  intros [[Hlf Hcr] _].
  assert (E1 : strip_breaks s = s).
  { induction s as [|a s IH]; simpl in *; [done|].
    apply orb_false_iff in Hlf as [-> Hlf]. apply orb_false_iff in Hcr as [-> Hcr].
    simpl. by rewrite IH. }
  assert (E2 : line_feeds s = s).
  { clear E1 Hlf. induction s as [|a s IH]; simpl in *; [done|].
    apply orb_false_iff in Hcr as [-> Hcr]. by rewrite IH. }
  by destruct c.
Qed.

Definition page_controls : Controls :=
  {| held := browser_held; held_plain := browser_held_plain |}.

(** The page of [demo_state] after a sign-in, so that [initApp] has run
    once: the note ["a"] is open in the editor, the autosave timer runs
    with the initial interval, no settings are stored, no tag filter is
    shown. *)
Definition demo_page : Page :=
  {| app := demo_state;
     pending := [];
     editingTool := None;
     activeTab := "notes";
     settings := Config "light" (Millis 3000);
     autosaveTimer := Some 1%nat;
     timers := {[ 1%nat := Millis 3000 ]};
     localStorage := None;
     dark_theme := false;
     note_form := Editor "Alpha" "work" "first note";
     tool_modal := ToolForm "" "" "" "";
     chip_text := "";
     chip_hidden := true;
     reruns := 0 |}.

(** The same page after a new title and new tags have been typed. *)
Definition typed_page : Page :=
  set_app (set_isDirty true demo_state)
    (set_note_form (Editor "Alpha 2" "work, urgent" "first note") demo_page).

(** The page [p] when a session was found at the start of the
    application, so that [initApp] has run twice. *)
Definition returning (p : Page) : Page :=
  {| app := app p;
     pending := pending p;
     editingTool := editingTool p;
     activeTab := activeTab p;
     settings := settings p;
     autosaveTimer := autosaveTimer p;
     timers := timers p;
     localStorage := localStorage p;
     dark_theme := dark_theme p;
     note_form := note_form p;
     tool_modal := tool_modal p;
     chip_text := chip_text p;
     chip_hidden := chip_hidden p;
     reruns := 1 |}.

(** The tool dialog open on the tool ["t1"], with a form filled in; and
    with a name of spaces only. *)
Definition dialog_page : Page :=
  set_editingTool (Some 2%nat)
    (set_tool_modal (ToolForm " Alpha " "http://a.org" "" "web, dev") demo_page).

Definition blank_dialog_page : Page :=
  set_editingTool (Some 2%nat)
    (set_tool_modal (ToolForm "   " "http://a.org" "" "") demo_page).

(** The page before the start of the application, with the stores of
    [demo_state] and the dark theme among the stored settings. *)
Definition stored_state : State :=
  set_db_tools (db_tools demo_state) (set_db_notes (db_notes demo_state) initial_state).

Definition loading_page : Page :=
  {| app := stored_state;
     pending := [];
     editingTool := None;
     activeTab := "notes";
     settings := Config "light" (Millis 3000);
     autosaveTimer := None;
     timers := ∅;
     localStorage := Some (Config "dark" (Chosen "off"));
     dark_theme := false;
     note_form := Editor "" "" "";
     tool_modal := ToolForm "" "" "" "";
     chip_text := "";
     chip_hidden := true;
     reruns := 0 |}.

(** A browser whose fifth store request fails, and no other. *)
Definition fifth_request_fails : Browser := test_browser (fun n => Nat.eqb n 4).

(** A new note, a title typed, Ctrl/Cmd+S, and a click on a tag. *)
Definition some_events : list event :=
  [NewNoteClicked; NoteTitleInput "Shopping"; SaveKeyPressed; TagClicked "work"].

(** * Lemmas and theorems *)

(** ** Running computations *)

Lemma bind_run {A B} (m : M A) (k : A -> M B) s :
  bind m k s = match m s with
               | (Ok a, s') => k a s'
               | (Throw e, s') => (Throw e, s')
               end.
Proof. reflexivity. Qed.

Lemma bind_assoc {A B C} (m : M A) (k : A -> M B) (h : B -> M C) s :
  bind (bind m k) h s = bind m (fun a => bind (k a) h) s.
Proof.
  rewrite !bind_run. destruct (m s) as [[a|e] s1]; [by rewrite bind_run | done].
Qed.

Lemma get_run s : get s = (Ok s, s).
Proof. reflexivity. Qed.

Lemma modify_run f s : modify f s = (Ok tt, f s).
Proof. reflexivity. Qed.

Lemma ret_run {A} (a : A) s : ret a s = (Ok a, s).
Proof. reflexivity. Qed.

Lemma state_eta s : set_arrs (arrs s) s = s.
Proof. by destruct s. Qed.

Lemma frame_refl s : frame s s.
Proof. split; [by rewrite state_eta | done]. Qed.

Lemma frame_objs s0 s : frame s0 s -> objs s = objs s0.
Proof. intros [-> _]. done. Qed.

Lemma frame_get_obj s0 s r : frame s0 s -> get_obj s r = get_obj s0 r.
Proof. intros H. unfold get_obj. by rewrite (frame_objs _ _ H). Qed.

Lemma frame_get_arr s0 s a :
  frame s0 s -> is_Some (arrs s0 !! a) -> get_arr s a = get_arr s0 a.
Proof. intros [_ H] Ha. unfold get_arr. by rewrite H. Qed.

Lemma frame_activeTagFilter s0 s :
  frame s0 s -> activeTagFilter s = activeTagFilter s0.
Proof. intros [-> _]. done. Qed.

Lemma frame_mirror s0 s sn : frame s0 s -> mirror sn s = mirror sn s0.
Proof. intros [-> _]. by destruct sn. Qed.

Lemma frame_db s0 s sn : frame s0 s -> db sn s = db sn s0.
Proof. intros [-> _]. by destruct sn. Qed.

Lemma records_frame s0 s sn :
  frame s0 s -> live_mirrors s0 -> records sn s = records sn s0.
Proof.
  intros F [Hn Ht]. unfold records. rewrite (frame_mirror _ _ _ F).
  rewrite (frame_get_arr _ _ _ F) by (by destruct sn).
  unfold get_obj. by rewrite (frame_objs _ _ F).
Qed.

(** Allocating an array keeps the frame; the new array is not one of the
    base state. *)
Lemma frame_new_arr s0 s l :
  frame s0 s ->
  exists a s', new_arr l s = (Ok a, s') /\ frame s0 s' /\
    arrs s !! a = None /\ arrs s0 !! a = None /\ arrs s' !! a = Some l /\
    (forall b, b <> a -> arrs s' !! b = arrs s !! b).
Proof.
  intros [E H]. set (a := fresh (dom (arrs s))).
  assert (Ha : arrs s !! a = None).
  { apply not_elem_of_dom. apply is_fresh. }
  assert (Ha0 : arrs s0 !! a = None).
  { destruct (arrs s0 !! a) eqn:E0; [|done].
    rewrite <- H in E0 by eauto. congruence. }
  exists a, (set_arrs (<[a := l]> (arrs s)) s). repeat split.
  - rewrite E at 2. done.
  - intros b Hb. simpl. rewrite lookup_insert_ne; [by apply H |].
    intros ->. rewrite Ha0 in Hb. by destruct Hb.
  - done.
  - done.
  - simpl. by rewrite lookup_insert_eq.
  - intros b Hb. simpl. by rewrite lookup_insert_ne.
Qed.

(** Writing an array that the base state does not have keeps the frame. *)
Lemma frame_write_arr s0 s a l :
  frame s0 s -> arrs s0 !! a = None ->
  exists s', write_arr a l s = (Ok tt, s') /\ frame s0 s' /\
    arrs s' !! a = Some l.
Proof.
  intros [E H] Ha. exists (set_arrs (<[a := l]> (arrs s)) s). repeat split.
  - rewrite E at 2. done.
  - intros b Hb. simpl. rewrite lookup_insert_ne; [by apply H |].
    intros ->. rewrite Ha in Hb. by destruct Hb.
  - simpl. by rewrite lookup_insert_eq.
Qed.

Lemma get_arr_Some s a l : arrs s !! a = Some l -> get_arr s a = l.
Proof. unfold get_arr. by intros ->. Qed.

Lemma yields_bind s0 m s r (k : nat -> M nat) f :
  yields s0 m s r ->
  (forall a s1 l, frame s0 s1 -> arrs s0 !! a = None ->
     arrs s1 !! a = Some l -> yields s0 (k a) s1 (f l)) ->
  yields s0 (bind m k) s (and_then r f).
Proof.
  intros (s1 & F1 & H) Hk. destruct r as [l|e]; simpl.
  - destruct H as (a & Hm & Ha0 & Ha). unfold yields, bind. rewrite Hm.
    by apply Hk.
  - exists s1. split; [done|]. unfold bind. by rewrite H.
Qed.

Lemma yields_new_arr s0 s l : frame s0 s -> yields s0 (new_arr l) s (Ok l).
Proof.
  intros F. destruct (frame_new_arr s0 s l F) as (a & s' & E & F' & _ & H0 & H1 & _).
  exists s'. split; [done|]. by exists a.
Qed.

Lemma yields_ret s0 s a l :
  frame s0 s -> arrs s0 !! a = None -> arrs s !! a = Some l ->
  yields s0 (ret a) s (Ok l).
Proof. intros F H0 H. exists s. split; [done|]. by exists a. Qed.

Lemma yields_spread s0 s a :
  frame s0 s -> yields s0 (Array_spread a) s (Ok (get_arr s a)).
Proof. intros F. unfold Array_spread, bind, read_arr. by apply yields_new_arr. Qed.

Lemma filterM_ext {A} (p q : A -> result bool) l :
  (forall x, p x = q x) -> filterM p l = filterM q l.
Proof. intros H. induction l as [|x l IH]; simpl; [done|]. by rewrite H, IH. Qed.

Lemma Array_filter_run a p s :
  Array_filter a p s =
  match filterM (fun r => p (get_obj s r)) (get_arr s a) with
  | Ok l => new_arr l s
  | Throw e => (Throw e, s)
  end.
Proof. reflexivity. Qed.

Lemma yields_filter s0 s a l p :
  frame s0 s -> arrs s !! a = Some l ->
  yields s0 (Array_filter a p) s (filterM (fun r => p (get_obj s0 r)) l).
Proof.
  intros F Ha. unfold yields. rewrite Array_filter_run, (get_arr_Some _ _ _ Ha).
  rewrite (filterM_ext (fun r => p (get_obj s r)) (fun r => p (get_obj s0 r)))
    by (intros; by rewrite (frame_get_obj _ _ _ F)).
  destruct (filterM _ l) as [l'|e].
  - by apply yields_new_arr.
  - by exists s.
Qed.

Section Pipeline.
Context {browser : Browser}.

Lemma filterAndSortNotes_sorted_pipeline s :
  filterAndSortNotes_sorted s =
  pipeline_sorted (notes s) note_matches (notes_search s)
    (compare_notes (notes_sort s)) s.
Proof. reflexivity. Qed.

Lemma filterAndSortTools_sorted_pipeline s :
  filterAndSortTools_sorted s =
  pipeline_sorted (tools s) tool_matches (tools_search s)
    (compare_tools (tools_sort s)) s.
Proof. reflexivity. Qed.

Lemma filterAndSortNotes_pipeline s :
  filterAndSortNotes s =
  pipeline (notes s) note_matches (notes_search s)
    (compare_notes (notes_sort s)) pinned s.
Proof. reflexivity. Qed.

Lemma filterAndSortTools_pipeline s :
  filterAndSortTools s =
  pipeline (tools s) tool_matches (tools_search s)
    (compare_tools (tools_sort s)) favorite s.
Proof. reflexivity. Qed.

Lemma yields_tag_filter s0 s a l :
  frame s0 s -> arrs s0 !! a = None -> arrs s !! a = Some l ->
  yields s0 (apply_tag_filter a) s (tag_filtered s0 l).
Proof.
  intros F H0 Ha. unfold tag_filtered.
  assert (E : apply_tag_filter a s =
              match activeTagFilter s0 with
              | Some tag => if nonempty tag
                            then Array_filter a (tags_include tag) s
                            else ret a s
              | None => ret a s
              end).
  { unfold apply_tag_filter, bind, get.
    rewrite (frame_activeTagFilter _ _ F).
    destruct (activeTagFilter s0) as [tag|]; [|done]. by destruct (nonempty tag). }
  unfold yields. rewrite E.
  destruct (activeTagFilter s0) as [tag|]; [destruct (nonempty tag)|].
  - by apply yields_filter.
  - by apply yields_ret.
  - by apply yields_ret.
Qed.

Lemma yields_search s0 s a l matches q :
  frame s0 s -> arrs s0 !! a = None -> arrs s !! a = Some l ->
  yields s0 (apply_search matches q a) s (searched s0 matches q l).
Proof.
  intros F H0 Ha. unfold apply_search, searched. destruct (nonempty q).
  - by apply yields_filter.
  - by apply yields_ret.
Qed.

Lemma sortM_ext {A} (c d : A -> A -> result Z) l :
  (forall x y, c x y = d x y) -> sortM c l = sortM d l.
Proof.
  intros H. induction l as [|x l IH]; simpl; [done|]. rewrite IH.
  destruct (sortM d l) as [r|e]; [|done].
  clear IH. induction r as [|y r IH]; simpl; [done|]. by rewrite H, IH.
Qed.

Lemma Array_sort_run a cmp s :
  Array_sort a cmp s =
  match sortM (fun x y => cmp (get_obj s x) (get_obj s y)) (get_arr s a) with
  | Ok l => write_arr a l s
  | Throw e => (Throw e, s)
  end.
Proof. reflexivity. Qed.

Lemma yields_sort s0 s a l cmp :
  frame s0 s -> arrs s0 !! a = None -> arrs s !! a = Some l ->
  yields s0 (Array_sort a cmp ;; ret a) s
    (sortM (fun x y => cmp (get_obj s0 x) (get_obj s0 y)) l).
Proof.
  intros F H0 Ha. unfold yields, bind. rewrite Array_sort_run.
  rewrite (get_arr_Some _ _ _ Ha).
  rewrite (sortM_ext (fun x y => cmp (get_obj s x) (get_obj s y))
                     (fun x y => cmp (get_obj s0 x) (get_obj s0 y)))
    by (intros; by rewrite !(frame_get_obj _ _ _ F)).
  destruct (sortM _ l) as [l'|e].
  - destruct (frame_write_arr s0 s a l' F H0) as (s' & E & F' & H').
    exists s'. split; [done|]. exists a. by rewrite E.
  - by exists s.
Qed.

(** The first three steps of the pipeline: a new array with the sorted
    list, in a state that differs from the start by new arrays only. *)
Lemma pipeline_sorted_yields s a matches search cmp :
  yields s (pipeline_sorted a matches search cmp) s
    (sorted_list s a matches search cmp).
Proof.
  unfold pipeline_sorted, sorted_list.
  change (and_then (tag_filtered s (get_arr s a)) ?f)
    with (and_then (Ok (get_arr s a)) (fun l => and_then (tag_filtered s l) f)).
  apply yields_bind; [apply yields_spread, frame_refl|].
  intros a1 s1 l1 F1 H1 Ha1.
  apply yields_bind; [by apply yields_tag_filter|].
  intros a2 s2 l2 F2 H2 Ha2.
  apply yields_bind; [by apply yields_search|].
  intros a3 s3 l3 F3 H3 Ha3.
  by apply yields_sort.
Qed.

Lemma filterM_total {A} (p : A -> bool) l :
  filterM (fun x => Ok (p x)) l = Ok (List.filter p l).
Proof.
  induction l as [|x l IH]; simpl; [done|]. rewrite IH. by destruct (p x).
Qed.

Lemma yields_concat s0 s a b la lb :
  frame s0 s -> arrs s !! a = Some la -> arrs s !! b = Some lb ->
  yields s0 (Array_concat a b) s (Ok (la ++ lb)).
Proof.
  intros F Ha Hb.
  assert (E : Array_concat a b s = new_arr (la ++ lb) s).
  { unfold Array_concat, bind, read_arr.
    by rewrite (get_arr_Some _ _ _ Ha), (get_arr_Some _ _ _ Hb). }
  unfold yields. rewrite E. by apply yields_new_arr.
Qed.

(** The whole pipeline. *)
Lemma pipeline_yields s a matches search cmp prio :
  yields s (pipeline a matches search cmp prio) s
    (and_then (sorted_list s a matches search cmp)
       (fun l => Ok (partitioned s prio l))).
Proof.
  unfold pipeline.
  apply yields_bind; [apply pipeline_sorted_yields|].
  intros a1 s1 l F1 H1 Ha1. unfold partitioned.
  destruct (yields_filter s s1 a1 l (fun o => Ok (truthy (prio o))) F1 Ha1)
    as (s2 & F2 & Hp).
  rewrite (filterM_total (fun r => truthy (prio (get_obj s r)))) in Hp.
  destruct Hp as (a2 & E2 & H2 & Ha2).
  assert (Ha1' : arrs s2 !! a1 = Some l).
  { unfold Array_filter, bind, get, lift in E2. simpl in E2.
    rewrite (get_arr_Some _ _ _ Ha1) in E2.
    destruct (filterM _ l); [|done]. injection E2 as <- <-.
    simpl. rewrite lookup_insert_ne; [done|].
    intros <-. pose proof (is_fresh (dom (arrs s1))) as Hf.
    apply Hf, elem_of_dom. eauto. }
  destruct (yields_filter s s2 a1 l (fun o => Ok (js_not (prio o))) F2 Ha1')
    as (s3 & F3 & Hq).
  rewrite (filterM_total (fun r => js_not (prio (get_obj s r)))) in Hq.
  destruct Hq as (a3 & E3 & H3 & Ha3).
  assert (Ha2' : arrs s3 !! a2 = Some (List.filter (fun r => truthy (prio (get_obj s r))) l)).
  { unfold Array_filter, bind, get, lift in E3. simpl in E3.
    destruct (filterM _ _); [|done]. injection E3 as <- <-.
    simpl. rewrite lookup_insert_ne; [done|].
    intros <-. pose proof (is_fresh (dom (arrs s2))) as Hf.
    apply Hf, elem_of_dom. eauto. }
  destruct (yields_concat s s3 a2 a3 _ _ F3 Ha2' Ha3) as (s4 & F4 & a4 & E4 & H4 & Ha4).
  exists s4. split; [done|]. exists a4. unfold bind. by rewrite E2, E3, E4.
Qed.

End Pipeline.

(** ** Filtering and sorting lists *)

Lemma filterM_elem_of {A} (p : A -> result bool) l l' x :
  filterM p l = Ok l' -> x ∈ l' <-> x ∈ l /\ p x = Ok true.
Proof.
  revert l'. induction l as [|y l IH]; simpl; intros l' H.
  - injection H as <-. split; [by intros ?%elem_of_nil | by intros [?%elem_of_nil _]].
  - destruct (p y) as [b|] eqn:Ey; [|done].
    destruct (filterM p l) as [r|]; [|done]. injection H as <-.
    specialize (IH r eq_refl). destruct b.
    + rewrite !elem_of_cons, IH. split.
      * intros [->|[? ?]]; auto.
      * intros [[->|?] ?]; auto.
    + rewrite elem_of_cons, IH. split.
      * intros [? ?]; auto.
      * intros [[->|?] ?]; [congruence | auto].
Qed.

Lemma filterM_Ok {A} (p : A -> result bool) l :
  Forall (fun x => exists b, p x = Ok b) l -> exists l', filterM p l = Ok l'.
Proof.
  induction 1 as [|x l [b Hb] _ [l' IH]]; simpl; [by eexists|].
  rewrite Hb, IH. by eexists.
Qed.

Lemma insertM_Permutation {A} (cmp : A -> A -> result Z) x l l' :
  insertM cmp x l = Ok l' -> l' ≡ₚ x :: l.
Proof.
  revert l'. induction l as [|y l IH]; simpl; intros l' H.
  - by injection H as <-.
  - destruct (cmp x y) as [c|]; [|done]. destruct (c <=? 0).
    + by injection H as <-.
    + destruct (insertM cmp x l) as [r|]; [|done]. injection H as <-.
      rewrite (IH r eq_refl). apply Permutation_swap.
Qed.

Lemma sortM_Permutation {A} (cmp : A -> A -> result Z) l l' :
  sortM cmp l = Ok l' -> l' ≡ₚ l.
Proof.
  revert l'. induction l as [|x l IH]; simpl; intros l' H.
  - by injection H as <-.
  - destruct (sortM cmp l) as [r|]; [|done].
    rewrite (insertM_Permutation _ _ _ _ H). by rewrite (IH r eq_refl).
Qed.

Lemma insertM_Ok {A} (cmp : A -> A -> result Z) x l :
  Forall (fun y => exists c, cmp x y = Ok c) l -> exists l', insertM cmp x l = Ok l'.
Proof.
  induction 1 as [|y l [c Hc] _ [l' IH]]; simpl; [by eexists|].
  rewrite Hc, IH. destruct (c <=? 0); by eexists.
Qed.

Lemma sortM_Ok {A} (cmp : A -> A -> result Z) l :
  (forall x y, x ∈ l -> y ∈ l -> exists c, cmp x y = Ok c) ->
  exists l', sortM cmp l = Ok l'.
Proof.
  induction l as [|x l IH]; simpl; intros H; [by eexists|].
  destruct IH as [r Hr].
  { intros y z Hy Hz. apply H; by apply elem_of_cons; right. }
  rewrite Hr. apply insertM_Ok. apply Forall_forall. intros y Hy.
  apply H; [by apply elem_of_cons; left|].
  apply elem_of_cons; right. by rewrite <- (sortM_Permutation _ _ _ Hr).
Qed.

Lemma prefix_spec q s : String.prefix q s = true <-> exists post, s = q +:+ post.
Proof.
  revert s. induction q as [|c q IH]; intros [|d s]; simpl.
  - split; [by exists "" | done].
  - split; [by exists (String d s) | done].
  - split; [done | by intros [? ?]].
  - destruct (Ascii.ascii_dec c d) as [->|Hne].
    + rewrite IH. split; intros [post E]; exists post.
      * by rewrite E.
      * by injection E.
    + split; [done|]. intros [post E]. by injection E.
Qed.

Lemma includes_unfold s q :
  includes s q =
  if String.prefix q s then true
  else match s with
       | EmptyString => false
       | String _ s' => includes s' q
       end.
Proof. by destruct s. Qed.

Lemma includes_spec s q : includes s q = true <-> substring_of q s.
Proof.
  induction s as [|c s IH]; rewrite includes_unfold.
  - destruct (String.prefix q "") eqn:E.
    + split; [|done]. intros _. apply prefix_spec in E as [post E].
      by exists "", post.
    + split; [done|]. intros (pre & post & E').
      destruct pre; [|done]. simpl in E'.
      assert (String.prefix q "" = true) by (apply prefix_spec; eauto).
      congruence.
  - destruct (String.prefix q (String c s)) eqn:E.
    + split; [|done]. intros _. apply prefix_spec in E as [post E].
      by exists "", post.
    + rewrite IH. split.
      * intros (pre & post & ->). by exists (String c pre), post.
      * intros (pre & post & E'). destruct pre as [|d pre].
        -- simpl in E'.
           assert (String.prefix q (String c s) = true)
             by (apply prefix_spec; eauto).
           congruence.
        -- simpl in E'. injection E' as -> ->. by exists pre, post.
Qed.

(** ** The priority partition *)

Lemma filter_filter_same {A} (p : A -> bool) l :
  List.filter p (List.filter p l) = List.filter p l.
Proof.
  induction l as [|x l IH]; simpl; [done|].
  destruct (p x) eqn:E; simpl; [by rewrite E, IH | done].
Qed.

Lemma filter_filter_neg {A} (p : A -> bool) l :
  List.filter p (List.filter (fun x => negb (p x)) l) = [].
Proof.
  induction l as [|x l IH]; simpl; [done|].
  destruct (p x) eqn:E; simpl; [done | by rewrite E].
Qed.

Lemma filter_neg_filter {A} (p : A -> bool) l :
  List.filter (fun x => negb (p x)) (List.filter p l) = [].
Proof.
  induction l as [|x l IH]; simpl; [done|].
  destruct (p x) eqn:E; simpl; [by rewrite E | done].
Qed.

Lemma filter_neg_filter_neg {A} (p : A -> bool) l :
  List.filter (fun x => negb (p x)) (List.filter (fun x => negb (p x)) l)
  = List.filter (fun x => negb (p x)) l.
Proof. apply (filter_filter_same (fun x => negb (p x))). Qed.

Lemma filter_partition_Permutation {A} (p : A -> bool) l :
  List.filter p l ++ List.filter (fun x => negb (p x)) l ≡ₚ l.
Proof.
  induction l as [|x l IH]; simpl; [done|]. destruct (p x); simpl.
  - by rewrite IH.
  - rewrite <- Permutation_middle. by rewrite IH.
Qed.

Lemma elem_of_List_filter {A} (p : A -> bool) l x :
  x ∈ List.filter p l <-> x ∈ l /\ p x = true.
Proof. rewrite !list_elem_of_In. apply filter_In. Qed.

Lemma partition_priority_first (prio : nat -> bool) l i j x y :
  let res := List.filter prio l ++ List.filter (fun r => negb (prio r)) l in
  (i < j)%nat -> res !! i = Some x -> res !! j = Some y ->
  prio y = true -> prio x = true.
Proof.
  intros res Hij Hx Hy Hp. subst res.
  destruct (decide (i < length (List.filter prio l))%nat) as [Hi|Hi].
  - rewrite lookup_app_l in Hx by done.
    apply list_elem_of_lookup_2, elem_of_List_filter in Hx. tauto.
  - rewrite lookup_app_r in Hy by lia.
    apply list_elem_of_lookup_2, elem_of_List_filter in Hy.
    destruct Hy as [_ Hy]. rewrite Hp in Hy. done.
Qed.

Lemma partition_is_stable (prio : nat -> bool) l :
  stable_partition prio l
    (List.filter prio l ++ List.filter (fun r => negb (prio r)) l).
Proof.
  repeat split.
  - apply partition_priority_first.
  - rewrite List.filter_app, filter_filter_same, filter_filter_neg.
    by rewrite app_nil_r.
  - rewrite List.filter_app, filter_neg_filter, filter_neg_filter_neg. done.
  - apply filter_partition_Permutation.
  - intros i x y Hx Hy [Hnx Hpy].
    assert (prio x = true) by (eapply (partition_priority_first prio l i (S i)); eauto).
    congruence.
Qed.

Section Query.
Context {browser : Browser}.

Lemma pipeline_partition s a matches search cmp prio :
  match pipeline_sorted a matches search cmp s with
  | (Ok filtered, s1) =>
      exists res s', pipeline a matches search cmp prio s = (Ok res, s') /\
        stable_partition (fun r => truthy (prio (get_obj s' r)))
          (get_arr s1 filtered) (get_arr s' res)
  | (Throw e, s1) => pipeline a matches search cmp prio s = (Throw e, s1)
  end.
Proof.
  destruct (pipeline_sorted a matches search cmp s) as [[f|e] s1] eqn:E.
  - destruct (pipeline_sorted_yields s a matches search cmp) as (s1' & F1 & H1).
    destruct (pipeline_yields s a matches search cmp prio) as (s' & F' & H').
    destruct (sorted_list s a matches search cmp) as [l|e]; simpl in *.
    + destruct H1 as (a1 & E1 & _ & Ha1). rewrite E in E1. injection E1 as -> ->.
      destruct H' as (res & E' & _ & Hres). exists res, s'. split; [done|].
      rewrite (get_arr_Some _ _ _ Ha1), (get_arr_Some _ _ _ Hres).
      unfold partitioned, js_not, get_obj. rewrite (frame_objs _ _ F').
      apply (partition_is_stable
               (fun r => truthy (prio (default empty_obj (objs s !! r))))).
    + congruence.
  - unfold pipeline, bind. by rewrite E.
Qed.

(** C5. The last step of [filterAndSortNotes] and of [filterAndSortTools]
    is a stable partition of the sorted array [filtered]: whenever the
    first three steps return, the function returns an array in which every
    pinned (favorite) record comes before every other record, each of the
    two groups is in the order of [filtered], and no record without the
    flag is immediately followed by one with it; it throws only when the
    first three steps throw. *)
Theorem priority_partition s :
  match filterAndSortNotes_sorted s with
  | (Ok filtered, s1) =>
      exists res s', filterAndSortNotes s = (Ok res, s') /\
        stable_partition (fun r => truthy (pinned (get_obj s' r)))
          (get_arr s1 filtered) (get_arr s' res)
  | (Throw e, s1) => filterAndSortNotes s = (Throw e, s1)
  end /\
  match filterAndSortTools_sorted s with
  | (Ok filtered, s1) =>
      exists res s', filterAndSortTools s = (Ok res, s') /\
        stable_partition (fun r => truthy (favorite (get_obj s' r)))
          (get_arr s1 filtered) (get_arr s' res)
  | (Throw e, s1) => filterAndSortTools s = (Throw e, s1)
  end.
Proof.
  split.
  - rewrite filterAndSortNotes_sorted_pipeline, filterAndSortNotes_pipeline.
    apply pipeline_partition.
  - rewrite filterAndSortTools_sorted_pipeline, filterAndSortTools_pipeline.
    apply pipeline_partition.
Qed.

(** Under a frame, the pure content of the pipeline is the same. *)
Lemma sorted_list_frame s0 s a matches search cmp :
  frame s0 s -> is_Some (arrs s0 !! a) ->
  sorted_list s a matches search cmp = sorted_list s0 a matches search cmp.
Proof.
  intros F Ha. unfold sorted_list, tag_filtered, searched, get_obj.
  by rewrite (frame_get_arr _ _ _ F Ha), (frame_objs _ _ F),
    (frame_activeTagFilter _ _ F).
Qed.

Lemma partitioned_frame s0 s prio l :
  frame s0 s -> partitioned s prio l = partitioned s0 prio l.
Proof. intros F. unfold partitioned, get_obj. by rewrite (frame_objs _ _ F). Qed.

Lemma pipeline_pure s a matches search cmp prio r1 s1 :
  is_Some (arrs s !! a) ->
  pipeline a matches search cmp prio s = (r1, s1) ->
  frame s s1 /\
  forall r2 s2, pipeline a matches search cmp prio s1 = (r2, s2) ->
    frame s1 s2 /\ same_outcome s1 r1 s2 r2.
Proof.
  intros Ha E1.
  destruct (pipeline_yields s a matches search cmp prio) as (s1' & F1 & H1).
  assert (s1' = s1 /\ frame s s1) as [-> F].
  { destruct (and_then _ _); [destruct H1 as (? & H1 & _)|];
      rewrite E1 in H1; by injection H1 as -> ->. }
  split; [done|]. intros r2 s2 E2.
  destruct (pipeline_yields s1 a matches search cmp prio) as (s2' & F2 & H2).
  rewrite (sorted_list_frame _ _ _ _ _ _ F Ha) in H2.
  destruct (sorted_list s a matches search cmp) as [l|e]; simpl in *.
  - destruct H1 as (a1 & E1' & _ & Ha1). destruct H2 as (a2 & E2' & _ & Ha2).
    rewrite E1 in E1'. rewrite E2 in E2'. injection E1' as ->.
    injection E2' as -> ->. split; [done|]. simpl.
    rewrite (get_arr_Some _ _ _ Ha1), (get_arr_Some _ _ _ Ha2).
    symmetry. by apply partitioned_frame.
  - rewrite E1 in H1. rewrite E2 in H2. injection H1 as ->.
    injection H2 as -> ->. done.
Qed.

(** C9. The query pipeline does not touch the mirror: a call of
    [filterAndSortNotes] or [filterAndSortTools] leaves every object and
    every array of the state it starts from as it was (it only adds
    arrays), so the records of both mirrors are unchanged; and a second
    call gives the same outcome, an array with the same content or the
    same exception. *)
Theorem query_is_pure s :
  live_mirrors s ->
  (forall r1 s1, filterAndSortNotes s = (r1, s1) ->
     frame s s1 /\
     records NotesStore s1 = records NotesStore s /\
     records ToolsStore s1 = records ToolsStore s /\
     forall r2 s2, filterAndSortNotes s1 = (r2, s2) -> same_outcome s1 r1 s2 r2) /\
  (forall r1 s1, filterAndSortTools s = (r1, s1) ->
     frame s s1 /\
     records NotesStore s1 = records NotesStore s /\
     records ToolsStore s1 = records ToolsStore s /\
     forall r2 s2, filterAndSortTools s1 = (r2, s2) -> same_outcome s1 r1 s2 r2).
Proof.
  intros [Hn Ht].
  assert (Hrec : forall s1, frame s s1 ->
            records NotesStore s1 = records NotesStore s /\
            records ToolsStore s1 = records ToolsStore s).
  { intros s1 F. by rewrite !(records_frame _ _ _ F (conj Hn Ht)). }
  split; intros r1 s1 E1.
  - rewrite filterAndSortNotes_pipeline in E1.
    destruct (pipeline_pure _ _ _ _ _ _ _ _ Hn E1) as [F H].
    split; [done|]. destruct (Hrec s1 F) as [-> ->]. do 2 (split; [done|]).
    intros r2 s2 E2. rewrite filterAndSortNotes_pipeline in E2.
    assert (En : notes s1 = notes s) by (destruct F as [-> _]; done).
    assert (Es : notes_search s1 = notes_search s) by (destruct F as [-> _]; done).
    assert (Eo : notes_sort s1 = notes_sort s) by (destruct F as [-> _]; done).
    rewrite En, Es, Eo in E2. by apply H.
  - rewrite filterAndSortTools_pipeline in E1.
    destruct (pipeline_pure _ _ _ _ _ _ _ _ Ht E1) as [F H].
    split; [done|]. destruct (Hrec s1 F) as [-> ->]. do 2 (split; [done|]).
    intros r2 s2 E2. rewrite filterAndSortTools_pipeline in E2.
    assert (En : tools s1 = tools s) by (destruct F as [-> _]; done).
    assert (Es : tools_search s1 = tools_search s) by (destruct F as [-> _]; done).
    assert (Eo : tools_sort s1 = tools_sort s) by (destruct F as [-> _]; done).
    rewrite En, Es, Eo in E2. by apply H.
Qed.

Lemma sorted_list_elem_of s a matches search cmp l r :
  sorted_list s a matches search cmp = Ok l ->
  r ∈ l <-> r ∈ get_arr s a /\ tag_pass s (get_obj s r) /\
            search_pass matches (toLowerCase search) (get_obj s r).
Proof.
  unfold sorted_list, tag_filtered, searched, tag_pass, search_pass.
  intros H.
  destruct (match activeTagFilter s with
            | Some tag => if nonempty tag
                          then filterM (fun r => tags_include tag (get_obj s r))
                                 (get_arr s a)
                          else Ok (get_arr s a)
            | None => Ok (get_arr s a) end) as [l1|] eqn:E1; [|done].
  cbn [and_then] in H.
  destruct (if nonempty (toLowerCase search)
            then filterM (fun r => matches (toLowerCase search) (get_obj s r)) l1
            else Ok l1) as [l2|] eqn:E2; [|done].
  cbn [and_then] in H.
  rewrite (sortM_Permutation _ _ _ H).
  assert (H1 : r ∈ l1 <-> r ∈ get_arr s a /\
            match activeTagFilter s with
            | Some tag => if nonempty tag
                          then tags_include tag (get_obj s r) = Ok true else True
            | None => True end).
  { destruct (activeTagFilter s) as [tag|]; [destruct (nonempty tag)|].
    - apply (filterM_elem_of _ _ _ _ E1).
    - injection E1 as <-. tauto.
    - injection E1 as <-. tauto. }
  destruct (nonempty (toLowerCase search)).
  - rewrite (filterM_elem_of _ _ _ _ E2), H1. tauto.
  - injection E2 as <-. rewrite H1. tauto.
Qed.

Lemma sorted_list_Ok (P : obj -> Prop) s a matches search cmp :
  (forall r, r ∈ get_arr s a -> P (get_obj s r)) ->
  (forall tag o, P o -> exists b, tags_include tag o = Ok b) ->
  (forall q o, P o -> exists b, matches q o = Ok b) ->
  (forall o o', P o -> P o' -> exists c, cmp o o' = Ok c) ->
  exists l, sorted_list s a matches search cmp = Ok l.
Proof.
  intros HP Ht Hm Hc. unfold sorted_list.
  assert (exists l1, tag_filtered s (get_arr s a) = Ok l1 /\ l1 ⊆ get_arr s a)
    as (l1 & -> & S1).
  { unfold tag_filtered.
    destruct (activeTagFilter s) as [tag|]; [destruct (nonempty tag)|];
      [|by eexists..].
    destruct (filterM_Ok (fun r => tags_include tag (get_obj s r)) (get_arr s a))
      as [l1 E1]; [apply Forall_forall; intros r Hr; by apply Ht, HP|].
    exists l1. split; [done|]. intros r Hr.
    by apply (filterM_elem_of _ _ _ _ E1) in Hr as [? _]. }
  simpl.
  assert (exists l2, searched s matches (toLowerCase search) l1 = Ok l2 /\ l2 ⊆ l1)
    as (l2 & -> & S2).
  { unfold searched. destruct (nonempty (toLowerCase search)); [|by eexists].
    destruct (filterM_Ok (fun r => matches (toLowerCase search) (get_obj s r)) l1)
      as [l2 E2]; [apply Forall_forall; intros r Hr; by apply Hm, HP, S1|].
    exists l2. split; [done|]. intros r Hr.
    by apply (filterM_elem_of _ _ _ _ E2) in Hr as [? _]. }
  simpl. apply sortM_Ok. intros x y Hx Hy. apply Hc; apply HP, S1, S2; done.
Qed.

Lemma elem_of_partitioned s prio l r : r ∈ partitioned s prio l <-> r ∈ l.
Proof.
  unfold partitioned, js_not.
  by rewrite (filter_partition_Permutation
                (fun r => truthy (prio (get_obj s r))) l).
Qed.

(** The result of the pipeline, by membership. *)
Lemma pipeline_elem_of s a matches search cmp prio res s' :
  pipeline a matches search cmp prio s = (Ok res, s') ->
  frame s s' /\
  forall r, r ∈ get_arr s' res <->
    r ∈ get_arr s a /\ tag_pass s (get_obj s r) /\
    search_pass matches (toLowerCase search) (get_obj s r).
Proof.
  intros E.
  destruct (pipeline_yields s a matches search cmp prio) as (s1 & F & H).
  destruct (sorted_list s a matches search cmp) as [l|e] eqn:El; simpl in H.
  - destruct H as (a1 & E1 & _ & Ha1). rewrite E in E1. injection E1 as -> ->.
    split; [done|]. intros r. rewrite (get_arr_Some _ _ _ Ha1).
    rewrite elem_of_partitioned. by apply (sorted_list_elem_of _ _ _ _ cmp).
  - congruence.
Qed.

Lemma pipeline_Ok (P : obj -> Prop) s a matches search cmp prio :
  (forall r, r ∈ get_arr s a -> P (get_obj s r)) ->
  (forall tag o, P o -> exists b, tags_include tag o = Ok b) ->
  (forall q o, P o -> exists b, matches q o = Ok b) ->
  (forall o o', P o -> P o' -> exists c, cmp o o' = Ok c) ->
  exists res s', pipeline a matches search cmp prio s = (Ok res, s').
Proof.
  intros HP Ht Hm Hc.
  destruct (sorted_list_Ok P s a matches search cmp HP Ht Hm Hc) as [l El].
  destruct (pipeline_yields s a matches search cmp prio) as (s1 & F & H).
  rewrite El in H. simpl in H. destruct H as (a1 & E1 & _). eauto.
Qed.

(** *** The callbacks on records that have their text properties *)

Lemma lower_includes_spec q field :
  is_Some field ->
  exists b, lower_includes q field = Ok b /\ (b = true <-> field_contains q field).
Proof.
  intros [v ->]. exists (includes (toLowerCase v) q). split; [done|].
  rewrite includes_spec. unfold field_contains. split.
  - intros H. by exists v.
  - by intros (? & [= <-] & ?).
Qed.

Lemma some_tag_includes_spec q o :
  is_Some (tags o) ->
  exists b, some_tag_includes q o = Ok b /\ (b = true <-> some_tag_contains q o).
Proof.
  intros [l E]. unfold some_tag_includes, some_tag_contains. rewrite E.
  eexists. split; [done|]. rewrite existsb_exists. split.
  - intros (tag & Hin & H). exists l, tag. split; [done|].
    by rewrite list_elem_of_In, <- includes_spec.
  - intros (l' & tag & [= <-] & Hin & H). exists tag.
    by rewrite <- list_elem_of_In, includes_spec.
Qed.

Lemma or_else_spec x y (P Q : Prop) :
  (exists b, x = Ok b /\ (b = true <-> P)) ->
  (exists b, y = Ok b /\ (b = true <-> Q)) ->
  exists b, or_else x y = Ok b /\ (b = true <-> P \/ Q).
Proof.
  intros (b & -> & Hb) (c & -> & Hc). destruct b; simpl.
  - exists true. split; [done|]. tauto.
  - exists c. split; [done|]. assert (~ P) by (intros ?%Hb; done). tauto.
Qed.

Lemma note_matches_spec q o :
  note_text o ->
  exists b, note_matches q o = Ok b /\ (b = true <-> note_hit q o).
Proof.
  intros (Ht & Hc & Hg). unfold note_matches, note_hit.
  repeat apply or_else_spec;
    auto using lower_includes_spec, some_tag_includes_spec.
Qed.

Lemma tool_matches_spec q o :
  tool_text o ->
  exists b, tool_matches q o = Ok b /\ (b = true <-> tool_hit q o).
Proof.
  intros (Hn & Hd & Hu & Hg). unfold tool_matches, tool_hit.
  repeat apply or_else_spec;
    auto using lower_includes_spec, some_tag_includes_spec.
Qed.

Lemma tags_include_spec tag o :
  is_Some (tags o) ->
  exists b, tags_include tag o = Ok b /\
    (b = true <-> exists l, tags o = Some l /\ tag ∈ l).
Proof.
  intros [l E]. unfold tags_include. rewrite E. eexists. split; [done|].
  rewrite bool_decide_eq_true. split; [by exists l | by intros (? & [= <-] & ?)].
Qed.

Lemma tags_include_true tag o :
  tags_include tag o = Ok true <-> exists l, tags o = Some l /\ tag ∈ l.
Proof.
  unfold tags_include. destruct (tags o) as [l|].
  - split.
    + intros [= H%bool_decide_eq_true]. by exists l.
    + intros (? & [= <-] & H). f_equal. by apply bool_decide_eq_true.
  - split; [done | by intros (? & ? & _)].
Qed.

Lemma locale_compare_Ok x y : is_Some x -> exists c, locale_compare x y = Ok c.
Proof. intros [a ->]. by eexists. Qed.

Lemma compare_notes_Ok sortBy o o' :
  note_text o -> note_text o' -> exists c, compare_notes sortBy o o' = Ok c.
Proof.
  intros (Ht & _) (Ht' & _). unfold compare_notes.
  repeat case_decide; eauto using locale_compare_Ok.
Qed.

Lemma compare_tools_Ok sortBy o o' :
  tool_text o -> tool_text o' -> exists c, compare_tools sortBy o o' = Ok c.
Proof.
  intros (Ht & _) (Ht' & _). unfold compare_tools.
  repeat case_decide; eauto using locale_compare_Ok.
Qed.

Lemma nonempty_true q : q <> "" -> nonempty q = true.
Proof.
  intros H. unfold nonempty. destruct (String.eqb_spec q ""); done.
Qed.

Lemma records_Forall (P : obj -> Prop) sn s :
  Forall P (records sn s) ->
  forall r, r ∈ get_arr s (mirror sn s) -> P (get_obj s r).
Proof.
  unfold records. rewrite Forall_fmap, Forall_forall. intros H r Hr.
  by apply H.
Qed.

Lemma filterAndSortNotes_Ok s :
  Forall note_text (records NotesStore s) ->
  exists res s', filterAndSortNotes s = (Ok res, s').
Proof.
  intros H. rewrite filterAndSortNotes_pipeline.
  apply (pipeline_Ok note_text).
  - apply (records_Forall _ NotesStore), H.
  - intros tag o (_ & _ & Hg).
    destruct (tags_include_spec tag o Hg) as (b & ? & _). eauto.
  - intros q o Ho. destruct (note_matches_spec q o Ho) as (b & ? & _). eauto.
  - apply compare_notes_Ok.
Qed.

Lemma filterAndSortTools_Ok s :
  Forall tool_text (records ToolsStore s) ->
  exists res s', filterAndSortTools s = (Ok res, s').
Proof.
  intros H. rewrite filterAndSortTools_pipeline.
  apply (pipeline_Ok tool_text).
  - apply (records_Forall _ ToolsStore), H.
  - intros tag o (_ & _ & _ & Hg).
    destruct (tags_include_spec tag o Hg) as (b & ? & _). eauto.
  - intros q o Ho. destruct (tool_matches_spec q o Ho) as (b & ? & _). eauto.
  - apply compare_tools_Ok.
Qed.

Lemma tag_pass_spec s T o :
  activeTagFilter s = Some T -> T <> "" ->
  tag_pass s o <-> exists l, tags o = Some l /\ T ∈ l.
Proof.
  intros E HT. unfold tag_pass. rewrite E, (nonempty_true _ HT).
  apply tags_include_true.
Qed.

(** C6, as amended.  With the tag filter set to a non-empty tag [T]:
    every record of the result of [filterAndSortNotes] (of
    [filterAndSortTools]) has a tag sequence that contains [T], by
    equality of strings; and when the records of the mirror have their
    text properties, the function returns, and every record of the mirror
    whose tag sequence contains [T] and which passes the search filter is
    in the result. *)
Theorem tag_filter_sound_complete s T :
  activeTagFilter s = Some T -> T <> "" ->
  ((forall res s', filterAndSortNotes s = (Ok res, s') ->
      forall r, r ∈ get_arr s' res ->
        exists l, tags (get_obj s' r) = Some l /\ T ∈ l) /\
   (Forall note_text (records NotesStore s) ->
      exists res s', filterAndSortNotes s = (Ok res, s') /\
        forall r, r ∈ get_arr s (notes s) ->
          (exists l, tags (get_obj s r) = Some l /\ T ∈ l) ->
          search_pass note_matches (toLowerCase (notes_search s)) (get_obj s r) ->
          r ∈ get_arr s' res)) /\
  ((forall res s', filterAndSortTools s = (Ok res, s') ->
      forall r, r ∈ get_arr s' res ->
        exists l, tags (get_obj s' r) = Some l /\ T ∈ l) /\
   (Forall tool_text (records ToolsStore s) ->
      exists res s', filterAndSortTools s = (Ok res, s') /\
        forall r, r ∈ get_arr s (tools s) ->
          (exists l, tags (get_obj s r) = Some l /\ T ∈ l) ->
          search_pass tool_matches (toLowerCase (tools_search s)) (get_obj s r) ->
          r ∈ get_arr s' res)).
Proof.
  intros E HT. split; split.
  - intros res s' Hrun r Hr. rewrite filterAndSortNotes_pipeline in Hrun.
    apply pipeline_elem_of in Hrun as [F Hin]. apply Hin in Hr as (_ & Ht & _).
    rewrite (frame_get_obj _ _ _ F). by apply (tag_pass_spec s T).
  - intros Hwf. destruct (filterAndSortNotes_Ok s Hwf) as (res & s' & Hrun).
    exists res, s'. split; [done|]. intros r Hr Ht Hs.
    rewrite filterAndSortNotes_pipeline in Hrun.
    apply pipeline_elem_of in Hrun as [F Hin]. apply Hin.
    repeat split; [done | by apply (tag_pass_spec s T) | done].
  - intros res s' Hrun r Hr. rewrite filterAndSortTools_pipeline in Hrun.
    apply pipeline_elem_of in Hrun as [F Hin]. apply Hin in Hr as (_ & Ht & _).
    rewrite (frame_get_obj _ _ _ F). by apply (tag_pass_spec s T).
  - intros Hwf. destruct (filterAndSortTools_Ok s Hwf) as (res & s' & Hrun).
    exists res, s'. split; [done|]. intros r Hr Ht Hs.
    rewrite filterAndSortTools_pipeline in Hrun.
    apply pipeline_elem_of in Hrun as [F Hin]. apply Hin.
    repeat split; [done | by apply (tag_pass_spec s T) | done].
Qed.

Lemma search_pass_spec matches (hit : string -> obj -> Prop) search o :
  search <> "" ->
  (exists b, matches (toLowerCase search) o = Ok b /\
             (b = true <-> hit (toLowerCase search) o)) ->
  search_pass matches (toLowerCase search) o <-> hit (toLowerCase search) o.
Proof.
  intros Hq (b & Eb & Hb). unfold search_pass.
  rewrite nonempty_true by (intros ?%toLowerCase_empty; done).
  rewrite Eb. rewrite <- Hb. split; [by intros [= ->] | by intros ->].
Qed.

(** C7. With a non-empty search text, on a mirror whose records have
    their text properties: a record passes the search filter exactly when
    the lower-cased search text is a substring of its lower-cased title or
    content (for a tool: name, description or url) or of one of its
    lower-cased tags; and [filterAndSortNotes] ([filterAndSortTools])
    returns exactly the records of the mirror that pass it and the tag
    filter. *)
Theorem search_filter_spec s :
  (notes_search s <> "" -> Forall note_text (records NotesStore s) ->
   let q := toLowerCase (notes_search s) in
   (forall o, note_text o -> search_pass note_matches q o <-> note_hit q o) /\
   exists res s', filterAndSortNotes s = (Ok res, s') /\
     forall r, r ∈ get_arr s' res <->
       r ∈ get_arr s (notes s) /\ tag_pass s (get_obj s r) /\
       note_hit q (get_obj s r)) /\
  (tools_search s <> "" -> Forall tool_text (records ToolsStore s) ->
   let q := toLowerCase (tools_search s) in
   (forall o, tool_text o -> search_pass tool_matches q o <-> tool_hit q o) /\
   exists res s', filterAndSortTools s = (Ok res, s') /\
     forall r, r ∈ get_arr s' res <->
       r ∈ get_arr s (tools s) /\ tag_pass s (get_obj s r) /\
       tool_hit q (get_obj s r)).
Proof.
  split; intros Hq Hwf q.
  - assert (Hrec : forall o, note_text o ->
              search_pass note_matches q o <-> note_hit q o).
    { intros o Ho. apply search_pass_spec; [done|]. by apply note_matches_spec. }
    split; [done|].
    destruct (filterAndSortNotes_Ok s Hwf) as (res & s' & Hrun).
    exists res, s'. split; [done|]. intros r.
    rewrite filterAndSortNotes_pipeline in Hrun.
    apply pipeline_elem_of in Hrun as [F Hin]. rewrite Hin.
    split; intros (Hr & Ht & Hs); repeat split; try done;
      apply Hrec; try done; by apply (records_Forall _ NotesStore).
  - assert (Hrec : forall o, tool_text o ->
              search_pass tool_matches q o <-> tool_hit q o).
    { intros o Ho. apply search_pass_spec; [done|]. by apply tool_matches_spec. }
    split; [done|].
    destruct (filterAndSortTools_Ok s Hwf) as (res & s' & Hrun).
    exists res, s'. split; [done|]. intros r.
    rewrite filterAndSortTools_pipeline in Hrun.
    apply pipeline_elem_of in Hrun as [F Hin]. rewrite Hin.
    split; intros (Hr & Ht & Hs); repeat split; try done;
      apply Hrec; try done; by apply (records_Forall _ ToolsStore).
Qed.

End Query.

Section Save.
Context {browser : Browser}.

Lemma get_obj_insert s r o r' :
  get_obj (set_objs (<[r := o]> (objs s)) s) r' =
  if decide (r = r') then o else get_obj s r'.
Proof.
  unfold get_obj. simpl. rewrite lookup_insert. by case_decide.
Qed.

(** C1, as amended.  [saveNote] and [saveTool] write to the store before
    they update the mirror's array: when the store write fails, the call
    fails with the store's error, no array has changed (nothing was
    replaced or appended), both stores are as they were, and every object
    other than the saved one reads as before.  The saved object differs
    from before in its [updatedAt] only, which holds the time of the
    call. *)
Theorem save_failure_keeps_list note s :
  request_fails (requests s) = true ->
  let t := clock (ticks s) in
  (exists s', saveNote note s = (Throw StorageError, s') /\
     arrs s' = arrs s /\ notes s' = notes s /\ tools s' = tools s /\
     db_notes s' = db_notes s /\ db_tools s' = db_tools s /\
     get_obj s' note = set_updatedAt t (get_obj s note) /\
     (forall r, r <> note -> get_obj s' r = get_obj s r)) /\
  (exists s', saveTool note s = (Throw StorageError, s') /\
     arrs s' = arrs s /\ notes s' = notes s /\ tools s' = tools s /\
     db_notes s' = db_notes s /\ db_tools s' = db_tools s /\
     get_obj s' note = set_updatedAt t (get_obj s note) /\
     (forall r, r <> note -> get_obj s' r = get_obj s r)).
Proof.
  intros Hf t. split.
  - unfold saveNote, putInStore, bind, now, update_obj, modify, request. simpl.
    rewrite Hf. eexists. split; [reflexivity|]. simpl.
    repeat split; try done.
    + unfold get_obj. simpl. by rewrite lookup_insert_eq.
    + intros r Hr. unfold get_obj. simpl. by rewrite lookup_insert_ne.
  - unfold saveTool, putInStore, bind, now, update_obj, modify, request. simpl.
    rewrite Hf. eexists. split; [reflexivity|]. simpl.
    repeat split; try done.
    + unfold get_obj. simpl. by rewrite lookup_insert_eq.
    + intros r Hr. unfold get_obj. simpl. by rewrite lookup_insert_ne.
Qed.

End Save.

Section Render.
Context {browser : Browser}.

Lemma for_each_read (f : obj -> result unit) l s :
  exists r, for_each (fun x => let* o := read_obj x in lift (f o)) l s = (r, s) /\
    (Forall (fun x => f (get_obj s x) = Ok tt) l -> r = Ok tt).
Proof.
  induction l as [|x l (r & E & H)]; simpl.
  - by exists (Ok tt).
  - unfold bind at 1. unfold bind at 1. unfold read_obj, lift.
    destruct (f (get_obj s x)) as [[]|e] eqn:Ef.
    + exists r. split; [done|]. intros HF. apply H. by inversion HF.
    + exists (Throw e). split; [done|]. intros HF. inversion HF. congruence.
Qed.

(** A render function runs its pipeline and then only reads. *)
Lemma render_run (m : M nat) (f : obj -> result unit) s :
  forall r s',
  (let* a := m in let* l := read_arr a in
   for_each (fun x => let* o := read_obj x in lift (f o)) l) s = (r, s') ->
  match m s with
  | (Ok a, s1) => s' = s1 /\
      (Forall (fun x => f (get_obj s1 x) = Ok tt) (get_arr s1 a) -> r = Ok tt)
  | (Throw e, s1) => s' = s1 /\ r = Throw e
  end.
Proof.
  intros r s'. unfold bind at 1. destruct (m s) as [[a|e] s1].
  - unfold bind at 1. unfold read_arr.
    destruct (for_each_read f (get_arr s1 a) s1) as (r' & -> & H).
    intros [= <- <-]. done.
  - by intros [= <- <-].
Qed.

Lemma renderNotesList_frame s r s' : renderNotesList s = (r, s') -> frame s s'.
Proof.
  intros H%render_run. rewrite filterAndSortNotes_pipeline in H.
  destruct (pipeline_yields s (notes s) note_matches (notes_search s)
              (compare_notes (notes_sort s)) pinned) as (s1 & F & Hy).
  destruct (and_then _ _) as [l|e]; [destruct Hy as (a1 & Hy & _)|];
    rewrite Hy in H; by destruct H as [-> _].
Qed.

Lemma renderToolsGrid_frame s r s' : renderToolsGrid s = (r, s') -> frame s s'.
Proof.
  intros H%render_run. rewrite filterAndSortTools_pipeline in H.
  destruct (pipeline_yields s (tools s) tool_matches (tools_search s)
              (compare_tools (tools_sort s)) favorite) as (s1 & F & Hy).
  destruct (and_then _ _) as [l|e]; [destruct Hy as (a1 & Hy & _)|];
    rewrite Hy in H; by destruct H as [-> _].
Qed.

Lemma renderNotesList_Ok s :
  Forall note_text (records NotesStore s) ->
  exists s', renderNotesList s = (Ok tt, s') /\ frame s s'.
Proof.
  intros Hwf. destruct (renderNotesList s) as [r s'] eqn:E.
  exists s'. split; [|by eapply renderNotesList_frame].
  f_equal. pose proof (render_run _ _ _ _ _ E) as H.
  destruct (filterAndSortNotes_Ok s Hwf) as (res & s1 & Hrun).
  rewrite Hrun in H. destruct H as [-> H]. apply H.
  rewrite filterAndSortNotes_pipeline in Hrun.
  apply pipeline_elem_of in Hrun as [F Hin].
  apply Forall_forall. intros x Hx. rewrite (frame_get_obj _ _ _ F).
  apply Hin in Hx as [Hx _].
  destruct (records_Forall _ NotesStore _ Hwf x Hx) as (_ & [c Hc] & [g Hg]).
  unfold render_note. by rewrite Hc, Hg.
Qed.

Lemma renderToolsGrid_Ok s :
  Forall tool_text (records ToolsStore s) ->
  exists s', renderToolsGrid s = (Ok tt, s') /\ frame s s'.
Proof.
  intros Hwf. destruct (renderToolsGrid s) as [r s'] eqn:E.
  exists s'. split; [|by eapply renderToolsGrid_frame].
  f_equal. pose proof (render_run _ _ _ _ _ E) as H.
  destruct (filterAndSortTools_Ok s Hwf) as (res & s1 & Hrun).
  rewrite Hrun in H. destruct H as [-> H]. apply H.
  rewrite filterAndSortTools_pipeline in Hrun.
  apply pipeline_elem_of in Hrun as [F Hin].
  apply Forall_forall. intros x Hx. rewrite (frame_get_obj _ _ _ F).
  apply Hin in Hx as [Hx _].
  destruct (records_Forall _ ToolsStore _ Hwf x Hx) as (_ & _ & _ & [g Hg]).
  unfold render_tool. by rewrite Hg.
Qed.

End Render.

Section Delete.
Context {browser : Browser}.

Lemma filter_all {A} (p : A -> bool) l :
  (forall x, x ∈ l -> p x = true) -> List.filter p l = l.
Proof.
  induction l as [|x l IH]; simpl; intros H; [done|].
  rewrite H by (by apply elem_of_cons; left).
  f_equal. apply IH. intros y Hy. apply H. by apply elem_of_cons; right.
Qed.

Lemma filter_none {A} (p : A -> bool) l :
  (forall x, x ∈ l -> p x = false) -> List.filter p l = [].
Proof.
  induction l as [|x l IH]; simpl; intros H; [done|].
  rewrite H by (by apply elem_of_cons; left).
  apply IH. intros y Hy. apply H. by apply elem_of_cons; right.
Qed.

(** [state.notes = state.notes.filter(n => n.id !== k)] when no record of
    the mirror has the id [k]: a new array with the same content. *)
Lemma filter_absent_id s a k :
  (forall r, r ∈ get_arr s a -> id (get_obj s r) <> Some k) ->
  Array_filter a (fun n => Ok (negb (bool_decide (id n = Some k)))) s =
  new_arr (get_arr s a) s.
Proof.
  intros H. rewrite Array_filter_run.
  rewrite (filterM_total (fun r => negb (bool_decide (id (get_obj s r) = Some k)))).
  rewrite filter_all; [done|]. intros r Hr.
  apply negb_true_iff, bool_decide_eq_false. by apply H.
Qed.

Lemma deleteFromStore_absent sn k s :
  db sn s !! k = None ->
  deleteFromStore sn k s =
  if request_fails (requests s)
  then (Throw StorageError, set_requests (S (requests s)) s)
  else (Ok tt, set_requests (S (requests s)) s).
Proof.
  intros H. unfold deleteFromStore. rewrite bind_run. unfold request.
  destruct (request_fails (requests s)); [done|].
  unfold modify. f_equal.
  replace (db sn (set_requests (S (requests s)) s)) with (db sn s)
    by (by destruct sn).
  rewrite (delete_id _ _ H). by destruct sn, s.
Qed.

Lemma current_note_reset k s :
  exists c, (match currentNote s with
             | Some c0 => if bool_decide (id (get_obj s c0) = Some k)
                          then modify (set_currentNote None) else ret tt
             | None => ret tt
             end) s = (Ok tt, set_currentNote c s).
Proof.
  destruct (currentNote s) as [c0|] eqn:Ec.
  - destruct (bool_decide _).
    + by exists None.
    + exists (Some c0). unfold ret. f_equal. rewrite <- Ec. by destruct s.
  - exists None. unfold ret. f_equal. rewrite <- Ec. by destruct s.
Qed.

Lemma deleteNote_absent confirmed k s r s' :
  db_notes s !! k = None ->
  (forall x, x ∈ get_arr s (notes s) -> id (get_obj s x) <> Some k) ->
  deleteNote confirmed k s = (r, s') ->
  db_notes s' = db_notes s /\ db_tools s' = db_tools s /\ objs s' = objs s /\
  records NotesStore s' = records NotesStore s /\
  (request_fails (requests s) = false ->
   Forall note_text (records NotesStore s) -> r = Ok tt).
Proof.
  intros Hdb Hmir. unfold deleteNote. destruct confirmed; simpl.
  2:{ intros [= <- <-]. done. }
  rewrite bind_run, (deleteFromStore_absent NotesStore) by done.
  destruct (request_fails (requests s)) eqn:Hf.
  { intros [= <- <-]. done. }
  set (s1 := set_requests (S (requests s)) s).
  rewrite bind_run, get_run, bind_run, filter_absent_id by done.
  change (get_arr s1 (notes s1)) with (get_arr s (notes s)).
  unfold new_arr. set (a := fresh (dom (arrs s1))).
  set (s2 := set_arrs (<[a := get_arr s (notes s)]> (arrs s1)) s1).
  rewrite bind_run, modify_run, bind_run, get_run, bind_run.
  set (s3 := set_notes a s2).
  assert (Hrec3 : records NotesStore s3 = records NotesStore s).
  { unfold records, get_obj, get_arr. simpl. by rewrite lookup_insert_eq. }
  destruct (current_note_reset k s3) as [c ->].
  set (s4 := set_currentNote c s3).
  intros Hrun. pose proof (renderNotesList_frame _ _ _ Hrun) as F.
  assert (Hrec : records NotesStore s' = records NotesStore s).
  { rewrite <- Hrec3. unfold records.
    rewrite (frame_mirror _ _ NotesStore F).
    rewrite (frame_get_arr _ _ _ F)
      by (simpl; rewrite lookup_insert_eq; eauto).
    unfold get_obj. by rewrite (frame_objs _ _ F). }
  repeat split.
  - apply (frame_db _ _ NotesStore F).
  - apply (frame_db _ _ ToolsStore F).
  - apply (frame_objs _ _ F).
  - done.
  - intros _ Hwf.
    destruct (renderNotesList_Ok s4) as (s'' & E & _).
    { change (records NotesStore s4) with (records NotesStore s3).
      by rewrite Hrec3. }
    rewrite Hrun in E. by injection E.
Qed.

Lemma deleteTool_absent confirmed k s r s' :
  db_tools s !! k = None ->
  (forall x, x ∈ get_arr s (tools s) -> id (get_obj s x) <> Some k) ->
  deleteTool confirmed k s = (r, s') ->
  db_notes s' = db_notes s /\ db_tools s' = db_tools s /\ objs s' = objs s /\
  records ToolsStore s' = records ToolsStore s /\
  (request_fails (requests s) = false ->
   Forall tool_text (records ToolsStore s) -> r = Ok tt).
Proof.
  intros Hdb Hmir. unfold deleteTool. destruct confirmed; simpl.
  2:{ intros [= <- <-]. done. }
  rewrite bind_run, (deleteFromStore_absent ToolsStore) by done.
  destruct (request_fails (requests s)) eqn:Hf.
  { intros [= <- <-]. done. }
  set (s1 := set_requests (S (requests s)) s).
  rewrite bind_run, get_run, bind_run, filter_absent_id by done.
  change (get_arr s1 (tools s1)) with (get_arr s (tools s)).
  unfold new_arr. set (a := fresh (dom (arrs s1))).
  set (s2 := set_arrs (<[a := get_arr s (tools s)]> (arrs s1)) s1).
  rewrite bind_run, modify_run.
  set (s3 := set_tools a s2).
  assert (Hrec3 : records ToolsStore s3 = records ToolsStore s).
  { unfold records, get_obj, get_arr. simpl. by rewrite lookup_insert_eq. }
  intros Hrun. pose proof (renderToolsGrid_frame _ _ _ Hrun) as F.
  assert (Hrec : records ToolsStore s' = records ToolsStore s).
  { rewrite <- Hrec3. unfold records.
    rewrite (frame_mirror _ _ ToolsStore F).
    rewrite (frame_get_arr _ _ _ F)
      by (simpl; rewrite lookup_insert_eq; eauto).
    unfold get_obj. by rewrite (frame_objs _ _ F). }
  repeat split.
  - apply (frame_db _ _ NotesStore F).
  - apply (frame_db _ _ ToolsStore F).
  - apply (frame_objs _ _ F).
  - done.
  - intros _ Hwf.
    destruct (renderToolsGrid_Ok s3) as (s'' & E & _).
    { by rewrite Hrec3. }
    rewrite Hrun in E. by injection E.
Qed.

Lemma find_by_id_None s a k :
  find_by_id s a k = None <->
  forall r, r ∈ get_arr s a -> id (get_obj s r) <> k.
Proof.
  unfold find_by_id. rewrite list_find_None, Forall_forall. done.
Qed.

(** C8. An id that no record has: [deleteFromStore] succeeds (when the
    request itself does not fail) and leaves the state as it was, up to the
    count of requests; [deleteNote] and [deleteTool] leave both stores, all
    objects and the records of the mirror as they were, and return
    normally when the request does not fail and the mirror can be
    rendered; [toggleFavorite] returns normally and changes nothing. *)
Theorem absent_id_is_noop k s :
  (forall sn, db sn s !! k = None -> request_fails (requests s) = false ->
     deleteFromStore sn k s = (Ok tt, set_requests (S (requests s)) s)) /\
  (forall confirmed r s',
     db_notes s !! k = None ->
     (forall x, x ∈ get_arr s (notes s) -> id (get_obj s x) <> Some k) ->
     deleteNote confirmed k s = (r, s') ->
     db_notes s' = db_notes s /\ db_tools s' = db_tools s /\
     objs s' = objs s /\ records NotesStore s' = records NotesStore s /\
     (request_fails (requests s) = false ->
      Forall note_text (records NotesStore s) -> r = Ok tt)) /\
  (forall confirmed r s',
     db_tools s !! k = None ->
     (forall x, x ∈ get_arr s (tools s) -> id (get_obj s x) <> Some k) ->
     deleteTool confirmed k s = (r, s') ->
     db_notes s' = db_notes s /\ db_tools s' = db_tools s /\
     objs s' = objs s /\ records ToolsStore s' = records ToolsStore s /\
     (request_fails (requests s) = false ->
      Forall tool_text (records ToolsStore s) -> r = Ok tt)) /\
  ((forall x, x ∈ get_arr s (tools s) -> id (get_obj s x) <> Some k) ->
     toggleFavorite k s = (Ok tt, s)).
Proof.
  split; [|split; [|split]].
  - intros sn Hdb Hf. by rewrite deleteFromStore_absent, Hf.
  - intros c r s' Hdb Hmir Hrun. by apply (deleteNote_absent c k s r s').
  - intros c r s' Hdb Hmir Hrun. by apply (deleteTool_absent c k s r s').
  - intros H. unfold toggleFavorite. rewrite bind_run, get_run.
    apply find_by_id_None in H. by rewrite H.
Qed.

End Delete.

Section Merge.
Context {browser : Browser}.


Lemma putInStore_run sn item s :
  putInStore sn item s =
  let s1 := set_requests (S (requests s)) s in
  if request_fails (requests s) then (Throw StorageError, s1)
  else match id (get_obj s item) with
       | None => (Throw DataError, s1)
       | Some k => (Ok tt, set_db sn (<[k := get_obj s item]> (db sn s1)) s1)
       end.
Proof.
  unfold putInStore. rewrite bind_run. unfold request.
  destruct (request_fails (requests s)); [done|].
  rewrite bind_run. unfold read_obj.
  change (get_obj (set_requests (S (requests s)) s) item) with (get_obj s item).
  by destruct (id (get_obj s item)).
Qed.

Lemma update_obj_run r f s :
  update_obj r f s = (Ok tt, set_objs (<[r := f (get_obj s r)]> (objs s)) s).
Proof. reflexivity. Qed.

Lemma Array_push_run a r s :
  Array_push a r s = (Ok tt, set_arrs (<[a := get_arr s a ++ [r]]> (arrs s)) s).
Proof. reflexivity. Qed.

End Merge.

(** ** Timestamps *)

Section Timestamps.
Context {browser : Browser}.

Lemma safe_at_bind {A B} s (m : M A) (k : A -> M B) :
  safe_at s m ->
  (forall a s1, m s = (Ok a, s1) -> inv s1 -> dom (objs s) ⊆ dom (objs s1) ->
     safe_at s1 (k a)) ->
  safe_at s (bind m k).
Proof.
  intros Hm Hk r s'. rewrite bind_run. destruct (m s) as [[a|e] s1] eqn:E.
  - destruct (Hm _ _ E) as [I1 D1]. intros H.
    destruct (Hk a s1 eq_refl I1 D1 _ _ H) as [I2 D2].
    split; [done|]. set_solver.
  - intros [= <- <-]. apply (Hm _ _ E).
Qed.

Lemma safe_at_bind2 {A B C} s (m : M A) (k : A -> M B) (h : B -> M C) :
  safe_at s (bind m k) ->
  (forall b s1, inv s1 -> dom (objs s) ⊆ dom (objs s1) -> safe_at s1 (h b)) ->
  safe_at s (bind m (fun a => bind (k a) h)).
Proof.
  intros Hm Hh r s'. rewrite <- bind_assoc. revert r s'.
  apply safe_at_bind; [done|]. intros b s1 _. apply Hh.
Qed.

Lemma safe_at_frame {A} s (m : M A) :
  inv s -> (forall r s', m s = (r, s') -> frame s s') -> safe_at s m.
Proof.
  intros (Ho & Hl & Hm) H r s' E. pose proof (H _ _ E) as F.
  assert (Et : ticks s' = ticks s) by (destruct F as [-> _]; done).
  split; [|by rewrite (frame_objs _ _ F)]. split; [|split].
  - intros x o. rewrite (frame_objs _ _ F), Et. apply Ho.
  - destruct Hl as [Hn Ht], F as [E' F]. split.
    + replace (notes s') with (notes s) by (rewrite E'; done). by rewrite F.
    + replace (tools s') with (tools s) by (rewrite E'; done). by rewrite F.
  - intros sn x. rewrite (frame_mirror _ _ _ F), (frame_objs _ _ F).
    rewrite (frame_get_arr _ _ _ F) by (destruct sn; apply Hl). apply Hm.
Qed.

(** A change of the state that keeps the objects, the arrays, the mirror
    pointers and the clock keeps the invariant. *)
Lemma inv_same_heap s s' :
  objs s' = objs s -> arrs s' = arrs s -> notes s' = notes s ->
  tools s' = tools s -> ticks s' = ticks s -> inv s -> inv s'.
Proof.
  intros Eo Ea En Et Ek (Ho & Hl & Hm). split; [|split].
  - intros r o. rewrite Eo, Ek. apply Ho.
  - unfold live_mirrors. by rewrite Ea, En, Et.
  - intros sn r. unfold get_arr. rewrite Eo, Ea.
    replace (mirror sn s') with (mirror sn s) by (by destruct sn). apply Hm.
Qed.

Lemma timely_later T T' o : T <= T' -> timely T o -> timely T' o.
Proof. intros H (c & u & ? & ? & ? & ?). exists c, u. repeat split; try done. lia. Qed.

Lemma timely_ordered T o : timely T o -> ordered o.
Proof. intros (c & u & ? & ? & ? & ?). by exists c, u. Qed.

End Timestamps.

Section Invariant.
Context {browser : Browser}.
Hypothesis clock_monotone : monotone_clock.

Lemma inv_alloc s sn r : inv s -> r ∈ get_arr s (mirror sn s) -> is_Some (objs s !! r).
Proof. intros (_ & _ & H). apply H. Qed.

Lemma get_obj_Some s r o : objs s !! r = Some o -> get_obj s r = o.
Proof. unfold get_obj. by intros ->. Qed.

(** Replacing an object by one that is timely keeps the invariant. *)
Lemma inv_update s r o' s' :
  inv s -> is_Some (objs s !! r) -> timely (clock (ticks s')) o' ->
  (ticks s <= ticks s')%nat ->
  objs s' = <[r := o']> (objs s) -> arrs s' = arrs s ->
  notes s' = notes s -> tools s' = tools s ->
  inv s' /\ dom (objs s) ⊆ dom (objs s').
Proof.
  intros (Ho & Hl & Hm) Hr Ht Hk Eo Ea En Et. split; [split; [|split]|].
  - intros x o. rewrite Eo, lookup_insert. case_decide.
    + by intros [= <-].
    + intros Hx. eapply timely_later; [|by eapply Ho]. by apply clock_monotone.
  - unfold live_mirrors. by rewrite Ea, En, Et.
  - intros sn x. unfold get_arr. rewrite Ea, Eo.
    replace (mirror sn s') with (mirror sn s) by (by destruct sn).
    intros Hx. rewrite lookup_insert. case_decide; [eauto|]. by eapply Hm.
  - rewrite Eo, dom_insert_L. set_solver.
Qed.

Lemma touch_safe s r : inv s -> is_Some (objs s !! r) -> safe_at s (touch r).
Proof.
  intros I [o Hr] res s'. unfold touch. rewrite bind_run. unfold now.
  rewrite update_obj_run. intros [= <- <-].
  eapply (inv_update s r); try done; [|simpl; lia].
  simpl. destruct I as (Ho & _). destruct (Ho _ _ Hr) as (c & u & Hc & Hu & Hcu & HcT).
  exists c, (clock (ticks s)). unfold get_obj. simpl. rewrite Hr. simpl.
  repeat split; try done.
  etrans; [exact HcT|]. apply clock_monotone. lia.
Qed.

Lemma putInStore_safe s sn r : inv s -> safe_at s (putInStore sn r).
Proof.
  intros I res s'. rewrite putInStore_run. cbv zeta.
  destruct (request_fails (requests s)).
  { intros [= <- <-]. split; [|done]. by eapply inv_same_heap. }
  destruct (id (get_obj s r)); intros [= <- <-]; (split; [|by destruct sn]);
    eapply inv_same_heap; try exact I; by destruct sn.
Qed.

Lemma deleteFromStore_safe s sn k : inv s -> safe_at s (deleteFromStore sn k).
Proof.
  intros I res s'. unfold deleteFromStore. rewrite bind_run. unfold request.
  destruct (request_fails (requests s)).
  { intros [= <- <-]. split; [|done]. by eapply inv_same_heap. }
  rewrite modify_run. intros [= <- <-]. split; [|by destruct sn].
  eapply inv_same_heap; try exact I; by destruct sn.
Qed.

(** Writing an array with references to objects keeps the invariant. *)
Lemma write_arr_safe s a l :
  inv s -> (forall x, x ∈ l -> is_Some (objs s !! x)) -> safe_at s (write_arr a l).
Proof.
  intros (Ho & [Hn Ht] & Hm) Hl res s'. unfold write_arr. rewrite modify_run.
  intros [= <- <-]. split; [|done]. split; [|split].
  - apply Ho.
  - split; simpl; rewrite lookup_insert; case_decide; eauto.
  - intros sn x. unfold get_arr. simpl.
    replace (mirror sn (set_arrs (<[a:=l]> (arrs s)) s)) with (mirror sn s)
      by (by destruct sn).
    rewrite lookup_insert. case_decide; simpl; [by apply Hl | apply Hm].
Qed.

Lemma elem_of_list_insert_inv {A} (l : list A) i x y :
  y ∈ <[i := x]> l -> y = x \/ y ∈ l.
Proof.
  intros [j Hj]%list_elem_of_lookup.
  destruct (decide (i = j)) as [->|Hne].
  - destruct (decide (j < length l)%nat).
    + rewrite list_lookup_insert_eq in Hj by done. left. congruence.
    + rewrite list_insert_ge in Hj by lia. right. by eapply list_elem_of_lookup_2.
  - rewrite list_lookup_insert_ne in Hj by done.
    right. by eapply list_elem_of_lookup_2.
Qed.

(** The update of the mirror at the end of [saveNote] and [saveTool]. *)
Lemma mirror_update_safe s sn r k :
  inv s -> is_Some (objs s !! r) ->
  safe_at s (match find_by_id s (mirror sn s) k with
             | Some (index, _) => Array_set (mirror sn s) index r
             | None => Array_push (mirror sn s) r
             end).
Proof.
  intros I Hr. destruct (find_by_id s (mirror sn s) k) as [[i ?]|].
  - apply write_arr_safe; [done|]. intros x [->|Hx]%elem_of_list_insert_inv;
      [done | by eapply inv_alloc].
  - apply write_arr_safe; [done|]. intros x [Hx|Hx%list_elem_of_singleton]%elem_of_app;
      [by eapply inv_alloc | by subst].
Qed.

Lemma modify_safe s f :
  inv s -> objs (f s) = objs s -> arrs (f s) = arrs s -> notes (f s) = notes s ->
  tools (f s) = tools s -> ticks (f s) = ticks s -> safe_at s (modify f).
Proof.
  intros I Eo Ea En Et Ek res s'. rewrite modify_run. intros [= <- <-].
  split; [by eapply inv_same_heap | by rewrite Eo].
Qed.

Lemma alloc_mono s s1 r :
  dom (objs s) ⊆ dom (objs s1) -> is_Some (objs s !! r) -> is_Some (objs s1 !! r).
Proof. rewrite <- !elem_of_dom. set_solver. Qed.

Lemma saveNote_safe s note :
  inv s -> is_Some (objs s !! note) -> safe_at s (saveNote note).
Proof.
  intros I Hn.
  change (saveNote note) with
    (touch note ;; putInStore NotesStore note ;;
     (let* s := get in
      match find_by_id s (notes s) (id (get_obj s note)) with
      | Some (index, _) => Array_set (notes s) index note
      | None => Array_push (notes s) note
      end) ;;
     renderNotesList ;; modify (set_isDirty false)).
  apply safe_at_bind; [by apply touch_safe|]. intros _ s1 _ I1 D1.
  apply safe_at_bind; [by apply putInStore_safe|]. intros _ s2 _ I2 D2.
  apply safe_at_bind.
  { intros r s'. rewrite bind_run, get_run.
    apply (mirror_update_safe s2 NotesStore); [done|]. eauto using alloc_mono. }
  intros _ s3 _ I3 D3.
  apply safe_at_bind.
  { apply safe_at_frame; [done|]. apply renderNotesList_frame. }
  intros _ s4 _ I4 D4. by apply modify_safe.
Qed.

Lemma saveTool_safe s tool :
  inv s -> is_Some (objs s !! tool) -> safe_at s (saveTool tool).
Proof.
  intros I Hn.
  change (saveTool tool) with
    (touch tool ;; putInStore ToolsStore tool ;;
     (let* s := get in
      match find_by_id s (tools s) (id (get_obj s tool)) with
      | Some (index, _) => Array_set (tools s) index tool
      | None => Array_push (tools s) tool
      end) ;;
     renderToolsGrid).
  apply safe_at_bind; [by apply touch_safe|]. intros _ s1 _ I1 D1.
  apply safe_at_bind; [by apply putInStore_safe|]. intros _ s2 _ I2 D2.
  apply safe_at_bind.
  { intros r s'. rewrite bind_run, get_run.
    apply (mirror_update_safe s2 ToolsStore); [done|]. eauto using alloc_mono. }
  intros _ s3 _ I3 D3.
  apply safe_at_frame; [done|]. apply renderToolsGrid_frame.
Qed.

(** Allocating a timely object keeps the invariant. *)
Lemma new_obj_safe s o :
  inv s -> timely (clock (ticks s)) o -> safe_at s (new_obj o).
Proof.
  intros (Ho & Hl & Hm) Ht res s'. unfold new_obj. intros [= <- <-].
  set (r := fresh (dom (objs s))).
  assert (Hr : objs s !! r = None) by (apply not_elem_of_dom, is_fresh).
  split; [split; [|split]|].
  - intros x o'. simpl. rewrite lookup_insert. case_decide.
    + by intros [= <-].
    + apply Ho.
  - done.
  - intros sn x Hx. simpl. rewrite lookup_insert. case_decide; [eauto|].
    apply (Hm sn). by destruct sn.
  - simpl. rewrite dom_insert_L. set_solver.
Qed.

Lemma new_obj_alloc o s r s' : new_obj o s = (Ok r, s') -> is_Some (objs s' !! r).
Proof. intros [= <- <-]. simpl. rewrite lookup_insert_eq. eauto. Qed.

Lemma new_obj_Ok o s : exists r s', new_obj o s = (Ok r, s').
Proof. by eexists _, _. Qed.

Lemma createNote_run s :
  exists r s', createNote s = (Ok r, s') /\ is_Some (objs s' !! r) /\
    (inv s -> inv s' /\ dom (objs s) ⊆ dom (objs s')).
Proof.
  unfold createNote. rewrite bind_run. unfold crypto_randomUUID.
  rewrite bind_run. unfold now at 1. rewrite bind_run. unfold now at 1.
  match goal with |- context [new_obj ?o ?st] =>
    set (o' := o); set (s3 := st) end.
  exists (fresh (dom (objs s3))), (set_objs (<[fresh (dom (objs s3)) := o']> (objs s3)) s3).
  split; [done|]. split; [simpl; rewrite lookup_insert_eq; eauto|].
  intros I.
  assert (I3 : inv s3).
  { destruct I as (Ho & Hl & Hm). split; [|split]; [|done|done].
    intros r o Hr. simpl. eapply timely_later; [|by eapply Ho].
    apply clock_monotone. lia. }
  apply (new_obj_safe s3 o' I3) with (r := Ok (fresh (dom (objs s3)))); [|done].
  exists (clock (ticks s)), (clock (S (ticks s))). simpl.
  repeat split; try done; apply clock_monotone; lia.
Qed.

Lemma createTool_run s :
  exists r s', createTool s = (Ok r, s') /\ is_Some (objs s' !! r) /\
    (inv s -> inv s' /\ dom (objs s) ⊆ dom (objs s')).
Proof.
  unfold createTool. rewrite bind_run. unfold crypto_randomUUID.
  rewrite bind_run. unfold now at 1. rewrite bind_run. unfold now at 1.
  match goal with |- context [new_obj ?o ?st] =>
    set (o' := o); set (s3 := st) end.
  exists (fresh (dom (objs s3))), (set_objs (<[fresh (dom (objs s3)) := o']> (objs s3)) s3).
  split; [done|]. split; [simpl; rewrite lookup_insert_eq; eauto|].
  intros I.
  assert (I3 : inv s3).
  { destruct I as (Ho & Hl & Hm). split; [|split]; [|done|done].
    intros r o Hr. simpl. eapply timely_later; [|by eapply Ho].
    apply clock_monotone. lia. }
  apply (new_obj_safe s3 o' I3) with (r := Ok (fresh (dom (objs s3)))); [|done].
  exists (clock (ticks s)), (clock (S (ticks s))). simpl.
  repeat split; try done; apply clock_monotone; lia.
Qed.

Lemma safe_at_try_catch {A} s (m : M A) h :
  safe_at s m ->
  (forall e s1, m s = (Throw e, s1) -> inv s1 -> safe_at s1 (h e)) ->
  safe_at s (try_catch m h).
Proof.
  intros Hm Hh r s'. unfold try_catch. destruct (m s) as [[a|e] s1] eqn:E.
  - intros [= <- <-]. apply (Hm _ _ E).
  - destruct (Hm _ _ E) as [I1 D1]. intros H.
    destruct (Hh e s1 eq_refl I1 _ _ H) as [I2 D2]. split; [done|]. set_solver.
Qed.

Lemma safe_at_ret {A} s (a : A) : inv s -> safe_at s (ret a).
Proof. intros I r s' [= <- <-]. done. Qed.

Lemma newNoteClicked_safe s : inv s -> safe_at s newNoteClicked.
Proof.
  intros I. unfold newNoteClicked.
  destruct (createNote_run s) as (note & s1 & E & Hn & HI).
  apply safe_at_bind.
  { intros r s'. rewrite E. intros [= <- <-]. by apply HI. }
  intros note' s1' E'. rewrite E in E'. injection E' as <- <-. intros I1 D1.
  intros r s'. rewrite bind_run, get_run. revert r s'.
  apply safe_at_bind.
  { apply write_arr_safe; [done|].
    intros x [Hx|Hx%list_elem_of_singleton]%elem_of_app;
      [by eapply (inv_alloc _ NotesStore) | by subst]. }
  intros _ s2 _ I2 D2.
  apply safe_at_try_catch.
  - apply saveNote_safe; eauto using alloc_mono.
  - intros e s3 _ I3. by apply safe_at_ret.
Qed.

Lemma filterM_subseteq {A} (p : A -> result bool) (l l' : list A) :
  filterM p l = Ok l' -> l' ⊆ l.
Proof. intros H x Hx. by apply (filterM_elem_of _ _ _ _ H) in Hx as [? _]. Qed.

(** [state.notes = state.notes.filter(...)] *)
Lemma filter_mirror_safe s sn p :
  inv s ->
  safe_at s (let* kept := Array_filter (mirror sn s) p in
             modify (match sn with
                     | NotesStore => set_notes kept
                     | ToolsStore => set_tools kept
                     end)).
Proof.
  intros I res s'. rewrite bind_run, Array_filter_run.
  destruct (filterM _ _) as [l|e] eqn:E.
  2:{ intros [= <- <-]. done. }
  unfold new_arr. rewrite modify_run. intros [= <- <-].
  set (a := fresh (dom (arrs s))).
  assert (Ha : arrs s !! a = None) by (apply not_elem_of_dom, is_fresh).
  destruct I as (Ho & [Hn Ht] & Hm).
  split; [|by destruct sn]. split; [|split].
  - destruct sn; exact Ho.
  - split; destruct sn; simpl; rewrite lookup_insert; case_decide; eauto;
      congruence.
  - intros sn' x. unfold get_arr.
    assert (Hsub : forall x, x ∈ l -> is_Some (objs s !! x)).
    { intros y Hy. apply (Hm sn). by apply (filterM_subseteq _ _ _ E). }
    destruct sn, sn'; simpl; rewrite lookup_insert; case_decide; simpl;
      try (by apply Hsub); try (apply (Hm NotesStore));
      try (apply (Hm ToolsStore)); congruence.
Qed.

Lemma deleteNote_safe s c k : inv s -> safe_at s (deleteNote c k).
Proof.
  intros I. unfold deleteNote. destruct c; cbn [negb]; [|by apply safe_at_ret].
  apply safe_at_bind; [by apply deleteFromStore_safe|]. intros _ s1 _ I1 D1.
  intros r s'. rewrite bind_run, get_run. revert r s'.
  apply (safe_at_bind2 _ _ (fun kept => modify (set_notes kept)));
    [by apply (filter_mirror_safe s1 NotesStore)|].
  intros _ s2 I2 D2.
  intros r s'. rewrite bind_run, get_run. revert r s'.
  apply safe_at_bind.
  { intros r s'. destruct (current_note_reset k s2) as [c ->].
    intros [= <- <-]. split; [|done]. by eapply inv_same_heap. }
  intros _ s3 _ I3 D3.
  apply safe_at_frame; [done|]. apply renderNotesList_frame.
Qed.

Lemma deleteTool_safe s c k : inv s -> safe_at s (deleteTool c k).
Proof.
  intros I. unfold deleteTool. destruct c; cbn [negb]; [|by apply safe_at_ret].
  apply safe_at_bind; [by apply deleteFromStore_safe|]. intros _ s1 _ I1 D1.
  intros r s'. rewrite bind_run, get_run. revert r s'.
  apply (safe_at_bind2 _ _ (fun kept => modify (set_tools kept)));
    [by apply (filter_mirror_safe s1 ToolsStore)|].
  intros _ s2 I2 D2.
  apply safe_at_frame; [done|]. apply renderToolsGrid_frame.
Qed.

Lemma find_by_id_elem_of s a k i r :
  find_by_id s a k = Some (i, r) -> r ∈ get_arr s a /\ id (get_obj s r) = k.
Proof.
  unfold find_by_id. intros (Hi & Hk & _)%list_find_Some.
  split; [by eapply list_elem_of_lookup_2 | done].
Qed.

Lemma update_obj_safe s r f :
  inv s -> is_Some (objs s !! r) ->
  (forall o, objs s !! r = Some o -> timely (clock (ticks s)) (f o)) ->
  safe_at s (update_obj r f).
Proof.
  intros I [o Hr] Hf res s'. rewrite update_obj_run. intros [= <- <-].
  eapply (inv_update s r); try done.
  simpl. rewrite (get_obj_Some _ _ _ Hr). by apply Hf.
Qed.

Lemma toggleFavorite_safe s k : inv s -> safe_at s (toggleFavorite k).
Proof.
  intros I. unfold toggleFavorite.
  intros r s'. rewrite bind_run, get_run. revert r s'.
  destruct (find_by_id s (tools s) (Some k)) as [[i tool]|] eqn:E;
    [|by apply safe_at_ret].
  apply find_by_id_elem_of in E as [Ht _].
  assert (Ha : is_Some (objs s !! tool)) by (by eapply (inv_alloc _ ToolsStore)).
  apply safe_at_bind.
  { apply update_obj_safe; [done..|]. intros o Ho.
    destruct I as (HI & _). destruct (HI _ _ Ho) as (c & u & ? & ? & ? & ?).
    by exists c, u. }
  intros _ s1 _ I1 D1. apply saveTool_safe; eauto using alloc_mono.
Qed.

Lemma timely_assign T e c : timely T c -> timely T (Object_assign e c).
Proof.
  intros (x & u & Hc & Hu & ? & ?). exists x, u. simpl. by rewrite Hc, Hu.
Qed.

Lemma import_record_safe s sn candidate :
  inv s -> is_Some (objs s !! candidate) -> safe_at s (import_record sn candidate).
Proof.
  intros I [c Hc]. unfold import_record.
  intros r s'. rewrite bind_run, get_run. revert r s'.
  destruct (find_by_id s (mirror sn s) (id (get_obj s candidate)))
    as [[i existing]|] eqn:E.
  - apply find_by_id_elem_of in E as [He _].
    apply safe_at_bind; [|intros _ s1 _ I1 D1; by apply putInStore_safe].
    apply update_obj_safe; [done | by eapply inv_alloc |].
    intros e _. apply timely_assign. rewrite (get_obj_Some _ _ _ Hc).
    destruct I as (Ho & _). by eapply Ho.
  - apply safe_at_bind; [by apply putInStore_safe|]. intros [] s1 E1 I1 D1.
    assert (Em : mirror sn s = mirror sn s1).
    { rewrite putInStore_run in E1. cbv zeta in E1.
      destruct (request_fails (requests s)); [done|].
      destruct (id (get_obj s candidate)); [|done].
      injection E1 as <-. by destruct sn. }
    rewrite Em. apply write_arr_safe; [done|].
    intros x [Hx|Hx%list_elem_of_singleton]%elem_of_app;
      [by eapply inv_alloc | subst; eauto using alloc_mono].
Qed.

Lemma for_each_safe {A} (f : A -> M unit) (P : State -> A -> Prop) l s :
  inv s -> Forall (P s) l ->
  (forall x s1 s2, P s1 x -> dom (objs s1) ⊆ dom (objs s2) -> P s2 x) ->
  (forall x s1, inv s1 -> P s1 x -> safe_at s1 (f x)) ->
  safe_at s (for_each f l).
Proof.
  intros I Hl Hmono Hf. revert s I Hl.
  induction l as [|x l IH]; intros s I Hl; simpl.
  - by apply safe_at_ret.
  - inversion Hl as [|? ? Hx Hl']; subst.
    apply safe_at_bind; [by apply Hf|]. intros _ s1 _ I1 D1.
    apply IH; [done|]. eapply Forall_impl; [exact Hl'|].
    intros y Hy. by eapply Hmono.
Qed.

Lemma parse_records_run l s :
  inv s -> Forall (timely (clock (ticks s))) l ->
  exists rs s', parse_records l s = (Ok rs, s') /\ inv s' /\
    dom (objs s) ⊆ dom (objs s') /\ ticks s' = ticks s /\
    Forall (fun x => is_Some (objs s' !! x)) rs.
Proof.
  revert s. induction l as [|o l IH]; intros s I Hl; simpl.
  - exists [], s. do 4 (split; [done|]). constructor.
  - inversion Hl as [|? ? Ho Hl']; subst.
    rewrite bind_run. destruct (new_obj_Ok o s) as (r & s1 & E1). rewrite E1.
    destruct (new_obj_safe s o I Ho _ _ E1) as [I1 D1].
    assert (Et : ticks s1 = ticks s) by (by injection E1 as <- <-).
    destruct (IH s1 I1) as (rs & s2 & E2 & I2 & D2 & Et2 & Hrs);
      [by rewrite Et|].
    rewrite bind_run, E2. exists (r :: rs), s2.
    split; [done|]. split; [done|]. split; [set_solver|].
    split; [congruence|].
    constructor; [|done]. eapply alloc_mono; [done|]. by eapply new_obj_alloc.
Qed.

Lemma parse_array_run field s :
  inv s -> Forall (timely (clock (ticks s))) (default [] field) ->
  exists rs s', parse_array field s = (Ok rs, s') /\ inv s' /\
    dom (objs s) ⊆ dom (objs s') /\ ticks s' = ticks s /\
    Forall (fun x => is_Some (objs s' !! x)) (default [] rs).
Proof.
  intros I Hl. destruct field as [l|]; simpl in *.
  - destruct (parse_records_run l s I Hl) as (rs & s' & E & ?).
    exists (Some rs), s'. rewrite bind_run, E. done.
  - exists None, s. do 4 (split; [done|]). constructor.
Qed.

Lemma import_records_safe sn l s :
  inv s -> Forall (fun x => is_Some (objs s !! x)) l ->
  safe_at s (for_each (import_record sn) l).
Proof.
  intros I Hl.
  apply (for_each_safe _ (fun s x => is_Some (objs s !! x))); try done.
  - intros x s1 s2 Hx D. by eapply alloc_mono.
  - intros x s1 I1 Hx. by apply import_record_safe.
Qed.

Lemma handleImportFile_safe s file :
  inv s -> timely_file (clock (ticks s)) file -> safe_at s (handleImportFile file).
Proof.
  intros I Hfile. destruct file as [doc|]; simpl; [|by apply safe_at_ret].
  destruct Hfile as [Hn Ht].
  apply safe_at_try_catch; [|intros e s1 _ I1; by apply safe_at_ret].
  unfold import_body.
  destruct (parse_array_run (snap_notes doc) s I Hn)
    as (ns & s1 & E1 & I1 & D1 & Et1 & Hns).
  apply safe_at_bind; [intros r s'; rewrite E1; by intros [= <- <-]|].
  intros ns' s1' E1'. rewrite E1 in E1'. injection E1' as <- <-. intros _ _.
  destruct (parse_array_run (snap_tools doc) s1 I1)
    as (ts & s2 & E2 & I2 & D2 & Et2 & Hts); [by rewrite Et1|].
  apply safe_at_bind; [intros r s'; rewrite E2; by intros [= <- <-]|].
  intros ts' s2' E2'. rewrite E2 in E2'. injection E2' as <- <-. intros _ _.
  destruct ns as [ns|]; [|by apply safe_at_ret].
  destruct ts as [ts|]; [|by apply safe_at_ret].
  simpl in Hns, Hts.
  apply safe_at_bind.
  { apply import_records_safe; [done|]. eapply Forall_impl; [exact Hns|].
    intros x Hx. by eapply alloc_mono. }
  intros _ s3 _ I3 D3.
  apply safe_at_bind.
  { apply import_records_safe; [done|]. eapply Forall_impl; [exact Hts|].
    intros x Hx. by eapply alloc_mono. }
  intros _ s4 _ I4 D4.
  apply safe_at_bind; [apply safe_at_frame; [done|apply renderNotesList_frame]|].
  intros _ s5 _ I5 D5.
  apply safe_at_bind; [apply safe_at_frame; [done|apply renderToolsGrid_frame]|].
  intros _ s6 _ I6 D6. by apply safe_at_ret.
Qed.

Lemma step_inv s s' : inv s -> step s s' -> inv s'.
Proof.
  intros I H. destruct H as [s r s' E|s item f r s' Hn Hf E|s r s' E|s r s' E|
    s note r s' Hn E|s tool r s' Hn E|s c k r s' E|s c k r s' E|s k r s' E|
    s file r s' Hf E].
  - destruct (createNote_run s) as (r0 & s0 & E0 & _ & H0).
    rewrite E in E0. injection E0 as -> ->. by apply H0.
  - refine (proj1 (update_obj_safe s item f I Hn _ _ _ E)).
    intros o Ho. destruct I as (HI & _).
    destruct (HI _ _ Ho) as (c & u & Hc & Hu & ? & ?).
    destruct (Hf o) as [Ec Eu]. exists c, u. by rewrite Ec, Eu.
  - destruct (createTool_run s) as (r0 & s0 & E0 & _ & H0).
    rewrite E in E0. injection E0 as -> ->. by apply H0.
  - by apply (newNoteClicked_safe s I _ _ E).
  - by apply (saveNote_safe s note I Hn _ _ E).
  - by apply (saveTool_safe s tool I Hn _ _ E).
  - by apply (deleteNote_safe s c k I _ _ E).
  - by apply (deleteTool_safe s c k I _ _ E).
  - by apply (toggleFavorite_safe s k I _ _ E).
  - by apply (handleImportFile_safe s file I Hf _ _ E).
Qed.

Lemma inv_records_ordered s sn : inv s -> Forall ordered (records sn s).
Proof.
  intros (Ho & _ & Hm). unfold records. apply Forall_fmap, Forall_forall.
  intros r Hr. destruct (Hm sn r Hr) as [o Hx]. simpl.
  rewrite (get_obj_Some _ _ _ Hx). eapply timely_ordered. by eapply Ho.
Qed.

End Invariant.

(** C3, as amended.  With a clock that never goes back, from a state in
    which every record has [createdAt <= updatedAt] and was created no
    later than the clock's next reading: after any sequence of creations,
    saves, deletes, favorite toggles, and imports of files whose records
    have both timestamps, [createdAt <= updatedAt], and [createdAt] no
    later than the clock's next reading, every record of both mirrors has
    [updatedAt >= createdAt]. *)
Theorem timestamps_stay_ordered {browser : Browser} s s' :
  monotone_clock -> inv s -> rtc step s s' ->
  Forall ordered (records NotesStore s') /\
  Forall ordered (records ToolsStore s').
Proof.
  intros Hc I H.
  assert (I' : inv s').
  { induction H as [|s s1 s2 H1 _ IH]; [done|].
    apply IH. by eapply step_inv. }
  split; by apply inv_records_ordered.
Qed.

(** ** Export then import *)

Section RoundTrip.
Context {browser : Browser}.

Lemma same_view_refl st : same_view st st.
Proof. done. Qed.

Lemma same_view_trans st1 st2 st3 :
  same_view st1 st2 -> same_view st2 st3 -> same_view st1 st3.
Proof.
  intros (Ho1 & Ha1 & En1 & Et1) (Ho2 & Ha2 & En2 & Et2). repeat split.
  - intros x. by rewrite Ho2, Ho1.
  - intros a Ha. rewrite Ha2; [by apply Ha1|]. by rewrite Ha1.
  - congruence.
  - congruence.
Qed.

Lemma same_view_mirror st st' sn : same_view st st' -> mirror sn st' = mirror sn st.
Proof. intros (_ & _ & ? & ?). by destruct sn. Qed.

Lemma same_view_live st st' : same_view st st' -> live_mirrors st -> live_mirrors st'.
Proof.
  intros (_ & Ha & En & Et) [Hn Ht]. split.
  - rewrite En, Ha; done.
  - rewrite Et, Ha; done.
Qed.

Lemma same_view_get_arr st st' sn :
  same_view st st' -> live_mirrors st ->
  get_arr st' (mirror sn st') = get_arr st (mirror sn st).
Proof.
  intros V [Hn Ht]. rewrite (same_view_mirror _ _ _ V).
  destruct V as (_ & Ha & _). unfold get_arr. rewrite Ha; [done|].
  by destruct sn.
Qed.

Lemma same_view_records st st' sn :
  same_view st st' -> live_mirrors st -> records sn st' = records sn st.
Proof.
  intros V L. unfold records. rewrite (same_view_get_arr _ _ _ V L).
  apply list_fmap_ext. intros _ x _. by apply V.
Qed.

Lemma frame_same_view st st' : frame st st' -> same_view st st'.
Proof.
  intros F. repeat split.
  - intros x. by apply frame_get_obj.
  - by destruct F.
  - destruct F as [-> _]. done.
  - destruct F as [-> _]. done.
Qed.

Lemma Object_assign_same o : Object_assign o o = o.
Proof.
  destruct o as [a b c d e f g h i j k l]. unfold Object_assign. simpl.
  by destruct a, b, c, d, e, f, g, h, i, j, k, l.
Qed.

Lemma unique_ids_inj sn st x y :
  unique_ids sn st -> x ∈ get_arr st (mirror sn st) ->
  y ∈ get_arr st (mirror sn st) ->
  id (get_obj st x) = id (get_obj st y) -> get_obj st x = get_obj st y.
Proof.
  unfold unique_ids, records. rewrite <- list_fmap_compose.
  intros Hnd [i Hi]%list_elem_of_lookup [j Hj]%list_elem_of_lookup E.
  assert (i = j) as ->.
  { eapply NoDup_lookup; [exact Hnd| |]; rewrite list_lookup_fmap.
    - by rewrite Hi.
    - rewrite Hj. simpl. by rewrite E. }
  congruence.
Qed.

(** Importing a candidate that reads as a record of the mirror does, into
    a mirror with unique ids, changes no record. *)
Lemma import_record_view sn c st r st' :
  unique_ids sn st -> matches_mirror sn st c ->
  import_record sn c st = (r, st') -> same_view st st'.
Proof.
  intros U (m & Hm & Ec). unfold import_record. rewrite bind_run, get_run.
  destruct (find_by_id st (mirror sn st) (id (get_obj st c)))
    as [[i e]|] eqn:Ef.
  - apply find_by_id_elem_of in Ef as [He Hid].
    assert (Ee : get_obj st e = get_obj st c).
    { rewrite Ec. apply (unique_ids_inj sn); try done. by rewrite <- Ec. }
    rewrite bind_run, update_obj_run, Ee, Object_assign_same.
    set (st1 := set_objs (<[e := get_obj st c]> (objs st)) st).
    assert (V1 : same_view st st1).
    { repeat split. intros x. unfold st1. rewrite get_obj_insert.
      case_decide; [by subst|done]. }
    rewrite putInStore_run. cbv zeta.
    intros H. eapply same_view_trans; [exact V1|].
    destruct (request_fails (requests st1)).
    { injection H as _ <-. done. }
    destruct (id (get_obj st1 e)); injection H as _ <-; by destruct sn.
  - pose proof (proj1 (find_by_id_None _ _ _) Ef m Hm) as Hne.
    by rewrite Ec in Hne.
Qed.

Lemma matches_mirror_view sn st st' c :
  same_view st st' -> live_mirrors st ->
  matches_mirror sn st c -> matches_mirror sn st' c.
Proof.
  intros V L (m & Hm & Ec). exists m. split.
  - by rewrite (same_view_get_arr _ _ _ V L).
  - destruct V as (Ho & _). by rewrite !Ho.
Qed.

Lemma unique_ids_view sn st st' :
  same_view st st' -> live_mirrors st -> unique_ids sn st -> unique_ids sn st'.
Proof. intros V L. unfold unique_ids. by rewrite (same_view_records _ _ _ V L). Qed.

Lemma import_records_view sn l st r st' :
  live_mirrors st -> unique_ids sn st -> Forall (matches_mirror sn st) l ->
  for_each (import_record sn) l st = (r, st') -> same_view st st'.
Proof.
  revert st. induction l as [|c l IH]; intros st L U Hl; simpl.
  - intros [= <- <-]. apply same_view_refl.
  - inversion Hl as [|? ? Hc Hl']; subst. rewrite bind_run.
    destruct (import_record sn c st) as [[[]|e] st1] eqn:E1.
    + pose proof (import_record_view _ _ _ _ _ U Hc E1) as V1.
      intros H. eapply same_view_trans; [exact V1|].
      eapply IH; [| | |exact H].
      * by eapply same_view_live.
      * by eapply unique_ids_view.
      * eapply Forall_impl; [exact Hl'|]. intros x.
        by apply matches_mirror_view.
    + intros [= <- <-]. by eapply import_record_view.
Qed.

Lemma extends_trans st1 st2 st3 : extends st1 st2 -> extends st2 st3 -> extends st1 st3.
Proof.
  intros (Ho1 & Ea1 & En1 & Et1) (Ho2 & Ea2 & En2 & Et2). repeat split; try congruence.
  - by apply Ho2, Ho1.
  - destruct (Ho1 x H) as [H1 E1]. destruct (Ho2 x H1) as [_ E2]. congruence.
Qed.

Lemma new_obj_extends o st :
  let r := fresh (dom (objs st)) in
  let st' := set_objs (<[r := o]> (objs st)) st in
  new_obj o st = (Ok r, st') /\ extends st st' /\
  is_Some (objs st' !! r) /\ get_obj st' r = o.
Proof.
  intros r st'. assert (Hr : objs st !! r = None) by (apply not_elem_of_dom, is_fresh).
  split; [done|]. split; [|split].
  - repeat split.
    + simpl. rewrite lookup_insert. case_decide; eauto.
    + unfold st'. rewrite get_obj_insert. case_decide; [|done].
      subst. rewrite Hr in H. by destruct H.
  - simpl. rewrite lookup_insert_eq. eauto.
  - unfold st'. rewrite get_obj_insert. by rewrite decide_True.
Qed.

Lemma parse_records_extends l st :
  exists rs st', parse_records l st = (Ok rs, st') /\ extends st st' /\
    Forall2 (fun r o => is_Some (objs st' !! r) /\ get_obj st' r = o) rs l.
Proof.
  revert st. induction l as [|o l IH]; intros st; simpl.
  - exists [], st. split; [done|]. split; [|constructor].
    repeat split; done.
  - destruct (new_obj_extends o st) as (E1 & X1 & Hr & Eo).
    rewrite bind_run, E1. set (r := fresh (dom (objs st))) in *.
    set (st1 := set_objs (<[r := o]> (objs st)) st) in *.
    destruct (IH st1) as (rs & st2 & E2 & X2 & Hrs).
    rewrite bind_run, E2. exists (r :: rs), st2.
    split; [done|]. split; [by eapply extends_trans|].
    constructor; [|done]. destruct X2 as (Ho2 & _).
    destruct (Ho2 r Hr) as [? ?]. split; [done | congruence].
Qed.

Lemma parse_array_extends l st :
  exists rs st', parse_array (Some l) st = (Ok (Some rs), st') /\ extends st st' /\
    Forall2 (fun r o => is_Some (objs st' !! r) /\ get_obj st' r = o) rs l.
Proof.
  destruct (parse_records_extends l st) as (rs & st' & E & X & H).
  exists rs, st'. simpl. by rewrite bind_run, E.
Qed.

Lemma Forall2_exists {A B} (P : A -> B -> Prop) l k :
  Forall2 P l k -> Forall (fun x => exists y, y ∈ k /\ P x y) l.
Proof.
  induction 1 as [|x y l k Hxy _ IH]; constructor.
  - exists y. split; [by apply elem_of_cons; left | done].
  - eapply Forall_impl; [exact IH|]. intros z (w & Hw & ?).
    exists w. split; [by apply elem_of_cons; right | done].
Qed.

(** After parsing, the records of the mirrors read as before, and every
    candidate parsed from the records of a mirror reads as one of them. *)
Lemma extends_records st st' sn :
  extends st st' ->
  (forall r, r ∈ get_arr st (mirror sn st) -> is_Some (objs st !! r)) ->
  get_arr st' (mirror sn st') = get_arr st (mirror sn st) /\
  records sn st' = records sn st.
Proof.
  intros (Ho & Ea & En & Et) Hal.
  assert (Eg : get_arr st' (mirror sn st') = get_arr st (mirror sn st)).
  { unfold get_arr. rewrite Ea. by destruct sn; simpl; rewrite ?En, ?Et. }
  split; [done|]. unfold records. rewrite Eg.
  apply list_fmap_ext. intros _ x Hx%list_elem_of_lookup_2. by apply Ho, Hal.
Qed.

Lemma extends_live st st' : extends st st' -> live_mirrors st -> live_mirrors st'.
Proof. intros (_ & Ea & En & Et). unfold live_mirrors. by rewrite Ea, En, Et. Qed.

Lemma exportData_run s :
  exportData s =
  (Ok {| snap_notes := Some (records NotesStore s);
         snap_tools := Some (records ToolsStore s);
         exportedAt := Some (clock (ticks s)) |},
   set_ticks (S (S (ticks s))) s).
Proof. reflexivity. Qed.

Lemma candidates_match sn st0 st rs :
  extends st0 st ->
  (forall r, r ∈ get_arr st0 (mirror sn st0) -> is_Some (objs st0 !! r)) ->
  Forall2 (fun r o => get_obj st r = o) rs (records sn st0) ->
  Forall (matches_mirror sn st) rs.
Proof.
  intros X Hal H. destruct (extends_records _ _ sn X Hal) as [Eg _].
  apply Forall2_exists in H. eapply Forall_impl; [exact H|].
  intros c (o & Ho & Ec). unfold records in Ho.
  apply list_elem_of_fmap in Ho as (m & -> & Hm).
  exists m. split; [by rewrite Eg|]. rewrite Ec.
  destruct X as (Hx & _). symmetry. by apply Hx, Hal.
Qed.

(** C10. From a state whose mirrors hold records with pairwise distinct
    ids, importing the document that [exportData] writes leaves both
    mirrors as they were: the same references in the same order, each
    reading the same record. *)
Theorem export_import_roundtrip s :
  live_mirrors s ->
  (forall sn r, r ∈ get_arr s (mirror sn s) -> is_Some (objs s !! r)) ->
  unique_ids NotesStore s -> unique_ids ToolsStore s ->
  exists doc s1 shown s2,
    exportData s = (Ok doc, s1) /\
    handleImportFile (Some doc) s1 = (Ok shown, s2) /\
    get_arr s2 (notes s2) = get_arr s (notes s) /\
    get_arr s2 (tools s2) = get_arr s (tools s) /\
    records NotesStore s2 = records NotesStore s /\
    records ToolsStore s2 = records ToolsStore s.
Proof.
  intros L Hal Un Ut. rewrite exportData_run.
  set (s1 := set_ticks (S (S (ticks s))) s).
  eexists _, s1. 
  assert (Goal : forall r s2,
            import_body {| snap_notes := Some (records NotesStore s);
                           snap_tools := Some (records ToolsStore s);
                           exportedAt := Some (clock (ticks s)) |} s1
            = (r, s2) ->
            exists s0, extends s1 s0 /\ same_view s0 s2).
  { intros r s2. unfold import_body. cbn [snap_notes snap_tools].
    rewrite bind_run.
    destruct (parse_array_extends (records NotesStore s) s1)
      as (ns & sA & EA & XA & HA). rewrite EA.
    rewrite bind_run.
    destruct (parse_array_extends (records ToolsStore s) sA)
      as (ts & sB & EB & XB & HB). rewrite EB.
    assert (X : extends s1 sB) by (by eapply extends_trans).
    assert (LB : live_mirrors sB) by (by eapply extends_live).
    assert (Hal1 : forall sn r, r ∈ get_arr s1 (mirror sn s1) -> is_Some (objs s1 !! r)).
    { intros sn r0 Hr. apply (Hal sn r0). by destruct sn. }
    assert (Hn : Forall (matches_mirror NotesStore sB) ns).
    { apply (candidates_match NotesStore s1); [done | apply Hal1 |].
      eapply Forall2_impl; [exact HA|]. intros c o [Hc <-].
      destruct XB as (Hx & _). by apply Hx. }
    assert (Ht : Forall (matches_mirror ToolsStore sB) ts).
    { apply (candidates_match ToolsStore s1); [done | apply Hal1 |].
      eapply Forall2_impl; [exact HB|]. by intros c o [_ <-]. }
    assert (UB : forall sn, unique_ids sn sB).
    { intros sn. unfold unique_ids.
      destruct (extends_records _ _ sn X (Hal1 sn)) as [_ ->].
      by destruct sn. }
    intros H. exists sB. split; [done|]. revert H.
    rewrite bind_run.
    destruct (for_each (import_record NotesStore) ns sB) as [[[]|e] sC] eqn:EC.
    2:{ intros [= <- <-]. exact (import_records_view _ _ _ _ _ LB (UB _) Hn EC). }
    pose proof (import_records_view _ _ _ _ _ LB (UB _) Hn EC) as VC.
    rewrite bind_run.
    destruct (for_each (import_record ToolsStore) ts sC) as [[[]|e] sD] eqn:ED.
    2:{ intros [= <- <-]. eapply same_view_trans; [exact VC|].
        eapply import_records_view; [| | |exact ED].
        - by eapply same_view_live.
        - eapply unique_ids_view; [exact VC | done | apply UB].
        - eapply Forall_impl; [exact Ht|]. intros x.
          by apply matches_mirror_view. }
    assert (VD : same_view sB sD).
    { eapply same_view_trans; [exact VC|].
      eapply import_records_view; [| | |exact ED].
      - by eapply same_view_live.
      - eapply unique_ids_view; [exact VC | done | apply UB].
      - eapply Forall_impl; [exact Ht|]. intros x.
        by apply matches_mirror_view. }
    rewrite bind_run.
    destruct (renderNotesList sD) as [[[]|e] sE] eqn:EE.
    2:{ intros [= <- <-]. eapply same_view_trans; [exact VD|].
        by eapply frame_same_view, renderNotesList_frame. }
    assert (VE : same_view sB sE).
    { eapply same_view_trans; [exact VD|].
      by eapply frame_same_view, renderNotesList_frame. }
    rewrite bind_run.
    destruct (renderToolsGrid sE) as [[[]|e] sF] eqn:EF.
    2:{ intros [= <- <-]. eapply same_view_trans; [exact VE|].
        by eapply frame_same_view, renderToolsGrid_frame. }
    rewrite ret_run. intros [= <- <-].
    eapply same_view_trans; [exact VE|].
    by eapply frame_same_view, renderToolsGrid_frame. }
  assert (Hrun : exists shown s2 s0,
            handleImportFile
              (Some {| snap_notes := Some (records NotesStore s);
                       snap_tools := Some (records ToolsStore s);
                       exportedAt := Some (clock (ticks s)) |}) s1
            = (Ok shown, s2) /\ extends s1 s0 /\ same_view s0 s2).
  { unfold handleImportFile, try_catch.
    match goal with |- context [match ?m s1 with _ => _ end] =>
      destruct (m s1) as [[shown|e] s2] eqn:E end.
    - destruct (Goal _ _ eq_refl) as (s0 & ? & ?). by exists shown, s2, s0.
    - destruct (Goal _ _ eq_refl) as (s0 & ? & ?).
      exists (Some ImportFailed), s2, s0. by rewrite ret_run. }
  destruct Hrun as (shown & s2 & s0 & Hrun & X & V).
  exists shown, s2. split; [done|]. split; [done|].
  assert (Hal1 : forall sn r, r ∈ get_arr s1 (mirror sn s1) -> is_Some (objs s1 !! r)).
  { intros sn r0 Hr. apply (Hal sn r0). by destruct sn. }
  assert (L0 : live_mirrors s0) by (by eapply extends_live).
  destruct (extends_records _ _ NotesStore X (Hal1 _)) as [Eg1 Er1].
  destruct (extends_records _ _ ToolsStore X (Hal1 _)) as [Eg2 Er2].
  repeat split.
  - etrans; [apply (same_view_get_arr _ _ NotesStore V L0) | exact Eg1].
  - etrans; [apply (same_view_get_arr _ _ ToolsStore V L0) | exact Eg2].
  - rewrite (same_view_records _ _ NotesStore V L0). exact Er1.
  - rewrite (same_view_records _ _ ToolsStore V L0). exact Er2.
Qed.

End RoundTrip.

(** ** Store failures during an import *)

Section ImportFailure.
Context {browser : Browser}.

Lemma quiet_halts {A} (m : M A) : quiet m -> halts_on_failure m.
Proof. intros H s r s' E. rewrite (H _ _ _ E). split; [done|]. intros n ?. lia. Qed.

Lemma halts_bind {A B} (m : M A) (k : A -> M B) :
  halts_on_failure m -> (forall a, halts_on_failure (k a)) ->
  halts_on_failure (bind m k).
Proof.
  intros Hm Hk s r s'. rewrite bind_run.
  destruct (m s) as [[a|e] s1] eqn:E1; destruct (Hm _ _ _ E1) as [Hle1 H1].
  - intros E2. destruct (Hk a _ _ _ E2) as [Hle2 H2]. split; [lia|].
    intros n Hn Hf. destruct (decide (n < requests s1)%nat) as [Hlt|Hge].
    + destruct (H1 n) as [_ [e ?]]; [lia | done | done].
    + apply H2; [lia | done].
  - intros [= <- <-]. split; [done|]. intros n Hn Hf.
    destruct (H1 n Hn Hf) as [? _]. split; [done|]. by exists e.
Qed.

Lemma quiet_bind {A B} (m : M A) (k : A -> M B) :
  quiet m -> (forall a, quiet (k a)) -> quiet (bind m k).
Proof.
  intros Hm Hk s r s'. rewrite bind_run. destruct (m s) as [[a|e] s1] eqn:E1.
  - intros E2. rewrite (Hk _ _ _ _ E2). by eapply Hm.
  - intros [= <- <-]. by eapply Hm.
Qed.

Lemma quiet_frame {A} (m : M A) :
  (forall s r s', m s = (r, s') -> frame s s') -> quiet m.
Proof. intros H s r s' E. destruct (H _ _ _ E) as [-> _]. done. Qed.

Lemma quiet_parse_records l : quiet (parse_records l).
Proof.
  induction l as [|o l IH]; simpl.
  - by intros s r s' [= <- <-].
  - apply quiet_bind; [by intros s r s' [= <- <-]|]. intros x.
    apply quiet_bind; [done|]. by intros rs s r s' [= <- <-].
Qed.

Lemma quiet_parse_array field : quiet (parse_array field).
Proof.
  destruct field as [l|]; simpl; [|by intros s r s' [= <- <-]].
  apply quiet_bind; [apply quiet_parse_records|]. by intros rs s r s' [= <- <-].
Qed.

Lemma putInStore_requests sn item s r s' :
  putInStore sn item s = (r, s') ->
  requests s' = S (requests s) /\
  (request_fails (requests s) = true -> r = Throw StorageError).
Proof.
  rewrite putInStore_run. cbv zeta. destruct (request_fails (requests s)).
  - by intros [= <- <-].
  - destruct (id (get_obj s item)); intros [= <- <-]; by destruct sn.
Qed.

(** Every run of the merge body issues exactly one request, the store
    write, and throws when it fails. *)
Lemma import_record_requests sn c s r s' :
  import_record sn c s = (r, s') ->
  requests s' = S (requests s) /\
  (request_fails (requests s) = true -> r = Throw StorageError).
Proof.
  unfold import_record. rewrite bind_run, get_run.
  destruct (find_by_id s (mirror sn s) (id (get_obj s c))) as [[i e]|].
  - rewrite bind_run, update_obj_run.
    intros H%putInStore_requests. done.
  - rewrite bind_run.
    destruct (putInStore sn c s) as [[[]|e] s1] eqn:E1;
      destruct (putInStore_requests _ _ _ _ _ E1) as [Hr Hf].
    + rewrite Array_push_run. intros [= <- <-]. split; [done|].
      intros H. by specialize (Hf H).
    + intros [= <- <-]. done.
Qed.

Lemma import_record_halts sn c : halts_on_failure (import_record sn c).
Proof.
  intros s r s' E. destruct (import_record_requests _ _ _ _ _ E) as [Hr Hf].
  split; [lia|]. intros n Hn Hfail. assert (n = requests s) as -> by lia.
  split; [done|]. exists StorageError. by apply Hf.
Qed.

Lemma for_each_halts {A} (f : A -> M unit) l :
  (forall x, halts_on_failure (f x)) -> halts_on_failure (for_each f l).
Proof.
  intros Hf. induction l as [|x l IH]; simpl.
  - apply quiet_halts. by intros s r s' [= <- <-].
  - by apply halts_bind.
Qed.

Lemma import_records_count sn l s s' :
  for_each (import_record sn) l s = (Ok tt, s') ->
  requests s' = (requests s + length l)%nat.
Proof.
  revert s. induction l as [|c l IH]; intros s; simpl.
  - intros [= <-]. lia.
  - rewrite bind_run. destruct (import_record sn c s) as [[[]|e] s1] eqn:E1; [|done].
    intros H%IH. destruct (import_record_requests _ _ _ _ _ E1) as [Hr _]. lia.
Qed.

Lemma parse_records_length l s rs s' :
  parse_records l s = (Ok rs, s') -> length rs = length l.
Proof.
  revert s rs. induction l as [|o l IH]; intros s rs; simpl.
  - by intros [= <- <-].
  - rewrite bind_run. unfold new_obj at 1. rewrite bind_run.
    destruct (parse_records l _) as [[rs'|e] s2] eqn:E2; [|done].
    intros [= <- <-]. simpl. f_equal. by eapply IH.
Qed.

Lemma import_body_halts doc : halts_on_failure (import_body doc).
Proof.
  unfold import_body.
  apply halts_bind; [apply quiet_halts, quiet_parse_array|]. intros ns.
  apply halts_bind; [apply quiet_halts, quiet_parse_array|]. intros ts.
  destruct ns as [ns|]; [|apply quiet_halts; by intros s r s' [= <- <-]].
  destruct ts as [ts|]; [|apply quiet_halts; by intros s r s' [= <- <-]].
  apply halts_bind; [apply for_each_halts, import_record_halts|]. intros _.
  apply halts_bind; [apply for_each_halts, import_record_halts|]. intros _.
  apply halts_bind; [apply quiet_halts, quiet_frame, renderNotesList_frame|].
  intros _.
  apply halts_bind; [apply quiet_halts, quiet_frame, renderToolsGrid_frame|].
  intros _. apply quiet_halts. by intros s r s' [= <- <-].
Qed.

Lemma import_body_success doc s n m s' :
  import_body doc s = (Ok (Some (ImportSuccessful n m)), s') ->
  exists ns ts, snap_notes doc = Some ns /\ snap_tools doc = Some ts /\
    n = length ns /\ m = length ts /\
    requests s' = (requests s + n + m)%nat.
Proof.
  unfold import_body. rewrite bind_run.
  destruct (parse_array (snap_notes doc) s) as [[rn|e] s1] eqn:E1; [|done].
  rewrite bind_run.
  destruct (parse_array (snap_tools doc) s1) as [[rt|e] s2] eqn:E2; [|done].
  pose proof (quiet_parse_array _ _ _ _ E1) as Q1.
  pose proof (quiet_parse_array _ _ _ _ E2) as Q2.
  destruct (snap_notes doc) as [ns|]; simpl in E1.
  2:{ injection E1 as <- <-. by destruct rt. }
  destruct (snap_tools doc) as [ts|]; simpl in E2.
  2:{ injection E2 as <- <-. by destruct rn. }
  rewrite bind_run in E1.
  destruct (parse_records ns s) as [[rn'|e] s1'] eqn:P1; [|done].
  injection E1 as <- <-.
  rewrite bind_run in E2.
  destruct (parse_records ts s1') as [[rt'|e] s2'] eqn:P2; [|done].
  injection E2 as <- <-.
  rewrite bind_run.
  destruct (for_each (import_record NotesStore) rn' s2') as [[[]|e] s3] eqn:E3; [|done].
  rewrite bind_run.
  destruct (for_each (import_record ToolsStore) rt' s3) as [[[]|e] s4] eqn:E4; [|done].
  rewrite bind_run.
  destruct (renderNotesList s4) as [[[]|e] s5] eqn:E5; [|done].
  rewrite bind_run.
  destruct (renderToolsGrid s5) as [[[]|e] s6] eqn:E6; [|done].
  intros [= <- <- <-]. exists ns, ts.
  rewrite (parse_records_length _ _ _ _ P1), (parse_records_length _ _ _ _ P2).
  do 4 (split; [done|]).
  rewrite (quiet_frame _ renderToolsGrid_frame _ _ _ E6).
  rewrite (quiet_frame _ renderNotesList_frame _ _ _ E5).
  rewrite (import_records_count _ _ _ _ E4), (import_records_count _ _ _ _ E3).
  rewrite Q2, Q1.
  by rewrite (parse_records_length _ _ _ _ P1), (parse_records_length _ _ _ _ P2).
Qed.

(** C2, as amended.  [handleImportFile] always ends by showing an alert.
    When a store write fails during the import, that write is the last
    request issued: no later record of either collection is processed, and
    the alert is the failure alert, which carries no count.  An alert of
    success carries the numbers of candidate records of the two arrays of
    the file, and then every one of them was written. *)
Theorem import_stops_at_first_failure file s :
  exists shown s', handleImportFile file s = (Ok shown, s') /\
    (forall n, (requests s <= n < requests s')%nat -> request_fails n = true ->
       requests s' = S n /\ shown = Some ImportFailed) /\
    (forall n m, shown = Some (ImportSuccessful n m) ->
       exists doc ns ts, file = Some doc /\
         snap_notes doc = Some ns /\ snap_tools doc = Some ts /\
         n = length ns /\ m = length ts /\
         requests s' = (requests s + n + m)%nat).
Proof.
  destruct file as [doc|]; simpl.
  2:{ exists None, s. split; [done|]. split; [intros; lia | done]. }
  unfold try_catch.
  destruct (import_body doc s) as [[shown|e] s'] eqn:E;
    destruct (import_body_halts doc _ _ _ E) as [Hle H].
  - exists shown, s'. split; [done|]. split.
    + intros n Hn Hf. destruct (H n Hn Hf) as [_ [e ?]]. done.
    + intros n m ->. destruct (import_body_success _ _ _ _ _ E)
        as (ns & ts & ? & ? & ? & ? & ?). by exists doc, ns, ts.
  - exists (Some ImportFailed), s'. rewrite ret_run. split; [done|]. split.
    + intros n Hn Hf. by destruct (H n Hn Hf) as [? _].
    + done.
Qed.

End ImportFailure.

Section ImportMerge.
Context {browser : Browser}.

Lemma grows_refl st : grows st st.
Proof. split; [by destruct st | done]. Qed.

Lemma grows_trans st1 st2 st3 : grows st1 st2 -> grows st2 st3 -> grows st1 st3.
Proof.
  intros [E1 H1] [E2 H2]. split.
  - rewrite E2 at 1. rewrite E1. by destruct st1.
  - intros x Hx. rewrite H2, H1; [done..|]. rewrite H1; done.
Qed.

Lemma grows_new_obj o st :
  let r := fresh (dom (objs st)) in
  let st' := set_objs (<[r := o]> (objs st)) st in
  new_obj o st = (Ok r, st') /\ grows st st' /\ objs st !! r = None.
Proof.
  intros r st'. assert (Hr : objs st !! r = None) by (apply not_elem_of_dom, is_fresh).
  split; [done|]. split; [|done]. split; [by destruct st|].
  intros x Hx. simpl. rewrite lookup_insert_ne; [done|].
  intros <-. rewrite Hr in Hx. by destruct Hx.
Qed.

Lemma grows_get_obj st st' x :
  grows st st' -> is_Some (objs st !! x) -> get_obj st' x = get_obj st x.
Proof. intros [_ H] Hx. unfold get_obj. by rewrite H. Qed.

(** Parsing (or cloning) a list of records allocates one new object per
    record, in order, and changes nothing else. *)
Lemma parse_records_grows l st :
  exists rs st', parse_records l st = (Ok rs, st') /\ grows st st' /\
    get_obj st' <$> rs = l /\
    Forall (fun r => objs st !! r = None /\ is_Some (objs st' !! r)) rs /\
    NoDup rs.
Proof.
  revert st. induction l as [|o l IH]; intros st; simpl.
  - exists [], st. split; [done|]. split; [apply grows_refl|].
    split; [done|]. split; constructor.
  - destruct (grows_new_obj o st) as (E1 & G1 & Hr).
    rewrite bind_run, E1. set (r := fresh (dom (objs st))) in *.
    set (st1 := set_objs (<[r := o]> (objs st)) st) in *.
    destruct (IH st1) as (rs & st2 & E2 & G2 & Hv & Hn & Hd).
    rewrite bind_run, E2. exists (r :: rs), st2.
    assert (Hr1 : is_Some (objs st1 !! r)) by (simpl; rewrite lookup_insert_eq; eauto).
    split; [done|]. split; [by eapply grows_trans|]. split; [|split].
    + rewrite fmap_cons, Hv. f_equal.
      rewrite (grows_get_obj _ _ _ G2 Hr1). unfold get_obj. simpl.
      by rewrite lookup_insert_eq.
    + constructor.
      * split; [done|]. destruct G2 as [_ H2]. rewrite H2 by done. done.
      * eapply Forall_impl; [exact Hn|]. intros x [Hx1 Hx2]. split; [|done].
        simpl in Hx1. apply lookup_insert_None in Hx1. tauto.
    + constructor; [|done]. intros Hin.
      rewrite Forall_forall in Hn. destruct (Hn r Hin) as [Hx _].
      rewrite Hx in Hr1. by destruct Hr1.
Qed.







End ImportMerge.

(** ** Concrete runs *)

(** The notes of the sample page, by last update, the pinned one first. *)
Example demo_query :
  let '(r, s') := @filterAndSortNotes working demo_state in
  (from_option (get_arr s') [] (match r with Ok a => Some a | _ => None end))
  = [1%nat; 0%nat].
Proof. vm_compute. reflexivity. Qed.

(** The scenario on an empty page: the first query returns the note, the
    second nothing, and the store is empty at the end. *)
Example create_tag_query_delete :
  fst (@scenario working initial_state) = Ok ([0%nat], []) /\
  db_notes (snd (@scenario working initial_state)) = ∅.
Proof. vm_compute. split; reflexivity. Qed.

(** C1, counterexample.  The note ["a"] of the mirror is saved while the
    store is unavailable: [saveNote] fails, and the record of the mirror
    has a new [updatedAt]. *)
Lemma save_failure_changes_mirror :
  fst (@saveNote broken 0%nat demo_state) = Throw StorageError /\
  updatedAt <$> records NotesStore demo_state = [Some 2000; Some 3000] /\
  updatedAt <$> records NotesStore (snd (@saveNote broken 0%nat demo_state))
    = [Some 5000; Some 3000].
Proof. vm_compute. repeat split; reflexivity. Qed.

(** C2, counterexample.  A file with two notes and one tool is imported
    into an empty page; the first store write fails, and the two after it
    would not.  The import shows the failure alert after that single
    request: the second note and the tool are neither stored nor in the
    mirrors, and no count is reported. *)
Lemma import_failure_aborts :
  let run := @handleImportFile first_write_fails (Some three_records)
               initial_state in
  @request_fails first_write_fails 0 = true /\
  @request_fails first_write_fails 1 = false /\
  @request_fails first_write_fails 2 = false /\
  fst run = Ok (Some ImportFailed) /\
  requests (snd run) = 1%nat /\
  db_notes (snd run) !! "b" = None /\
  db_tools (snd run) !! "t1" = None /\
  records NotesStore (snd run) = [] /\
  records ToolsStore (snd run) = [].
Proof. vm_compute. repeat split; reflexivity. Qed.

(** C3, counterexample.  A file whose only note has [createdAt] later than
    [updatedAt] is imported into an empty page: the import succeeds and
    the mirror holds that note as it is. *)
Lemma import_breaks_timestamp_order :
  let run := @handleImportFile working
               (Some {| snap_notes := Some [backdated];
                        snap_tools := Some [];
                        exportedAt := None |})
               initial_state in
  fst run = Ok (Some (ImportSuccessful 1 0)) /\
  records NotesStore (snd run) = [backdated] /\
  ~ Forall ordered (records NotesStore (snd run)).
Proof.
  assert (E : records NotesStore
            (snd (@handleImportFile working
               (Some {| snap_notes := Some [backdated];
                        snap_tools := Some [];
                        exportedAt := None |})
               initial_state)) = [backdated]) by (vm_compute; reflexivity).
  cbv zeta. rewrite E. split; [vm_compute; reflexivity|]. split; [done|].
  intros H. inversion H as [|? ? (c & u & Hc & Hu & Hle) _]; subst.
  injection Hc as <-. injection Hu as <-. lia.
Qed.


(** C6, counterexample.  The tag filter is set to the empty string (the
    tag of a chip rendered for an empty tag): the pipeline does not filter,
    and returns notes whose tag sequence does not contain it. *)
Lemma empty_tag_filter_keeps_all :
  let run := @filterAndSortNotes working empty_tag_filter_state in
  activeTagFilter empty_tag_filter_state = Some "" /\
  match fst run with
  | Ok res => get_arr (snd run) res = [1%nat; 0%nat]
  | Throw _ => False
  end /\
  tags (get_obj (snd run) 0%nat) = Some ["work"] /\
  "" ∉ ["work"].
Proof.
  split; [reflexivity|]. split; [vm_compute; reflexivity|].
  split; [vm_compute; reflexivity|]. by intros ?%list_elem_of_singleton.
Qed.

(** ** The theorems at concrete states *)

(** The theorem of C1 at the note ["a"], with the store unavailable. *)
Lemma save_failure_keeps_list_witness :
  @request_fails broken (requests demo_state) = true /\
  exists s', @saveNote broken 0%nat demo_state = (Throw StorageError, s') /\
    arrs s' = arrs demo_state /\ db_notes s' = db_notes demo_state.
Proof.
  split; [reflexivity|].
  destruct (@save_failure_keeps_list broken 0%nat demo_state eq_refl)
    as [(s' & E & Ha & _ & _ & Hd & _) _].
  exists s'. by repeat split.
Defined.

(** The clock of the sample browser never goes back, and the empty page
    satisfies the invariant. *)
Lemma working_clock_monotone : @monotone_clock working.
Proof. intros i j H. simpl. lia. Defined.

Lemma inv_initial_state : @inv working initial_state.
Proof.
  split; [|split].
  - intros r o H. simpl in H. by rewrite lookup_empty in H.
  - split; vm_compute; eauto.
  - intros sn r H. destruct sn; vm_compute in H; by apply elem_of_nil in H.
Defined.

(** The theorem of C3 at the empty page, after a click on the new-note
    button. *)
Lemma timestamps_stay_ordered_witness :
  @monotone_clock working /\ @inv working initial_state /\
  rtc (@step working) initial_state (snd (@newNoteClicked working initial_state)) /\
  Forall ordered (records NotesStore (snd (@newNoteClicked working initial_state))).
Proof.
  assert (R : rtc (@step working) initial_state
                (snd (@newNoteClicked working initial_state))).
  { apply rtc_once.
    apply (@step_newNoteClicked working initial_state
             (fst (@newNoteClicked working initial_state))).
    by destruct (@newNoteClicked working initial_state). }
  split; [exact working_clock_monotone|]. split; [exact inv_initial_state|].
  split; [exact R|].
  exact (proj1 (@timestamps_stay_ordered working _ _ working_clock_monotone
                  inv_initial_state R)).
Defined.

(** Facts about the sample page. *)
Lemma demo_note_text s :
  objs s = objs demo_state -> arrs s = arrs demo_state ->
  notes s = notes demo_state -> tools s = tools demo_state ->
  Forall note_text (records NotesStore s) /\
  Forall tool_text (records ToolsStore s).
Proof.
  intros Eo Ea En Et. unfold records, get_arr, get_obj, mirror.
  rewrite Eo, Ea, En, Et.
  split; repeat constructor; simpl; eauto.
Defined.

Lemma demo_live : live_mirrors demo_state.
Proof. split; vm_compute; eauto. Defined.

Lemma demo_allocated sn r :
  r ∈ get_arr demo_state (mirror sn demo_state) -> is_Some (objs demo_state !! r).
Proof.
  intros H. destruct sn.
  - change (r ∈ [0%nat; 1%nat]) in H.
    repeat (apply elem_of_cons in H as [->|H]); try (vm_compute; eauto).
    by apply elem_of_nil in H.
  - change (r ∈ [2%nat; 3%nat]) in H.
    repeat (apply elem_of_cons in H as [->|H]); try (vm_compute; eauto).
    by apply elem_of_nil in H.
Defined.

Lemma demo_unique sn : unique_ids sn demo_state.
Proof.
  unfold unique_ids. destruct sn.
  - change (NoDup [Some "a"; Some "b"]).
    repeat constructor; [|by intros ?%elem_of_nil].
    by intros [=]%list_elem_of_singleton.
  - change (NoDup [Some "t1"; Some "t2"]).
    repeat constructor; [|by intros ?%elem_of_nil].
    by intros [=]%list_elem_of_singleton.
Defined.


(** The theorem of C6 at the sample page with the tag filter ["work"]. *)
Lemma tag_filter_sound_complete_witness :
  activeTagFilter work_filter_state = Some "work" /\ "work" <> "" /\
  Forall note_text (records NotesStore work_filter_state) /\
  exists res s', @filterAndSortNotes working work_filter_state = (Ok res, s') /\
    (forall r, r ∈ get_arr s' res ->
       exists l, tags (get_obj s' r) = Some l /\ "work" ∈ l) /\
    0%nat ∈ get_arr s' res.
Proof.
  assert (Hwf : Forall note_text (records NotesStore work_filter_state)).
  { by apply (demo_note_text work_filter_state). }
  split; [reflexivity|]. split; [done|]. split; [exact Hwf|].
  destruct (@tag_filter_sound_complete working work_filter_state "work"
              eq_refl ltac:(done)) as [[Hsound Hcomplete] _].
  destruct (Hcomplete Hwf) as (res & s' & E & Hin).
  exists res, s'. split; [exact E|]. split; [by apply Hsound|].
  apply Hin.
  - change (0%nat ∈ [0%nat; 1%nat]). by apply elem_of_cons; left.
  - exists ["work"]. split; [reflexivity|]. by apply elem_of_cons; left.
  - exact I.
Defined.

(** The theorem of C7 at the sample page with the search text ["ALPHA"]. *)
Lemma search_filter_spec_witness :
  notes_search alpha_search_state <> "" /\
  Forall note_text (records NotesStore alpha_search_state) /\
  exists res s', @filterAndSortNotes working alpha_search_state = (Ok res, s') /\
    0%nat ∈ get_arr s' res.
Proof.
  assert (Hwf : Forall note_text (records NotesStore alpha_search_state)).
  { by apply (demo_note_text alpha_search_state). }
  split; [done|]. split; [exact Hwf|].
  destruct (proj1 (@search_filter_spec working alpha_search_state)
              ltac:(done) Hwf) as (_ & res & s' & E & Hin).
  exists res, s'. split; [exact E|]. apply Hin.
  split; [|split].
  - change (0%nat ∈ [0%nat; 1%nat]). by apply elem_of_cons; left.
  - exact I.
  - left. exists "Alpha". split; [reflexivity|]. by exists "", "".
Defined.

(** The search scenario of the two tools: whatever the case of the search
    text, only the tool named Alpha is returned. *)
Example search_alpha_any_case :
  let result q :=
    let '(r, s') := @filterAndSortTools working (set_query None "" q demo_state) in
    match r with
    | Ok res => Some (name <$> (get_obj s' <$> get_arr s' res))
    | Throw _ => None
    end in
  result "alpha" = Some [Some "Alpha"] /\
  result "ALPHA" = Some [Some "Alpha"] /\
  result "aLpHa" = Some [Some "Alpha"].
Proof. vm_compute. repeat split; reflexivity. Qed.

(** The theorem of C8 at the sample page and an id that no record has. *)
Lemma absent_id_is_noop_witness :
  db_notes demo_state !! "nope" = None /\
  @request_fails working (requests demo_state) = false /\
  @deleteFromStore working NotesStore "nope" demo_state
    = (Ok tt, set_requests 5 demo_state) /\
  fst (@deleteNote working true "nope" demo_state) = Ok tt /\
  records NotesStore (snd (@deleteNote working true "nope" demo_state))
    = records NotesStore demo_state /\
  @toggleFavorite working "nope" demo_state = (Ok tt, demo_state).
Proof.
  destruct (@absent_id_is_noop working "nope" demo_state)
    as (Hstore & Hnote & _ & Htoggle).
  assert (Hn : forall x, x ∈ get_arr demo_state (notes demo_state) ->
                 id (get_obj demo_state x) <> Some "nope").
  { intros x H. change (x ∈ [0%nat; 1%nat]) in H.
    repeat (apply elem_of_cons in H as [->|H]); try done.
    by apply elem_of_nil in H. }
  assert (Ht : forall x, x ∈ get_arr demo_state (tools demo_state) ->
                 id (get_obj demo_state x) <> Some "nope").
  { intros x H. change (x ∈ [2%nat; 3%nat]) in H.
    repeat (apply elem_of_cons in H as [->|H]); try done.
    by apply elem_of_nil in H. }
  split; [reflexivity|]. split; [reflexivity|].
  split; [exact (Hstore NotesStore eq_refl eq_refl)|].
  destruct (Hnote true _ _ eq_refl Hn
              (surjective_pairing (@deleteNote working true "nope" demo_state)))
    as (_ & _ & _ & Hrec & Hok).
  split; [apply Hok; [reflexivity | by apply (demo_note_text demo_state)]|].
  split; [exact Hrec|]. exact (Htoggle Ht).
Defined.

(** The theorem of C9 at the sample page. *)
Lemma query_is_pure_witness :
  live_mirrors demo_state /\
  frame demo_state (snd (@filterAndSortNotes working demo_state)) /\
  records NotesStore (snd (@filterAndSortNotes working demo_state))
    = records NotesStore demo_state.
Proof.
  split; [exact demo_live|].
  destruct (proj1 (@query_is_pure working demo_state demo_live) _ _
              (surjective_pairing (@filterAndSortNotes working demo_state)))
    as (F & Hr & _).
  by split.
Defined.

(** The theorem of C10 at the sample page. *)
Lemma export_import_roundtrip_witness :
  live_mirrors demo_state /\
  unique_ids NotesStore demo_state /\ unique_ids ToolsStore demo_state /\
  exists doc s1 shown s2,
    @exportData working demo_state = (Ok doc, s1) /\
    @handleImportFile working (Some doc) s1 = (Ok shown, s2) /\
    records NotesStore s2 = records NotesStore demo_state /\
    records ToolsStore s2 = records ToolsStore demo_state.
Proof.
  split; [exact demo_live|]. split; [apply demo_unique|]. split; [apply demo_unique|].
  destruct (@export_import_roundtrip working demo_state demo_live demo_allocated
              (demo_unique _) (demo_unique _))
    as (doc & s1 & shown & s2 & E1 & E2 & _ & _ & Hn & Ht).
  by exists doc, s1, shown, s2.
Defined.

(** * The page: lemmas and theorems *)

(** ** Tag input text *)

Lemma trimEnd_nonempty_last s c :
  last_char (trimEnd s) = Some c -> is_space c = false.
Proof.
  induction s as [|a s IH]; simpl; [done|].
  destruct (trimEnd s) as [|b r] eqn:E.
  - destruct (is_space a) eqn:Ea; simpl; [done|]. by intros [= <-].
  - simpl. simpl in IH. destruct r; exact IH.
Qed.

Lemma trimEnd_first s c :
  first_char s = Some c -> is_space c = false -> first_char (trimEnd s) = Some c.
Proof.
  destruct s as [|a s]; simpl; [done|]. intros [= ->] Hc.
  destruct (trimEnd s); [by rewrite Hc | done].
Qed.

Lemma trimStart_first s c :
  first_char (trimStart s) = Some c -> is_space c = false.
Proof.
  induction s as [|a s IH]; simpl; [done|].
  destruct (is_space a) eqn:Ea; [done|]. simpl. by intros [= <-].
Qed.

Lemma trimEnd_first_inv s c :
  first_char (trimEnd s) = Some c -> first_char s = Some c.
Proof.
  destruct s as [|a s]; simpl; [done|].
  destruct (trimEnd s); [destruct (is_space a)|]; simpl; done.
Qed.

Lemma has_char_trimStart c s : has_char c s = false -> has_char c (trimStart s) = false.
Proof.
  induction s as [|a s IH]; simpl; [done|].
  intros [Ha Hs]%orb_false_iff. destruct (is_space a); [auto|].
  simpl. by rewrite Ha, Hs.
Qed.

Lemma has_char_trimEnd c s : has_char c s = false -> has_char c (trimEnd s) = false.
Proof.
  induction s as [|a s IH]; simpl; [done|].
  intros [Ha Hs]%orb_false_iff. specialize (IH Hs).
  destruct (trimEnd s) as [|b r].
  - destruct (is_space a); simpl; [done|]. by rewrite Ha.
  - simpl. simpl in IH. by rewrite Ha, IH.
Qed.

Lemma split_nonempty sep s : split sep s <> [].
Proof.
  destruct s as [|c s]; simpl; [done|].
  destruct (Ascii.eqb c sep); [done|]. by destruct (split sep s).
Qed.

Lemma split_no_sep sep s piece :
  piece ∈ split sep s -> has_char sep piece = false.
Proof.
  revert piece. induction s as [|c s IH]; simpl; intros piece.
  - by intros ->%list_elem_of_singleton.
  - destruct (Ascii.eqb c sep) eqn:Ec.
    + intros [->|H]%elem_of_cons; [done | by apply IH].
    + destruct (split sep s) as [|p ps] eqn:Es.
      * intros ->%list_elem_of_singleton. simpl. by rewrite Ec.
      * intros [->|H]%elem_of_cons.
        -- simpl. rewrite Ec. apply IH. by left.
        -- apply IH. by right.
Qed.

Lemma nonempty_spec t : nonempty t = true <-> t <> "".
Proof.
  unfold nonempty. rewrite negb_true_iff. split.
  - intros H ->. done.
  - intros H. by apply String.eqb_neq.
Qed.

Lemma parsed_tag_clean input t : t ∈ parse_tags input -> clean_tag t.
Proof.
  unfold parse_tags. rewrite elem_of_List_filter.
  intros [Ht Hne]. apply list_elem_of_fmap in Ht as (piece & -> & Hp).
  apply split_no_sep in Hp. unfold trim. split; [|split; [|split]].
  - by apply nonempty_spec.
  - intros c Hc. apply trimEnd_first_inv in Hc. by eapply trimStart_first.
  - intros c Hc. by eapply trimEnd_nonempty_last.
  - by apply has_char_trimEnd, has_char_trimStart.
Qed.

Lemma trimStart_clean t :
  (forall c, first_char t = Some c -> is_space c = false) -> trimStart t = t.
Proof.
  destruct t as [|a t]; simpl; [done|]. intros H. by rewrite (H a).
Qed.

Lemma trimEnd_clean t :
  (forall c, last_char t = Some c -> is_space c = false) -> trimEnd t = t.
Proof.
  induction t as [|a t IH]; simpl; [done|]. intros H.
  destruct t as [|b t].
  - simpl. by rewrite (H a).
  - rewrite IH by exact H. done.
Qed.

Lemma trim_clean t : clean_tag t -> trim t = t.
Proof.
  intros (_ & Hf & Hl & _). unfold trim.
  rewrite trimStart_clean by done. by apply trimEnd_clean.
Qed.

Lemma trim_space_clean t : clean_tag t -> trim (String " " t) = t.
Proof. intros H. unfold trim. simpl. by apply trim_clean. Qed.

Lemma split_app_sep sep t rest :
  has_char sep t = false ->
  split sep (t +:+ String sep rest) = t :: split sep rest.
Proof.
  induction t as [|a t IH]; simpl.
  - intros _. by rewrite Ascii.eqb_refl.
  - intros [Ha Ht]%orb_false_iff. rewrite Ha, IH by done. done.
Qed.

Lemma split_clean sep t : has_char sep t = false -> split sep t = [t].
Proof.
  induction t as [|a t IH]; simpl; [done|].
  intros [Ha Ht]%orb_false_iff. by rewrite Ha, IH.
Qed.

Lemma split_cons_other sep c s :
  Ascii.eqb c sep = false ->
  exists piece pieces, split sep s = piece :: pieces /\
    split sep (String c s) = String c piece :: pieces.
Proof.
  intros Hc. simpl. rewrite Hc.
  destruct (split sep s) as [|p ps] eqn:E; [by apply split_nonempty in E|].
  by exists p, ps.
Qed.

(** The pieces of the text shown for a list of clean tags, each after the
    first with the space that follows the comma. *)
Lemma split_show_tags l :
  Forall clean_tag l -> l <> [] ->
  exists t l', l = t :: l' /\ split "," (show_tags l) = t :: (String " " <$> l').
Proof.
  induction 1 as [|t l Ht Hl IH]; [done|]. intros _.
  exists t, l. split; [done|].
  destruct l as [|u l].
  - simpl. apply split_clean. apply Ht.
  - destruct IH as (t' & l' & [= <- <-] & IH); [done|].
    change (show_tags (t :: u :: l)) with (t +:+ ", " +:+ show_tags (u :: l)).
    change (t +:+ ", " +:+ show_tags (u :: l))
      with (t +:+ String "," (String " " (show_tags (u :: l)))).
    rewrite split_app_sep by apply Ht.
    destruct (split_cons_other "," " " (show_tags (u :: l)) eq_refl)
      as (p & ps & E1 & ->).
    rewrite IH in E1. by injection E1 as <- <-.
Qed.

Lemma filter_trim_spaced l :
  Forall clean_tag l ->
  List.filter nonempty (trim <$> (String " " <$> l)) = l.
Proof.
  induction 1 as [|t l Ht Hl IH]; [done|].
  rewrite !fmap_cons. cbn [List.filter]. rewrite trim_space_clean by done.
  rewrite (proj2 (nonempty_spec t)) by apply Ht. by rewrite IH.
Qed.

(** X1.  Whatever is typed into a tags input, every tag read from it is not
    empty, has no white space at either end and no comma. *)
Theorem parse_tags_clean input : Forall clean_tag (parse_tags input).
Proof. apply Forall_forall. intros t. apply parsed_tag_clean. Qed.

Lemma show_tags_read_back l : Forall clean_tag l -> parse_tags (show_tags l) = l.
Proof.
  intros H. destruct l as [|t l]; [done|].
  destruct (split_show_tags (t :: l) H) as (t' & l' & [= <- <-] & E); [done|].
  unfold parse_tags. rewrite E, fmap_cons. cbn [List.filter].
  inversion H as [|? ? Ht Hl]; subst.
  rewrite trim_clean by done.
  rewrite (proj2 (nonempty_spec t)) by apply Ht.
  by rewrite filter_trim_spaced.
Qed.

Lemma first_char_app s t : s <> "" -> first_char (s +:+ t) = first_char s.
Proof. by destruct s. Qed.

Lemma last_char_cons a s : s <> "" -> last_char (String a s) = last_char s.
Proof. by destruct s. Qed.

Lemma last_char_app s t : t <> "" -> last_char (s +:+ t) = last_char t.
Proof.
  intros Ht. induction s as [|a s IH]; simpl; [done|].
  rewrite <- IH. apply last_char_cons. by destruct s.
Qed.

Lemma has_char_app c s t : has_char c (s +:+ t) = has_char c s || has_char c t.
Proof. induction s as [|a s IH]; simpl; [done|]. by rewrite IH, orb_assoc. Qed.

Lemma show_tags_cons t u l : show_tags (t :: u :: l) = t +:+ ", " +:+ show_tags (u :: l).
Proof. done. Qed.

Lemma show_tags_nonempty t l : t <> "" -> show_tags (t :: l) <> "".
Proof.
  intros Ht. destruct l as [|u l]; [done|]. rewrite show_tags_cons.
  by destruct t.
Qed.

Lemma has_char_show_tags c l :
  c <> ","%char -> c <> " "%char ->
  Forall (fun t => has_char c t = false) l -> has_char c (show_tags l) = false.
Proof.
  intros H1 H2. induction 1 as [|t l Ht Hl IH]; [done|].
  destruct l as [|u l]; [done|]. rewrite show_tags_cons.
  change (t +:+ ", " +:+ show_tags (u :: l))
    with (t +:+ String "," (String " " (show_tags (u :: l)))).
  rewrite has_char_app. cbn [has_char]. rewrite Ht, IH.
  rewrite (proj2 (Ascii.eqb_neq "," c)) by done.
  by rewrite (proj2 (Ascii.eqb_neq " " c)).
Qed.

Lemma last_char_show_tags l c :
  Forall clean_tag l -> last_char (show_tags l) = Some c -> is_space c = false.
Proof.
  induction 1 as [|t l Ht Hl IH]; [done|].
  destruct l as [|u l]; [apply Ht|]. rewrite show_tags_cons.
  inversion Hl as [|? ? Hu _]; subst.
  rewrite last_char_app.
  - rewrite last_char_app; [exact IH|]. apply show_tags_nonempty, Hu.
  - assert (show_tags (u :: l) <> "") by apply show_tags_nonempty, Hu.
    by destruct (show_tags (u :: l)).
Qed.

(** The text shown for a list of clean tags without line breaks is
    plain. *)
Lemma show_tags_plain l :
  Forall no_breaks l -> Forall clean_tag l -> plain (show_tags l).
Proof.
  intros Hb Hc. split; [split|].
  - apply has_char_show_tags; [done..|].
    eapply Forall_impl; [exact Hb|]. by intros t [? ?].
  - apply has_char_show_tags; [done..|].
    eapply Forall_impl; [exact Hb|]. by intros t [? ?].
  - unfold trim. rewrite trimStart_clean.
    + apply trimEnd_clean. intros c. by apply last_char_show_tags.
    + destruct Hc as [|t l Ht Hl]; [done|]. intros c.
      destruct l as [|u l]; [apply Ht|].
      rewrite show_tags_cons, first_char_app; apply Ht.
Qed.

Section TagsControl.

Context {controls : Controls}.

(** X2.  A list of tags written to a control as text and read back. When no
    tag has a line break, the list read is the list written exactly when
    every tag is clean: not empty, no white space at either end and no
    comma. *)
Theorem parse_show_tags c l :
  Forall no_breaks l ->
  parse_tags (held c (show_tags l)) = l <-> Forall clean_tag l.
Proof.
  intros Hb. split.
  - intros H. apply Forall_forall. intros t Ht. rewrite <- H in Ht.
    by eapply parsed_tag_clean.
  - intros Hc. rewrite held_plain by (by apply show_tags_plain).
    by apply show_tags_read_back.
Qed.

End TagsControl.

(** ** Reading a store *)

Lemma insert_by_key_Permutation kv l : insert_by_key kv l ≡ₚ kv :: l.
Proof.
  induction l as [|kv' l IH]; simpl; [done|].
  destruct (String.leb _ _); [done|]. rewrite IH. apply Permutation_swap.
Qed.

Lemma in_key_order_Permutation m : in_key_order m ≡ₚ map_to_list m.
Proof.
  unfold in_key_order. induction (map_to_list m) as [|kv l IH]; simpl; [done|].
  by rewrite insert_by_key_Permutation, IH.
Qed.

Lemma insert_by_key_HdRel kv kv' l :
  key_le kv' kv -> HdRel key_le kv' l -> HdRel key_le kv' (insert_by_key kv l).
Proof.
  intros H Hl. destruct l as [|x l]; simpl; [by constructor|].
  destruct (String.leb _ _); constructor; [done|]. by inversion Hl.
Qed.

Lemma insert_by_key_Sorted kv l :
  Sorted key_le l -> Sorted key_le (insert_by_key kv l).
Proof.
  induction 1 as [|kv' l Hl IH Hhd]; simpl; [by repeat constructor|].
  destruct (String.leb (fst kv) (fst kv')) eqn:E.
  - constructor; [by constructor|]. by constructor.
  - constructor; [done|]. apply insert_by_key_HdRel; [|done].
    unfold key_le. destruct (String.leb_total (fst kv) (fst kv')); congruence.
Qed.

Lemma in_key_order_Sorted m : Sorted key_le (in_key_order m).
Proof.
  unfold in_key_order. induction (map_to_list m) as [|kv l IH]; simpl.
  - constructor.
  - by apply insert_by_key_Sorted.
Qed.

Lemma elem_of_in_key_order m k o : (k, o) ∈ in_key_order m <-> m !! k = Some o.
Proof. by rewrite in_key_order_Permutation, elem_of_map_to_list. Qed.

Lemma NoDup_in_key_order m : NoDup (fst <$> in_key_order m).
Proof. rewrite in_key_order_Permutation. apply NoDup_fst_map_to_list. Qed.

(** [getAll] returns the records of the store, each once. *)
Lemma elem_of_getAll m o : o ∈ getAll m <-> exists k, m !! k = Some o.
Proof.
  unfold getAll. rewrite list_elem_of_fmap. split.
  - intros ([k o'] & -> & H). exists k. by apply elem_of_in_key_order.
  - intros (k & H). exists (k, o). split; [done|]. by apply elem_of_in_key_order.
Qed.

Lemma length_getAll m : length (getAll m) = size m.
Proof.
  unfold getAll. rewrite length_fmap, in_key_order_Permutation.
  by rewrite length_map_to_list.
Qed.

(** In a keyed store the ids of the records are the keys. *)
Lemma getAll_ids m : keyed m -> id <$> getAll m = Some <$> (fst <$> in_key_order m).
Proof.
  intros Hk. unfold getAll. rewrite <- !list_fmap_compose.
  apply list_fmap_ext. intros i [k o] H%list_elem_of_lookup_2. simpl.
  apply Hk. by apply elem_of_in_key_order.
Qed.

Lemma getAll_NoDup_ids m : keyed m -> NoDup (id <$> getAll m).
Proof.
  intros Hk. rewrite getAll_ids by done.
  apply NoDup_fmap_2; [by intros ?? [= ->] | apply NoDup_in_key_order].
Qed.

Section LoadProofs.

Context {browser : Browser}.

(** [getAllFromStore], when its request succeeds, returns a new array of
    new objects whose values are the records of the store in key order;
    when the request fails, it throws and changes nothing. *)
Lemma getAllFromStore_run sn s :
  if request_fails (requests s)
  then getAllFromStore sn s = (Throw StorageError, set_requests (S (requests s)) s)
  else exists a rs s',
    getAllFromStore sn s = (Ok a, s') /\
    grows (set_requests (S (requests s)) s) (set_arrs (arrs s) s') /\
    arrs s !! a = None /\ arrs s' = <[a := rs]> (arrs s) /\
    get_obj s' <$> rs = getAll (db sn s) /\
    Forall (fun r => objs s !! r = None /\ is_Some (objs s' !! r)) rs /\
    NoDup rs.
Proof.
  unfold getAllFromStore. rewrite bind_run. unfold request.
  destruct (request_fails (requests s)); [done|].
  set (s1 := set_requests (S (requests s)) s).
  destruct (parse_records_grows (getAll (db sn s1)) s1)
    as (rs & s2 & E & G & Hv & Hn & Hd).
  set (a := fresh (dom (arrs s2))).
  assert (Ea : arrs s2 = arrs s) by (destruct G as [-> _]; done).
  exists a, rs, (set_arrs (<[a := rs]> (arrs s2)) s2).
  split; [|split; [|split; [|split; [|split]]]].
  - rewrite bind_run, get_run. cbv beta iota. by rewrite bind_run, E.
  - simpl. rewrite <- Ea.
    replace (set_arrs (arrs s2) (set_arrs (<[a:=rs]> (arrs s2)) s2)) with s2
      by (by destruct s2). done.
  - rewrite <- Ea. apply not_elem_of_dom, is_fresh.
  - simpl. by rewrite Ea.
  - replace (db sn s) with (db sn s1) by (by destruct sn). by rewrite <- Hv.
  - done.
Qed.

End LoadProofs.

(** ** The repositories: save, delete, toggle *)

Section SaveProofs.

Context {browser : Browser}.

Lemma await_saveNote note s : await (saveNote_async note) s = saveNote note s.
Proof.
  unfold await, saveNote_async, saveNote, saveNote_rest.
  rewrite !bind_run. destruct (now s) as [[t|e] s1]; [|done].
  rewrite !bind_run. destruct (update_obj note (set_updatedAt t) s1) as [[[]|e] s2]; [|done].
  rewrite !bind_run. by destruct (putInStore NotesStore note s2) as [[[]|e] s3].
Qed.

Lemma await_saveTool tool s : await (saveTool_async tool) s = saveTool tool s.
Proof.
  unfold await, saveTool_async, saveTool, saveTool_rest.
  rewrite !bind_run. destruct (now s) as [[t|e] s1]; [|done].
  rewrite !bind_run. destruct (update_obj tool (set_updatedAt t) s1) as [[[]|e] s2]; [|done].
  rewrite !bind_run. by destruct (putInStore ToolsStore tool s2) as [[[]|e] s3].
Qed.

Lemma await_deleteNote confirmed k s :
  await (deleteNote_async confirmed (Some k)) s = deleteNote confirmed k s.
Proof.
  unfold await, deleteNote_async, deleteNote, deleteNote_rest, delete_key.
  destruct confirmed; simpl; [|done].
  rewrite !bind_run. by destruct (deleteFromStore NotesStore k s) as [[[]|e] s1].
Qed.

Lemma await_deleteTool confirmed k s :
  await (deleteTool_async confirmed (Some k)) s = deleteTool confirmed k s.
Proof.
  unfold await, deleteTool_async, deleteTool, deleteTool_rest, delete_key.
  destruct confirmed; simpl; [|done].
  rewrite !bind_run. by destruct (deleteFromStore ToolsStore k s) as [[[]|e] s1].
Qed.

Lemma await_toggleFavorite k s :
  await (toggleFavorite_async (Some k)) s = toggleFavorite k s.
Proof.
  unfold await, toggleFavorite_async, toggleFavorite.
  unfold bind at 1 2 4. unfold get.
  destruct (find_by_id s (tools s) (Some k)) as [[i tool]|]; [|done].
  rewrite !bind_run, !update_obj_run. apply await_saveTool.
Qed.

Lemma await_handleImportFile file s :
  await (handleImportFile_async file) s = (handleImportFile file ;; ret tt) s.
Proof. reflexivity. Qed.

Lemma now_run s : now s = (Ok (clock (ticks s)), set_ticks (S (ticks s)) s).
Proof. reflexivity. Qed.

(** The synchronous part of a save: the time stamp, and the store
    request. *)
Lemma saveNote_async_run note s :
  saveNote_async note s =
  let o := set_updatedAt (clock (ticks s)) (get_obj s note) in
  let s1 := set_requests (S (requests s))
              (set_objs (<[note := o]> (objs s)) (set_ticks (S (ticks s)) s)) in
  if request_fails (requests s) then (Throw StorageError, s1)
  else match id (get_obj s note) with
       | None => (Throw DataError, s1)
       | Some k => (Ok (saveNote_rest note),
                    set_db_notes (<[k := o]> (db_notes s)) s1)
       end.
Proof.
  unfold saveNote_async. rewrite bind_run, now_run. cbv beta iota.
  rewrite bind_run, update_obj_run. cbv beta iota.
  rewrite bind_run, putInStore_run. cbv zeta. simpl requests.
  destruct (request_fails (requests s)); [reflexivity|].
  rewrite get_obj_insert, decide_True by done.
  change (get_obj (set_ticks (S (ticks s)) s) note) with (get_obj s note).
  change (id (set_updatedAt (clock (ticks s)) (get_obj s note)))
    with (id (get_obj s note)).
  destruct (id (get_obj s note)); reflexivity.
Qed.

Lemma saveTool_async_run tool s :
  saveTool_async tool s =
  let o := set_updatedAt (clock (ticks s)) (get_obj s tool) in
  let s1 := set_requests (S (requests s))
              (set_objs (<[tool := o]> (objs s)) (set_ticks (S (ticks s)) s)) in
  if request_fails (requests s) then (Throw StorageError, s1)
  else match id (get_obj s tool) with
       | None => (Throw DataError, s1)
       | Some k => (Ok (saveTool_rest tool),
                    set_db_tools (<[k := o]> (db_tools s)) s1)
       end.
Proof.
  unfold saveTool_async. rewrite bind_run, now_run. cbv beta iota.
  rewrite bind_run, update_obj_run. cbv beta iota.
  rewrite bind_run, putInStore_run. cbv zeta. simpl requests.
  destruct (request_fails (requests s)); [reflexivity|].
  rewrite get_obj_insert, decide_True by done.
  change (get_obj (set_ticks (S (ticks s)) s) tool) with (get_obj s tool).
  change (id (set_updatedAt (clock (ticks s)) (get_obj s tool)))
    with (id (get_obj s tool)).
  destruct (id (get_obj s tool)); reflexivity.
Qed.

End SaveProofs.

Section SaveSpec.

Context {browser : Browser}.

Lemma render_frame sn s r s' : render sn s = (r, s') -> frame s s'.
Proof. destruct sn; [apply renderNotesList_frame | apply renderToolsGrid_frame]. Qed.

Lemma render_Ok sn s :
  Forall (text sn) (records sn s) -> exists s', render sn s = (Ok tt, s') /\ frame s s'.
Proof. destruct sn; [apply renderNotesList_Ok | apply renderToolsGrid_Ok]. Qed.

Lemma upsert_run s a r :
  (match find_by_id s a (id (get_obj s r)) with
   | Some (index, _) => Array_set a index r
   | None => Array_push a r
   end) s = (Ok tt, set_arrs (<[a := upsert s a r]> (arrs s)) s).
Proof. unfold upsert. by destruct (find_by_id _ _ _) as [[i x]|]. Qed.

Lemma saveNote_rest_run note s :
  let s1 := set_arrs (<[notes s := upsert s (notes s) note]> (arrs s)) s in
  exists r s2, renderNotesList s1 = (r, s2) /\ frame s1 s2 /\
    saveNote_rest note s = match r with
                           | Ok _ => (Ok tt, set_isDirty false s2)
                           | Throw e => (Throw e, s2)
                           end.
Proof.
  intros s1. destruct (renderNotesList s1) as [r s2] eqn:E.
  exists r, s2. split; [done|]. split; [by eapply renderNotesList_frame|].
  unfold saveNote_rest. rewrite bind_run, get_run. cbv beta iota.
  rewrite bind_run, upsert_run. fold s1. cbv beta iota.
  rewrite bind_run, E. by destruct r as [[]|e].
Qed.

Lemma saveTool_rest_run tool s :
  let s1 := set_arrs (<[tools s := upsert s (tools s) tool]> (arrs s)) s in
  exists r s2, renderToolsGrid s1 = (r, s2) /\ frame s1 s2 /\
    saveTool_rest tool s = (r, s2).
Proof.
  intros s1. destruct (renderToolsGrid s1) as [r s2] eqn:E.
  exists r, s2. split; [done|]. split; [by eapply renderToolsGrid_frame|].
  unfold saveTool_rest. rewrite bind_run, get_run. cbv beta iota.
  rewrite bind_run, upsert_run. fold s1. cbv beta iota. by rewrite E.
Qed.

(** Both continuations, by store: the mirror array is updated, the list
    is rendered, and nothing else changes but the dirty flag. *)
Lemma save_rest_spec sn r s res s' :
  (match sn with
   | NotesStore => saveNote_rest r
   | ToolsStore => saveTool_rest r
   end) s = (res, s') ->
  objs s' = objs s /\ db_notes s' = db_notes s /\ db_tools s' = db_tools s /\
  notes s' = notes s /\ tools s' = tools s /\
  currentNote s' = currentNote s /\ activeTagFilter s' = activeTagFilter s /\
  ticks s' = ticks s /\ requests s' = requests s /\ uuids s' = uuids s /\
  arrs s' !! mirror sn s = Some (upsert s (mirror sn s) r) /\
  (forall a, a <> mirror sn s -> is_Some (arrs s !! a) -> arrs s' !! a = arrs s !! a) /\
  isDirty s' = (match sn, res with NotesStore, Ok _ => false | _, _ => isDirty s end) /\
  (Forall (text sn) (get_obj s <$> upsert s (mirror sn s) r) -> res = Ok tt).
Proof.
  destruct sn.
  - destruct (saveNote_rest_run r s) as (r0 & s2 & E & F & ->).
    set (s1 := set_arrs _ s) in *. intros Hrun.
    assert (Hs' : s' = match r0 with Ok _ => set_isDirty false s2 | Throw _ => s2 end)
      by (destruct r0; by injection Hrun as <- <-).
    assert (Hres : res = match r0 with Ok _ => Ok tt | Throw e => Throw e end)
      by (destruct r0; by injection Hrun as <- <-).
    destruct F as [E2 H2].
    assert (Harr : arrs s' = arrs s2) by (subst s'; by destruct r0).
    split; [subst s'; rewrite E2; by destruct r0|].
    split; [subst s'; rewrite E2; by destruct r0|].
    split; [subst s'; rewrite E2; by destruct r0|].
    split; [subst s'; rewrite E2; by destruct r0|].
    split; [subst s'; rewrite E2; by destruct r0|].
    split; [subst s'; rewrite E2; by destruct r0|].
    split; [subst s'; rewrite E2; by destruct r0|].
    split; [subst s'; rewrite E2; by destruct r0|].
    split; [subst s'; rewrite E2; by destruct r0|].
    split; [subst s'; rewrite E2; by destruct r0|].
    split; [|split; [|split]].
    + rewrite Harr, H2; simpl; rewrite lookup_insert_eq; eauto.
    + intros a Ha Hs. rewrite Harr, H2; simpl.
      * by rewrite lookup_insert_ne.
      * by rewrite lookup_insert_ne.
    + subst s' res. rewrite E2. by destruct r0.
    + intros Htext. destruct (renderNotesList_Ok s1) as (s3 & E3 & _).
      { unfold records. simpl. unfold get_arr. simpl. rewrite lookup_insert_eq. done. }
      rewrite E3 in E. injection E as <- <-. done.
  - destruct (saveTool_rest_run r s) as (r0 & s2 & E & F & ->).
    set (s1 := set_arrs _ s) in *. intros [= <- <-].
    destruct F as [E2 H2].
    do 10 (split; [by rewrite E2|]).
    split; [|split; [|split]].
    + rewrite H2; simpl; rewrite lookup_insert_eq; eauto.
    + intros a Ha Hs. rewrite H2; simpl.
      * by rewrite lookup_insert_ne.
      * by rewrite lookup_insert_ne.
    + by rewrite E2.
    + intros Htext. destruct (renderToolsGrid_Ok s1) as (s3 & E3 & _).
      { unfold records. simpl. unfold get_arr. simpl. rewrite lookup_insert_eq. done. }
      rewrite E3 in E. by injection E as <- <-.
Qed.

End SaveSpec.

Section SaveTheorem.

Context {browser : Browser}.

Lemma find_by_id_same s s' a k :
  (forall r, id (get_obj s' r) = id (get_obj s r)) ->
  get_arr s' a = get_arr s a ->
  find_by_id s' a k = find_by_id s a k.
Proof.
  intros Hid Ha. unfold find_by_id. rewrite Ha.
  apply list_find_ext. intros x. by rewrite Hid.
Qed.

Lemma upsert_same s s' a r :
  (forall x, id (get_obj s' x) = id (get_obj s x)) ->
  get_arr s' a = get_arr s a ->
  upsert s' a r = upsert s a r.
Proof.
  intros Hid Ha. unfold upsert.
  by rewrite (find_by_id_same s s' a _ Hid Ha), Hid, Ha.
Qed.

Lemma elem_of_upsert s a r x : x ∈ upsert s a r -> x ∈ get_arr s a \/ x = r.
Proof.
  unfold upsert. destruct (find_by_id _ _ _) as [[i y]|].
  - intros H. apply elem_of_list_insert_inv in H. tauto.
  - intros [H| ->%list_elem_of_singleton]%elem_of_app; tauto.
Qed.

Lemma text_set_updatedAt sn t o : text sn o -> text sn (set_updatedAt t o).
Proof. by destruct sn. Qed.

Lemma await_save sn r s :
  save sn r s =
  await (match sn with
         | NotesStore => saveNote_async r
         | ToolsStore => saveTool_async r
         end) s.
Proof. destruct sn; symmetry; [apply await_saveNote | apply await_saveTool]. Qed.

Lemma save_async_run sn r s :
  (match sn with
   | NotesStore => saveNote_async r
   | ToolsStore => saveTool_async r
   end) s =
  let o := set_updatedAt (clock (ticks s)) (get_obj s r) in
  let s1 := set_requests (S (requests s))
              (set_objs (<[r := o]> (objs s)) (set_ticks (S (ticks s)) s)) in
  if request_fails (requests s) then (Throw StorageError, s1)
  else match id (get_obj s r) with
       | None => (Throw DataError, s1)
       | Some k => (Ok (match sn with
                        | NotesStore => saveNote_rest r
                        | ToolsStore => saveTool_rest r
                        end),
                    set_db sn (<[k := o]> (db sn s)) s1)
       end.
Proof.
  destruct sn; [rewrite saveNote_async_run | rewrite saveTool_async_run];
    cbv zeta; destruct (request_fails _); try done;
    by destruct (id (get_obj s r)).
Qed.

Lemma save_run sn r s k :
  id (get_obj s r) = Some k ->
  request_fails (requests s) = false ->
  let o := set_updatedAt (clock (ticks s)) (get_obj s r) in
  exists res s',
    save sn r s = (res, s') /\
    objs s' = <[r := o]> (objs s) /\
    db sn s' = <[k := o]> (db sn s) /\
    db (other sn) s' = db (other sn) s /\
    mirror sn s' = mirror sn s /\
    get_arr s' (mirror sn s) =
      match find_by_id s (mirror sn s) (Some k) with
      | Some (i, _) => <[i := r]> (get_arr s (mirror sn s))
      | None => get_arr s (mirror sn s) ++ [r]
      end /\
    (forall a, a <> mirror sn s -> is_Some (arrs s !! a) ->
       arrs s' !! a = arrs s !! a) /\
    (Forall (text sn) (records sn s) -> text sn (get_obj s r) -> res = Ok tt).
Proof.
  intros Hid Hok o. rewrite await_save. unfold await. rewrite bind_run.
  rewrite save_async_run. cbv zeta. rewrite Hok, Hid. fold o.
  set (s0 := set_requests _ _).
  set (s1 := set_db sn _ s0).
  destruct ((match sn with
             | NotesStore => saveNote_rest r
             | ToolsStore => saveTool_rest r
             end) s1) as [res s'] eqn:E.
  exists res, s'. split; [done|].
  apply save_rest_spec in E
    as (Eo & Edn & Edt & En & Et & _ & _ & _ & _ & _ & Ha & Hothers & _ & Hres).
  assert (Hids : forall x, id (get_obj s1 x) = id (get_obj s x)).
  { intros x. replace (get_obj s1 x) with (get_obj s0 x) by (by destruct sn).
    unfold s0, get_obj. simpl. rewrite lookup_insert. case_decide; [|done].
    subst x. done. }
  assert (Hm : mirror sn s1 = mirror sn s) by (by destruct sn).
  assert (Harr : forall a, get_arr s1 a = get_arr s a) by (by destruct sn).
  assert (Earrs : arrs s1 = arrs s) by (by destruct sn).
  rewrite Hm in Ha, Hothers.
  rewrite (upsert_same s s1) in Ha by done.
  rewrite (upsert_same s s1) in Hres by done.
  split; [rewrite Eo; by destruct sn|].
  split; [destruct sn; simpl; [by rewrite Edn | by rewrite Edt]|].
  split; [destruct sn; simpl; [by rewrite Edt | by rewrite Edn]|].
  split; [destruct sn; simpl; [by rewrite En | by rewrite Et]|].
  split; [|split].
  - unfold get_arr at 1. rewrite Ha. simpl. unfold upsert. by rewrite Hid.
  - intros a Hne Hs. rewrite Hothers by (by rewrite ?Earrs). by rewrite Earrs.
  - intros Hall Hr. apply Hres. apply Forall_fmap, Forall_forall. intros x Hx.
    simpl. replace (get_obj s1 x) with (get_obj s0 x) by (by destruct sn).
    unfold s0, get_obj at 1. simpl. rewrite lookup_insert.
    case_decide; [by apply text_set_updatedAt|].
    change (default empty_obj (objs s !! x)) with (get_obj s x).
    apply elem_of_upsert in Hx as [Hx|Hx]; [|done].
    rewrite Forall_forall in Hall. apply Hall. unfold records.
    apply list_elem_of_fmap. exists x. by rewrite <- Hm.
Qed.

(** X3.  After a save whose store request succeeds, the store holds the
    record under its id, with the time of the save as [updatedAt]; the
    mirror has the record at the index of the first record with that id, or
    at the end; no other object, no other array and not the other store has
    changed. The call returns normally when the list can be rendered. *)
Theorem save_puts_record_in_place sn r s k :
  id (get_obj s r) = Some k ->
  request_fails (requests s) = false ->
  let o := set_updatedAt (clock (ticks s)) (get_obj s r) in
  exists res s',
    save sn r s = (res, s') /\
    objs s' = <[r := o]> (objs s) /\
    db sn s' = <[k := o]> (db sn s) /\
    db (other sn) s' = db (other sn) s /\
    mirror sn s' = mirror sn s /\
    get_arr s' (mirror sn s) =
      match find_by_id s (mirror sn s) (Some k) with
      | Some (i, _) => <[i := r]> (get_arr s (mirror sn s))
      | None => get_arr s (mirror sn s) ++ [r]
      end /\
    (forall a, a <> mirror sn s -> is_Some (arrs s !! a) ->
       arrs s' !! a = arrs s !! a) /\
    (Forall (text sn) (records sn s) -> text sn (get_obj s r) -> res = Ok tt).
Proof. exact (save_run sn r s k). Qed.

End SaveTheorem.

Section DeleteSpec.

Context {browser : Browser}.

Lemma current_note_reset_run k s :
  (match currentNote s with
   | Some c0 => if bool_decide (id (get_obj s c0) = k)
                then modify (set_currentNote None) else ret tt
   | None => ret tt
   end) s = (Ok tt, set_currentNote (current_after_delete s k) s).
Proof.
  unfold current_after_delete. destruct (currentNote s) as [c0|] eqn:Ec.
  - destruct (bool_decide _); [done|].
    unfold ret. f_equal. rewrite <- Ec. by destruct s.
  - unfold ret. f_equal. rewrite <- Ec. by destruct s.
Qed.

Lemma deleteNote_rest_run k s :
  let kept := List.filter (fun r => negb (bool_decide (id (get_obj s r) = k)))
                (get_arr s (notes s)) in
  let a := fresh (dom (arrs s)) in
  let s1 := set_notes a (set_arrs (<[a := kept]> (arrs s)) s) in
  let s2 := set_currentNote (current_after_delete s k) s1 in
  deleteNote_rest k s = renderNotesList s2.
Proof.
  intros kept a s1 s2. unfold deleteNote_rest.
  rewrite bind_run, get_run. cbv beta iota.
  rewrite bind_run, Array_filter_run.
  rewrite (filterM_total (fun r => negb (bool_decide (id (get_obj s r) = k)))).
  fold kept. unfold new_arr. fold a. cbv beta iota zeta.
  rewrite bind_run, modify_run. cbv beta iota. fold s1.
  rewrite bind_run, get_run. cbv beta iota.
  rewrite bind_run, current_note_reset_run. cbv beta iota.
  reflexivity.
Qed.

Lemma deleteTool_rest_run k s :
  let kept := List.filter (fun r => negb (bool_decide (id (get_obj s r) = k)))
                (get_arr s (tools s)) in
  let a := fresh (dom (arrs s)) in
  let s1 := set_tools a (set_arrs (<[a := kept]> (arrs s)) s) in
  deleteTool_rest k s = renderToolsGrid s1.
Proof.
  intros kept a s1. unfold deleteTool_rest.
  rewrite bind_run, get_run. cbv beta iota.
  rewrite bind_run, Array_filter_run.
  rewrite (filterM_total (fun r => negb (bool_decide (id (get_obj s r) = k)))).
  fold kept. unfold new_arr. fold a. cbv beta iota zeta.
  rewrite bind_run, modify_run. cbv beta iota. fold s1.
  reflexivity.
Qed.

Lemma delete_key_run sn k s :
  delete_key sn k s =
  let s1 := set_requests (S (requests s)) s in
  if request_fails (requests s) then (Throw StorageError, s1)
  else match k with
       | Some k => (Ok tt, set_db sn (delete k (db sn s)) s1)
       | None => (Throw DataError, s1)
       end.
Proof.
  unfold delete_key, deleteFromStore. destruct k as [k|].
  - rewrite bind_run. unfold request. cbv zeta.
    destruct (request_fails (requests s)); [done|]. by destruct sn.
  - rewrite bind_run. unfold request. cbv zeta.
    by destruct (request_fails (requests s)).
Qed.

(** The continuation of a delete, by store. *)
Lemma delete_rest_spec sn k s res s' :
  (match sn with
   | NotesStore => deleteNote_rest k
   | ToolsStore => deleteTool_rest k
   end) s = (res, s') ->
  objs s' = objs s /\ db_notes s' = db_notes s /\ db_tools s' = db_tools s /\
  mirror (other sn) s' = mirror (other sn) s /\
  isDirty s' = isDirty s /\ activeTagFilter s' = activeTagFilter s /\
  ticks s' = ticks s /\ requests s' = requests s /\ uuids s' = uuids s /\
  (forall a, is_Some (arrs s !! a) -> arrs s' !! a = arrs s !! a) /\
  arrs s !! mirror sn s' = None /\
  get_arr s' (mirror sn s') =
    List.filter (fun r => negb (bool_decide (id (get_obj s r) = k)))
      (get_arr s (mirror sn s)) /\
  currentNote s' = match sn with
                   | NotesStore => current_after_delete s k
                   | ToolsStore => currentNote s
                   end.
Proof.
  assert (Hfresh : arrs s !! fresh (dom (arrs s)) = None)
    by apply not_elem_of_dom, is_fresh.
  destruct sn.
  - rewrite deleteNote_rest_run. cbv zeta.
    set (a := fresh (dom (arrs s))) in *. set (kept := List.filter _ _).
    set (s2 := set_currentNote _ _).
    intros [E H]%renderNotesList_frame.
    do 9 (split; [by rewrite E|]).
    split; [|split; [|split]].
    + intros b Hb. rewrite H; simpl.
      * rewrite lookup_insert_ne; [done|]. intros <-. rewrite Hfresh in Hb. by destruct Hb.
      * rewrite lookup_insert_ne; [done|]. intros <-. rewrite Hfresh in Hb. by destruct Hb.
    + rewrite E. done.
    + unfold get_arr at 1. rewrite H; rewrite E; simpl; rewrite lookup_insert_eq; eauto.
    + by rewrite E.
  - rewrite deleteTool_rest_run. cbv zeta.
    set (a := fresh (dom (arrs s))) in *. set (kept := List.filter _ _).
    set (s1 := set_tools _ _).
    intros [E H]%renderToolsGrid_frame.
    do 9 (split; [by rewrite E|]).
    split; [|split; [|split]].
    + intros b Hb. rewrite H; simpl.
      * rewrite lookup_insert_ne; [done|]. intros <-. rewrite Hfresh in Hb. by destruct Hb.
      * rewrite lookup_insert_ne; [done|]. intros <-. rewrite Hfresh in Hb. by destruct Hb.
    + rewrite E. done.
    + unfold get_arr at 1. rewrite H; rewrite E; simpl; rewrite lookup_insert_eq; eauto.
    + by rewrite E.
Qed.

Lemma await_delete sn confirmed k s :
  delete_record sn confirmed k s =
  await (match sn with
         | NotesStore => deleteNote_async confirmed (Some k)
         | ToolsStore => deleteTool_async confirmed (Some k)
         end) s.
Proof. destruct sn; symmetry; [apply await_deleteNote | apply await_deleteTool]. Qed.

(** X4.  A confirmed delete whose store request succeeds removes the key
    from the store and makes the mirror a new array, the old one without the
    records of that id, in their order; a delete of a note moreover resets
    the current note when it has that id. A delete that is not confirmed
    changes nothing, and one whose store request fails changes nothing but
    the count of requests: the mirror and the current note are as before. No
    object and no existing array ever changes. *)
Theorem delete_removes_record sn confirmed k s res s' :
  delete_record sn confirmed k s = (res, s') ->
  objs s' = objs s /\
  db (other sn) s' = db (other sn) s /\
  mirror (other sn) s' = mirror (other sn) s /\
  (forall a, is_Some (arrs s !! a) -> arrs s' !! a = arrs s !! a) /\
  if confirmed && negb (request_fails (requests s)) then
    db sn s' = delete k (db sn s) /\
    arrs s !! mirror sn s' = None /\
    get_arr s' (mirror sn s') =
      List.filter (fun r => negb (bool_decide (id (get_obj s r) = Some k)))
        (get_arr s (mirror sn s)) /\
    currentNote s' = match sn with
                     | NotesStore => current_after_delete s (Some k)
                     | ToolsStore => currentNote s
                     end
  else
    res = (if confirmed then Throw StorageError else Ok tt) /\
    s' = (if confirmed then set_requests (S (requests s)) s else s).
Proof.
  rewrite await_delete. unfold await. rewrite bind_run.
  assert (Hsync :
    (match sn with
     | NotesStore => deleteNote_async confirmed (Some k)
     | ToolsStore => deleteTool_async confirmed (Some k)
     end) s =
    if negb confirmed then (Ok (ret tt), s)
    else if request_fails (requests s)
         then (Throw StorageError, set_requests (S (requests s)) s)
         else (Ok (match sn with
                   | NotesStore => deleteNote_rest (Some k)
                   | ToolsStore => deleteTool_rest (Some k)
                   end),
               set_db sn (delete k (db sn s)) (set_requests (S (requests s)) s))).
  { destruct sn; unfold deleteNote_async, deleteTool_async;
      (destruct confirmed; [|done]); cbn [negb];
      rewrite bind_run, delete_key_run; cbv zeta;
      by destruct (request_fails (requests s)). }
  rewrite Hsync. destruct confirmed; simpl.
  2:{ intros [= <- <-]. done. }
  destruct (request_fails (requests s)); simpl.
  { intros [= <- <-]. by destruct sn. }
  set (s1 := set_db sn _ _).
  intros (Eo & Edn & Edt & Em & _ & _ & _ & _ & _ & Harr & Hnew & Hkept & Hcur)%delete_rest_spec.
  assert (E1 : arrs s1 = arrs s) by (by destruct sn).
  assert (E2 : objs s1 = objs s) by (by destruct sn).
  split; [by rewrite Eo|].
  split; [destruct sn; simpl; [by rewrite Edt | by rewrite Edn]|].
  split; [rewrite Em; by destruct sn|].
  split; [intros a Ha; rewrite Harr; by rewrite E1|].
  split; [destruct sn; simpl; [by rewrite Edn | by rewrite Edt]|].
  split; [by rewrite <- E1|].
  split.
  - rewrite Hkept. by destruct sn.
  - rewrite Hcur. by destruct sn.
Qed.

End DeleteSpec.

Section ToggleSpec.

Context {browser : Browser}.

Lemma find_by_id_Some s a k i r :
  find_by_id s a k = Some (i, r) ->
  get_arr s a !! i = Some r /\ id (get_obj s r) = k.
Proof. unfold find_by_id. intros (H1 & H2 & _)%list_find_Some. done. Qed.

Lemma toggle_run k s i tool :
  find_by_id s (tools s) (Some k) = Some (i, tool) ->
  request_fails (requests s) = false ->
  let o := set_updatedAt (clock (ticks s))
             (set_favorite (js_not (favorite (get_obj s tool))) (get_obj s tool)) in
  exists res s',
    toggleFavorite k s = (res, s') /\
    objs s' = <[tool := o]> (objs s) /\
    db_tools s' = <[k := o]> (db_tools s) /\
    db_notes s' = db_notes s /\
    tools s' = tools s /\
    get_arr s' (tools s) = get_arr s (tools s) /\
    find_by_id s' (tools s') (Some k) = Some (i, tool) /\
    requests s' = S (requests s) /\
    (Forall tool_text (records ToolsStore s) -> res = Ok tt).
Proof.
  intros Hfind Hok o.
  destruct (find_by_id_Some _ _ _ _ _ Hfind) as [Hi Hid].
  unfold toggleFavorite. rewrite bind_run, get_run. cbv beta iota. rewrite Hfind.
  rewrite bind_run, update_obj_run. cbv beta iota.
  set (s1 := set_objs _ s).
  assert (Hg1 : get_obj s1 tool =
                set_favorite (js_not (favorite (get_obj s tool))) (get_obj s tool)).
  { unfold s1. by rewrite get_obj_insert, decide_True. }
  assert (Hids : forall x, id (get_obj s1 x) = id (get_obj s x)).
  { intros x. unfold s1. rewrite get_obj_insert. case_decide; [by subst|done]. }
  assert (Hfind1 : find_by_id s1 (tools s1) (Some k) = Some (i, tool)).
  { rewrite <- Hfind. by apply find_by_id_same. }
  destruct (save_run ToolsStore tool s1 k)
    as (res & s' & E & Eo & Edb & Edn & Et & Ea & Hoth & Hres).
  { by rewrite Hids. }
  { done. }
  simpl in E. exists res, s'. split; [done|].
  simpl in Eo, Edb, Edn, Et, Ea.
  change (find_by_id s1 (tools s1) (Some k)) with (find_by_id s1 (tools s) (Some k)) in Hfind1.
  rewrite Hfind1 in Ea.
  change (get_arr s1 (tools s)) with (get_arr s (tools s)) in Ea.
  rewrite (list_insert_id _ _ _ Hi) in Ea.
  split; [|split; [|split; [|split; [|split; [|split; [|split]]]]]].
  - rewrite Eo, Hg1. unfold s1. simpl. by rewrite insert_insert_eq.
  - rewrite Edb, Hg1. done.
  - done.
  - done.
  - done.
  - rewrite Et, <- Hfind. apply find_by_id_same; [|done].
    intros x. unfold get_obj at 1. rewrite Eo, lookup_insert.
    case_decide; [|apply Hids]. subst x. simpl. rewrite Hg1. done.
  - rewrite <- await_saveTool in E. unfold await in E.
    rewrite bind_run, (save_async_run ToolsStore) in E. cbv zeta in E.
    change (requests s1) with (requests s) in E. rewrite Hok in E.
    rewrite Hids, Hid in E.
    destruct (saveTool_rest tool _) as [r2 s2] eqn:E2.
    apply (save_rest_spec ToolsStore) in E2
      as (_ & _ & _ & _ & _ & _ & _ & _ & Er & _).
    injection E as <- <-. by rewrite Er.
  - intros Hall. apply Hres.
    + unfold records. simpl.
      change (get_arr s1 (tools s)) with (get_arr s (tools s)).
      apply Forall_fmap, Forall_forall. intros x Hx. simpl.
      unfold s1. rewrite get_obj_insert. case_decide.
      * subst x. rewrite Forall_forall in Hall.
        destruct (Hall (get_obj s tool)) as (?&?&?&?); [|done].
        apply list_elem_of_fmap. by exists tool.
      * rewrite Forall_forall in Hall. apply Hall.
        apply list_elem_of_fmap. by exists x.
    + simpl. rewrite Hg1. rewrite Forall_forall in Hall.
      destruct (Hall (get_obj s tool)) as (?&?&?&?); [|done].
      apply list_elem_of_fmap. exists tool.
      split; [done|]. by eapply list_elem_of_lookup_2.
Qed.

(** X5.  [toggleFavorite(k)] on the id of a tool of the mirror, when the
    store request succeeds: the first tool with that id has its flag negated
    and its [updatedAt] set to the time of the call, the store holds it
    under the id, and the list of tools is the same array with the same
    content. *)
Theorem toggle_flips_favorite k s i tool :
  find_by_id s (tools s) (Some k) = Some (i, tool) ->
  request_fails (requests s) = false ->
  let o := set_updatedAt (clock (ticks s))
             (set_favorite (js_not (favorite (get_obj s tool))) (get_obj s tool)) in
  exists res s',
    toggleFavorite k s = (res, s') /\
    objs s' = <[tool := o]> (objs s) /\
    db_tools s' = <[k := o]> (db_tools s) /\
    db_notes s' = db_notes s /\
    tools s' = tools s /\
    get_arr s' (tools s) = get_arr s (tools s) /\
    find_by_id s' (tools s') (Some k) = Some (i, tool) /\
    requests s' = S (requests s) /\
    (Forall tool_text (records ToolsStore s) -> res = Ok tt).
Proof. exact (toggle_run k s i tool). Qed.

(** X6.  Two toggles in a row, both stored: the flag of a tool that had one
    is as it was before the first, in the mirror and in the store, and the
    list of tools has not changed. *)
Theorem toggle_twice_restores k s i tool b :
  find_by_id s (tools s) (Some k) = Some (i, tool) ->
  favorite (get_obj s tool) = Some b ->
  request_fails (requests s) = false ->
  request_fails (S (requests s)) = false ->
  exists r1 s1 r2 s2,
    toggleFavorite k s = (r1, s1) /\ toggleFavorite k s1 = (r2, s2) /\
    favorite (get_obj s1 tool) = Some (negb b) /\
    favorite (get_obj s2 tool) = Some b /\
    (exists o, db_tools s2 !! k = Some o /\ favorite o = Some b) /\
    get_arr s2 (tools s2) = get_arr s (tools s).
Proof.
  intros Hfind Hb Hok1 Hok2.
  destruct (toggle_run k s i tool Hfind Hok1)
    as (r1 & s1 & E1 & Eo1 & Edb1 & _ & Et1 & Ea1 & Hfind1 & Er1 & _).
  rewrite <- Er1 in Hok2.
  destruct (toggle_run k s1 i tool Hfind1 Hok2)
    as (r2 & s2 & E2 & Eo2 & Edb2 & _ & Et2 & Ea2 & _ & _ & _).
  assert (Hf1 : favorite (get_obj s1 tool) = Some (negb b)).
  { unfold get_obj. rewrite Eo1, lookup_insert_eq. simpl. rewrite Hb.
    by destruct b. }
  assert (Hf2 : favorite (set_updatedAt (clock (ticks s1))
                   (set_favorite (js_not (favorite (get_obj s1 tool)))
                      (get_obj s1 tool))) = Some b).
  { simpl. rewrite Hf1. by destruct b. }
  exists r1, s1, r2, s2. split; [done|]. split; [done|]. split; [done|].
  split; [|split].
  - unfold get_obj. by rewrite Eo2, lookup_insert_eq.
  - eexists. rewrite Edb2, lookup_insert_eq. split; [done|]. exact Hf2.
  - rewrite Et2, Et1. rewrite <- Et1 at 1. rewrite Ea2. by rewrite Et1.
Qed.

End ToggleSpec.

(** ** Loading a store *)

Section LoadTheorems.

Context {browser : Browser}.

Lemma records_fmap sn s : records sn s = get_obj s <$> get_arr s (mirror sn s).
Proof. reflexivity. Qed.

(** A load whose request fails. *)
Lemma load_fails sn s :
  request_fails (requests s) = true ->
  load sn s = (Throw StorageError, set_requests (S (requests s)) s).
Proof.
  intros Hf. pose proof (getAllFromStore_run sn s) as Hget. rewrite Hf in Hget.
  destruct sn; unfold load, loadNotes, loadTools; by rewrite bind_run, Hget.
Qed.

(** A load whose request succeeds. *)
Lemma load_run sn s :
  request_fails (requests s) = false ->
  exists res s',
    load sn s = (res, s') /\
    records sn s' = getAll (db sn s) /\
    is_Some (arrs s' !! mirror sn s') /\
    arrs s !! mirror sn s' = None /\
    Forall (fun r => objs s !! r = None /\ is_Some (objs s' !! r))
      (get_arr s' (mirror sn s')) /\
    NoDup (get_arr s' (mirror sn s')) /\
    (forall x, is_Some (objs s !! x) -> objs s' !! x = objs s !! x) /\
    (forall a, is_Some (arrs s !! a) -> arrs s' !! a = arrs s !! a) /\
    s' = set_mirror sn (mirror sn s')
           (set_arrs (arrs s') (set_objs (objs s') (set_requests (S (requests s)) s))) /\
    (Forall (text sn) (getAll (db sn s)) -> res = Ok tt).
Proof.
  intros Hf.
  pose proof (getAllFromStore_run sn s) as Hget. rewrite Hf in Hget.
  destruct Hget as (a & rs & s1 & E1 & [G1 G2] & Ha & Earr & Hv & Hn & Hd).
  set (s2 := set_mirror sn a s1).
  destruct (render sn s2) as [res s'] eqn:E.
  exists res, s'.
  assert (Hload : load sn s = (res, s')).
  { destruct sn; unfold load, loadNotes, loadTools;
      rewrite bind_run, E1; cbv beta iota; rewrite bind_run, modify_run; exact E. }
  pose proof (render_frame _ _ _ _ E) as [F1 F2].
  assert (Es1 : s1 = set_arrs (arrs s1) (set_objs (objs s1) (set_requests (S (requests s)) s))).
  { transitivity (set_arrs (arrs s1) (set_arrs (arrs s) s1)); [by destruct s1|].
    by rewrite G1. }
  assert (Em : mirror sn s' = a) by (rewrite F1; by destruct sn).
  assert (Eo : objs s' = objs s1) by (rewrite F1; by destruct sn).
  assert (Ea : arrs s' !! a = Some rs).
  { rewrite F2; replace (arrs s2) with (arrs s1) by (by destruct sn);
      rewrite Earr, lookup_insert_eq; eauto. }
  assert (Eg : get_arr s' (mirror sn s') = rs) by (unfold get_arr; by rewrite Em, Ea).
  assert (Erec : records sn s' = getAll (db sn s)).
  { rewrite records_fmap, Eg, <- Hv. apply list_fmap_ext. intros _ x _.
    unfold get_obj. by rewrite Eo. }
  split; [done|]. split; [done|]. split; [rewrite Em, Ea; by eexists|].
  split; [by rewrite Em|].
  split; [rewrite Eg, Eo; exact Hn|].
  split; [by rewrite Eg|].
  split; [intros x Hx; rewrite Eo; by apply G2|].
  split.
  { intros b Hb. rewrite F2; replace (arrs s2) with (arrs s1) by (by destruct sn);
      rewrite Earr, lookup_insert_ne; try done;
      intros <-; rewrite Ha in Hb; by destruct Hb. }
  split.
  { rewrite Em, Eo. rewrite F1 at 1. unfold s2. rewrite Es1 at 1. by destruct sn. }
  intros Htext. destruct (render_Ok sn s2) as (s3 & E3 & _).
  - replace (records sn s2) with (get_obj s1 <$> rs).
    + by rewrite Hv.
    + unfold records. replace (get_arr s2 (mirror sn s2)) with rs.
      * apply list_fmap_ext. intros _ x _. by destruct sn.
      * unfold get_arr. replace (mirror sn s2) with a by (by destruct sn).
        replace (arrs s2) with (arrs s1) by (by destruct sn).
        by rewrite Earr, lookup_insert_eq.
  - rewrite E3 in E. by injection E as <- <-.
Qed.

(** X7.  [loadNotes] and [loadTools]. When the store request fails, the call
    throws and nothing but the count of requests changes: the mirror is the
    array it was. When it succeeds, the mirror is a new array of new
    objects, one per record of the store, in key order and with the stored
    values; no store, no existing object and no existing array changes, and
    the current note stays the object it was. If the store is keyed by id,
    the ids of the new mirror are pairwise distinct. *)
Theorem load_replaces_mirror sn s :
  if request_fails (requests s) then
    load sn s = (Throw StorageError, set_requests (S (requests s)) s)
  else exists res s',
    load sn s = (res, s') /\
    records sn s' = getAll (db sn s) /\
    arrs s !! mirror sn s' = None /\
    Forall (fun r => objs s !! r = None) (get_arr s' (mirror sn s')) /\
    NoDup (get_arr s' (mirror sn s')) /\
    (forall x, is_Some (objs s !! x) -> objs s' !! x = objs s !! x) /\
    (forall a, is_Some (arrs s !! a) -> arrs s' !! a = arrs s !! a) /\
    db_notes s' = db_notes s /\ db_tools s' = db_tools s /\
    mirror (other sn) s' = mirror (other sn) s /\
    currentNote s' = currentNote s /\
    (keyed (db sn s) -> unique_ids sn s') /\
    (Forall (text sn) (getAll (db sn s)) -> res = Ok tt).
Proof.
  destruct (request_fails (requests s)) eqn:Hf; [by apply load_fails|].
  destruct (load_run sn s Hf)
    as (res & s' & E & Hrec & _ & Hnew & Hobjs & Hnd & Hold & Harrs & Es & Hres).
  exists res, s'. split; [done|]. split; [done|]. split; [done|].
  split; [eapply Forall_impl; [exact Hobjs|]; by intros x [? _]|].
  split; [done|]. split; [done|]. split; [done|].
  split; [rewrite Es; by destruct sn|].
  split; [rewrite Es; by destruct sn|].
  split; [rewrite Es; by destruct sn|].
  split; [rewrite Es; by destruct sn|].
  split; [|done].
  intros Hk. unfold unique_ids. rewrite Hrec. by apply getAll_NoDup_ids.
Qed.

Lemma keyed_insert m k o : keyed m -> id o = Some k -> keyed (<[k := o]> m).
Proof.
  intros Hm Ho k' o'. rewrite lookup_insert. case_decide.
  - intros [= <-]. by subst.
  - apply Hm.
Qed.

Lemma keyed_delete m k : keyed m -> keyed (delete k m).
Proof. intros Hm k' o' [_ H]%lookup_delete_Some. by apply Hm. Qed.

Lemma filter_key_in_order (l : list (string * obj)) k o :
  NoDup (fst <$> l) ->
  (forall k' o', (k', o') ∈ l -> id o' = Some k') ->
  (k, o) ∈ l ->
  List.filter (fun o' => bool_decide (id o' = Some k)) (snd <$> l) = [o].
Proof.
  induction l as [|[k' o'] l IH]; simpl; [by intros _ _ ?%elem_of_nil|].
  intros [Hk' Hnd]%NoDup_cons Hkeyed Hin.
  assert (Hid' : id o' = Some k') by (apply Hkeyed; left).
  apply elem_of_cons in Hin as [[= <- <-]|Hin].
  - rewrite bool_decide_eq_true_2 by done. f_equal.
    apply filter_none. intros x (kv & -> & Hkv)%list_elem_of_fmap.
    apply bool_decide_eq_false. destruct kv as [k2 o2]. simpl.
    rewrite (Hkeyed k2 o2) by (by right). intros [= ->].
    apply Hk'. apply list_elem_of_fmap. by exists (k, o2).
  - rewrite bool_decide_eq_false_2.
    + apply IH; [done| |done]. intros k2 o2 H2. apply Hkeyed. by right.
    + rewrite Hid'. intros [= ->]. apply Hk'. apply list_elem_of_fmap.
      by exists (k, o).
Qed.

Lemma getAll_filter_id m k o :
  keyed m -> m !! k = Some o ->
  List.filter (fun o' => bool_decide (id o' = Some k)) (getAll m) = [o].
Proof.
  intros Hm Hk. apply filter_key_in_order.
  - apply NoDup_in_key_order.
  - intros k' o' H. by apply Hm, elem_of_in_key_order.
  - by apply elem_of_in_key_order.
Qed.

Lemma getAll_deleted m k : keyed m -> Forall (fun o => id o <> Some k) (getAll (delete k m)).
Proof.
  intros Hm. apply Forall_forall. intros o (k' & [Hne H]%lookup_delete_Some)%elem_of_getAll.
  rewrite (Hm _ _ H). congruence.
Qed.

(** The read of a store, with the fields it leaves alone. *)
Lemma getAllFromStore_Ok sn s :
  request_fails (requests s) = false ->
  exists a s', getAllFromStore sn s = (Ok a, s') /\
    get_obj s' <$> get_arr s' a = getAll (db sn s) /\
    db_notes s' = db_notes s /\ db_tools s' = db_tools s /\
    requests s' = S (requests s).
Proof.
  intros Hf. pose proof (getAllFromStore_run sn s) as H. rewrite Hf in H.
  destruct H as (a & rs & s' & E & [G1 _] & _ & Earr & Hv & _).
  exists a, s'. split; [done|].
  assert (Es : s' = set_arrs (arrs s')
                      (set_objs (objs s') (set_requests (S (requests s)) s))).
  { transitivity (set_arrs (arrs s') (set_arrs (arrs s) s')); [by destruct s'|].
    by rewrite G1. }
  split; [|by rewrite Es].
  unfold get_arr. by rewrite Earr, lookup_insert_eq.
Qed.

(** X8.  What [getAllFromStore] returns after a record has been put is the
    stored records with, for the id of that record, the record put and no
    other; after that id has been deleted, no record has it, and the store
    is as it was before the put, less that id. *)
Theorem store_put_getAll_delete sn item s k :
  keyed (db sn s) ->
  id (get_obj s item) = Some k ->
  (forall n, (requests s <= n < 4 + requests s)%nat -> request_fails n = false) ->
  exists a1 s2 a2 s4,
    (putInStore sn item ;; getAllFromStore sn) s = (Ok a1, s2) /\
    List.filter (fun o => bool_decide (id o = Some k)) (get_obj s2 <$> get_arr s2 a1)
      = [get_obj s item] /\
    (deleteFromStore sn k ;; getAllFromStore sn) s2 = (Ok a2, s4) /\
    Forall (fun o => id o <> Some k) (get_obj s4 <$> get_arr s4 a2) /\
    db sn s4 = delete k (db sn s).
Proof.
  intros Hk Hid Hok.
  set (o := get_obj s item).
  set (s1 := set_db sn (<[k := o]> (db sn s)) (set_requests (S (requests s)) s)).
  assert (E1 : putInStore sn item s = (Ok tt, s1)).
  { rewrite putInStore_run. cbv zeta. rewrite Hok by lia. by rewrite Hid. }
  assert (Edb1 : db sn s1 = <[k := o]> (db sn s)) by (by destruct sn).
  destruct (getAllFromStore_Ok sn s1) as (a1 & s2 & E2 & Hv2 & Edn2 & Edt2 & Er2).
  { replace (requests s1) with (S (requests s)) by (by destruct sn). apply Hok. lia. }
  assert (Edb2 : db sn s2 = <[k := o]> (db sn s)).
  { rewrite <- Edb1. destruct sn; [exact Edn2 | exact Edt2]. }
  set (s3 := set_db sn (delete k (db sn s2)) (set_requests (S (requests s2)) s2)).
  assert (E3 : deleteFromStore sn k s2 = (Ok tt, s3)).
  { assert (Hf3 : request_fails (requests s2) = false).
    { rewrite Er2. replace (requests s1) with (S (requests s)) by (by destruct sn).
      apply Hok. lia. }
    unfold deleteFromStore. rewrite bind_run. unfold request. rewrite Hf3.
    reflexivity. }
  assert (Edb3 : db sn s3 = delete k (db sn s)).
  { replace (db sn s3) with (delete k (db sn s2)) by (by destruct sn).
    rewrite Edb2. by rewrite delete_insert_eq. }
  destruct (getAllFromStore_Ok sn s3) as (a2 & s4 & E4 & Hv4 & Edn4 & Edt4 & Er4).
  { replace (requests s3) with (S (requests s2)) by (by destruct sn).
    rewrite Er2. replace (requests s1) with (S (requests s)) by (by destruct sn).
    apply Hok. lia. }
  exists a1, s2, a2, s4.
  split; [by rewrite bind_run, E1|].
  split; [|split; [by rewrite bind_run, E3|split]].
  - rewrite Hv2, Edb1. apply getAll_filter_id.
    + by apply keyed_insert.
    + by rewrite lookup_insert_eq.
  - rewrite Hv4, Edb3. by apply getAll_deleted.
  - rewrite <- Edb3. destruct sn; [exact Edn4 | exact Edt4].
Qed.

End LoadTheorems.

(** ** The editor and autosave *)

Section PageRuns.

Context {browser : Browser} {controls : Controls}.

Lemma bindP_run {A B} (m : PageM A) (k : A -> PageM B) p :
  bindP m k p = match m p with
                | (Ok a, p') => k a p'
                | (Throw e, p') => (Throw e, p')
                end.
Proof. reflexivity. Qed.

Lemma getP_run p : getP p = (Ok p, p).
Proof. reflexivity. Qed.

Lemma liftM_run {A} (m : M A) p :
  liftM m p = (fst (m (app p)), set_app (snd (m (app p))) p).
Proof. unfold liftM. by destruct (m (app p)). Qed.

Lemma set_app_app p : set_app (app p) p = p.
Proof. by destruct p. Qed.

Lemma get_obj_insert_eq s r o : get_obj (set_objs (<[r := o]> (objs s)) s) r = o.
Proof. by rewrite get_obj_insert, decide_True. Qed.

Lemma liftM_update_obj c f p :
  liftM (update_obj c f) p =
  (Ok tt, set_app (set_objs (<[c := f (get_obj (app p) c)]> (objs (app p))) (app p)) p).
Proof. reflexivity. Qed.

Lemma three_updates {A} c f g h (K : PageM A) p :
  (liftM (update_obj c f) >> liftM (update_obj c g) >> liftM (update_obj c h) >> K) p =
  K (set_app (set_objs (<[c := h (g (f (get_obj (app p) c)))]> (objs (app p)))
                (app p)) p).
Proof.
  rewrite bindP_run, liftM_update_obj. cbv beta iota.
  rewrite bindP_run, liftM_update_obj. cbv beta iota.
  rewrite bindP_run, liftM_update_obj. cbv beta iota.
  f_equal. unfold set_app, set_objs, get_obj. simpl.
  rewrite !lookup_insert_eq. simpl. rewrite !insert_insert_eq. reflexivity.
Qed.

Lemma saveNote_async_current c s rest s2 :
  saveNote_async c s = (Ok rest, s2) ->
  rest = saveNote_rest c /\ currentNote s2 = currentNote s /\
  tags (get_obj s2 c) = tags (get_obj s c).
Proof.
  rewrite saveNote_async_run. cbv zeta.
  destruct (request_fails _); [done|]. destruct (id (get_obj s c)); [|done].
  intros [= <- <-]. split; [done|]. split; [done|].
  unfold get_obj at 1. simpl. by rewrite lookup_insert_eq.
Qed.

Lemma saveNote_async_current_fail c s e s2 :
  saveNote_async c s = (Throw e, s2) ->
  currentNote s2 = currentNote s /\ tags (get_obj s2 c) = tags (get_obj s c).
Proof.
  rewrite saveNote_async_run. cbv zeta.
  destruct (request_fails _).
  - intros [= <- <-]. split; [done|].
    unfold get_obj at 1. simpl. by rewrite lookup_insert_eq.
  - destruct (id (get_obj s c)); [done|].
    intros [= <- <-]. split; [done|].
    unfold get_obj at 1. simpl. by rewrite lookup_insert_eq.
Qed.

(** [saveCurrentNote()] on a page with a current note: the note takes the
    values of the form, and its save begins. *)
Lemma saveCurrentNote_run p c :
  currentNote (app p) = Some c ->
  saveCurrentNote p =
  let s := app p in
  let s1 := set_objs (<[c := edited (note_form p) (get_obj s c)]> (objs s)) s in
  match saveNote_async c s1 with
  | (Ok rest, s2) => (Ok tt, set_pending (pending p ++ [rest]) (set_app s2 p))
  | (Throw _, s2) => (Ok tt, set_app s2 p)
  end.
Proof.
  intros Hc. unfold saveCurrentNote. rewrite bindP_run, getP_run. cbv beta iota.
  rewrite Hc. cbv zeta. rewrite three_updates.
  fold (edited (note_form p) (get_obj (app p) c)).
  set (s1 := set_objs (<[c := edited _ _]> _) (app p)).
  assert (Ht : is_Some (tags (get_obj s1 c))).
  { unfold s1. rewrite get_obj_insert_eq. by eexists. }
  rewrite bindP_run. unfold spawn. cbn [app set_app].
  destruct (saveNote_async c s1) as [[rest|e] s2] eqn:E.
  - apply saveNote_async_current in E as (_ & Ec & Et).
    cbv beta iota. unfold renderNoteTags. rewrite bindP_run, getP_run.
    cbn [app set_app set_pending].
    rewrite Ec. change (currentNote s1) with (currentNote (app p)).
    rewrite Hc, Et. by destruct Ht as [l ->].
  - apply saveNote_async_current_fail in E as (Ec & Et).
    cbv beta iota. unfold renderNoteTags. rewrite bindP_run, getP_run.
    cbn [app set_app].
    rewrite Ec. change (currentNote s1) with (currentNote (app p)).
    rewrite Hc, Et. by destruct Ht as [l ->].
Qed.

(** Two states, and two pages, with the same fields are the same. *)
Lemma state_ext s s' :
  objs s = objs s' -> arrs s = arrs s' -> notes s = notes s' ->
  tools s = tools s' -> currentNote s = currentNote s' ->
  activeTagFilter s = activeTagFilter s' -> isDirty s = isDirty s' ->
  notes_search s = notes_search s' -> notes_sort s = notes_sort s' ->
  tools_search s = tools_search s' -> tools_sort s = tools_sort s' ->
  db_notes s = db_notes s' -> db_tools s = db_tools s' ->
  ticks s = ticks s' -> requests s = requests s' -> uuids s = uuids s' ->
  s = s'.
Proof. destruct s, s'; simpl; intros; by subst. Qed.

Lemma page_ext p p' :
  app p = app p' -> pending p = pending p' -> editingTool p = editingTool p' ->
  activeTab p = activeTab p' -> settings p = settings p' ->
  autosaveTimer p = autosaveTimer p' -> timers p = timers p' ->
  localStorage p = localStorage p' -> dark_theme p = dark_theme p' ->
  note_form p = note_form p' -> tool_modal p = tool_modal p' ->
  chip_text p = chip_text p' -> chip_hidden p = chip_hidden p' ->
  reruns p = reruns p' -> p = p'.
Proof. destruct p, p'; simpl; intros; by subst. Qed.

Lemma spawn_run (f : async) p :
  spawn f p = match f (app p) with
              | (Ok rest, s') => (Ok tt, set_pending (pending p ++ [rest]) (set_app s' p))
              | (Throw _, s') => (Ok tt, set_app s' p)
              end.
Proof. unfold spawn. by destruct (f (app p)) as [[rest|e] s']. Qed.

End PageRuns.

Section SaveListeners.

Context {browser : Browser} {controls : Controls}.

Variable f : obj -> obj.

Hypothesis f_id : forall o, id (f o) = id o.

Lemma stamped_id t n o : id (stamped f t n o) = id o.
Proof. induction n as [|n IH]; simpl; [done|]. by rewrite f_id. Qed.

Lemma objs_begun c k b n s :
  objs (begun f c k b n s) = <[c := stamped f (ticks s) n (get_obj s c)]> (objs s).
Proof. unfold begun. by destruct b. Qed.

Lemma db_notes_begun c k n s :
  db_notes (begun f c k false n s) =
  <[k := stamped f (ticks s) n (get_obj s c)]> (db_notes s).
Proof. reflexivity. Qed.

Lemma get_obj_begun_at c k b n s x :
  get_obj (begun f c k b n s) x =
  if decide (c = x) then stamped f (ticks s) n (get_obj s c) else get_obj s x.
Proof.
  unfold get_obj at 1. rewrite objs_begun, lookup_insert. by case_decide.
Qed.

Lemma get_obj_begun c k b n s :
  get_obj (begun f c k b n s) c = stamped f (ticks s) n (get_obj s c).
Proof. by rewrite get_obj_begun_at, decide_True. Qed.

(** One such listener. *)
Lemma begin_one c k b q :
  id (get_obj (app q) c) = Some k ->
  request_fails (requests (app q)) = b ->
  snd (spawn (saveNote_async c)
         (set_app (set_objs (<[c := f (get_obj (app q) c)]> (objs (app q)))
                     (app q)) q)) = begun_page f c k b 1 q.
Proof.
  intros Hid Hb. rewrite spawn_run. cbn [app set_app].
  rewrite saveNote_async_run. cbv zeta.
  set (s := app q) in *.
  change (requests (set_objs _ s)) with (requests s). rewrite Hb.
  rewrite get_obj_insert_eq, f_id, Hid.
  unfold begun_page, begun. fold s. cbn [stamped]. rewrite !Nat.add_0_r, !Nat.add_1_r.
  destruct b; cbn [snd]; (apply page_ext; [|try reflexivity..]).
  - apply state_ext; try reflexivity. cbn [objs set_requests set_objs].
    apply insert_insert_eq.
  - cbn [pending set_pending set_app]. by rewrite app_nil_r.
  - apply state_ext; try reflexivity.
    cbn [objs set_db_notes set_requests set_objs]. apply insert_insert_eq.
Qed.

Lemma begun_page_S c k b n p :
  begun_page f c k b 1 (begun_page f c k b n p) = begun_page f c k b (S n) p.
Proof.
  unfold begun_page. cbn [app set_app set_pending pending].
  assert (E : begun f c k b 1 (begun f c k b n (app p)) = begun f c k b (S n) (app p)).
  { unfold begun at 1. rewrite get_obj_begun. cbn [stamped].
    assert (Et : ticks (begun f c k b n (app p)) = (ticks (app p) + n)%nat)
      by (unfold begun; by destruct b).
    assert (Er : requests (begun f c k b n (app p)) = (requests (app p) + n)%nat)
      by (unfold begun; by destruct b).
    rewrite Et, Er, !Nat.add_0_r.
    replace (ticks (app p) + n + 1)%nat with (ticks (app p) + S n)%nat by lia.
    replace (requests (app p) + n + 1)%nat with (requests (app p) + S n)%nat by lia.
    unfold begun. cbn [stamped].
    destruct b; (apply state_ext; try reflexivity);
      cbn [objs db_notes set_db_notes set_requests set_objs set_ticks];
      apply insert_insert_eq. }
  rewrite E. apply page_ext; try reflexivity.
  cbn [pending set_pending set_app]. destruct b.
  - by rewrite !app_nil_r.
  - change (replicate 1 (saveNote_rest c)) with [saveNote_rest c].
    by rewrite (replicate_S_end n), app_assoc.
Qed.

(** The listeners of an event that are all of this kind, one after the
    other, when their requests all succeed or all fail. *)
Lemma listeners_begin c k b (L : nat -> PageM unit) p n :
  (forall i q, currentNote (app q) = currentNote (app p) ->
     isDirty (app q) = isDirty (app p) -> timers q = timers p ->
     note_form q = note_form p -> saving f c (L i) q) ->
  id (get_obj (app p) c) = Some k ->
  (forall j, (j < S n)%nat -> request_fails (requests (app p) + j) = b) ->
  foldl (fun q i => snd (L i q)) p (seq 0 (S n)) = begun_page f c k b (S n) p.
Proof.
  intros HL Hid Hreq. induction n as [|n IH].
  - simpl. rewrite HL by done. apply begin_one; [done|].
    rewrite <- (Hreq 0%nat) by lia. by rewrite Nat.add_0_r.
  - rewrite seq_S, foldl_app, IH by (intros j Hj; apply Hreq; lia).
    simpl. rewrite HL by (by destruct b).
    rewrite begin_one with (k := k) (b := b).
    + apply begun_page_S.
    + cbn [begun_page app set_app set_pending]. by rewrite get_obj_begun, stamped_id.
    + cbn [begun_page app set_app set_pending].
      replace (requests (begun f c k b (S n) (app p)))
        with (requests (app p) + S n)%nat by (unfold begun; by destruct b).
      apply Hreq. lia.
Qed.

End SaveListeners.

Section SettleSaves.

Context {browser : Browser} {controls : Controls}.

Lemma find_upsert s a r :
  exists i,
    list_find (fun x => id (get_obj s x) = id (get_obj s r)) (upsert s a r) =
      Some (i, r) /\
    upsert s a r !! i = Some r.
Proof.
  unfold upsert.
  destruct (find_by_id s a (id (get_obj s r))) as [[i x]|] eqn:E;
    unfold find_by_id in E.
  - apply list_find_Some in E as (Hi & Hx & Hlt).
    assert (Hr : <[i := r]> (get_arr s a) !! i = Some r)
      by (apply list_lookup_insert_eq; by eapply lookup_lt_Some).
    exists i. split; [|done]. apply list_find_Some. split; [done|]. split; [done|].
    intros j y Hj Hji. rewrite list_lookup_insert_ne in Hj by lia. by eapply Hlt.
  - apply list_find_None in E.
    assert (Hr : (get_arr s a ++ [r]) !! length (get_arr s a) = Some r)
      by (by rewrite lookup_app_r, Nat.sub_diag by lia).
    exists (length (get_arr s a)). split; [|done].
    apply list_find_Some. split; [done|]. split; [done|].
    intros j y Hj Hlt. rewrite lookup_app_l in Hj by done.
    rewrite Forall_forall in E. apply E. by eapply list_elem_of_lookup_2.
Qed.

(** Putting a record at its place a second time changes nothing. *)
Lemma upsert_again s s' a r :
  (forall x, id (get_obj s' x) = id (get_obj s x)) ->
  get_arr s' a = upsert s a r ->
  upsert s' a r = upsert s a r.
Proof.
  intros Hid Ha. unfold upsert at 1. unfold find_by_id. rewrite Ha.
  rewrite (list_find_ext _ (fun x => id (get_obj s x) = id (get_obj s r)))
    by (intros x; by rewrite !Hid).
  destruct (find_upsert s a r) as (i & -> & Hi). by apply list_insert_id.
Qed.

(** The rests of [S n] saves of the note [c], run one after the other. *)
Lemma settle_saves c n s :
  let s' := foldl (fun s rest => snd (rest s)) s (replicate (S n) (saveNote_rest c)) in
  objs s' = objs s /\ db_notes s' = db_notes s /\ db_tools s' = db_tools s /\
  notes s' = notes s /\ tools s' = tools s /\
  currentNote s' = currentNote s /\ activeTagFilter s' = activeTagFilter s /\
  ticks s' = ticks s /\ requests s' = requests s /\ uuids s' = uuids s /\
  arrs s' !! notes s = Some (upsert s (notes s) c) /\
  (forall a, a <> notes s -> is_Some (arrs s !! a) -> arrs s' !! a = arrs s !! a) /\
  (Forall note_text (get_obj s <$> upsert s (notes s) c) -> isDirty s' = false).
Proof.
  revert s. induction n as [|n IH]; intros s.
  - cbn [replicate foldl]. destruct (saveNote_rest c s) as [res s1] eqn:E. cbn [snd].
    apply (save_rest_spec NotesStore) in E
      as (?&?&?&?&?&?&?&?&?&?&Ha&Hoth&Hd&Hres).
    do 12 (split; [done|]). intros Ht. rewrite Hd. by rewrite Hres.
  - rewrite replicate_S. cbn [foldl].
    destruct (saveNote_rest c s) as [res s1] eqn:E. cbn [snd].
    apply (save_rest_spec NotesStore) in E
      as (Eo&Edn&Edt&En&Et&Ec&Ef&Eti&Er&Eu&Ha&Hoth&Hd&Hres).
    specialize (IH s1). cbv zeta in IH.
    destruct IH as (Eo'&Edn'&Edt'&En'&Et'&Ec'&Ef'&Eti'&Er'&Eu'&Ha'&Hoth'&Hd').
    simpl in Ha, Hoth.
    assert (Hg : forall x, get_obj s1 x = get_obj s x)
      by (intros x; unfold get_obj; by rewrite Eo).
    assert (Hu : upsert s1 (notes s) c = upsert s (notes s) c).
    { apply upsert_again; [intros x; by rewrite Hg|]. unfold get_arr. by rewrite Ha. }
    rewrite En in Ha', Hoth', Hd'. rewrite Hu in Ha', Hd'.
    split; [congruence|]. split; [congruence|]. split; [congruence|].
    split; [congruence|]. split; [congruence|]. split; [congruence|].
    split; [congruence|]. split; [congruence|]. split; [congruence|].
    split; [congruence|]. split; [done|]. split.
    + intros a Ha1 Ha2. rewrite Hoth', Hoth; [done..|]. rewrite Hoth; done.
    + intros Ht. apply Hd'. erewrite list_fmap_ext; [exact Ht|]. intros; apply Hg.
Qed.

End SettleSaves.

Section Autosave.

Context {browser : Browser} {controls : Controls}.

Lemma settle_idle p : pending p = [] -> settle p = p.
Proof. intros H. unfold settle. rewrite H. simpl. destruct p. simpl in *. by subst. Qed.

Lemma autosave_run p :
  autosave p =
  match currentNote (app p) with
  | Some _ => if isDirty (app p) then saveCurrentNote p else (Ok tt, p)
  | None => (Ok tt, p)
  end.
Proof.
  unfold autosave. rewrite bindP_run, getP_run. cbv beta iota.
  destruct (currentNote (app p)); [|done]. by destruct (isDirty (app p)).
Qed.

Lemma handle_saves p e i : saves p e -> handle e i p = autosave p.
Proof.
  intros [->|(h & -> & [v Hv])]; [done|]. simpl.
  rewrite bindP_run, getP_run. cbv beta iota. by rewrite Hv.
Qed.

(** An event that has one listener. *)
Lemma dispatch_single e p :
  listeners e p = 1%nat -> dispatch e p = settle (snd (handle e 0 p)).
Proof. intros H. unfold dispatch, listen. by rewrite H. Qed.

(** However many listeners run the autosave callback, nothing happens
    when there is nothing to save. *)
Lemma listen_idle e p :
  saves p e -> currentNote (app p) = None \/ isDirty (app p) = false ->
  listen e p = p.
Proof.
  intros He Hidle. unfold listen. generalize (listeners e p) 0%nat.
  intros n. induction n as [|n IH]; intros i; simpl; [done|].
  rewrite (handle_saves _ _ _ He), autosave_run.
  destruct (currentNote (app p)) as [c|].
  - destruct Hidle as [? | ->]; [done|]. apply IH.
  - apply IH.
Qed.

(** Nothing to save: no current note, or no unsaved change.  The page is
    as it was; no store request is made. *)
Lemma autosave_idle e p :
  saves p e -> pending p = [] ->
  currentNote (app p) = None \/ isDirty (app p) = false ->
  dispatch e p = p.
Proof.
  intros He Hp Hidle. unfold dispatch. rewrite listen_idle by done.
  by apply settle_idle.
Qed.

Lemma listeners_pos e p : exists m, listeners e p = S m.
Proof. destruct e; simpl; eauto. Qed.

Lemma edited_again form t o :
  edited form (set_updatedAt t (edited form o)) = set_updatedAt t (edited form o).
Proof. reflexivity. Qed.

Lemma stamped_edited form t m o :
  stamped (edited form) t (S m) o = set_updatedAt (clock (t + m)) (edited form o).
Proof.
  induction m as [|m IH]; [done|].
  change (stamped (edited form) t (S (S m)) o)
    with (set_updatedAt (clock (t + S m))
            (edited form (stamped (edited form) t (S m) o))).
  by rewrite IH.
Qed.

(** A listener that runs the autosave callback, on a page with a current
    note and unsaved changes. *)
Lemma saving_autosave p e i c q :
  saves p e -> currentNote (app p) = Some c -> isDirty (app p) = true ->
  currentNote (app q) = currentNote (app p) -> isDirty (app q) = isDirty (app p) ->
  timers q = timers p -> note_form q = note_form p ->
  saving (edited (note_form p)) c (handle e i) q.
Proof.
  intros He Hc Hd Ec Ed Et Ef. unfold saving.
  assert (Hq : saves q e).
  { destruct He as [->|(h & -> & Hh)]; [by left|]. right. exists h. by rewrite Et. }
  rewrite (handle_saves _ _ _ Hq), autosave_run, Ec, Hc, Ed, Hd.
  rewrite (saveCurrentNote_run q c) by congruence. cbv zeta.
  rewrite spawn_run, Ef. cbn [app set_app].
  by destruct (saveNote_async c _) as [[rest|err] s2].
Qed.

(** The autosave callback, run by every listener of the event, on a page
    with a current note and unsaved changes, when the store requests
    succeed. *)
Lemma autosave_commits e p c k m :
  saves p e -> listeners e p = S m -> pending p = [] ->
  currentNote (app p) = Some c -> isDirty (app p) = true ->
  id (get_obj (app p) c) = Some k ->
  (forall j, (j < S m)%nat -> request_fails (requests (app p) + j) = false) ->
  let s := app p in
  let o := set_updatedAt (clock (ticks s + m)) (edited (note_form p) (get_obj s c)) in
  let p' := dispatch e p in
  objs (app p') = <[c := o]> (objs s) /\
  db_notes (app p') = <[k := o]> (db_notes s) /\
  db_tools (app p') = db_tools s /\
  notes (app p') = notes s /\
  get_arr (app p') (notes s) =
    match find_by_id s (notes s) (Some k) with
    | Some (i, _) => <[i := c]> (get_arr s (notes s))
    | None => get_arr s (notes s) ++ [c]
    end /\
  currentNote (app p') = Some c /\
  ticks (app p') = (ticks s + S m)%nat /\
  requests (app p') = (requests s + S m)%nat /\
  pending p' = [] /\ note_form p' = note_form p /\
  (Forall note_text (records NotesStore s) -> isDirty (app p') = false).
Proof.
  intros He H1 Hp Hc Hd Hid Hok. cbv zeta. unfold dispatch, listen. rewrite H1.
  rewrite (listeners_begin (edited (note_form p)) (fun _ => eq_refl) c k false)
    by (try done; intros; by eapply saving_autosave).
  unfold settle, begun_page. cbn [pending set_pending app set_app]. rewrite Hp.
  cbn [List.app].
  set (s := app p) in *. set (s2 := begun _ c k false (S m) s).
  set (o := set_updatedAt (clock (ticks s + m)) (edited (note_form p) (get_obj s c))).
  assert (Ho : stamped (edited (note_form p)) (ticks s) (S m) (get_obj s c) = o)
    by apply stamped_edited.
  destruct (settle_saves c m s2)
    as (Eo & Edn & Edt & En & Et & Ec & _ & Eti & Er & _ & Ha & _ & Hdirty).
  assert (Hg2 : forall x, get_obj s2 x = if decide (c = x) then o else get_obj s x).
  { intros x. unfold s2. by rewrite get_obj_begun_at, Ho. }
  assert (Hids : forall x, id (get_obj s2 x) = id (get_obj s x)).
  { intros x. rewrite Hg2. case_decide; [by subst x|done]. }
  assert (Hu : upsert s2 (notes s) c = upsert s (notes s) c) by (by apply upsert_same).
  change (notes s2) with (notes s) in Ha, Hdirty. rewrite Hu in Ha, Hdirty.
  split; [rewrite Eo; unfold s2; by rewrite objs_begun, Ho|].
  split; [rewrite Edn; unfold s2; by rewrite db_notes_begun, Ho|].
  split; [by rewrite Edt|]. split; [by rewrite En|].
  split; [|split; [by rewrite Ec|split; [by rewrite Eti|split; [by rewrite Er|
    split; [done|split; [done|]]]]]].
  - unfold get_arr at 1. rewrite Ha. unfold upsert. by rewrite Hid.
  - intros Hall. apply Hdirty.
    apply Forall_fmap, Forall_forall. intros x Hx. simpl.
    rewrite Hg2. case_decide; [by repeat split; eexists|].
    apply elem_of_upsert in Hx as [Hx|Hx]; [|done].
    rewrite Forall_forall in Hall. apply Hall.
    apply list_elem_of_fmap. by exists x.
Qed.

(** X9.  A tick of the autosave timer, or Ctrl/Cmd+S, on a page with a
    current note and unsaved changes, when the store requests succeed. Each
    listener of the event commits the form to the note, stamps it with the
    time and begins to save it, so that there are as many store requests as
    listeners; the note has the values of the form and the time of the last
    of these saves, the store holds it so under its id, the mirror has it at
    its place, the form is as it was, and the page is clean again when the
    list can be rendered. Without unsaved changes the page stays as it is
    and no request is made. *)
Theorem autosave_commits_form e p c k :
  saves p e -> pending p = [] ->
  currentNote (app p) = Some c ->
  id (get_obj (app p) c) = Some k ->
  (forall j, (j < listeners e p)%nat ->
     request_fails (requests (app p) + j) = false) ->
  let s := app p in
  let n := listeners e p in
  let o := set_updatedAt (clock (ticks s + Nat.pred n))
             (edited (note_form p) (get_obj s c)) in
  let p' := dispatch e p in
  if isDirty s then
    objs (app p') = <[c := o]> (objs s) /\
    db_notes (app p') = <[k := o]> (db_notes s) /\
    db_tools (app p') = db_tools s /\
    notes (app p') = notes s /\
    get_arr (app p') (notes s) =
      match find_by_id s (notes s) (Some k) with
      | Some (i, _) => <[i := c]> (get_arr s (notes s))
      | None => get_arr s (notes s) ++ [c]
      end /\
    currentNote (app p') = Some c /\
    requests (app p') = (requests s + n)%nat /\
    pending p' = [] /\ note_form p' = note_form p /\
    (Forall note_text (records NotesStore s) -> isDirty (app p') = false)
  else p' = p.
Proof.
  intros He Hp Hc Hid Hok. cbv zeta. destruct (isDirty (app p)) eqn:Hd.
  - destruct (listeners_pos e p) as [m Hm]. rewrite Hm in Hok |- *.
    destruct (autosave_commits e p c k m He Hm Hp Hc Hd Hid Hok)
      as (?&?&?&?&?&?&?&?&?&?&?).
    by repeat split.
  - apply autosave_idle; auto.
Qed.

(** X10.  A tick of the autosave timer, or Ctrl/Cmd+S, on a page with a
    current note and unsaved changes, when the store request of every
    listener of the event fails: the note has taken the values of the form
    and the time of the last attempt all the same, but no store and no list
    has changed, and the page is still dirty; so the next such event, when
    its requests succeed, stores the note. *)
Theorem failed_autosave_is_retried e p c k :
  saves p e -> pending p = [] ->
  currentNote (app p) = Some c -> isDirty (app p) = true ->
  id (get_obj (app p) c) = Some k ->
  (forall j, (j < listeners e p)%nat ->
     request_fails (requests (app p) + j) = true) ->
  let s := app p in
  let n := listeners e p in
  let o := edited (note_form p) (get_obj s c) in
  let p' := dispatch e p in
  (objs (app p') = <[c := set_updatedAt (clock (ticks s + Nat.pred n)) o]> (objs s) /\
   arrs (app p') = arrs s /\
   db_notes (app p') = db_notes s /\ db_tools (app p') = db_tools s /\
   requests (app p') = (requests s + n)%nat /\
   isDirty (app p') = true /\ currentNote (app p') = Some c /\
   note_form p' = note_form p /\ pending p' = []) /\
  forall e', saves p e' ->
    let n' := listeners e' p in
    (forall j, (j < n')%nat -> request_fails (requests s + n + j) = false) ->
    db_notes (app (dispatch e' p')) =
      <[k := set_updatedAt (clock (ticks s + n + Nat.pred n')) o]> (db_notes s) /\
    objs (app (dispatch e' p')) =
      <[c := set_updatedAt (clock (ticks s + n + Nat.pred n')) o]> (objs s).
Proof.
  intros He Hp Hc Hd Hid Hfail. cbv zeta.
  destruct (listeners_pos e p) as [m Hm]. rewrite Hm in Hfail |- *.
  assert (E : dispatch e p = begun_page (edited (note_form p)) c k true (S m) p).
  { unfold dispatch, listen. rewrite Hm.
    rewrite (listeners_begin (edited (note_form p)) (fun _ => eq_refl) c k true)
      by (try done; intros; by eapply saving_autosave).
    apply settle_idle. unfold begun_page. simpl. by rewrite Hp. }
  rewrite E. set (p' := begun_page _ c k true (S m) p).
  assert (Hg : get_obj (app p') c =
               set_updatedAt (clock (ticks (app p) + m))
                 (edited (note_form p) (get_obj (app p) c))).
  { unfold p', begun_page. cbn [app set_app set_pending].
    by rewrite get_obj_begun, stamped_edited. }
  split.
  - unfold p', begun_page, begun. cbn [app set_app set_pending pending note_form].
    rewrite stamped_edited, Hp. by repeat split.
  - intros e' He' Hok.
    destruct (listeners_pos e' p) as [m' Hm'].
    assert (Hm'' : listeners e' p' = S m') by (rewrite <- Hm'; by destruct e').
    assert (Hs' : saves p' e').
    { destruct He' as [->|(h & -> & Hh)]; [by left|]. right. by exists h. }
    rewrite Hm' in Hok |- *.
    destruct (autosave_commits e' p' c k m' Hs' Hm'') as (Eo & Edb & _).
    + unfold p', begun_page. simpl. by rewrite Hp.
    + done.
    + done.
    + by rewrite Hg.
    + intros j Hj. change (requests (app p')) with (requests (app p) + S m)%nat.
      by apply Hok.
    + change (ticks (app p')) with (ticks (app p) + S m)%nat in Eo, Edb.
      change (note_form p') with (note_form p) in Eo, Edb.
      rewrite Hg in Eo, Edb. rewrite edited_again in Eo, Edb.
      split.
      * rewrite Edb. done.
      * rewrite Eo. unfold p', begun_page. cbn [app set_app set_pending].
        by rewrite objs_begun, insert_insert_eq.
Qed.

End Autosave.

(** ** Relations that every run respects *)

Create HintDb steps discriminated.

#[export] Hint Resolve blind_view : steps.

Section Views.

Context {browser : Browser}.

Variable R : State -> State -> Prop.

Hypothesis HV : view_blind R.

Lemma steps_bind {A B} (m : M A) (k : A -> M B) :
  steps R m -> (forall a, steps R (k a)) -> steps R (bind m k).
Proof.
  intros Hm Hk s r s'. rewrite bind_run.
  destruct (m s) as [[a|e] s1] eqn:E.
  - intros H. apply (blind_trans R HV _ s1); [by eapply Hm|by eapply Hk].
  - intros [= <- <-]. by eapply Hm.
Qed.

Lemma steps_get0 : steps R get.
Proof. intros s x s' [= <- <-]. apply (blind_refl R HV). Qed.

Lemma steps_ret {A} (a : A) : steps R (ret a).
Proof. intros s r s' [= <- <-]. apply (blind_refl R HV). Qed.

Lemma steps_throw {A} e : steps R (@throw A e).
Proof. intros s r s' [= <- <-]. apply (blind_refl R HV). Qed.

Lemma steps_lift {A} (x : result A) : steps R (lift x).
Proof. intros s r s' [= <- <-]. apply (blind_refl R HV). Qed.

Lemma steps_get {A} (k : State -> M A) :
  (forall s0, steps R (k s0)) -> steps R (bind get k).
Proof. intros Hk s r s'. rewrite bind_run, get_run. apply Hk. Qed.

Lemma steps_try_catch {A} (m : M A) h :
  steps R m -> (forall e, steps R (h e)) -> steps R (try_catch m h).
Proof.
  intros Hm Hh s r s'. unfold try_catch.
  destruct (m s) as [[a|e] s1] eqn:E.
  - intros [= <- <-]. by eapply Hm.
  - intros H. apply (blind_trans R HV _ s1); [by eapply Hm|by eapply Hh].
Qed.

Lemma steps_frame {A} (m : M A) :
  (forall s r s', m s = (r, s') -> frame s s') -> steps R m.
Proof. intros H s r s' [E Ha]%H. rewrite E. by apply (blind_new_arrs R HV). Qed.

Lemma steps_read_obj r : steps R (read_obj r).
Proof. intros s x s' [= <- <-]. apply (blind_refl R HV). Qed.

Lemma steps_read_arr a : steps R (read_arr a).
Proof. intros s x s' [= <- <-]. apply (blind_refl R HV). Qed.

Lemma steps_new_arr l : steps R (new_arr l).
Proof.
  intros s x s' [= <- <-]. apply (blind_new_arrs R HV). intros a Ha.
  rewrite lookup_insert_ne; [done|]. intros <-.
  assert (arrs s !! fresh (dom (arrs s)) = None) as Hf
    by apply not_elem_of_dom, is_fresh.
  rewrite Hf in Ha. by destruct Ha.
Qed.

Lemma steps_now : steps R now.
Proof. intros s x s' [= <- <-]. apply (blind_ticks R HV). Qed.

Lemma steps_set_isDirty v : steps R (modify (set_isDirty v)).
Proof. intros s x s' [= <- <-]. apply (blind_isDirty R HV). Qed.

Lemma steps_set_currentNote v : steps R (modify (set_currentNote v)).
Proof. intros s x s' [= <- <-]. apply (blind_currentNote R HV). Qed.

Lemma steps_set_notes_search v : steps R (modify (set_notes_search v)).
Proof. intros s x s' [= <- <-]. apply (blind_notes_search R HV). Qed.

Lemma steps_set_notes_sort v : steps R (modify (set_notes_sort v)).
Proof. intros s x s' [= <- <-]. apply (blind_notes_sort R HV). Qed.

Lemma steps_set_tools_search v : steps R (modify (set_tools_search v)).
Proof. intros s x s' [= <- <-]. apply (blind_tools_search R HV). Qed.

Lemma steps_set_tools_sort v : steps R (modify (set_tools_sort v)).
Proof. intros s x s' [= <- <-]. apply (blind_tools_sort R HV). Qed.

Lemma steps_Array_filter a p : steps R (Array_filter a p).
Proof.
  intros s x s'. rewrite Array_filter_run. destruct (filterM _ _).
  - apply steps_new_arr.
  - intros [= <- <-]. apply (blind_refl R HV).
Qed.

Lemma steps_renderNotesList : steps R renderNotesList.
Proof. apply steps_frame, renderNotesList_frame. Qed.

Lemma steps_renderToolsGrid : steps R renderToolsGrid.
Proof. apply steps_frame, renderToolsGrid_frame. Qed.

Lemma steps_for_each {A} (f : A -> M unit) l :
  (forall x, steps R (f x)) -> steps R (for_each f l).
Proof.
  intros Hf. induction l as [|x l IH]; simpl.
  - apply steps_ret.
  - apply steps_bind; [apply Hf | by intros _].
Qed.

Lemma steps_exportData : steps R exportData.
Proof.
  intros s r s'. rewrite exportData_run. intros [= <- <-].
  apply (blind_ticks R HV).
Qed.

End Views.

#[export] Hint Resolve steps_get0 steps_ret steps_throw steps_lift steps_read_obj
  steps_read_arr steps_new_arr steps_now steps_set_isDirty
  steps_set_currentNote steps_set_notes_search steps_set_notes_sort
  steps_set_tools_search steps_set_tools_sort
  steps_Array_filter steps_renderNotesList steps_renderToolsGrid
  steps_exportData : steps.

(** Taking a computation apart: sequences, reads of the state, and case
    distinctions. *)
Ltac steps_tac :=
  repeat first
    [ progress intros
    | assumption
    | solve [eauto with steps]
    | match goal with
      | |- steps _ (bind get _) => apply steps_get
      | |- steps _ (bind _ _) => apply steps_bind
      | |- steps _ (try_catch _ _) => apply steps_try_catch
      | |- steps _ (for_each _ _) => apply steps_for_each
      | |- steps _ (match ?x with _ => _ end) => destruct x
      end ].

Section Steps.

Context {browser : Browser}.

Variable R : State -> State -> Prop.

Hypothesis HR : heap_blind R.

Hypothesis Hput : forall sn item, steps R (putInStore sn item).

Hypothesis Hdel : forall sn k, steps R (delete_key sn k).

Lemma steps_update_obj r f : steps R (update_obj r f).
Proof. intros s x s' [= <- <-]. apply (blind_objs R HR). Qed.

Lemma steps_write_arr a l : steps R (write_arr a l).
Proof. intros s x s' [= <- <-]. apply (blind_arrs R HR). Qed.

Lemma steps_Array_push a r : steps R (Array_push a r).
Proof. intros s x s' [= <- <-]. apply (blind_arrs R HR). Qed.

Lemma steps_Array_set a i r : steps R (Array_set a i r).
Proof. intros s x s' [= <- <-]. apply (blind_arrs R HR). Qed.

Lemma steps_new_obj o : steps R (new_obj o).
Proof. intros s x s' [= <- <-]. apply (blind_objs R HR). Qed.

Lemma steps_uuid : steps R crypto_randomUUID.
Proof. intros s x s' [= <- <-]. apply (blind_uuids R HR). Qed.

Lemma steps_request : steps R request.
Proof.
  intros s x s'. unfold request. destruct (request_fails _);
    intros [= <- <-]; apply (blind_requests R HR).
Qed.

Lemma steps_set_notes v : steps R (modify (set_notes v)).
Proof. intros s x s' [= <- <-]. apply (blind_notes R HR). Qed.

Lemma steps_set_tools v : steps R (modify (set_tools v)).
Proof. intros s x s' [= <- <-]. apply (blind_tools R HR). Qed.

Lemma steps_deleteFromStore sn k : steps R (deleteFromStore sn k).
Proof. apply (Hdel sn (Some k)). Qed.

#[local] Hint Resolve steps_update_obj steps_write_arr steps_Array_push steps_Array_set
  steps_new_obj steps_uuid steps_request
  steps_set_notes steps_set_tools steps_deleteFromStore : steps.

Lemma steps_parse_records l : steps R (parse_records l).
Proof. induction l as [|o l IH]; simpl; steps_tac. Qed.

#[local] Hint Resolve steps_parse_records : steps.

Lemma steps_createNote : steps R createNote.
Proof. unfold createNote. steps_tac. Qed.

Lemma steps_createTool : steps R createTool.
Proof. unfold createTool. steps_tac. Qed.

Lemma steps_saveNote_rest note : steps R (saveNote_rest note).
Proof. unfold saveNote_rest. steps_tac. Qed.

Lemma steps_saveTool_rest tool : steps R (saveTool_rest tool).
Proof. unfold saveTool_rest. steps_tac. Qed.

Lemma steps_deleteNote_rest k : steps R (deleteNote_rest k).
Proof. unfold deleteNote_rest. steps_tac. Qed.

Lemma steps_deleteTool_rest k : steps R (deleteTool_rest k).
Proof. unfold deleteTool_rest. steps_tac. Qed.

Lemma steps_parse_array field : steps R (parse_array field).
Proof. unfold parse_array. steps_tac. Qed.

Lemma steps_import_record sn c : steps R (import_record sn c).
Proof. unfold import_record. steps_tac. Qed.

#[local] Hint Resolve steps_parse_array steps_import_record : steps.

Lemma steps_import_body doc : steps R (import_body doc).
Proof. unfold import_body. steps_tac. Qed.

#[local] Hint Resolve steps_import_body : steps.

Lemma steps_handleImportFile file : steps R (handleImportFile file).
Proof. unfold handleImportFile. steps_tac. Qed.

Lemma steps_getAllFromStore sn : steps R (getAllFromStore sn).
Proof. unfold getAllFromStore. steps_tac. Qed.

#[local] Hint Resolve steps_getAllFromStore : steps.

Lemma steps_loadNotes : steps R loadNotes.
Proof. unfold loadNotes. steps_tac. Qed.

Lemma steps_loadTools : steps R loadTools.
Proof. unfold loadTools. steps_tac. Qed.

(** The [async] functions. *)
Lemma steps_async_bind {A} (m : M A) (k : A -> async) :
  steps R m -> (forall a, steps_async R (k a)) -> steps_async R (bind m k).
Proof.
  intros Hm Hk s r s'. rewrite bind_run.
  destruct (m s) as [[a|e] s1] eqn:E.
  - intros H. destruct (Hk a _ _ _ H) as [H1 H2]. split; [|done].
    apply (blind_trans R (blind_view R HR) _ s1); [by eapply Hm|done].
  - intros [= <- <-]. split; [by eapply Hm|done].
Qed.

Lemma steps_async_ret rest : steps R rest -> steps_async R (ret rest).
Proof.
  intros H s r s' [= <- <-]. split; [apply (blind_refl R (blind_view R HR))|done].
Qed.

Lemma steps_saveNote_async note : steps_async R (saveNote_async note).
Proof.
  unfold saveNote_async.
  apply steps_async_bind; [eauto with steps|]. intros t.
  apply steps_async_bind; [by apply steps_update_obj|]. intros _.
  apply steps_async_bind; [by apply Hput|]. intros _.
  apply steps_async_ret, steps_saveNote_rest.
Qed.

Lemma steps_saveTool_async tool : steps_async R (saveTool_async tool).
Proof.
  unfold saveTool_async.
  apply steps_async_bind; [eauto with steps|]. intros t.
  apply steps_async_bind; [by apply steps_update_obj|]. intros _.
  apply steps_async_bind; [by apply Hput|]. intros _.
  apply steps_async_ret, steps_saveTool_rest.
Qed.

Lemma steps_deleteNote_async c k : steps_async R (deleteNote_async c k).
Proof.
  unfold deleteNote_async. destruct (negb c).
  - apply steps_async_ret. eauto with steps.
  - apply steps_async_bind; [by apply Hdel|]. intros _.
    apply steps_async_ret, steps_deleteNote_rest.
Qed.

Lemma steps_deleteTool_async c k : steps_async R (deleteTool_async c k).
Proof.
  unfold deleteTool_async. destruct (negb c).
  - apply steps_async_ret. eauto with steps.
  - apply steps_async_bind; [by apply Hdel|]. intros _.
    apply steps_async_ret, steps_deleteTool_rest.
Qed.

Lemma steps_toggleFavorite_async k : steps_async R (toggleFavorite_async k).
Proof.
  unfold toggleFavorite_async. intros s r s'. rewrite bind_run, get_run.
  cbv beta iota. destruct (find_by_id s (tools s) k) as [[i tool]|].
  - apply steps_async_bind; [by apply steps_update_obj|]. intros _.
    apply steps_saveTool_async.
  - apply steps_async_ret. eauto with steps.
Qed.

Lemma steps_handleImportFile_async file : steps_async R (handleImportFile_async file).
Proof.
  apply steps_async_ret. pose proof (steps_handleImportFile file).
  unfold handleImportFile_async. steps_tac.
Qed.

End Steps.

#[export] Hint Resolve steps_update_obj steps_write_arr steps_Array_push
  steps_Array_set steps_new_obj steps_uuid steps_request
  steps_set_notes steps_set_tools steps_deleteFromStore steps_parse_records
  steps_createNote steps_createTool steps_saveNote_rest
  steps_saveTool_rest steps_deleteNote_rest steps_deleteTool_rest
  steps_handleImportFile steps_getAllFromStore steps_loadNotes
  steps_loadTools steps_saveNote_async steps_saveTool_async
  steps_deleteNote_async steps_deleteTool_async steps_toggleFavorite_async
  steps_handleImportFile_async : steps.

Section Instances.

Context {browser : Browser}.

Lemma keeps_keyed_blind : heap_blind keeps_keyed.
Proof.
  split; [split|..];
    try solve [intros ? ? H; exact H | intros ? H; exact H | intros ? ? ? H; exact H].
  intros s1 s2 s3 H1 H2 H. by apply H2, H1.
Qed.

Lemma keeps_keyed_put sn item : steps keeps_keyed (putInStore sn item).
Proof.
  intros s r s'. rewrite putInStore_run. cbv zeta.
  destruct (request_fails _); [intros [= <- <-] H; exact H|].
  destruct (id (get_obj s item)) as [k|] eqn:E; intros [= <- <-];
    [|intros H; exact H].
  intros [Hn Ht]. destruct sn; split; simpl; try done; by apply keyed_insert.
Qed.

Lemma keeps_keyed_delete sn k : steps keeps_keyed (delete_key sn k).
Proof.
  intros s r s'. rewrite delete_key_run. cbv zeta.
  destruct (request_fails _); [intros [= <- <-] H; exact H|].
  destruct k as [k|]; intros [= <- <-]; [|intros H; exact H].
  intros [Hn Ht]. destruct sn; split; simpl; try done; by apply keyed_delete.
Qed.

Lemma same_filter_blind : heap_blind same_filter.
Proof.
  split; [split|..]; try solve [intros; reflexivity].
  intros s1 s2 s3 H1 H2. unfold same_filter in *. congruence.
Qed.

Lemma same_filter_put sn item : steps same_filter (putInStore sn item).
Proof.
  intros s r s'. rewrite putInStore_run. cbv zeta.
  destruct (request_fails _); [intros [= <- <-]; reflexivity|].
  destruct (id (get_obj s item)) as [k|] eqn:E; intros [= <- <-];
    [|reflexivity].
  by destruct sn.
Qed.

Lemma same_filter_delete sn k : steps same_filter (delete_key sn k).
Proof.
  intros s r s'. rewrite delete_key_run. cbv zeta.
  destruct (request_fails _); [intros [= <- <-]; reflexivity|].
  destruct k as [k|]; intros [= <- <-]; [|reflexivity]. by destruct sn.
Qed.

End Instances.

(** ** Relations that every listener respects *)

#[export] Hint Resolve pb_view : steps.

Section PageViews.

Context {browser : Browser} {controls : Controls}.

Variable R : State -> State -> Prop.

Variable Q : Page -> Page -> Prop.

Hypothesis HV : view_blind R.

Hypothesis HQ : page_view_blind R Q.

Lemma stepsP_bind {A B} (m : PageM A) (k : A -> PageM B) :
  stepsP Q m -> (forall a, stepsP Q (k a)) -> stepsP Q (bindP m k).
Proof.
  intros Hm Hk p r p'. rewrite bindP_run.
  destruct (m p) as [[a|e] p1] eqn:E.
  - intros H. apply (pv_trans R Q HQ _ p1); [by eapply Hm|by eapply Hk].
  - intros [= <- <-]. by eapply Hm.
Qed.

Lemma stepsP_get {A} (k : Page -> PageM A) :
  (forall p0, stepsP Q (k p0)) -> stepsP Q (bindP getP k).
Proof. intros Hk p r p'. rewrite bindP_run, getP_run. apply Hk. Qed.

Lemma stepsP_ret {A} (a : A) : stepsP Q (retP a).
Proof. intros p r p' [= <- <-]. apply (pv_refl R Q HQ). Qed.

Lemma stepsP_throw {A} e : stepsP Q (@throwP A e).
Proof. intros p r p' [= <- <-]. apply (pv_refl R Q HQ). Qed.

Lemma stepsP_liftM {A} (m : M A) : steps R m -> stepsP Q (liftM m).
Proof.
  intros Hm p r p'. unfold liftM. destruct (m (app p)) as [r0 s'] eqn:E.
  intros [= <- <-]. apply (pv_run R Q HQ). by eapply Hm.
Qed.

Lemma stepsP_modifyP f : (forall p, Q p (f p)) -> stepsP Q (modifyP f).
Proof. intros H p r p' E. unfold modifyP in E. inversion E. apply H. Qed.

Lemma stepsP_set_note_title v : stepsP Q (modifyP (set_note_title v)).
Proof. apply stepsP_modifyP. intros p. apply (pv_note_form R Q HQ). Qed.

Lemma stepsP_set_note_tags v : stepsP Q (modifyP (set_note_tags v)).
Proof. apply stepsP_modifyP. intros p. apply (pv_note_form R Q HQ). Qed.

Lemma stepsP_set_note_content v : stepsP Q (modifyP (set_note_content v)).
Proof. apply stepsP_modifyP. intros p. apply (pv_note_form R Q HQ). Qed.

Lemma stepsP_set_tool_name v : stepsP Q (modifyP (set_tool_name v)).
Proof. apply stepsP_modifyP. intros p. apply (pv_tool_modal R Q HQ). Qed.

Lemma stepsP_set_tool_url v : stepsP Q (modifyP (set_tool_url v)).
Proof. apply stepsP_modifyP. intros p. apply (pv_tool_modal R Q HQ). Qed.

Lemma stepsP_set_tool_description v : stepsP Q (modifyP (set_tool_description v)).
Proof. apply stepsP_modifyP. intros p. apply (pv_tool_modal R Q HQ). Qed.

Lemma stepsP_set_tool_tags v : stepsP Q (modifyP (set_tool_tags v)).
Proof. apply stepsP_modifyP. intros p. apply (pv_tool_modal R Q HQ). Qed.

Lemma stepsP_set_tool_modal v : stepsP Q (modifyP (set_tool_modal v)).
Proof. apply stepsP_modifyP. intros p. apply (pv_tool_modal R Q HQ). Qed.

Lemma stepsP_set_editingTool v : stepsP Q (modifyP (set_editingTool v)).
Proof. apply stepsP_modifyP. intros p. apply (pv_editingTool R Q HQ). Qed.

Lemma stepsP_set_activeTab v : stepsP Q (modifyP (set_activeTab v)).
Proof. apply stepsP_modifyP. intros p. apply (pv_activeTab R Q HQ). Qed.

End PageViews.

#[export] Hint Resolve stepsP_ret stepsP_throw stepsP_set_note_title
  stepsP_set_note_tags stepsP_set_note_content stepsP_set_tool_name
  stepsP_set_tool_url stepsP_set_tool_description stepsP_set_tool_tags
  stepsP_set_tool_modal stepsP_set_editingTool stepsP_set_activeTab : steps.

Ltac stepsP_tac :=
  repeat first
    [ progress intros
    | assumption
    | solve [eauto with steps]
    | match goal with
      | |- stepsP _ (bindP getP _) => eapply stepsP_get
      | |- stepsP _ (bindP _ _) => eapply stepsP_bind
      | |- stepsP _ (liftM _) => eapply stepsP_liftM
      | |- stepsP _ (match ?x with _ => _ end) => destruct x
      end ].

Section PageShows.

Context {browser : Browser} {controls : Controls}.

Variable R : State -> State -> Prop.

Variable Q : Page -> Page -> Prop.

Hypothesis HV : view_blind R.

Hypothesis HQ : page_view_blind R Q.

Lemma stepsP_renderNoteTags : stepsP Q renderNoteTags.
Proof. unfold renderNoteTags. stepsP_tac. Qed.

Lemma stepsP_renderNoteEditor : stepsP Q renderNoteEditor.
Proof. pose proof stepsP_renderNoteTags. unfold renderNoteEditor. stepsP_tac. Qed.

Lemma stepsP_showToolModal tool : stepsP Q (showToolModal (Some tool)).
Proof. unfold showToolModal. stepsP_tac. Qed.

Lemma stepsP_hideToolModal : stepsP Q hideToolModal.
Proof. unfold hideToolModal. stepsP_tac. Qed.

Lemma stepsP_editTool k : stepsP Q (editTool k).
Proof. pose proof stepsP_showToolModal. unfold editTool. stepsP_tac. Qed.

Lemma stepsP_render_active_tab : stepsP Q render_active_tab.
Proof. unfold render_active_tab. stepsP_tac. Qed.

Lemma stepsP_switchTab tab : stepsP Q (switchTab tab).
Proof. unfold switchTab. stepsP_tac. Qed.

(** The listeners that assign the settings. *)
Section Settings.

Hypothesis HS : settings_blind Q.

Lemma stepsP_applyTheme theme : stepsP Q (applyTheme theme).
Proof. eapply stepsP_modifyP. intros p. apply (sb_dark_theme Q HS). Qed.

Lemma stepsP_saveSettings : stepsP Q saveSettings.
Proof. eapply stepsP_modifyP. intros p. apply (sb_localStorage Q HS). Qed.

Lemma stepsP_set_settings f : stepsP Q (modifyP (fun p => set_settings (f p) p)).
Proof. eapply stepsP_modifyP. intros p. apply (sb_settings Q HS). Qed.

Lemma stepsP_set_timer f g : stepsP Q (modifyP (fun p => set_timer (f p) (g p) p)).
Proof. eapply stepsP_modifyP. intros p. apply (sb_timer Q HS). Qed.

Lemma stepsP_setInterval period : stepsP Q (setInterval period).
Proof. intros p r p' E. unfold setInterval in E. inversion E. apply (sb_timer Q HS). Qed.

Lemma stepsP_clearInterval h : stepsP Q (clearInterval h).
Proof. eapply stepsP_modifyP. intros p. apply (sb_timer Q HS). Qed.

Lemma stepsP_setupAutosave : stepsP Q setupAutosave.
Proof.
  pose proof stepsP_setInterval. pose proof stepsP_clearInterval.
  unfold setupAutosave. eapply stepsP_get. intros p0.
  eapply stepsP_bind; [done| |].
  - destruct (autosaveTimer p0) as [[|h]|]; try (by eapply stepsP_ret).
    eapply stepsP_bind; [done|done|]. intros _.
    apply (stepsP_set_timer (fun _ => None) timers).
  - intros _. destruct (bool_decide _); [|by eapply stepsP_ret].
    eapply stepsP_bind; [done|done|]. intros h.
    apply (stepsP_set_timer (fun _ => Some h) timers).
Qed.

Lemma stepsP_loadSettings : stepsP Q loadSettings.
Proof.
  unfold loadSettings. eapply stepsP_get. intros p0.
  destruct (localStorage p0) as [c|]; [|by eapply stepsP_ret].
  eapply stepsP_bind; [done|apply (stepsP_set_settings (fun _ => c))|].
  intros _. apply stepsP_applyTheme.
Qed.

Lemma stepsP_handle_settings e i : settings_event e = true -> stepsP Q (handle e i).
Proof.
  destruct e; try discriminate; intros _; simpl.
  - eapply stepsP_get. intros p0.
    eapply stepsP_bind; [done|apply (stepsP_set_settings (fun _ => _))|]. intros _.
    eapply stepsP_bind; [done|apply stepsP_applyTheme|]. intros _.
    apply stepsP_saveSettings.
  - eapply stepsP_bind; [done| |].
    { apply (stepsP_set_settings (fun p => Config (theme (settings p)) (Chosen v))). }
    intros _. eapply stepsP_bind; [done|apply stepsP_saveSettings|]. intros _.
    apply stepsP_setupAutosave.
Qed.

End Settings.

(** The listeners that assign the tag filter. *)
Section Filter.

Hypothesis HC : chip_blind Q.

Hypothesis HF : filter_blind R.

Lemma stepsP_renderTagFilter : stepsP Q renderTagFilter.
Proof.
  unfold renderTagFilter. eapply stepsP_get. intros p0.
  destruct (activeTagFilter (app p0)) as [tag|]; [destruct (nonempty tag)|];
    eapply stepsP_modifyP; intros p; apply HC.
Qed.

Lemma steps_set_activeTagFilter v : steps R (modify (set_activeTagFilter v)).
Proof. intros s x s' [= <- <-]. apply HF. Qed.

Lemma stepsP_setTagFilter tag : stepsP Q (setTagFilter tag).
Proof.
  unfold setTagFilter.
  eapply stepsP_bind; [done|eapply stepsP_liftM; [done|apply steps_set_activeTagFilter]|].
  intros _. eapply stepsP_bind; [done|apply stepsP_renderTagFilter|]. intros _.
  apply stepsP_render_active_tab.
Qed.

Lemma stepsP_clearTagFilter : stepsP Q clearTagFilter.
Proof.
  unfold clearTagFilter.
  eapply stepsP_bind; [done|eapply stepsP_liftM; [done|apply steps_set_activeTagFilter]|].
  intros _. eapply stepsP_bind; [done|apply stepsP_renderTagFilter|]. intros _.
  apply stepsP_render_active_tab.
Qed.

Lemma stepsP_handle_filter e i : filter_event e = true -> stepsP Q (handle e i).
Proof.
  destruct e; try discriminate; intros _; simpl.
  - apply stepsP_clearTagFilter.
  - apply stepsP_setTagFilter.
Qed.

End Filter.

(** The listeners that only show. *)
Lemma stepsP_handle_shows e i :
  passive e = true -> settings_event e = false -> filter_event e = false ->
  stepsP Q (handle e i).
Proof.
  pose proof stepsP_hideToolModal. pose proof stepsP_editTool.
  pose proof stepsP_switchTab.
  destruct e; try discriminate; intros _ _ _; simpl; stepsP_tac.
Qed.

Lemma stepsP_handle_passive e i :
  settings_blind Q -> chip_blind Q -> filter_blind R ->
  passive e = true -> stepsP Q (handle e i).
Proof.
  intros HS HC HF Hp.
  destruct (settings_event e) eqn:E1; [by apply stepsP_handle_settings|].
  destruct (filter_event e) eqn:E2; [by apply stepsP_handle_filter|].
  by apply stepsP_handle_shows.
Qed.

End PageShows.

Section PageSpawn.

Context {browser : Browser} {controls : Controls}.

Variable R : State -> State -> Prop.

Variable Q : Page -> Page -> Prop.

Hypothesis HQ : page_blind R Q.

Lemma stepsP_spawn f : steps_async R f -> stepsP Q (spawn f).
Proof.
  intros Hf p r p'. unfold spawn. destruct (f (app p)) as [[rest|e] s'] eqn:E.
  - intros [= <- <-]. destruct (Hf _ _ _ E) as [H1 H2]. by apply (pb_spawn R Q HQ).
  - intros [= <- <-]. destruct (Hf _ _ _ E) as [H1 _].
    by apply (pv_run R Q (pb_view R Q HQ)).
Qed.

End PageSpawn.

Ltac stepsP_full_tac :=
  repeat first
    [ progress intros
    | assumption
    | solve [eauto with steps]
    | match goal with
      | |- stepsP _ (bindP getP _) => eapply stepsP_get
      | |- stepsP _ (bindP _ _) => eapply stepsP_bind
      | |- stepsP _ (liftM _) => eapply stepsP_liftM
      | |- stepsP _ (spawn _) => eapply stepsP_spawn
      | |- stepsP _ (match ?x with _ => _ end) => destruct x
      end ].

Section PageSteps.

Context {browser : Browser} {controls : Controls}.

Variable R : State -> State -> Prop.

Variable Q : Page -> Page -> Prop.

Hypothesis HR : heap_blind R.

Hypothesis Hput : forall sn item, steps R (putInStore sn item).

Hypothesis Hdel : forall sn k, steps R (delete_key sn k).

Hypothesis HQ : page_blind R Q.

Lemma stepsP_saveCurrentNote : stepsP Q saveCurrentNote.
Proof.
  pose proof (stepsP_renderNoteTags R Q (pb_view R Q HQ)).
  unfold saveCurrentNote. stepsP_full_tac.
Qed.

Lemma stepsP_selectNote k : stepsP Q (selectNote k).
Proof.
  pose proof (stepsP_renderNoteEditor R Q (blind_view R HR) (pb_view R Q HQ)).
  pose proof stepsP_saveCurrentNote.
  unfold selectNote. stepsP_full_tac.
Qed.

Lemma stepsP_autosave : stepsP Q autosave.
Proof. pose proof stepsP_saveCurrentNote. unfold autosave. stepsP_full_tac. Qed.

Lemma stepsP_showToolModal_any tool : stepsP Q (showToolModal tool).
Proof. unfold showToolModal. stepsP_full_tac. Qed.

Lemma stepsP_saveToolFromModal : stepsP Q saveToolFromModal.
Proof.
  pose proof (stepsP_hideToolModal R Q (pb_view R Q HQ)).
  unfold saveToolFromModal. stepsP_full_tac.
Qed.

(** Every listener that assigns neither the settings nor the tag
    filter. *)
Lemma stepsP_handle_plain e i :
  settings_event e = false -> filter_event e = false -> stepsP Q (handle e i).
Proof.
  intros E1 E2. destruct (passive e) eqn:Hp.
  { eapply stepsP_handle_shows; eauto with steps. }
  pose proof stepsP_selectNote. pose proof stepsP_autosave.
  pose proof stepsP_showToolModal_any. pose proof stepsP_saveToolFromModal.
  destruct e; try discriminate; simpl; stepsP_full_tac.
Qed.

(** Every listener. *)
Lemma stepsP_handle e i :
  settings_blind Q -> chip_blind Q -> filter_blind R -> stepsP Q (handle e i).
Proof.
  intros HS HC HF.
  destruct (settings_event e) eqn:E1.
  { eapply stepsP_handle_settings; eauto with steps. }
  destruct (filter_event e) eqn:E2.
  { eapply stepsP_handle_filter; eauto with steps. }
  by apply stepsP_handle_plain.
Qed.

End PageSteps.

(** The listeners of an event, run one after the other, respect a
    relation that each of them respects. *)
Lemma listen_steps `{Browser} `{Controls} (Q : Page -> Page -> Prop) e p :
  (forall p, Q p p) -> (forall p1 p2 p3, Q p1 p2 -> Q p2 p3 -> Q p1 p3) ->
  (forall i, stepsP Q (handle e i)) -> Q p (listen e p).
Proof.
  intros Hrefl Htrans Hstep. unfold listen.
  generalize (listeners e p) 0%nat. intros n. revert p.
  induction n as [|n IH]; intros p i; simpl; [done|].
  eapply Htrans; [|apply IH].
  destruct (handle e i p) as [r p'] eqn:E. simpl. by eapply Hstep.
Qed.

(** ** Invariants of the page *)

Section StateInvariant.

Context {browser : Browser} {controls : Controls}.

Variable K : State -> Prop.

Hypothesis HR : heap_blind (keeps K).

Hypothesis Hput : forall sn item, steps (keeps K) (putInStore sn item).

Hypothesis Hdel : forall sn k, steps (keeps K) (delete_key sn k).

Hypothesis HF : filter_blind (keeps K).

Lemma sound_blind :
  page_blind (keeps K) (fun p p' => sound K p -> sound K p').
Proof.
  split; [split|]; try solve [intros ? ? H; exact H | intros ? H; exact H].
  - intros p1 p2 p3 H1 H2 H. by apply H2, H1.
  - intros s' p H [H1 H2]. split; [by apply H | done].
  - intros rest s' p H Hrest [H1 H2]. split; [by apply H|].
    simpl. apply Forall_app. split; [done|]. by constructor.
Qed.

Lemma sound_settings_blind : settings_blind (fun p p' => sound K p -> sound K p').
Proof. split; intros; assumption. Qed.

Lemma sound_chip_blind : chip_blind (fun p p' => sound K p -> sound K p').
Proof. intros t h p H. exact H. Qed.

Lemma foldl_keeps (l : list (M unit)) s :
  Forall (steps (keeps K)) l -> K s -> K (foldl (fun s rest => snd (rest s)) s l).
Proof.
  revert s. induction l as [|rest l IH]; intros s Hl Hs; simpl; [done|].
  inversion Hl as [|? ? Hrest Hl']; subst. apply IH; [done|].
  destruct (rest s) as [r s'] eqn:E. simpl. by apply (Hrest _ _ _ E).
Qed.

Lemma dispatch_keeps e p :
  pending p = [] -> K (app p) ->
  pending (dispatch e p) = [] /\ K (app (dispatch e p)).
Proof.
  intros Hp Hk. split; [done|]. unfold dispatch.
  assert (Hs : sound K (listen e p)).
  { apply (listen_steps (fun p p' => sound K p -> sound K p') e p).
    - auto.
    - auto.
    - intros i. apply (stepsP_handle (keeps K) _ HR Hput Hdel sound_blind e i
                         sound_settings_blind sound_chip_blind HF).
    - split; [done|]. rewrite Hp. constructor. }
  destruct Hs as [H1 H2]. unfold settle. simpl. by apply foldl_keeps.
Qed.

Lemma after_keeps l p :
  pending p = [] -> K (app p) ->
  pending (after l p) = [] /\ K (app (after l p)).
Proof.
  revert p. induction l as [|e l IH]; intros p Hp Hk; simpl; [done|].
  destruct (dispatch_keeps e p Hp Hk) as [H1 H2]. by apply IH.
Qed.

End StateInvariant.

Section StoreInvariants.

Context {browser : Browser} {controls : Controls}.

Lemma keeps_keyed_filter : filter_blind (keeps keyed_stores).
Proof. intros v s H. exact H. Qed.

(** X11.  Whatever the user does, in any order: stores that are keyed by id
    stay keyed by id. *)
Theorem stores_stay_keyed l p :
  pending p = [] -> keyed_stores (app p) -> keyed_stores (app (after l p)).
Proof.
  intros Hp Hk.
  apply (after_keeps keyed_stores keeps_keyed_blind keeps_keyed_put
           keeps_keyed_delete keeps_keyed_filter l p Hp Hk).
Qed.

Lemma stores_are_blind dn dt : heap_blind (keeps (stores_are dn dt)).
Proof.
  split; [split|..];
    try solve [intros ? ? H; exact H | intros ? H; exact H | intros ? ? ? H; exact H].
  intros s1 s2 s3 H1 H2 H. by apply H2, H1.
Qed.

(** X12.  When the store is unavailable, so that every request fails:
    whatever the user does, in any order, the stores are what they were. *)
Theorem unavailable_store_is_never_written l p :
  (forall n, request_fails n = true) ->
  pending p = [] ->
  db_notes (app (after l p)) = db_notes (app p) /\
  db_tools (app (after l p)) = db_tools (app p).
Proof.
  intros Hfail Hp.
  apply (after_keeps (stores_are (db_notes (app p)) (db_tools (app p)))
           (stores_are_blind _ _)); try done.
  - intros sn item s r s'. rewrite putInStore_run. cbv zeta. rewrite Hfail.
    intros [= <- <-] H. exact H.
  - intros sn k s r s'. rewrite delete_key_run. cbv zeta. rewrite Hfail.
    intros [= <- <-] H. exact H.
  - intros v s H. exact H.
Qed.

End StoreInvariants.

Section Passive.

Context {browser : Browser} {controls : Controls}.

Lemma data_kept_refl s : data_kept s s.
Proof. by repeat split. Qed.

Lemma data_kept_trans s1 s2 s3 : data_kept s1 s2 -> data_kept s2 s3 -> data_kept s1 s3.
Proof.
  intros (?&?&?&?&?&?&?&Ha1) (?&?&?&?&?&?&?&Ha2).
  repeat split; try congruence.
  intros a Ha. rewrite Ha2, Ha1; [done..|]. rewrite Ha1; done.
Qed.

Lemma data_kept_view : view_blind data_kept.
Proof.
  split; try (by intros; repeat split). apply data_kept_trans.
Qed.

Lemma page_data_kept_view : page_view_blind data_kept page_data_kept.
Proof.
  split; try (by intros; split; [apply data_kept_refl|]).
  - intros p1 p2 p3 [H1 E1] [H2 E2]. split; [by eapply data_kept_trans|congruence].
  - intros s' p H. by split.
Qed.

Lemma records_kept sn s s' :
  data_kept s s' -> is_Some (arrs s !! mirror sn s) -> records sn s' = records sn s.
Proof.
  intros (Eo & _ & _ & _ & _ & En & Et & Ha) Hl. unfold records.
  assert (Em : mirror sn s' = mirror sn s) by (by destruct sn).
  unfold get_arr. rewrite Em, Ha by done. unfold get_obj. by rewrite Eo.
Qed.

(** X13.  Searching, sorting, filtering by tag, switching tabs, typing in
    the editor or in the tool dialog, opening the dialog for a tool and
    cancelling it, exporting, changing the theme or the autosave interval:
    none of these changes a record, a store or a list, and none makes a
    store request. *)
Theorem showing_changes_no_data e p :
  passive e = true -> pending p = [] ->
  let s := app p in
  let s' := app (dispatch e p) in
  objs s' = objs s /\ db_notes s' = db_notes s /\ db_tools s' = db_tools s /\
  requests s' = requests s /\
  notes s' = notes s /\ tools s' = tools s /\
  (forall a, is_Some (arrs s !! a) -> arrs s' !! a = arrs s !! a) /\
  (forall sn, is_Some (arrs s !! mirror sn s) -> records sn s' = records sn s).
Proof.
  intros He Hp. cbv zeta. unfold dispatch.
  assert (H : page_data_kept p (listen e p)).
  { assert (HS : settings_blind page_data_kept)
      by (split; intros; (split; [apply data_kept_refl | done])).
    assert (HC : chip_blind page_data_kept)
      by (intros t h p0; (split; [apply data_kept_refl | done])).
    assert (HF : filter_blind data_kept) by (intros v s; by repeat split).
    apply listen_steps.
    - apply (pv_refl _ _ page_data_kept_view).
    - apply (pv_trans _ _ page_data_kept_view).
    - intros i. exact (stepsP_handle_passive _ _ data_kept_view page_data_kept_view
                         e i HS HC HF He). }
  destruct H as [Hd Hpend]. unfold settle. rewrite Hpend, Hp. simpl.
  pose proof Hd as (?&?&?&?&?&?&?&?).
  do 7 (split; [done|]). intros sn Hl. by apply records_kept.
Qed.

End Passive.

(** ** The settings, the timers and the chip *)

Section SettingsInvariant.

Context {browser : Browser} {controls : Controls}.

Lemma any_step_blind : heap_blind any_step.
Proof. by split; [split|..]. Qed.

Lemma same_settings_blind : page_blind any_step same_settings.
Proof.
  split; [split|]; try (by intros; repeat split).
  intros p1 p2 p3 (?&?&?&?&?) (?&?&?&?&?). repeat split; congruence.
Qed.

Lemma same_settings_handle e i p r p' :
  settings_event e = false -> handle e i p = (r, p') -> same_settings p p'.
Proof.
  intros He E.
  destruct (filter_event e) eqn:Hf.
  - assert (HC : chip_blind same_settings) by (intros t h p0; by repeat split).
    assert (HF : filter_blind any_step) by done.
    eapply stepsP_handle_filter;
      first [ exact E | exact Hf | exact HC | exact HF
            | apply (pb_view _ _ same_settings_blind)
            | apply (blind_view _ any_step_blind) ].
  - assert (Hput : forall sn item, steps any_step (putInStore sn item)) by done.
    assert (Hdel : forall sn k, steps any_step (delete_key sn k)) by done.
    exact (stepsP_handle_plain any_step same_settings any_step_blind Hput Hdel
             same_settings_blind e i He Hf p r p' E).
Qed.

Lemma settings_ok_same p p' : same_settings p p' -> settings_ok p -> settings_ok p'.
Proof.
  intros (Es & Ea & Et & El & Ed) (H1 & H2 & H3).
  unfold settings_ok, timer_ok, theme_ok, stored_ok. rewrite Es, Ea, Et, El, Ed.
  done.
Qed.

Lemma timer_ok_one p : timer_ok p -> one_timer p.
Proof.
  unfold timer_ok. case_decide; [by left|].
  intros (h & ? & ? & ?). right. by exists h, (autosaveInterval (settings p)).
Qed.

Lemma setupAutosave_run p :
  one_timer p ->
  exists p', setupAutosave p = (Ok tt, p') /\
    timer_ok p' /\
    settings p' = settings p /\ localStorage p' = localStorage p /\
    dark_theme p' = dark_theme p /\ app p' = app p /\ pending p' = pending p.
Proof.
  intros Hinit.
  assert (Hcleared : exists p1,
    (match autosaveTimer p with
     | Some (S _ as h) =>
         clearInterval h >> modifyP (fun p => set_timer None (timers p) p)
     | _ => retP tt
     end) p = (Ok tt, p1) /\ autosaveTimer p1 = None /\ timers p1 = ∅ /\
     settings p1 = settings p /\ localStorage p1 = localStorage p /\
     dark_theme p1 = dark_theme p /\ app p1 = app p /\ pending p1 = pending p).
  { destruct Hinit as [[Ha Ht]|(h & x & Hh & Ha & Ht)].
    - rewrite Ha. by exists p.
    - rewrite Ha. destruct h as [|h]; [done|].
      eexists. split; [reflexivity|]. simpl. rewrite Ht.
      by rewrite delete_singleton_eq. }
  destruct Hcleared as (p1 & E1 & Ha1 & Ht1 & Es1 & El1 & Ed1 & Eapp1 & Ep1).
  unfold setupAutosave. rewrite bindP_run, getP_run. cbv beta iota zeta.
  rewrite bindP_run, E1. cbv beta iota.
  destruct (decide (autosaveInterval (settings p) = Chosen "off")) as [Hoff|Hon].
  - rewrite bool_decide_eq_false_2 by (by intros H; apply H).
    exists p1. split; [done|]. split; [|done].
    unfold timer_ok. rewrite Es1. by rewrite decide_True.
  - rewrite bool_decide_eq_true_2 by done.
    eexists. split; [reflexivity|]. simpl. rewrite Es1, El1, Ed1, Eapp1, Ep1.
    split; [|done]. unfold timer_ok. simpl. rewrite Es1, decide_False by done.
    eexists. split; [|split; [done|]].
    + intros H0. pose proof (is_fresh ({[0%nat]} ∪ dom (timers p1))) as Hfr.
      rewrite H0 in Hfr. set_solver.
    + rewrite Ht1. by rewrite insert_empty.
Qed.

Lemma settings_ok_handle e i p :
  settings_event e = true -> settings_ok p -> settings_ok (snd (handle e i p)).
Proof.
  destruct e; try discriminate; intros _ (Ht & Hth & Hst).
  - simpl. repeat split.
    + exact Ht.
    + intros c [= <-]. done.
  - set (p1 := set_localStorage
                 (Some (Config (theme (settings p)) (Chosen v)))
                 (set_settings (Config (theme (settings p)) (Chosen v)) p)).
    assert (E : handle (AutosaveIntervalChanged v) i p = setupAutosave p1) by done.
    rewrite E.
    destruct (setupAutosave_run p1) as (p' & -> & Ht' & Es & El & Ed & _).
    { by apply timer_ok_one in Ht. }
    simpl. split; [done|]. split.
    + unfold theme_ok. rewrite Ed, Es. exact Hth.
    + intros c. rewrite El, Es. by intros [= <-].
Qed.

Lemma settle_same_settings p : same_settings p (settle p).
Proof. by repeat split. Qed.

Lemma settings_ok_dispatch e p : settings_ok p -> settings_ok (dispatch e p).
Proof.
  intros H. unfold dispatch. eapply settings_ok_same; [apply settle_same_settings|].
  apply (listen_steps (fun p p' => settings_ok p -> settings_ok p') e p); [auto..| |done].
  intros i q r q' E Hq. destruct (settings_event e) eqn:He.
  - replace q' with (snd (handle e i q)) by (by rewrite E).
    by apply settings_ok_handle.
  - eapply settings_ok_same; [|done]. by eapply same_settings_handle.
Qed.

(** X14.  Whatever the user does, in any order: the autosave timer is the
    one live timer and runs with the interval of the settings, and there is
    no timer when the interval is ['off']; the body is dark exactly when the
    theme is ['dark']; and the settings that are stored are the current
    ones. *)
Theorem settings_stay_consistent l p : settings_ok p -> settings_ok (after l p).
Proof.
  revert p. induction l as [|e l IH]; intros p H; simpl; [done|].
  by apply IH, settings_ok_dispatch.
Qed.

Lemma theme_toggle_run i q :
  snd (handle ThemeToggleClicked i q) =
  let c := Config (toggled (theme (settings q))) (autosaveInterval (settings q)) in
  set_localStorage (Some c)
    (set_dark_theme (bool_decide (theme c = "dark")) (set_settings c q)).
Proof. reflexivity. Qed.

Lemma theme_toggles_run n i p :
  let q := foldl (fun q i => snd (handle ThemeToggleClicked i q)) p (seq i (S n)) in
  let t := Nat.iter (S n) toggled (theme (settings p)) in
  settings q = Config t (autosaveInterval (settings p)) /\
  dark_theme q = bool_decide (t = "dark") /\
  localStorage q = Some (settings q) /\
  app q = app p /\ pending q = pending p /\
  autosaveTimer q = autosaveTimer p /\ timers q = timers p /\
  note_form q = note_form p /\ tool_modal q = tool_modal p.
Proof.
  revert i. induction n as [|n IH]; intros i.
  - cbn [seq foldl]. rewrite theme_toggle_run. by repeat split.
  - rewrite seq_S, foldl_app. cbn [foldl].
    specialize (IH i). cbv zeta in IH.
    destruct IH as (Es & Ed & El & Ea & Ep & Eat & Et & Ef & Em).
    rewrite theme_toggle_run. cbv zeta.
    cbn [settings set_localStorage set_dark_theme set_settings dark_theme
         localStorage app pending autosaveTimer timers note_form tool_modal theme].
    rewrite Es. cbn [theme autosaveInterval].
    change (Nat.iter (S (S n)) toggled (theme (settings p)))
      with (toggled (Nat.iter (S n) toggled (theme (settings p)))).
    by repeat split.
Qed.

Lemma toggled_twice t : t = "light" \/ t = "dark" -> toggled (toggled t) = t.
Proof. by intros [-> | ->]. Qed.

(** X24.  The theme button. Each of its listeners switches the theme, shows
    it and stores the settings, so the theme is switched as often as the
    button has listeners: once after a sign-in, and twice, which leaves the
    theme as it was, when a session was found at the start. No record and no
    timer changes. *)
Theorem theme_button_switches_per_listener p :
  pending p = [] ->
  let n := listeners ThemeToggleClicked p in
  let t := Nat.iter n toggled (theme (settings p)) in
  let p' := dispatch ThemeToggleClicked p in
  (settings p' = Config t (autosaveInterval (settings p)) /\
   dark_theme p' = bool_decide (t = "dark") /\
   localStorage p' = Some (settings p') /\
   app p' = app p /\ pending p' = [] /\
   autosaveTimer p' = autosaveTimer p /\ timers p' = timers p) /\
  (reruns p = 0%nat -> theme (settings p') = toggled (theme (settings p))) /\
  (reruns p = 1%nat ->
   theme (settings p) = "light" \/ theme (settings p) = "dark" ->
   settings p' = settings p).
Proof.
  intros Hp. cbv zeta. unfold dispatch, listen.
  change (listeners ThemeToggleClicked p) with (S (reruns p)).
  destruct (theme_toggles_run (reruns p) 0 p) as (Es & Ed & El & Ea & Ep & Eat & Et & _).
  set (q := foldl _ p _) in *.
  assert (Eq : settle q = q) by (apply settle_idle; congruence).
  rewrite Eq. split; [|split].
  - repeat split; try done. congruence.
  - intros H0. rewrite Es, H0. done.
  - intros H1 Hth. rewrite Es, H1.
    change (Nat.iter 2 toggled (theme (settings p)))
      with (toggled (toggled (theme (settings p)))).
    rewrite toggled_twice by done. by destruct (settings p).
Qed.

End SettingsInvariant.

Section Chip.

Context {browser : Browser} {controls : Controls}.

Lemma keeps_chip_blind : page_blind same_filter keeps_chip.
Proof.
  split; [split|]; try solve [intros ? ? H; exact H | intros ? H; exact H].
  - intros p1 p2 p3 H1 H2 H. by apply H2, H1.
  - intros s' p H [H1 H2]. split; [|done].
    unfold chip_ok, filter_on in *. simpl. unfold same_filter in H. by rewrite H.
  - intros rest s' p H Hrest [H1 H2]. split.
    + unfold chip_ok, filter_on in *. simpl. unfold same_filter in H. by rewrite H.
    + simpl. apply Forall_app. split; [done|]. by constructor.
Qed.

Lemma keeps_chip_settings : settings_blind keeps_chip.
Proof. split; intros; intros H; exact H. Qed.

Lemma tag_filter_set v p :
  chip_sound p ->
  exists p1, (liftM (modify (set_activeTagFilter v)) >> renderTagFilter) p = (Ok tt, p1) /\
    chip_sound p1.
Proof.
  intros [_ Hp]. unfold bindP, liftM, modify, renderTagFilter, bindP, getP.
  destruct v as [tag|]; simpl; [destruct (nonempty tag) eqn:Hn|];
    (eexists; split; [reflexivity|]; split; [|exact Hp]);
    unfold chip_ok, chip_shows, filter_on; simpl; by rewrite ?Hn.
Qed.

Lemma keeps_chip_handle e i : stepsP keeps_chip (handle e i).
Proof.
  assert (Hput : forall sn item, steps same_filter (putInStore sn item))
    by apply same_filter_put.
  assert (Hdel : forall sn k, steps same_filter (delete_key sn k))
    by apply same_filter_delete.
  destruct (filter_event e) eqn:Hf.
  - assert (Hrender : stepsP keeps_chip render_active_tab).
    { eapply stepsP_render_active_tab;
        first [ apply (pb_view _ _ keeps_chip_blind)
              | apply (blind_view _ same_filter_blind) ]. }
    destruct e; try discriminate; intros p r p' E Hs; simpl in E.
    + unfold clearTagFilter in E.
      destruct (tag_filter_set None p Hs) as (p1 & E1 & Hs1).
      rewrite bindP_run in E1. rewrite bindP_run in E.
      destruct (liftM (modify (set_activeTagFilter None)) p) as [[[]|?] p0]; [|done].
      rewrite bindP_run, E1 in E. by eapply Hrender.
    + unfold setTagFilter in E.
      destruct (tag_filter_set (Some tag) p Hs) as (p1 & E1 & Hs1).
      rewrite bindP_run in E1. rewrite bindP_run in E.
      destruct (liftM (modify (set_activeTagFilter (Some tag))) p) as [[[]|?] p0]; [|done].
      rewrite bindP_run, E1 in E. by eapply Hrender.
  - destruct (settings_event e) eqn:He.
    + eapply stepsP_handle_settings;
        first [ exact He | apply keeps_chip_settings
              | apply (pb_view _ _ keeps_chip_blind) ].
    + apply (stepsP_handle_plain same_filter keeps_chip same_filter_blind
               Hput Hdel keeps_chip_blind e i He Hf).
Qed.

Lemma foldl_same_filter (l : list (M unit)) s :
  Forall (steps same_filter) l ->
  activeTagFilter (foldl (fun s rest => snd (rest s)) s l) = activeTagFilter s.
Proof.
  revert s. induction l as [|rest l IH]; intros s Hl; simpl; [done|].
  inversion Hl as [|? ? Hrest Hl']; subst. rewrite IH by done.
  destruct (rest s) as [r s'] eqn:E. simpl. by apply (Hrest _ _ _ E).
Qed.

Lemma chip_ok_dispatch e p : pending p = [] -> chip_ok p -> chip_ok (dispatch e p).
Proof.
  intros Hp Hc. unfold dispatch.
  destruct (listen_steps keeps_chip e p) as [Hc1 Hp1].
  { by intros q H. }
  { intros p1 p2 p3 H1 H2 H. by apply H2, H1. }
  { intros i. apply keeps_chip_handle. }
  { split; [done|]. rewrite Hp. constructor. }
  unfold chip_ok, chip_shows, filter_on, settle in *. simpl.
  by rewrite foldl_same_filter.
Qed.

(** X15.  Whatever the user does, in any order: the chip of the tag filter
    is shown exactly when a tag filter is in force, and then it shows that
    tag. *)
Theorem chip_tracks_filter l p :
  pending p = [] -> chip_ok p -> chip_ok (after l p).
Proof.
  revert p. induction l as [|e l IH]; intros p Hp H; simpl; [done|].
  apply IH; [done|]. by apply chip_ok_dispatch.
Qed.

End Chip.

(** ** The pin and archive buttons *)

Section Buttons.

Context {browser : Browser} {controls : Controls}.

Lemma flag_click_run e i p c :
  e = PinClicked \/ e = ArchiveClicked ->
  currentNote (app p) = Some c ->
  handle e i p =
  spawn (saveNote_async c)
    (set_app (set_objs (<[c := flipped e (get_obj (app p) c)]> (objs (app p)))
                (app p)) p).
Proof.
  intros [-> | ->] Hc; simpl; rewrite bindP_run, getP_run; cbv beta iota;
    rewrite Hc, bindP_run, liftM_update_obj; reflexivity.
Qed.

Lemma flipped_id e o : id (flipped e o) = id o.
Proof. by destruct e. Qed.

Lemma flipped_texts e n o :
  title (Nat.iter n (flipped e) o) = title o /\
  content (Nat.iter n (flipped e) o) = content o /\
  tags (Nat.iter n (flipped e) o) = tags o.
Proof.
  induction n as [|n (IH1 & IH2 & IH3)]; [done|].
  cbn [Nat.iter nat_rect]. rewrite <- IH1, <- IH2, <- IH3. by destruct e.
Qed.

Lemma stamped_flipped e t m o :
  stamped (flipped e) t (S m) o =
  set_updatedAt (clock (t + m)) (Nat.iter (S m) (flipped e) o).
Proof.
  induction m as [|m IH]; [done|].
  change (stamped (flipped e) t (S (S m)) o)
    with (set_updatedAt (clock (t + S m))
            (flipped e (stamped (flipped e) t (S m) o))).
  rewrite IH.
  change (Nat.iter (S (S m)) (flipped e) o)
    with (flipped e (Nat.iter (S m) (flipped e) o)).
  by destruct e.
Qed.

Lemma saving_flag e i c q :
  e = PinClicked \/ e = ArchiveClicked ->
  currentNote (app q) = Some c ->
  saving (flipped e) c (handle e i) q.
Proof. intros He Hc. unfold saving. by rewrite (flag_click_run e i q c He Hc). Qed.

(** The pin button, or the archive button, with a current note, when the
    store requests succeed and the list can be rendered. *)
Lemma flag_click_saves e p c k m :
  e = PinClicked \/ e = ArchiveClicked ->
  listeners e p = S m ->
  pending p = [] ->
  currentNote (app p) = Some c ->
  id (get_obj (app p) c) = Some k ->
  (forall j, (j < S m)%nat -> request_fails (requests (app p) + j) = false) ->
  Forall note_text (records NotesStore (app p)) ->
  note_text (get_obj (app p) c) ->
  let s := app p in
  let o := set_updatedAt (clock (ticks s + m))
             (Nat.iter (S m) (flipped e) (get_obj s c)) in
  let p' := dispatch e p in
  objs (app p') = <[c := o]> (objs s) /\
  db_notes (app p') = <[k := o]> (db_notes s) /\
  requests (app p') = (requests s + S m)%nat /\
  currentNote (app p') = Some c /\
  note_form p' = note_form p /\
  isDirty (app p') = false /\
  pending p' = [].
Proof.
  intros He H1 Hp Hc Hid Hok Hall Hct. cbv zeta. unfold dispatch, listen. rewrite H1.
  rewrite (listeners_begin (flipped e) (flipped_id e) c k false)
    by first [done | intros; apply saving_flag; [done|congruence]].
  unfold settle, begun_page. cbn [pending set_pending app set_app]. rewrite Hp.
  cbn [List.app].
  set (s := app p) in *. set (s2 := begun _ c k false (S m) s).
  set (o := set_updatedAt (clock (ticks s + m))
              (Nat.iter (S m) (flipped e) (get_obj s c))).
  assert (Ho : stamped (flipped e) (ticks s) (S m) (get_obj s c) = o)
    by apply stamped_flipped.
  destruct (flipped_texts e (S m) (get_obj s c)) as (T1 & T2 & T3).
  assert (Hot : note_text o).
  { destruct Hct as (H1' & H2' & H3'). unfold o, note_text. simpl updatedAt.
    change (title (set_updatedAt _ ?x)) with (title x).
    change (content (set_updatedAt _ ?x)) with (content x).
    change (tags (set_updatedAt _ ?x)) with (tags x).
    by rewrite T1, T2, T3. }
  destruct (settle_saves c m s2)
    as (Eo & Edn & _ & _ & _ & Ec & _ & _ & Er & _ & _ & _ & Hdirty).
  assert (Hg2 : forall x, get_obj s2 x = if decide (c = x) then o else get_obj s x).
  { intros x. unfold s2. by rewrite get_obj_begun_at, Ho. }
  assert (Hids : forall x, id (get_obj s2 x) = id (get_obj s x)).
  { intros x. rewrite Hg2. case_decide; [subst x|done].
    unfold o. change (id (set_updatedAt _ ?y)) with (id y).
    clear. induction (S m) as [|n IH]; [done|].
    cbn [Nat.iter nat_rect]. by rewrite flipped_id. }
  assert (Hu : upsert s2 (notes s) c = upsert s (notes s) c) by (by apply upsert_same).
  change (notes s2) with (notes s) in Hdirty. rewrite Hu in Hdirty.
  split; [rewrite Eo; unfold s2; by rewrite objs_begun, Ho|].
  split; [rewrite Edn; unfold s2; by rewrite db_notes_begun, Ho|].
  split; [by rewrite Er|]. split; [by rewrite Ec|]. split; [done|].
  split; [|done].
  apply Hdirty.
  apply Forall_fmap, Forall_forall. intros x Hx. simpl.
  rewrite Hg2. case_decide; [done|].
  apply elem_of_upsert in Hx as [Hx|Hx]; [|done].
  rewrite Forall_forall in Hall. apply Hall.
  apply list_elem_of_fmap. by exists x.
Qed.

(** X16.  The pin button and the archive button store the current note as it
    is, with the flag flipped once by each listener of the button: with one
    listener the flag is negated, and with two a flag that the note has is
    as it was. There are as many store requests as listeners. What has been
    typed into the editor since the last save is not committed to the note,
    and, the save having cleared the dirty flag, Ctrl/Cmd+S and the autosave
    timer do nothing afterwards. *)
Theorem flag_click_drops_pending_edits e p c k :
  e = PinClicked \/ e = ArchiveClicked ->
  pending p = [] ->
  currentNote (app p) = Some c ->
  id (get_obj (app p) c) = Some k ->
  (forall j, (j < listeners e p)%nat ->
     request_fails (requests (app p) + j) = false) ->
  Forall note_text (records NotesStore (app p)) ->
  note_text (get_obj (app p) c) ->
  let s := app p in
  let n := listeners e p in
  let o := set_updatedAt (clock (ticks s + Nat.pred n))
             (Nat.iter n (flipped e) (get_obj s c)) in
  let p' := dispatch e p in
  (objs (app p') = <[c := o]> (objs s) /\
   db_notes (app p') = <[k := o]> (db_notes s) /\
   requests (app p') = (requests s + n)%nat /\
   title o = title (get_obj s c) /\ content o = content (get_obj s c) /\
   tags o = tags (get_obj s c) /\
   note_form p' = note_form p) /\
  (n = 1%nat -> flag e o = Some (js_not (flag e (get_obj s c)))) /\
  (n = 2%nat -> is_Some (flag e (get_obj s c)) ->
   flag e o = flag e (get_obj s c)) /\
  forall e', saves p' e' -> dispatch e' p' = p'.
Proof.
  intros He Hp Hc Hid Hok Hall Hct. cbv zeta.
  destruct (listeners_pos e p) as [m Hm]. rewrite Hm in Hok |- *.
  destruct (flag_click_saves e p c k m He Hm Hp Hc Hid Hok Hall Hct)
    as (Eo & Edb & Er & Ec & Ef & Ed & Hp').
  destruct (flipped_texts e (S m) (get_obj (app p) c)) as (T1 & T2 & T3).
  split; [|split; [|split]].
  - do 3 (split; [done|]). by repeat split.
  - intros [= ->]. by destruct He as [-> | ->].
  - intros [= ->] [b Hb]. destruct He as [-> | ->]; simpl in *; rewrite Hb;
      by destruct b.
  - intros e' He'. apply autosave_idle; auto.
Qed.

End Buttons.

(** ** Selecting a note *)

Section Select.

Context {browser : Browser} {controls : Controls}.

Lemma modifyP_run f p : modifyP f p = (Ok tt, f p).
Proof. reflexivity. Qed.

Lemma editor_of_plain o : plain_note o -> editor_of o = texts_of o.
Proof.
  intros (H1 & H2 & H3). unfold editor_of. rewrite !held_plain by done.
  by destruct (texts_of o).
Qed.

(** The end of [selectNote]: the note becomes the current one, and the
    editor shows it. *)
Lemma show_note_run n q :
  is_Some (tags (get_obj (app q) n)) ->
  (liftM (modify (set_currentNote (Some n))) >>
   liftM (modify (set_isDirty false)) >>
   renderNoteEditor) q =
  let s1 := set_isDirty false (set_currentNote (Some n) (app q)) in
  (fst (renderNotesList s1),
   set_app (snd (renderNotesList s1))
     (set_note_form (editor_of (get_obj (app q) n)) q)).
Proof.
  intros [l Hl]. cbv zeta.
  rewrite bindP_run, liftM_run. cbn [fst snd modify app set_app].
  rewrite bindP_run, liftM_run. cbn [fst snd modify app set_app].
  unfold renderNoteEditor. rewrite bindP_run, getP_run. cbv beta iota.
  cbn [app set_app currentNote set_isDirty set_currentNote].
  change (get_obj (set_isDirty false (set_currentNote (Some n) (app q))) n)
    with (get_obj (app q) n).
  rewrite bindP_run, modifyP_run. cbv beta iota. rewrite Hl.
  rewrite bindP_run, modifyP_run. cbv beta iota.
  rewrite bindP_run, modifyP_run. cbv beta iota.
  rewrite bindP_run. unfold renderNoteTags at 1. rewrite bindP_run, getP_run.
  cbv beta iota. cbn [app set_app set_note_content set_note_tags set_note_title
                        set_note_form currentNote set_isDirty set_currentNote].
  change (get_obj (set_isDirty false (set_currentNote (Some n) (app q))) n)
    with (get_obj (app q) n).
  rewrite Hl. unfold retP at 1. cbv beta iota.
  rewrite liftM_run. cbn [app set_app set_note_content set_note_tags set_note_title
                            set_note_form].
  f_equal. unfold editor_of, texts_of. rewrite Hl. destruct q; reflexivity.
Qed.

Lemma selectNote_run k' p :
  selectNote (Some k') p =
  match find_by_id (app p) (notes (app p)) (Some k') with
  | None => (Ok tt, p)
  | Some (_, n) =>
      (match currentNote (app p) with
       | Some _ => if isDirty (app p) then saveCurrentNote else retP tt
       | None => retP tt
       end >>
       liftM (modify (set_currentNote (Some n))) >>
       liftM (modify (set_isDirty false)) >>
       renderNoteEditor) p
  end.
Proof.
  unfold selectNote. rewrite bindP_run, getP_run. cbv beta iota.
  by destruct (find_by_id _ _ _) as [[i n]|].
Qed.

(** X17.  A click on a note of the list when there is nothing to save: no
    store request is made and no record changes; the note becomes the
    current one, and each control of the editor holds what it keeps of the
    text written to it: the title, the tags joined, the content. For a note
    whose texts are plain the editor holds these texts themselves. A click
    on an id that no note of the list has changes nothing. *)
Theorem select_shows_note k' p :
  pending p = [] ->
  currentNote (app p) = None \/ isDirty (app p) = false ->
  let s := app p in
  let p' := dispatch (NoteItemClicked k') p in
  match find_by_id s (notes s) (Some k') with
  | None => p' = p
  | Some (_, n) =>
      is_Some (tags (get_obj s n)) ->
      frame (set_isDirty false (set_currentNote (Some n) s)) (app p') /\
      p' = set_app (app p') (set_note_form (editor_of (get_obj s n)) p) /\
      (plain_note (get_obj s n) -> note_form p' = texts_of (get_obj s n))
  end.
Proof.
  intros Hp Hclean. cbv zeta. rewrite dispatch_single by done. simpl handle.
  rewrite selectNote_run.
  destruct (find_by_id _ _ _) as [[i n]|]; [|by apply settle_idle].
  intros Ht.
  assert (E : (match currentNote (app p) with
       | Some _ => if isDirty (app p) then saveCurrentNote else retP tt
       | None => retP tt
       end >>
       liftM (modify (set_currentNote (Some n))) >>
       liftM (modify (set_isDirty false)) >>
       renderNoteEditor) p =
     (liftM (modify (set_currentNote (Some n))) >>
       liftM (modify (set_isDirty false)) >>
       renderNoteEditor) p).
  { rewrite bindP_run.
    destruct Hclean as [-> | ->]; [done|]. by destruct (currentNote (app p)). }
  rewrite E, show_note_run by done. cbv zeta. cbn [snd].
  set (s1 := set_isDirty false _).
  destruct (renderNotesList s1) as [r s2] eqn:Er. cbn [snd].
  apply renderNotesList_frame in Er.
  rewrite settle_idle by done. split; [done|]. split; [done|].
  intros Hplain. simpl. by apply editor_of_plain.
Qed.

(** X18.  A click on a note of the list while the current note has unsaved
    changes, when the store request succeeds: the current note takes the
    values of the form and the time of the save, and the store holds it
    under its id, before the note that was clicked is written to the editor;
    each control then holds what it keeps of the text written to it, which
    for a note whose texts are plain is that text. *)
Theorem select_commits_pending_edits k' p c k i n :
  pending p = [] ->
  currentNote (app p) = Some c -> isDirty (app p) = true ->
  id (get_obj (app p) c) = Some k ->
  request_fails (requests (app p)) = false ->
  find_by_id (app p) (notes (app p)) (Some k') = Some (i, n) ->
  is_Some (arrs (app p) !! notes (app p)) ->
  Forall note_text (records NotesStore (app p)) ->
  let s := app p in
  let o := set_updatedAt (clock (ticks s)) (edited (note_form p) (get_obj s c)) in
  let p' := dispatch (NoteItemClicked k') p in
  objs (app p') = <[c := o]> (objs s) /\
  db_notes (app p') = <[k := o]> (db_notes s) /\
  db_tools (app p') = db_tools s /\
  notes (app p') = notes s /\
  get_arr (app p') (notes s) =
    match find_by_id s (notes s) (Some k) with
    | Some (j, _) => <[j := c]> (get_arr s (notes s))
    | None => get_arr s (notes s) ++ [c]
    end /\
  requests (app p') = S (requests s) /\
  currentNote (app p') = Some n /\
  isDirty (app p') = false /\
  pending p' = [] /\
  note_form p' = editor_of (get_obj (app p') n) /\
  (plain_note (get_obj (app p') n) -> note_form p' = texts_of (get_obj (app p') n)).
Proof.
  intros Hp Hc Hd Hid Hok Hfind Hlive Hall. cbv zeta. rewrite dispatch_single by done. simpl handle.
  rewrite selectNote_run, Hfind, bindP_run, Hc, Hd.
  rewrite (saveCurrentNote_run _ _ Hc). cbv zeta.
  set (s := app p) in *.
  set (o := set_updatedAt (clock (ticks s)) (edited (note_form p) (get_obj s c))).
  set (s1 := set_objs _ s).
  assert (Hg1 : get_obj s1 c = edited (note_form p) (get_obj s c))
    by (unfold s1; by rewrite get_obj_insert_eq).
  rewrite saveNote_async_run. cbv zeta.
  change (requests s1) with (requests s). rewrite Hok, Hg1.
  change (id (edited (note_form p) (get_obj s c))) with (id (get_obj s c)).
  rewrite Hid. change (ticks s1) with (ticks s). fold o.
  set (s2 := set_db_notes _ _). rewrite Hp. cbn [List.app].
  set (q := set_pending _ _).
  assert (Hobj2 : objs s2 = <[c := o]> (objs s))
    by (unfold s2, s1; simpl; by rewrite insert_insert_eq).
  assert (Hn2 : get_obj s2 n = if decide (n = c) then o else get_obj s n).
  { unfold get_obj at 1. rewrite Hobj2, lookup_insert.
    case_decide; case_decide; try done; by subst. }
  apply find_by_id_Some in Hfind as [Hin _].
  assert (Htn : is_Some (tags (get_obj s2 n))).
  { rewrite Hn2. case_decide; [by eexists|].
    rewrite Forall_forall in Hall.
    destruct (Hall (get_obj s n)) as (_ & _ & Ht); [|done].
    apply list_elem_of_fmap. exists n. split; [done|]. by eapply list_elem_of_lookup_2. }
  rewrite show_note_run by done. cbv zeta. cbn [snd].
  change (app q) with s2.
  set (s3 := set_isDirty false (set_currentNote (Some n) s2)).
  destruct (renderNotesList s3) as [r s4] eqn:Er. cbn [snd].
  apply renderNotesList_frame in Er.
  unfold settle. cbn [pending app set_app set_note_form set_pending q]. simpl foldl.
  destruct (saveNote_rest c s4) as [res s5] eqn:E. cbn [snd].
  apply (save_rest_spec NotesStore) in E
    as (Eo & Edn & Edt & En & Et & Ec & _ & _ & Erq & _ & Ha & _ & Edirty & _).
  destruct Er as [Es4 Harrs4].
  assert (Ho4 : objs s4 = objs s2) by (by rewrite Es4).
  assert (Hids : forall x, id (get_obj s4 x) = id (get_obj s x)).
  { intros x. unfold get_obj at 1. rewrite Ho4, Hobj2, lookup_insert.
    destruct (decide (c = x)) as [<-|]; [done|done]. }
  assert (Hm4 : mirror NotesStore s4 = notes s) by (by rewrite Es4).
  assert (Harr : get_arr s4 (notes s) = get_arr s (notes s)).
  { unfold get_arr. by rewrite Harrs4. }
  rewrite Hm4 in Ha. rewrite (upsert_same s s4) in Ha by done.
  split; [by rewrite Eo, Ho4|].
  split; [rewrite Edn, Es4; done|].
  split; [rewrite Edt, Es4; done|].
  split; [rewrite En, Es4; done|].
  split; [unfold get_arr at 1; rewrite Ha; unfold upsert; by rewrite Hid|].
  split; [rewrite Erq, Es4; done|].
  split; [rewrite Ec, Es4; done|].
  split; [rewrite Edirty, Es4; by destruct res|].
  split; [done|].
  assert (Eg : get_obj s5 n = get_obj s2 n).
  { unfold get_obj. by rewrite Eo, Ho4. }
  split.
  - simpl. f_equal. done.
  - intros Hplain. simpl. rewrite Eg in Hplain |- *. by apply editor_of_plain.
Qed.

End Select.

(** ** The new-note button *)

Section NewNote.

Context {browser : Browser} {controls : Controls}.

Lemma createNote_value (s : State) :
  createNote s =
  (Ok (fresh (dom (objs s))),
   set_objs (<[fresh (dom (objs s)) := fresh_note s]> (objs s))
     (set_ticks (S (S (ticks s))) (set_uuids (S (uuids s)) s))).
Proof. reflexivity. Qed.

Lemma find_by_id_app_fresh (s' : State) l r k :
  (forall x, x ∈ l -> id (get_obj s' x) <> k) ->
  id (get_obj s' r) = k ->
  list_find (fun x => id (get_obj s' x) = k) (l ++ [r]) = Some (length l, r).
Proof.
  intros Hl Hr. apply list_find_Some. split; [|split].
  - by rewrite lookup_app_r, Nat.sub_diag by lia.
  - done.
  - intros j y Hj Hlt. rewrite lookup_app_l in Hj by done.
    apply Hl. by eapply list_elem_of_lookup_2.
Qed.

(** X19.  The new-note button, where the button has one listener, when there
    is nothing to save and the store request succeeds, the identifier drawn
    being one that no note of the list has: a note titled "Untitled Note",
    with no content and no tags, is added at the end of the list and stored
    under its identifier; it is the current note and the editor holds its
    texts. *)
Theorem new_note_is_appended_and_selected p :
  listeners NewNoteClicked p = 1%nat ->
  pending p = [] ->
  currentNote (app p) = None \/ isDirty (app p) = false ->
  request_fails (requests (app p)) = false ->
  is_Some (arrs (app p) !! notes (app p)) ->
  (forall x, x ∈ get_arr (app p) (notes (app p)) ->
     is_Some (objs (app p) !! x) /\
     id (get_obj (app p) x) <> Some (randomUUID (uuids (app p)))) ->
  let s := app p in
  let r := fresh (dom (objs s)) in
  let o := set_updatedAt (clock (S (S (ticks s)))) (fresh_note s) in
  let p' := dispatch NewNoteClicked p in
  objs (app p') = <[r := o]> (objs s) /\
  db_notes (app p') = <[randomUUID (uuids s) := o]> (db_notes s) /\
  db_tools (app p') = db_tools s /\
  notes (app p') = notes s /\
  get_arr (app p') (notes s) = get_arr s (notes s) ++ [r] /\
  currentNote (app p') = Some r /\
  isDirty (app p') = false /\
  note_form p' = Editor "Untitled Note" "" "" /\
  pending p' = [].
Proof.
  intros H1 Hp Hclean Hok Hlive Hold. cbv zeta. rewrite dispatch_single by done.
  simpl handle.
  rewrite bindP_run, liftM_run, createNote_value. cbn [fst snd].
  set (s := app p) in *. set (r := fresh (dom (objs s))).
  set (sA := set_objs _ _).
  assert (Hr : objs s !! r = None) by (apply not_elem_of_dom, is_fresh).
  rewrite bindP_run, getP_run. cbv beta iota.
  rewrite bindP_run, liftM_run. cbn [app set_app].
  change (Array_push (notes sA) r sA)
    with (Ok tt, set_arrs (<[notes s := get_arr s (notes s) ++ [r]]> (arrs s)) sA).
  cbn [fst snd set_app].
  set (sB := set_arrs _ sA).
  rewrite bindP_run, spawn_run. cbn [app set_app pending].
  rewrite saveNote_async_run. cbv zeta.
  change (requests sB) with (requests s). rewrite Hok.
  assert (HgB : get_obj sB r = fresh_note s)
    by (unfold sB, sA, get_obj; simpl; by rewrite lookup_insert_eq).
  rewrite HgB. cbn [id fresh_note].
  change (ticks sB) with (S (S (ticks s))).
  set (o := set_updatedAt (clock (S (S (ticks s)))) (fresh_note s)).
  set (k := randomUUID (uuids s)).
  set (sC := set_db_notes _ _). rewrite Hp. cbn [List.app].
  rewrite bindP_run, getP_run. cbv beta iota. cbn [app set_app set_pending].
  assert (HobjC : objs sC = <[r := o]> (objs s))
    by (unfold sC, sB, sA; simpl; by rewrite insert_insert_eq).
  assert (HgC : get_obj sC r = o)
    by (unfold get_obj; by rewrite HobjC, lookup_insert_eq).
  assert (HoldC : forall x, x ∈ get_arr s (notes s) -> get_obj sC x = get_obj s x).
  { intros x Hx. unfold get_obj at 1. rewrite HobjC, lookup_insert_ne; [done|].
    intros <-. destruct (Hold r Hx) as [[? Hs] _]. by rewrite Hr in Hs. }
  assert (HarrC : get_arr sC (notes s) = get_arr s (notes s) ++ [r]).
  { unfold get_arr at 1, sC, sB. simpl. by rewrite lookup_insert_eq. }
  assert (HfindC : forall s', (forall x, get_obj s' x = get_obj sC x) ->
            get_arr s' (notes s) = get_arr s (notes s) ++ [r] ->
            find_by_id s' (notes s) (Some k) =
              Some (length (get_arr s (notes s)), r)).
  { intros s' Hobj Harr. unfold find_by_id. rewrite Harr.
    apply find_by_id_app_fresh.
    - intros x Hx. rewrite Hobj, HoldC by done. by apply Hold.
    - by rewrite Hobj, HgC. }
  rewrite HgC. change (id o) with (Some k).
  rewrite selectNote_run. cbn [app set_app set_pending].
  change (notes sC) with (notes s).
  rewrite (HfindC sC) by done.
  set (q := set_pending _ _).
  assert (E : (match currentNote sC with
       | Some _ => if isDirty sC then saveCurrentNote else retP tt
       | None => retP tt
       end >>
       liftM (modify (set_currentNote (Some r))) >>
       liftM (modify (set_isDirty false)) >>
       renderNoteEditor) q =
     (liftM (modify (set_currentNote (Some r))) >>
       liftM (modify (set_isDirty false)) >>
       renderNoteEditor) q).
  { rewrite bindP_run. change (currentNote sC) with (currentNote s).
    change (isDirty sC) with (isDirty s).
    destruct Hclean as [-> | ->]; [done|]. by destruct (currentNote s). }
  rewrite E, show_note_run by (change (app q) with sC; rewrite HgC; by eexists).
  cbv zeta. cbn [snd]. change (app q) with sC. rewrite HgC.
  set (s3 := set_isDirty false (set_currentNote (Some r) sC)).
  destruct (renderNotesList s3) as [res4 s4] eqn:Er. cbn [snd].
  apply renderNotesList_frame in Er.
  unfold settle. cbn [pending app set_app set_note_form set_pending q]. simpl foldl.
  destruct (saveNote_rest r s4) as [res s5] eqn:E5. cbn [snd].
  apply (save_rest_spec NotesStore) in E5
    as (Eo & Edn & Edt & En & Et & Ec & _ & _ & Erq & _ & Ha & _ & Edirty & _).
  destruct Er as [Es4 Harrs4].
  assert (Ho4 : objs s4 = objs sC) by (by rewrite Es4).
  assert (Hm4 : mirror NotesStore s4 = notes s) by (by rewrite Es4).
  assert (Harr4 : get_arr s4 (notes s) = get_arr s (notes s) ++ [r]).
  { unfold get_arr at 1. rewrite Harrs4; [exact HarrC|].
    unfold s3, sC, sB. simpl. rewrite lookup_insert_eq. by eexists. }
  assert (Hg4 : forall x, get_obj s4 x = get_obj sC x)
    by (intros x; unfold get_obj; by rewrite Ho4).
  rewrite Hm4 in Ha. unfold upsert in Ha.
  rewrite Hg4, HgC in Ha. change (id o) with (Some k) in Ha.
  rewrite (HfindC s4) in Ha by done.
  rewrite Harr4 in Ha.
  rewrite list_insert_id in Ha
    by (by rewrite lookup_app_r, Nat.sub_diag by lia).
  split; [by rewrite Eo, Ho4|].
  split; [rewrite Edn, Es4; done|].
  split; [rewrite Edt, Es4; done|].
  split; [rewrite En, Es4; done|].
  split; [unfold get_arr at 1; by rewrite Ha|].
  split; [rewrite Ec, Es4; done|].
  split; [rewrite Edirty, Es4; by destruct res|].
  split; [|done]. cbn [note_form set_app set_note_form].
  unfold editor_of, texts_of. cbn [note_title note_tags note_content].
  change (shown (title o)) with "Untitled Note".
  change (show_tags (default [] (tags o))) with "".
  change (shown (content o)) with "".
  by rewrite !held_plain by (by repeat split).
Qed.

(** One listener of the new-note button, up to its return: the note is
    made, added to the list and selected, and its save has begun. *)
Lemma new_note_listener i q :
  currentNote (app q) = None \/ isDirty (app q) = false ->
  request_fails (requests (app q)) = false ->
  is_Some (arrs (app q) !! notes (app q)) ->
  (forall x, x ∈ get_arr (app q) (notes (app q)) ->
     is_Some (objs (app q) !! x) /\
     id (get_obj (app q) x) <> Some (randomUUID (uuids (app q)))) ->
  let s := app q in
  let r := fresh (dom (objs s)) in
  let o := set_updatedAt (clock (S (S (ticks s)))) (fresh_note s) in
  let q' := snd (handle NewNoteClicked i q) in
  objs (app q') = <[r := o]> (objs s) /\
  db_notes (app q') = <[randomUUID (uuids s) := o]> (db_notes s) /\
  db_tools (app q') = db_tools s /\
  notes (app q') = notes s /\
  get_arr (app q') (notes s) = get_arr s (notes s) ++ [r] /\
  is_Some (arrs (app q') !! notes s) /\
  currentNote (app q') = Some r /\ isDirty (app q') = false /\
  ticks (app q') = S (S (S (ticks s))) /\
  requests (app q') = S (requests s) /\
  uuids (app q') = S (uuids s) /\
  pending q' = pending q ++ [saveNote_rest r] /\
  note_form q' = Editor "Untitled Note" "" "" /\
  reruns q' = reruns q.
Proof.
  intros Hclean Hok Hlive Hold. cbv zeta. simpl handle.
  rewrite bindP_run, liftM_run, createNote_value. cbn [fst snd].
  set (s := app q) in *. set (r := fresh (dom (objs s))).
  set (sA := set_objs _ _).
  assert (Hr : objs s !! r = None) by (apply not_elem_of_dom, is_fresh).
  rewrite bindP_run, getP_run. cbv beta iota.
  rewrite bindP_run, liftM_run. cbn [app set_app].
  change (Array_push (notes sA) r sA)
    with (Ok tt, set_arrs (<[notes s := get_arr s (notes s) ++ [r]]> (arrs s)) sA).
  cbn [fst snd set_app].
  set (sB := set_arrs _ sA).
  rewrite bindP_run, spawn_run. cbn [app set_app pending].
  rewrite saveNote_async_run. cbv zeta.
  change (requests sB) with (requests s). rewrite Hok.
  assert (HgB : get_obj sB r = fresh_note s)
    by (unfold sB, sA, get_obj; simpl; by rewrite lookup_insert_eq).
  rewrite HgB. cbn [id fresh_note].
  change (ticks sB) with (S (S (ticks s))).
  set (o := set_updatedAt (clock (S (S (ticks s)))) (fresh_note s)).
  set (k := randomUUID (uuids s)).
  set (sC := set_db_notes _ _).
  rewrite bindP_run, getP_run. cbv beta iota. cbn [app set_app set_pending].
  assert (HobjC : objs sC = <[r := o]> (objs s))
    by (unfold sC, sB, sA; simpl; by rewrite insert_insert_eq).
  assert (HgC : get_obj sC r = o)
    by (unfold get_obj; by rewrite HobjC, lookup_insert_eq).
  assert (HoldC : forall x, x ∈ get_arr s (notes s) -> get_obj sC x = get_obj s x).
  { intros x Hx. unfold get_obj at 1. rewrite HobjC, lookup_insert_ne; [done|].
    intros <-. destruct (Hold r Hx) as [[? Hs] _]. by rewrite Hr in Hs. }
  assert (HarrC : get_arr sC (notes s) = get_arr s (notes s) ++ [r]).
  { unfold get_arr at 1, sC, sB. simpl. by rewrite lookup_insert_eq. }
  assert (HfindC : find_by_id sC (notes s) (Some k) =
                   Some (length (get_arr s (notes s)), r)).
  { unfold find_by_id. rewrite HarrC. apply find_by_id_app_fresh.
    - intros x Hx. rewrite HoldC by done. by apply Hold.
    - by rewrite HgC. }
  rewrite HgC. change (id o) with (Some k).
  rewrite selectNote_run. cbn [app set_app set_pending].
  change (notes sC) with (notes s). rewrite HfindC.
  set (q1 := set_pending _ _).
  assert (E : (match currentNote sC with
       | Some _ => if isDirty sC then saveCurrentNote else retP tt
       | None => retP tt
       end >>
       liftM (modify (set_currentNote (Some r))) >>
       liftM (modify (set_isDirty false)) >>
       renderNoteEditor) q1 =
     (liftM (modify (set_currentNote (Some r))) >>
       liftM (modify (set_isDirty false)) >>
       renderNoteEditor) q1).
  { rewrite bindP_run. change (currentNote sC) with (currentNote s).
    change (isDirty sC) with (isDirty s).
    destruct Hclean as [-> | ->]; [done|]. by destruct (currentNote s). }
  rewrite E, show_note_run by (change (app q1) with sC; rewrite HgC; by eexists).
  cbv zeta. cbn [snd]. change (app q1) with sC. rewrite HgC.
  set (s3 := set_isDirty false (set_currentNote (Some r) sC)).
  destruct (renderNotesList s3) as [res4 s4] eqn:Er. cbn [snd].
  apply renderNotesList_frame in Er. destruct Er as [Es4 Harrs4].
  cbn [app set_app set_note_form pending note_form reruns q1 set_pending].
  assert (Hl3 : is_Some (arrs s3 !! notes s)).
  { unfold s3, sC, sB. simpl. rewrite lookup_insert_eq. by eexists. }
  split; [by rewrite Es4|]. split; [by rewrite Es4|]. split; [by rewrite Es4|].
  split; [by rewrite Es4|].
  split; [unfold get_arr at 1; rewrite Harrs4 by done; exact HarrC|].
  split; [by rewrite Harrs4|].
  split; [by rewrite Es4|]. split; [by rewrite Es4|]. split; [by rewrite Es4|].
  split; [by rewrite Es4|]. split; [by rewrite Es4|]. split; [done|].
  split; [|done].
  unfold editor_of, texts_of. cbn [note_title note_tags note_content].
  change (shown (title o)) with "Untitled Note".
  change (show_tags (default [] (tags o))) with "".
  change (shown (content o)) with "".
  by rewrite !held_plain by (by repeat split).
Qed.

Lemma nth_note_at s s' j :
  ticks s' = (ticks s + 3 * j)%nat -> uuids s' = (uuids s + j)%nat ->
  set_updatedAt (clock (S (S (ticks s')))) (fresh_note s') = nth_note s j.
Proof. intros Et Eu. unfold nth_note, fresh_note. simpl. by rewrite Et, Eu. Qed.

Lemma nth_note_id s j : id (nth_note s j) = Some (randomUUID (uuids s + j)).
Proof. reflexivity. Qed.

(** The listeners of the new-note button, up to the return of the last. *)
Lemma new_note_listeners p m :
  currentNote (app p) = None \/ isDirty (app p) = false ->
  is_Some (arrs (app p) !! notes (app p)) ->
  (forall j, (j < m)%nat -> request_fails (requests (app p) + j) = false) ->
  (forall x, x ∈ get_arr (app p) (notes (app p)) ->
     is_Some (objs (app p) !! x) /\
     forall j, (j < m)%nat ->
       id (get_obj (app p) x) <> Some (randomUUID (uuids (app p) + j))) ->
  (forall i j, (i < j < m)%nat ->
     randomUUID (uuids (app p) + i) <> randomUUID (uuids (app p) + j)) ->
  let q := foldl (fun q i => snd (handle NewNoteClicked i q)) p (seq 0 m) in
  exists rs, length rs = m /\ created (app p) (app q) rs /\
    pending q = pending p ++ (saveNote_rest <$> rs) /\
    is_Some (arrs (app q) !! notes (app p)) /\
    (currentNote (app q) = None \/ isDirty (app q) = false) /\
    ((0 < m)%nat -> currentNote (app q) = last rs /\ isDirty (app q) = false /\
                    note_form q = Editor "Untitled Note" "" "") /\
    reruns q = reruns p.
Proof.
  intros Hclean Hlive. induction m as [|m IH]; intros Hok Hold Huu.
  - exists []. simpl. split; [done|]. split.
    + repeat split; try done; rewrite ?Nat.add_0_r, ?app_nil_r; done.
    + rewrite app_nil_r. split; [done|]. split; [done|]. split; [done|].
      split; [lia|done].
  - rewrite seq_S, foldl_app. cbn [foldl]. change (0 + m)%nat with m.
    destruct IH as (rs & Hlen & Hc & Hpend & Hl & Hcl & _ & Hre).
    { intros j Hj. apply Hok. lia. }
    { intros x Hx. destruct (Hold x Hx) as [H1 H2]. split; [done|].
      intros j Hj. apply H2. lia. }
    { intros i j Hij. apply Huu. lia. }
    set (s := app p) in *.
    set (q := foldl _ p (seq 0 m)) in *.
    destruct Hc as (Hobj & Hnew & Hdb & Hdt & Hn & Harr & Et & Er & Eu).
    rewrite Hlen in Hdb, Et, Er, Eu.
    assert (Hg : forall x, is_Some (objs s !! x) -> get_obj (app q) x = get_obj s x).
    { intros x Hx. unfold get_obj. by rewrite Hobj. }
    destruct (new_note_listener m q)
      as (Eo' & Edb' & Edt' & En' & Ea' & Hl' & Ec' & Ed' & Et' & Er' & Eu' &
          Ep' & Ef' & Ere'); try done.
    { rewrite Er. apply Hok. lia. }
    { by rewrite Hn. }
    { intros x. rewrite Hn, Harr, Eu. intros [Hx|Hx]%elem_of_app.
      - destruct (Hold x Hx) as [H1 H2]. split; [by rewrite Hobj|].
        rewrite Hg by done. apply H2. lia.
      - apply list_elem_of_lookup in Hx as [i Hi].
        destruct (Hnew i x Hi) as (_ & Hx' & _). split; [by rewrite Hx'|].
        unfold get_obj. rewrite Hx'. simpl. intros [= E]. revert E. apply Huu.
        apply lookup_lt_Some in Hi. lia. }
    set (r := fresh (dom (objs (app q)))) in *.
    assert (Hfresh : objs (app q) !! r = None) by (apply not_elem_of_dom, is_fresh).
    assert (Hro : objs s !! r = None).
    { destruct (objs s !! r) eqn:E; [|done].
      rewrite Hobj in Hfresh by (by rewrite E). congruence. }
    assert (Ho : set_updatedAt (clock (S (S (ticks (app q))))) (fresh_note (app q)) =
                 nth_note s m) by (by apply nth_note_at).
    rewrite Ho in Eo', Edb'. rewrite Eu in Edb'. rewrite Hn in Ea', Hl'.
    exists (rs ++ [r]). split; [rewrite length_app; simpl; lia|].
    split; [|split; [|split; [done|split; [by right|split; [|congruence]]]]].
    + split; [|split; [|split; [|split; [congruence|split; [congruence|
        split; [|rewrite length_app, Et', Er', Eu', Et, Er, Eu, Hlen; simpl;
                 repeat split; lia]]]]]].
      * intros x Hx. rewrite Eo', lookup_insert_ne; [by apply Hobj|].
        intros <-. rewrite Hro in Hx. by destruct Hx.
      * intros j x Hj. destruct (decide (j < m)%nat) as [Hlt|Hge].
        -- rewrite lookup_app_l in Hj by lia.
           destruct (Hnew j x Hj) as (H1 & H2 & H3). split; [done|].
           split.
           ++ rewrite Eo', lookup_insert_ne; [done|]. intros <-. congruence.
           ++ rewrite Edb', lookup_insert_ne; [done|].
              intros E. symmetry in E. revert E. apply Huu. lia.
        -- assert (j = m).
           { apply lookup_lt_Some in Hj. rewrite length_app in Hj. simpl in Hj. lia. }
           subst j. rewrite lookup_app_r, Hlen, Nat.sub_diag in Hj by lia.
           injection Hj as <-. split; [done|].
           split; [by rewrite Eo', lookup_insert_eq|].
           by rewrite Edb', lookup_insert_eq.
      * intros u Hu. rewrite length_app in Hu. simpl in Hu.
        rewrite Edb', lookup_insert_ne.
        -- apply Hdb. intros j Hj. apply Hu. lia.
        -- intros E. symmetry in E. revert E. apply Hu. lia.
      * rewrite Ea', Harr. by rewrite app_assoc.
    + rewrite Ep', Hpend, fmap_app, app_assoc. done.
    + intros _. rewrite last_snoc. done.
Qed.

(** The rests of the saves of records that are at their place in the list
    change nothing but the dirty flag. *)
Lemma settle_in_place rs S :
  (forall r, r ∈ rs ->
     exists i, find_by_id S (notes S) (id (get_obj S r)) = Some (i, r)) ->
  let S' := foldl (fun s rest => snd (rest s)) S (saveNote_rest <$> rs) in
  objs S' = objs S /\ db_notes S' = db_notes S /\ db_tools S' = db_tools S /\
  notes S' = notes S /\ currentNote S' = currentNote S /\
  ticks S' = ticks S /\ requests S' = requests S /\ uuids S' = uuids S /\
  get_arr S' (notes S) = get_arr S (notes S) /\
  (isDirty S = false -> isDirty S' = false).
Proof.
  revert S. induction rs as [|r rs IH]; intros S Hfind; [by repeat split|].
  rewrite fmap_cons. cbn [foldl].
  destruct (saveNote_rest r S) as [res S1] eqn:E. cbn [snd].
  apply (save_rest_spec NotesStore) in E
    as (Eo & Edn & Edt & En & _ & Ec & _ & Et & Er & Eu & Ha & _ & Hd & _).
  simpl in Ha.
  destruct (Hfind r) as [i Hi]; [by left|].
  assert (Harr : get_arr S1 (notes S) = get_arr S (notes S)).
  { unfold get_arr at 1. rewrite Ha. unfold upsert. rewrite Hi. simpl.
    apply list_insert_id. by apply find_by_id_Some in Hi as [? _]. }
  assert (Hg : forall x, get_obj S1 x = get_obj S x)
    by (intros x; unfold get_obj; by rewrite Eo).
  destruct (IH S1) as (Eo' & Edn' & Edt' & En' & Ec' & Et' & Er' & Eu' & Ha' & Hd').
  { intros r' Hr'. destruct (Hfind r') as [i' Hi']; [by right|].
    exists i'. rewrite En, Hg. rewrite <- Hi'. apply find_by_id_same; [|done].
    intros x. by rewrite Hg. }
  rewrite En in Ha'.
  split; [congruence|]. split; [congruence|]. split; [congruence|].
  split; [congruence|]. split; [congruence|]. split; [congruence|].
  split; [congruence|]. split; [congruence|]. split; [congruence|].
  intros H0. apply Hd'. rewrite Hd, H0. by destruct res.
Qed.

(** X25.  The new-note button, when there is nothing to save and the store
    requests succeed, the identifiers drawn being different from one another
    and from those of the notes of the list. Each listener of the button
    makes a note, so there are as many new notes as listeners: one after a
    sign-in, and two when a session was found at the start. Each new note is
    titled "Untitled Note", has no content and no tags, is added at the end
    of the list, in order, and is stored under its identifier; the last of
    them is the current note, the page is clean, and the editor holds its
    texts. *)
Theorem new_note_per_listener p :
  pending p = [] ->
  currentNote (app p) = None \/ isDirty (app p) = false ->
  is_Some (arrs (app p) !! notes (app p)) ->
  let s := app p in
  let n := listeners NewNoteClicked p in
  (forall j, (j < n)%nat -> request_fails (requests s + j) = false) ->
  (forall x, x ∈ get_arr s (notes s) ->
     is_Some (objs s !! x) /\
     forall j, (j < n)%nat -> id (get_obj s x) <> Some (randomUUID (uuids s + j))) ->
  (forall i j, (i < j < n)%nat ->
     randomUUID (uuids s + i) <> randomUUID (uuids s + j)) ->
  let p' := dispatch NewNoteClicked p in
  exists rs, length rs = n /\ created s (app p') rs /\
    (forall j, (j < n)%nat ->
       title (nth_note s j) = Some "Untitled Note" /\
       content (nth_note s j) = Some "" /\ tags (nth_note s j) = Some []) /\
    currentNote (app p') = last rs /\ isDirty (app p') = false /\
    note_form p' = Editor "Untitled Note" "" "" /\
    pending p' = [].
Proof.
  intros Hp Hclean Hlive s n Hok Hold Huu p'.
  destruct (new_note_listeners p n Hclean Hlive Hok Hold Huu)
    as (rs & Hlen & Hc & Hpend & Hl & _ & Hlast & _).
  exists rs. split; [done|].
  unfold p', dispatch, listen. fold n. set (q := foldl _ p (seq 0 n)) in *.
  destruct Hlast as (Ec & Ed & Ef); [unfold n; simpl; lia|].
  destruct Hc as (Hobj & Hnew & Hdb & Hdt & Hn & Harr & Et & Er & Eu).
  fold s in Hobj, Hnew, Hdb, Hdt, Hn, Harr, Et, Er, Eu, Hl.
  unfold settle. cbn [app set_app set_pending pending note_form].
  rewrite Hpend, Hp. cbn [List.app].
  destruct (settle_in_place rs (app q))
    as (Eo' & Edn' & Edt' & En' & Ec' & Et' & Er' & Eu' & Ha' & Hd').
  { intros r Hr. apply list_elem_of_lookup in Hr as [i Hi].
    destruct (Hnew i r Hi) as (_ & Hr' & _).
    exists (length (get_arr s (notes s)) + i)%nat.
    unfold find_by_id. rewrite Hn, Harr. apply list_find_Some.
    split; [by rewrite lookup_app_r, Nat.add_comm, Nat.add_sub by lia|].
    split; [done|].
    intros j y Hj Hlt. unfold get_obj at 2. rewrite Hr'. simpl.
    destruct (decide (j < length (get_arr s (notes s)))%nat) as [Hjl|Hjl].
    - rewrite lookup_app_l in Hj by done.
      apply list_elem_of_lookup_2 in Hj. destruct (Hold y Hj) as [Hy1 Hy2].
      unfold get_obj. rewrite Hobj by done. apply Hy2.
      apply lookup_lt_Some in Hi. lia.
    - rewrite lookup_app_r in Hj by lia.
      destruct (Hnew _ y Hj) as (_ & Hy & _). unfold get_obj. rewrite Hy. simpl.
      intros [= E]. revert E. apply Huu. apply lookup_lt_Some in Hi. lia. }
  rewrite Hn in Ha'.
  split; [|split; [|split; [congruence|split; [by apply Hd'|done]]]].
  - split; [intros x Hx; rewrite Eo'; by apply Hobj|].
    split; [intros j r Hj; rewrite Eo', Edn'; by apply Hnew|].
    split; [intros u Hu; rewrite Edn'; by apply Hdb|].
    repeat split; congruence.
  - intros j Hj. by repeat split.
Qed.

End NewNote.

(** ** The tool dialog *)

Section ToolDialog.

Context {browser : Browser} {controls : Controls}.

Lemma trimEnd_empty s : trimEnd s = "" <-> all_space s = true.
Proof.
  induction s as [|c s IH]; simpl; [done|].
  destruct (trimEnd s) as [|b r].
  - destruct (is_space c); simpl; [|done].
    split; intros _; [by apply IH | done].
  - split; [done|]. intros [_ H]%andb_true_iff. by apply IH in H.
Qed.

Lemma trimStart_empty s : trimStart s = "" <-> all_space s = true.
Proof.
  induction s as [|c s IH]; simpl; [done|].
  destruct (is_space c); simpl; [done|]. split; done.
Qed.

Lemma trim_empty s : trim s = "" <-> all_space s = true.
Proof.
  unfold trim. split.
  - intros H. apply trimStart_empty.
    destruct (trimStart s) as [|c r] eqn:E; [done|].
    assert (Hc : is_space c = false) by (apply (trimStart_first s); by rewrite E).
    pose proof (trimEnd_first (String c r) c eq_refl Hc) as Hf.
    by rewrite H in Hf.
  - intros H%trimStart_empty. by rewrite H.
Qed.

Lemma nonempty_trim s : nonempty (trim s) = negb (all_space s).
Proof.
  destruct (all_space s) eqn:E.
  - apply trim_empty in E. by rewrite E.
  - simpl. apply nonempty_spec. intros H%trim_empty. congruence.
Qed.

(** X20.  The save button of the tool dialog with a name or an address that
    is empty or all white space: the alert is shown, and nothing is saved
    and nothing changes; the dialog stays open. *)
Theorem blank_tool_is_refused p :
  pending p = [] ->
  all_space (tool_name (tool_modal p)) = true \/
  all_space (tool_url (tool_modal p)) = true ->
  saveToolFromModal p = (Ok (Some "Name and URL are required"), p) /\
  dispatch SaveToolClicked p = p.
Proof.
  intros Hp Hblank.
  assert (E : saveToolFromModal p = (Ok (Some "Name and URL are required"), p)).
  { unfold saveToolFromModal. rewrite bindP_run, getP_run. cbv beta iota zeta.
    rewrite !nonempty_trim, !negb_involutive.
    by destruct Hblank as [-> | ->]; rewrite ?orb_true_r. }
  split; [done|]. rewrite dispatch_single by done. simpl handle.
  rewrite bindP_run, E.
  by apply settle_idle.
Qed.

Lemma four_updates {A} c f g h i (K : PageM A) p :
  (liftM (update_obj c f) >> liftM (update_obj c g) >> liftM (update_obj c h) >>
   liftM (update_obj c i) >> K) p =
  K (set_app (set_objs (<[c := i (h (g (f (get_obj (app p) c))))]> (objs (app p)))
                (app p)) p).
Proof.
  rewrite bindP_run, liftM_update_obj. cbv beta iota.
  rewrite bindP_run, liftM_update_obj. cbv beta iota.
  rewrite bindP_run, liftM_update_obj. cbv beta iota.
  rewrite bindP_run, liftM_update_obj. cbv beta iota.
  f_equal. unfold set_app, set_objs, get_obj. simpl.
  rewrite !lookup_insert_eq. simpl. rewrite !insert_insert_eq. reflexivity.
Qed.

Lemma tool_dialog_run p t k :
  pending p = [] ->
  editingTool p = Some t ->
  id (get_obj (app p) t) = Some k ->
  all_space (tool_name (tool_modal p)) = false ->
  all_space (tool_url (tool_modal p)) = false ->
  request_fails (requests (app p)) = false ->
  let s := app p in
  let o := set_updatedAt (clock (ticks s)) (filled (tool_modal p) (get_obj s t)) in
  let p' := dispatch SaveToolClicked p in
  objs (app p') = <[t := o]> (objs s) /\
  db_tools (app p') = <[k := o]> (db_tools s) /\
  db_notes (app p') = db_notes s /\
  tools (app p') = tools s /\
  get_arr (app p') (tools s) =
    match find_by_id s (tools s) (Some k) with
    | Some (i, _) => <[i := t]> (get_arr s (tools s))
    | None => get_arr s (tools s) ++ [t]
    end /\
  requests (app p') = S (requests s) /\
  editingTool p' = None /\
  pending p' = [].
Proof.
  intros Hp Ht Hid Hname Hurl Hok. cbv zeta. rewrite dispatch_single by done.
  simpl handle.
  rewrite bindP_run. unfold saveToolFromModal. rewrite bindP_run, getP_run.
  cbv beta iota zeta. rewrite !nonempty_trim, Hname, Hurl.
  change (negb (negb false) || negb (negb false)) with false. cbv iota.
  rewrite Ht, four_updates.
  fold (filled (tool_modal p) (get_obj (app p) t)).
  set (s := app p) in *.
  set (o := set_updatedAt (clock (ticks s)) (filled (tool_modal p) (get_obj s t))).
  set (s1 := set_objs _ s).
  assert (Hg1 : get_obj s1 t = filled (tool_modal p) (get_obj s t))
    by (unfold s1; by rewrite get_obj_insert_eq).
  rewrite bindP_run, spawn_run. cbn [app set_app].
  rewrite saveTool_async_run. cbv zeta.
  change (requests s1) with (requests s). rewrite Hok, Hg1.
  change (id (filled (tool_modal p) (get_obj s t))) with (id (get_obj s t)).
  rewrite Hid. change (ticks s1) with (ticks s). fold o.
  set (s2 := set_db_tools _ _).
  change (pending (set_app s1 p)) with (pending p). rewrite Hp. cbn [List.app].
  cbv beta iota. rewrite bindP_run. unfold hideToolModal at 1.
  rewrite modifyP_run. cbv beta iota. unfold retP. cbn [snd].
  unfold settle. cbn [pending set_pending set_editingTool app set_app]. simpl foldl.
  destruct (saveTool_rest t s2) as [res s3] eqn:E. cbn [snd].
  apply (save_rest_spec ToolsStore) in E
    as (Eo & Edn & Edt & En & Et & _ & _ & _ & Er & _ & Ha & _ & _ & _).
  assert (Hids : forall x, id (get_obj s2 x) = id (get_obj s x)).
  { intros x. unfold s2, get_obj at 1. simpl. rewrite lookup_insert.
    case_decide; [by subst x|]. by rewrite lookup_insert_ne. }
  rewrite (upsert_same s s2) in Ha by done.
  split; [rewrite Eo; unfold s2, s1; simpl; by rewrite insert_insert_eq|].
  split; [by rewrite Edt|]. split; [by rewrite Edn|]. split; [by rewrite Et|].
  split; [|split; [by rewrite Er|done]].
  unfold get_arr at 1. simpl in Ha. rewrite Ha. unfold upsert. simpl. by rewrite Hid.
Qed.

(** X21.  The save button of the tool dialog with a name and an address,
    when the store request succeeds: the tool of the dialog takes the values
    of the form, trimmed, and the time of the save; the store holds it under
    its id; the list has it at the place of the first tool with that id, or
    at the end; and the dialog is closed. *)
Theorem tool_dialog_saves_form p t k :
  pending p = [] ->
  editingTool p = Some t ->
  id (get_obj (app p) t) = Some k ->
  all_space (tool_name (tool_modal p)) = false ->
  all_space (tool_url (tool_modal p)) = false ->
  request_fails (requests (app p)) = false ->
  let s := app p in
  let o := set_updatedAt (clock (ticks s)) (filled (tool_modal p) (get_obj s t)) in
  let p' := dispatch SaveToolClicked p in
  objs (app p') = <[t := o]> (objs s) /\
  db_tools (app p') = <[k := o]> (db_tools s) /\
  db_notes (app p') = db_notes s /\
  tools (app p') = tools s /\
  get_arr (app p') (tools s) =
    match find_by_id s (tools s) (Some k) with
    | Some (i, _) => <[i := t]> (get_arr s (tools s))
    | None => get_arr s (tools s) ++ [t]
    end /\
  requests (app p') = S (requests s) /\
  editingTool p' = None /\
  pending p' = [].
Proof. exact (tool_dialog_run p t k). Qed.

End ToolDialog.

(** ** The start *)

Section StartUp.

Context {browser : Browser} {controls : Controls}.

Lemma loadSettings_run p :
  loadSettings p =
  (Ok tt, match localStorage p with
          | Some c => set_dark_theme (bool_decide (theme c = "dark")) (set_settings c p)
          | None => p
          end).
Proof.
  unfold loadSettings. rewrite bindP_run, getP_run. cbv beta iota.
  by destruct (localStorage p).
Qed.

(** X22.  The start of the application on a page that has no timer yet. When
    the request for the notes fails, it ends there with the storage error:
    the tools are not loaded and no autosave timer is started. When both
    requests succeed and the stored records can be rendered, the settings
    are the stored ones, or the initial ones when none are stored; each list
    holds the records of its store, in key order; the stores are as they
    were; and the one timer runs with the interval of the settings. *)
Theorem start_up_loads_settings_and_lists p :
  autosaveTimer p = None -> timers p = ∅ ->
  let s := app p in
  if request_fails (requests s) then
    exists p', start_up p = (Throw StorageError, p') /\
      tools (app p') = tools s /\ arrs (app p') = arrs s /\
      requests (app p') = S (requests s) /\
      autosaveTimer p' = None /\ timers p' = ∅
  else
    request_fails (S (requests s)) = false ->
    Forall note_text (getAll (db_notes s)) ->
    Forall tool_text (getAll (db_tools s)) ->
    exists p', start_up p = (Ok tt, p') /\
      settings p' = default (settings p) (localStorage p) /\
      records NotesStore (app p') = getAll (db_notes s) /\
      records ToolsStore (app p') = getAll (db_tools s) /\
      db_notes (app p') = db_notes s /\ db_tools (app p') = db_tools s /\
      timer_ok p' /\ stored_ok p' /\
      (theme_ok p \/ localStorage p <> None -> theme_ok p') /\
      pending p' = pending p.
Proof.
  intros Ha Ht s. unfold start_up. rewrite bindP_run, loadSettings_run. cbv beta iota.
  set (p0 := match localStorage p with Some c => _ | None => p end).
  assert (Eapp0 : app p0 = s) by (unfold p0; by destruct (localStorage p)).
  assert (Ea0 : autosaveTimer p0 = None) by (unfold p0; by destruct (localStorage p)).
  assert (Et0 : timers p0 = ∅) by (unfold p0; by destruct (localStorage p)).
  assert (Ep0 : pending p0 = pending p) by (unfold p0; by destruct (localStorage p)).
  assert (El0 : localStorage p0 = localStorage p)
    by (unfold p0; destruct (localStorage p) eqn:El; simpl; congruence).
  assert (Es0 : settings p0 = default (settings p) (localStorage p))
    by (unfold p0; by destruct (localStorage p)).
  assert (Eth0 : theme_ok p \/ localStorage p <> None -> theme_ok p0).
  { unfold p0. destruct (localStorage p); [intros _; reflexivity|]. by intros [?|?]. }
  rewrite bindP_run, liftM_run, Eapp0.
  destruct (request_fails (requests s)) eqn:Hf.
  - change (loadNotes s) with (load NotesStore s).
    rewrite (load_fails NotesStore s Hf). cbn [fst snd].
    eexists. split; [reflexivity|]. done.
  - intros Hf2 Hnotes Htools.
    destruct (load_run NotesStore s Hf)
      as (r1 & s1 & E1 & Hrec1 & Hlive1 & _ & Hobj1 & _ & _ & _ & Es1 & Hr1).
    simpl in E1. rewrite E1, (Hr1 Hnotes). cbn [fst snd].
    rewrite bindP_run, liftM_run. cbn [app set_app].
    assert (Hrq1 : requests s1 = S (requests s)) by (by rewrite Es1).
    destruct (load_run ToolsStore s1)
      as (r2 & s2 & E2 & Hrec2 & _ & _ & _ & _ & Hobjs2 & Harrs2 & Es2 & Hr2);
      [by rewrite Hrq1|].
    assert (Edbt : db_tools s1 = db_tools s) by (by rewrite Es1).
    assert (Edbn : db_notes s1 = db_notes s) by (by rewrite Es1).
    simpl in E2, Hrec2, Hr2. rewrite Edbt in Hrec2, Hr2.
    rewrite E2, (Hr2 Htools). cbn [fst snd].
    set (p2 := set_app s2 (set_app s1 p0)).
    destruct (setupAutosave_run p2) as (p' & E' & Htm & Es' & El' & Ed' & Eapp' & Ep').
    { by left. }
    exists p'. split; [exact E'|].
    split; [by rewrite Es'|].
    assert (Hn2 : notes s2 = notes s1) by (by rewrite Es2).
    split.
    { rewrite Eapp'. simpl app. change (db NotesStore s) with (db_notes s) in Hrec1.
      rewrite <- Hrec1. unfold records. simpl mirror.
      simpl mirror in Hlive1. rewrite Hn2. unfold get_arr. rewrite (Harrs2 _ Hlive1).
      apply Forall_fmap_ext_1. simpl in Hobj1.
      eapply Forall_impl; [exact Hobj1|]. intros x [_ Hx]. unfold get_obj.
      by rewrite Hobjs2. }
    split; [by rewrite Eapp'|].
    split; [rewrite Eapp'; simpl; by rewrite Es2|].
    split; [rewrite Eapp'; simpl; by rewrite Es2|].
    split; [done|].
    split; [intros c; rewrite El', Es'; simpl; rewrite El0, Es0; by intros ->|].
    split; [|by rewrite Ep'].
    intros H. unfold theme_ok. rewrite Ed', Es'. by apply Eth0.
Qed.

End StartUp.

(** ** Editing a tool and saving it as shown *)

Section EditTool.

Context {browser : Browser} {controls : Controls}.

(** The edit button of a tool of the list: the dialog opens on the first
    tool with that id and shows its properties. *)
Lemma editTool_run k p i t :
  find_by_id (app p) (tools (app p)) (Some k) = Some (i, t) ->
  is_Some (tags (get_obj (app p) t)) ->
  handle (EditToolClicked k) 0 p =
  (Ok tt, set_tool_modal (dialog_of (get_obj (app p) t)) (set_editingTool (Some t) p)).
Proof.
  intros Hfind [l Hl]. simpl. unfold editTool. rewrite bindP_run, getP_run.
  cbv beta iota. rewrite Hfind. unfold showToolModal.
  rewrite bindP_run. unfold retP at 1. cbv beta iota.
  rewrite bindP_run, modifyP_run. cbv beta iota.
  rewrite bindP_run, getP_run. cbv beta iota.
  cbn [app set_editingTool].
  rewrite bindP_run, modifyP_run. cbv beta iota.
  rewrite bindP_run, modifyP_run. cbv beta iota.
  rewrite bindP_run, modifyP_run. cbv beta iota.
  rewrite Hl, modifyP_run. f_equal. unfold dialog_of. rewrite Hl.
  destruct p; reflexivity.
Qed.

Lemma trim_nonempty x : trim x = x -> x <> "" -> all_space x = false.
Proof.
  intros Ht Hx. destruct (all_space x) eqn:E; [|done].
  apply trim_empty in E. congruence.
Qed.

(** X23.  Opening the dialog on a tool of the list and saving it as it is
    shown, when the store request succeeds: if the name, the address and the
    description of the tool are plain texts, without line break and without
    white space at either end, the name and the address not empty, and every
    tag is clean and without line break, then the tool keeps every property
    but [updatedAt], which is the time of the save; the store holds it so
    under its id; the list is as it was; and the dialog is closed. *)
Theorem edit_and_save_keeps_tool k p i t :
  pending p = [] ->
  find_by_id (app p) (tools (app p)) (Some k) = Some (i, t) ->
  let s := app p in
  let o := get_obj s t in
  plain_text (name o) -> plain_text (url o) -> plain_text (description o) ->
  name o <> Some "" -> url o <> Some "" ->
  (exists l, tags o = Some l /\ Forall clean_tag l /\ Forall no_breaks l) ->
  request_fails (requests s) = false ->
  let p' := after [EditToolClicked k; SaveToolClicked] p in
  objs (app p') = <[t := set_updatedAt (clock (ticks s)) o]> (objs s) /\
  db_tools (app p') = <[k := set_updatedAt (clock (ticks s)) o]> (db_tools s) /\
  db_notes (app p') = db_notes s /\
  tools (app p') = tools s /\
  get_arr (app p') (tools s) = get_arr s (tools s) /\
  editingTool p' = None.
Proof.
  intros Hp Hfind s o (n & Hn & Pn) (u & Hu & Pu) (d & Hd & Pd) Hne Hue
    (l & Hl & Hclean & Hnb) Hok p'.
  pose proof (proj2 Pn) as Tn. pose proof (proj2 Pu) as Tu.
  pose proof (proj2 Pd) as Td.
  assert (Ed : dialog_of o = ToolForm n u d (show_tags l)).
  { unfold dialog_of. rewrite Hn, Hu, Hd, Hl.
    cbn [shown default from_option Datatypes.id].
    rewrite !held_plain; [done|by apply show_tags_plain|done..]. }
  destruct (find_by_id_Some _ _ _ _ _ Hfind) as [Hi Hid].
  assert (E1 : dispatch (EditToolClicked k) p =
               set_tool_modal (dialog_of o) (set_editingTool (Some t) p)).
  { rewrite dispatch_single by done.
    rewrite (editTool_run k p i t Hfind); [|by exists l].
    by apply settle_idle. }
  set (p1 := set_tool_modal (dialog_of o) (set_editingTool (Some t) p)) in *.
  assert (Ep' : p' = dispatch SaveToolClicked p1).
  { unfold p', after. simpl. by rewrite E1. }
  assert (Hfilled : filled (tool_modal p1) (get_obj (app p1) t) = o).
  { change (get_obj (app p1) t) with o. change (tool_modal p1) with (dialog_of o).
    rewrite Ed. unfold filled. cbn [tool_name tool_url tool_description tool_tags].
    rewrite Tn, Tu, Td, (show_tags_read_back l Hclean).
    destruct o; simpl in *; by subst. }
  destruct (tool_dialog_run p1 t k) as (Eo & Edb & Edn & Et & Ea & _ & Ee & _);
    try done.
  - change (tool_name (tool_modal p1)) with (tool_name (dialog_of o)). rewrite Ed.
    apply trim_nonempty; [done|]. intros E. apply Hne. rewrite Hn. f_equal. exact E.
  - change (tool_url (tool_modal p1)) with (tool_url (dialog_of o)). rewrite Ed.
    apply trim_nonempty; [done|]. intros E. apply Hue. rewrite Hu. f_equal. exact E.
  - rewrite Hfilled in Eo, Edb. rewrite Ep'.
    split; [exact Eo|]. split; [exact Edb|]. split; [exact Edn|].
    split; [exact Et|]. split; [|exact Ee].
    change (app p1) with (app p) in Ea. rewrite Hfind in Ea.
    rewrite (list_insert_id _ _ _ Hi) in Ea. exact Ea.
Qed.

End EditTool.

(** * The theorems at the sample pages *)

Lemma demo_notes_text : Forall note_text (records NotesStore demo_state).
Proof. repeat constructor; by eexists. Qed.

Lemma demo_tools_text : Forall tool_text (records ToolsStore demo_state).
Proof. repeat constructor; by eexists. Qed.

Lemma demo_keyed : keyed_stores demo_state.
Proof.
  split; intros k o H; simpl in H;
    repeat (apply lookup_insert_Some in H as [[<- <-]|[_ H]]; [reflexivity|]);
    try (apply lookup_singleton_Some in H as [<- <-]; reflexivity).
Qed.

Lemma parse_show_tags_witness :
  Forall no_breaks ["home"; "to do"] /\ Forall clean_tag ["home"; "to do"] /\
  parse_tags (@held page_controls NoteTags (show_tags ["home"; "to do"]))
    = ["home"; "to do"].
Proof.
  assert (Hb : Forall no_breaks ["home"; "to do"]) by (by repeat constructor).
  assert (Hc : Forall clean_tag ["home"; "to do"]).
  { repeat constructor; try discriminate; by intros c [= <-]. }
  split; [exact Hb|]. split; [exact Hc|].
  exact (proj2 (@parse_show_tags page_controls NoteTags _ Hb) Hc).
Defined.

Lemma save_puts_record_in_place_witness :
  exists res s',
    @save working NotesStore 0%nat demo_state = (res, s') /\
    db_notes s' !! "a" = Some (set_updatedAt 5000 note_a) /\
    get_arr s' (notes s') = [0%nat; 1%nat] /\
    res = Ok tt.
Proof.
  destruct (@save_puts_record_in_place working NotesStore 0%nat demo_state "a"
              eq_refl eq_refl)
    as (res & s' & E & _ & Edb & _ & Em & Ea & _ & Hres).
  exists res, s'. split; [exact E|]. split; [|split].
  - simpl in Edb. rewrite Edb. reflexivity.
  - simpl in Em, Ea. rewrite Em. exact Ea.
  - apply Hres; [exact demo_notes_text | repeat split; by eexists].
Defined.

Lemma delete_removes_record_witness :
  exists res s',
    @deleteNote working true "a" demo_state = (res, s') /\
    db_notes s' = delete "a" (db_notes demo_state) /\
    get_arr s' (notes s') = [1%nat] /\
    currentNote s' = None.
Proof.
  destruct (@deleteNote working true "a" demo_state) as [res s'] eqn:E.
  exists res, s'. split; [reflexivity|].
  destruct (@delete_removes_record working NotesStore true "a" demo_state res s' E)
    as (_ & _ & _ & _ & Edb & _ & Ea & Ec).
  split; [exact Edb|]. split; [exact Ea | exact Ec].
Defined.

Lemma toggle_flips_favorite_witness :
  exists res s',
    @toggleFavorite working "t1" demo_state = (res, s') /\
    favorite (get_obj s' 2%nat) = Some true /\
    (exists o, db_tools s' !! "t1" = Some o /\ favorite o = Some true) /\
    res = Ok tt.
Proof.
  destruct (@toggle_flips_favorite working "t1" demo_state 0%nat 2%nat
              eq_refl eq_refl)
    as (res & s' & E & Eo & Edb & _ & _ & _ & _ & _ & Hres).
  exists res, s'. split; [exact E|]. split; [|split].
  - unfold get_obj. rewrite Eo. reflexivity.
  - eexists. rewrite Edb. split; reflexivity.
  - apply Hres. exact demo_tools_text.
Defined.

Lemma toggle_twice_restores_witness :
  exists r1 s1 r2 s2,
    @toggleFavorite working "t1" demo_state = (r1, s1) /\
    @toggleFavorite working "t1" s1 = (r2, s2) /\
    favorite (get_obj s1 2%nat) = Some true /\
    favorite (get_obj s2 2%nat) = Some false.
Proof.
  destruct (@toggle_twice_restores working "t1" demo_state 0%nat 2%nat false
              eq_refl eq_refl eq_refl eq_refl)
    as (r1 & s1 & r2 & s2 & E1 & E2 & H1 & H2 & _).
  exists r1, s1, r2, s2. by repeat split.
Defined.

Lemma store_put_getAll_delete_witness :
  exists a1 s2 a2 s4,
    (@putInStore working NotesStore 0%nat ;; @getAllFromStore working NotesStore)
      demo_state = (Ok a1, s2) /\
    (@deleteFromStore working NotesStore "a" ;; @getAllFromStore working NotesStore)
      s2 = (Ok a2, s4) /\
    db_notes s4 = delete "a" (db_notes demo_state).
Proof.
  destruct (@store_put_getAll_delete working NotesStore 0%nat demo_state "a"
              (proj1 demo_keyed) eq_refl (fun _ _ => eq_refl))
    as (a1 & s2 & a2 & s4 & E1 & _ & E2 & _ & Edb).
  exists a1, s2, a2, s4. split; [exact E1|]. split; [exact E2 | exact Edb].
Defined.

Lemma typed_notes_text : Forall note_text (records NotesStore (app typed_page)).
Proof. repeat constructor; by eexists. Qed.

Lemma autosave_commits_form_witness :
  let p' := @dispatch working page_controls SaveKeyPressed (returning typed_page) in
  listeners SaveKeyPressed (returning typed_page) = 2%nat /\
  isDirty (app (returning typed_page)) = true /\
  (exists o, db_notes (app p') !! "a" = Some o /\
     title o = Some "Alpha 2" /\ tags o = Some ["work"; "urgent"] /\
     updatedAt o = Some 6000) /\
  requests (app p') = 6%nat /\
  isDirty (app p') = false.
Proof.
  pose proof (@autosave_commits_form working page_controls SaveKeyPressed
                (returning typed_page) 0%nat "a"
                (or_introl eq_refl) eq_refl eq_refl eq_refl (fun _ _ => eq_refl))
    as H.
  cbv zeta in H.
  change (isDirty (app (returning typed_page))) with true in H. cbv iota in H.
  destruct H as (_ & Edb & _ & _ & _ & _ & Er & _ & _ & Hd).
  split; [reflexivity|]. split; [reflexivity|]. split; [|split].
  - eexists. rewrite Edb. split; [apply lookup_insert_eq|]. by repeat split.
  - rewrite Er. reflexivity.
  - apply Hd. exact typed_notes_text.
Defined.

Lemma failed_autosave_is_retried_witness :
  let p' := @dispatch fifth_request_fails page_controls SaveKeyPressed typed_page in
  db_notes (app p') = db_notes demo_state /\
  isDirty (app p') = true /\
  exists o, db_notes (app (@dispatch fifth_request_fails page_controls
                             SaveKeyPressed p')) !! "a" = Some o /\
            title o = Some "Alpha 2" /\ updatedAt o = Some 6000.
Proof.
  assert (Hfail : forall j, (j < listeners SaveKeyPressed typed_page)%nat ->
            @request_fails fifth_request_fails (requests (app typed_page) + j) = true).
  { intros j Hj. change (listeners SaveKeyPressed typed_page) with 1%nat in Hj.
    destruct j; [reflexivity | lia]. }
  destruct (@failed_autosave_is_retried fifth_request_fails page_controls
              SaveKeyPressed typed_page 0%nat "a"
              (or_introl eq_refl) eq_refl eq_refl eq_refl eq_refl Hfail)
    as [(_ & _ & Edb & _ & _ & Hd & _) Hnext].
  split; [exact Edb|]. split; [exact Hd|].
  destruct (Hnext SaveKeyPressed (or_introl eq_refl)) as [Edb' _].
  { intros j Hj. change (listeners SaveKeyPressed typed_page) with 1%nat in Hj.
    destruct j; [reflexivity | lia]. }
  eexists. rewrite Edb'. split; [apply lookup_insert_eq | by split].
Defined.

Lemma stores_stay_keyed_witness :
  keyed_stores (app demo_page) /\
  keyed_stores (app (@after working page_controls some_events demo_page)).
Proof.
  split; [exact demo_keyed|].
  exact (@stores_stay_keyed working page_controls some_events demo_page eq_refl demo_keyed).
Defined.

Lemma unavailable_store_is_never_written_witness :
  db_notes (app (@after broken page_controls some_events demo_page)) = db_notes demo_state /\
  db_tools (app (@after broken page_controls some_events demo_page)) = db_tools demo_state.
Proof.
  exact (@unavailable_store_is_never_written broken page_controls some_events demo_page
           (fun _ => eq_refl) eq_refl).
Defined.

Lemma showing_changes_no_data_witness :
  let s' := app (@dispatch working page_controls (TagClicked "work") demo_page) in
  passive (TagClicked "work") = true /\
  activeTagFilter s' = Some "work" /\
  objs s' = objs demo_state /\ db_notes s' = db_notes demo_state /\
  records NotesStore s' = records NotesStore demo_state.
Proof.
  destruct (@showing_changes_no_data working page_controls (TagClicked "work") demo_page
              eq_refl eq_refl)
    as (Eo & Edn & _ & _ & _ & _ & _ & Hrec).
  split; [reflexivity|]. split; [reflexivity|].
  split; [exact Eo|]. split; [exact Edn|].
  apply (Hrec NotesStore). by eexists.
Defined.

Lemma demo_settings_ok : settings_ok demo_page.
Proof.
  split; [|split].
  - unfold timer_ok. simpl. exists 1%nat. by repeat split.
  - reflexivity.
  - intros c H. discriminate H.
Qed.

Lemma settings_stay_consistent_witness :
  let l := [ThemeToggleClicked; AutosaveIntervalChanged "off"; SaveKeyPressed;
            AutosaveIntervalChanged "5000"] in
  settings_ok demo_page /\ settings_ok (@after working page_controls l demo_page) /\
  settings (@after working page_controls l demo_page) = Config "dark" (Chosen "5000").
Proof.
  split; [exact demo_settings_ok|]. split; [|reflexivity].
  exact (@settings_stay_consistent working page_controls _ demo_page demo_settings_ok).
Defined.

Lemma theme_button_switches_per_listener_witness :
  let p' := @dispatch working page_controls ThemeToggleClicked
              (returning demo_page) in
  listeners ThemeToggleClicked (returning demo_page) = 2%nat /\
  settings p' = settings demo_page /\
  dark_theme p' = false /\
  localStorage p' = Some (Config "light" (Millis 3000)) /\
  theme (settings (@dispatch working page_controls ThemeToggleClicked demo_page))
    = "dark".
Proof.
  destruct (@theme_button_switches_per_listener working page_controls
              (returning demo_page) eq_refl)
    as ((_ & Ed & El & _) & _ & H2).
  destruct (@theme_button_switches_per_listener working page_controls
              demo_page eq_refl)
    as (_ & H1 & _).
  split; [reflexivity|]. split; [exact (H2 eq_refl (or_introl eq_refl))|].
  split; [exact Ed|]. split; [|exact (H1 eq_refl)].
  rewrite El, (H2 eq_refl (or_introl eq_refl)). reflexivity.
Defined.

Lemma chip_tracks_filter_witness :
  let l := [TagClicked "work"; NewNoteClicked; TagClicked ""] in
  chip_ok demo_page /\ chip_ok (@after working page_controls l demo_page) /\
  activeTagFilter (app (@after working page_controls l demo_page)) = Some "" /\
  chip_hidden (@after working page_controls l demo_page) = true.
Proof.
  split; [reflexivity|]. split; [|split; reflexivity].
  exact (@chip_tracks_filter working page_controls _ demo_page eq_refl eq_refl).
Defined.

Lemma flag_click_drops_pending_edits_witness :
  let p' := @dispatch working page_controls PinClicked (returning typed_page) in
  listeners PinClicked (returning typed_page) = 2%nat /\
  isDirty (app (returning typed_page)) = true /\
  pinned note_a = Some false /\
  (exists o, db_notes (app p') !! "a" = Some o /\
     pinned o = Some false /\ title o = Some "Alpha" /\ updatedAt o = Some 6000) /\
  requests (app p') = 6%nat /\
  note_title (note_form p') = "Alpha 2" /\
  @dispatch working page_controls SaveKeyPressed p' = p'.
Proof.
  destruct (@flag_click_drops_pending_edits working page_controls PinClicked
              (returning typed_page) 0%nat "a"
              (or_introl eq_refl) eq_refl eq_refl eq_refl (fun _ _ => eq_refl)
              typed_notes_text)
    as [(_ & Edb & Er & _ & _ & _ & Ef) (_ & _ & Hnext)].
  { repeat split; by eexists. }
  split; [reflexivity|]. split; [reflexivity|]. split; [reflexivity|].
  split; [|split; [|split]].
  - eexists. rewrite Edb. split; [apply lookup_insert_eq|]. by repeat split.
  - rewrite Er. reflexivity.
  - by rewrite Ef.
  - apply Hnext. by left.
Defined.

Lemma select_shows_note_witness :
  let p' := @dispatch working page_controls (NoteItemClicked "b") demo_page in
  currentNote (app p') = Some 1%nat /\
  note_form p' = Editor "Beta" "home, work" "second note" /\
  db_notes (app p') = db_notes demo_state /\
  @dispatch working page_controls (NoteItemClicked "nope") demo_page = demo_page.
Proof.
  pose proof (@select_shows_note working page_controls "b" demo_page eq_refl (or_intror eq_refl))
    as H.
  cbv zeta in H.
  change (find_by_id (app demo_page) (notes (app demo_page)) (Some "b"))
    with (Some (1%nat, 1%nat)) in H. cbv iota beta in H.
  destruct H as ([Es _] & _ & Ep); [by eexists|].
  pose proof (@select_shows_note working page_controls "nope" demo_page eq_refl (or_intror eq_refl))
    as H'.
  cbv zeta in H'.
  change (find_by_id (app demo_page) (notes (app demo_page)) (Some "nope"))
    with (@None (nat * nat)) in H'. cbv iota beta in H'.
  split; [by rewrite Es|]. split; [apply Ep; by repeat split|].
  split; [by rewrite Es|]. exact H'.
Defined.

Lemma select_commits_pending_edits_witness :
  let p' := @dispatch working page_controls (NoteItemClicked "b") typed_page in
  (exists o, db_notes (app p') !! "a" = Some o /\ title o = Some "Alpha 2") /\
  title (get_obj (app p') 0%nat) = Some "Alpha 2" /\
  currentNote (app p') = Some 1%nat /\
  note_form p' = Editor "Beta" "home, work" "second note".
Proof.
  destruct (@select_commits_pending_edits working page_controls "b" typed_page 0%nat "a"
              1%nat 1%nat eq_refl eq_refl eq_refl eq_refl eq_refl eq_refl)
    as (Eo & Edb & _ & _ & _ & _ & Ec & _ & _ & _ & Ef).
  { by eexists. }
  { exact typed_notes_text. }
  split; [|split; [|split]].
  - eexists. rewrite Edb. split; [apply lookup_insert_eq | reflexivity].
  - unfold get_obj. rewrite Eo. reflexivity.
  - exact Ec.
  - assert (Eg : get_obj (app (@dispatch working page_controls
                                  (NoteItemClicked "b") typed_page)) 1%nat = note_b)
      by (unfold get_obj; rewrite Eo; reflexivity).
    rewrite Ef; rewrite Eg; [reflexivity | by repeat split].
Defined.

Lemma new_note_is_appended_and_selected_witness :
  let p' := @dispatch working page_controls NewNoteClicked demo_page in
  get_arr (app p') (notes demo_state) = [0%nat; 1%nat; 4%nat] /\
  (exists o, db_notes (app p') !! "uuid-4" = Some o /\
     title o = Some "Untitled Note" /\ createdAt o = Some 5000 /\
     updatedAt o = Some 7000) /\
  currentNote (app p') = Some 4%nat /\
  note_form p' = Editor "Untitled Note" "" "".
Proof.
  destruct (@new_note_is_appended_and_selected working page_controls demo_page
              eq_refl eq_refl (or_intror eq_refl) eq_refl)
    as (_ & Edb & _ & _ & Ea & Ec & _ & Ef & _).
  { by eexists. }
  { intros x H. change (x ∈ [0%nat; 1%nat]) in H.
    repeat (apply elem_of_cons in H as [->|H]);
      [split; [by eexists | discriminate]..|].
    by apply elem_of_nil in H. }
  split; [|split; [|split]].
  - etransitivity; [exact Ea | reflexivity].
  - eexists. rewrite Edb. split; [apply lookup_insert_eq|]. by repeat split.
  - rewrite Ec. reflexivity.
  - exact Ef.
Defined.

Lemma new_note_per_listener_witness :
  let p' := @dispatch working page_controls NewNoteClicked (returning demo_page) in
  listeners NewNoteClicked (returning demo_page) = 2%nat /\
  exists rs, length rs = 2%nat /\
    get_arr (app p') (notes demo_state) = [0%nat; 1%nat] ++ rs /\
    (forall r, rs !! 1%nat = Some r ->
       db_notes (app p') !! "uuid-5" = Some (get_obj (app p') r) /\
       title (get_obj (app p') r) = Some "Untitled Note") /\
    currentNote (app p') = last rs /\
    requests (app p') = 6%nat.
Proof.
  split; [reflexivity|].
  destruct (@new_note_per_listener working page_controls (returning demo_page)
              eq_refl (or_intror eq_refl))
    as (rs & Hlen & Hc & _ & Ec & _).
  { by eexists. }
  { intros j _. reflexivity. }
  { intros x H. change (x ∈ [0%nat; 1%nat]) in H.
    repeat (apply elem_of_cons in H as [->|H]);
      [split; [by eexists | intros j _; discriminate]..|].
    by apply elem_of_nil in H. }
  { intros i j Hij. assert (i = 0%nat /\ j = 1%nat) as [-> ->].
    { change (listeners NewNoteClicked (returning demo_page)) with 2%nat in Hij. lia. }
    discriminate. }
  destruct Hc as (_ & Hnew & _ & _ & _ & Harr & _ & Er & _).
  exists rs. split; [exact Hlen|]. split; [exact Harr|].
  split; [|split; [exact Ec|]].
  - intros r Hr. destruct (Hnew 1%nat r Hr) as (_ & Ho & Hdb).
    unfold get_obj. rewrite Ho. split; [exact Hdb | reflexivity].
  - rewrite Er, Hlen. reflexivity.
Defined.

Lemma blank_tool_is_refused_witness :
  @dispatch working page_controls SaveToolClicked blank_dialog_page = blank_dialog_page /\
  editingTool blank_dialog_page = Some 2%nat.
Proof.
  split; [|reflexivity].
  exact (proj2 (@blank_tool_is_refused working page_controls blank_dialog_page eq_refl
                  (or_introl eq_refl))).
Defined.

Lemma tool_dialog_saves_form_witness :
  let p' := @dispatch working page_controls SaveToolClicked dialog_page in
  (exists o, db_tools (app p') !! "t1" = Some o /\
     name o = Some "Alpha" /\ url o = Some "http://a.org" /\
     tags o = Some ["web"; "dev"]) /\
  get_arr (app p') (tools demo_state) = [2%nat; 3%nat] /\
  editingTool p' = None.
Proof.
  destruct (@tool_dialog_saves_form working page_controls dialog_page 2%nat "t1"
              eq_refl eq_refl eq_refl eq_refl eq_refl eq_refl)
    as (_ & Edb & _ & _ & Ea & _ & Ee & _).
  split; [|split].
  - eexists. rewrite Edb. split; [apply lookup_insert_eq|]. by repeat split.
  - etransitivity; [exact Ea | reflexivity].
  - exact Ee.
Defined.

Lemma start_up_loads_settings_and_lists_witness :
  exists p', @start_up working loading_page = (Ok tt, p') /\
    settings p' = Config "dark" (Chosen "off") /\
    records NotesStore (app p') = [note_a; note_b] /\
    records ToolsStore (app p') = [tool_alpha; tool_beta] /\
    autosaveTimer p' = None /\ dark_theme p' = true.
Proof.
  pose proof (@start_up_loads_settings_and_lists working loading_page
                eq_refl eq_refl) as H.
  cbv zeta in H.
  change (@request_fails working (requests (app loading_page))) with false in H.
  cbv iota in H.
  destruct H as (p' & E & Es & En & Et & _ & _ & Htm & _ & Hth & _).
  { reflexivity. }
  { repeat constructor; by eexists. }
  { repeat constructor; by eexists. }
  exists p'. split; [exact E|]. split; [exact Es|].
  split; [rewrite En; reflexivity|]. split; [rewrite Et; reflexivity|].
  unfold timer_ok in Htm. rewrite Es in Htm. simpl in Htm.
  split; [apply Htm|].
  rewrite Hth by (right; discriminate). rewrite Es. reflexivity.
Defined.

Lemma edit_and_save_keeps_tool_witness :
  let p' := @after working page_controls [EditToolClicked "t2"; SaveToolClicked] demo_page in
  get_obj (app p') 3%nat = set_updatedAt 5000 tool_beta /\
  db_tools (app p') !! "t2" = Some (set_updatedAt 5000 tool_beta) /\
  get_arr (app p') (tools (app p')) = [2%nat; 3%nat] /\
  editingTool p' = None.
Proof.
  destruct (@edit_and_save_keeps_tool working page_controls "t2" demo_page 1%nat 3%nat
              eq_refl eq_refl)
    as (Eo & Edb & _ & Et & Ea & Ee).
  { by exists "Beta". }
  { by exists "http://b.com". }
  { by exists "". }
  { discriminate. }
  { discriminate. }
  { exists ["web"]. split; [reflexivity|]. repeat constructor.
    - discriminate.
    - intros c [= <-]. reflexivity.
    - intros c [= <-]. reflexivity. }
  { reflexivity. }
  split; [|split; [|split]].
  - unfold get_obj. rewrite Eo. reflexivity.
  - rewrite Edb. reflexivity.
  - rewrite Et. etransitivity; [exact Ea | reflexivity].
  - exact Ee.
Defined.
